(** * Sakura no Hana: the kantan entity/component core and the per-frame systems

    A shallow embedding of [source/main.cpp] and [source/kantan/Entity/Entity.hpp].

    - C++ objects reached through pointers ([kantan::Entity*],
      [kantan::Component*]) live in two stores indexed by addresses; a null
      pointer is [None], dereferencing it is a [Fault].
    - [float] is an instance of the class [Scalar]: either IEEE binary32
      (round to nearest even, from [SpecFloat]) or exact rational arithmetic.
      Statements that speak of exact arithmetic are proved on the second
      instance, concrete float behaviour is evaluated on the first.
    - [sf::Time] is a count of microseconds, [int] is [Z]; where the code
      can reach the bound of an [int] or of an [unsigned int] the
      wrap-around is written out. *)

From Stdlib Require Import ZArith QArith Qcanon Qround SpecFloat Lia Lqa.
From stdpp Require Import base numbers gmap strings list option.

Local Open Scope Z_scope.

(** ** Faults and the error monad *)

Inductive fault :=
  | NullDereference      (* [p->field] with [p == nullptr] *)
  | DanglingPointer      (* an address that holds no object of the expected class *)
  | DivisionByZero.      (* [a / b] with [b == 0] where the arithmetic leaves it undefined *)

Inductive result (A : Type) :=
  | Ok (a : A)
  | Fault (f : fault).
Arguments Ok {A} a.
Arguments Fault {A} f.

#[global] Instance result_ret : MRet result := @Ok.
#[global] Instance result_bind : MBind result :=
  λ A B f m, match m with Ok a => f a | Fault e => Fault e end.

Definition is_Ok {A} (r : result A) : Prop := ∃ a, r = Ok a.

(** A [for] loop over a container, threading the state. *)
Fixpoint for_each {A B} (body : A → B → result A) (st : A) (l : list B) : result A :=
  match l with
  | [] => Ok st
  | b :: l' => st' ← body st b; for_each body st' l'
  end.

(** ** Arithmetic of [float] *)

Class Scalar (T : Type) := {
  sadd : T → T → T;
  ssub : T → T → T;
  smul : T → T → T;
  sdiv : T → T → T;
  sneg : T → T;
  sltb : T → T → bool;          (* [a < b] *)
  sleb : T → T → bool;          (* [a <= b] *)
  sdivisor : T → bool;          (* is [_ / b] defined *)
  sofZ : Z → T;                 (* integer to float conversion *)
  strunc : T → option Z;        (* float to integer: truncation toward zero *)
}.

(** [a >= b] and [a > b] *)
Definition sgeb `{Scalar T} (a b : T) : bool := sleb b a.
Definition sgtb `{Scalar T} (a b : T) : bool := sltb b a.

Definition checked_div `{Scalar T} (a b : T) : result T :=
  if sdivisor b then Ok (sdiv a b) else Fault DivisionByZero.

(** IEEE 754 binary32: 24 bits of precision, maximal exponent 128. Division
    by zero gives an infinity or a NaN and is never a fault. *)
Module binary32.
Definition t := spec_float.
Definition prec : Z := 24.
Definition emax : Z := 128.
Definition ofZ (z : Z) : t := binary_normalize prec emax z 0 false.
Definition trunc (f : t) : option Z :=
  match f with
  | S754_zero _ => Some 0
  | S754_finite s m e =>
      Some (cond_Zopp s (if 0 <=? e then Zpos m * 2 ^ e else Zpos m / 2 ^ (- e)))
  | S754_infinity _ | S754_nan => None
  end.
End binary32.

#[global] Instance binary32_scalar : Scalar binary32.t := {|
  sadd := SFadd binary32.prec binary32.emax;
  ssub := SFsub binary32.prec binary32.emax;
  smul := SFmul binary32.prec binary32.emax;
  sdiv := SFdiv binary32.prec binary32.emax;
  sneg := SFopp;
  sltb := SFltb;
  sleb := SFleb;
  sdivisor := λ _, true;
  sofZ := binary32.ofZ;
  strunc := binary32.trunc;
|}.

(** Exact arithmetic on the rationals; division by zero is undefined. *)
#[global] Instance exact_scalar : Scalar Qc := {|
  sadd := Qcplus;
  ssub := Qcminus;
  smul := Qcmult;
  sdiv := Qcdiv;
  sneg := Qcopp;
  sltb := λ a b, bool_decide (a < b)%Qc;
  sleb := λ a b, bool_decide (a ≤ b)%Qc;
  sdivisor := λ b, bool_decide (b ≠ 0%Qc);
  sofZ := λ z, Q2Qc (inject_Z z);
  strunc := λ q, Some (if bool_decide (0 ≤ q)%Qc then Qfloor q else Qceiling q);
|}.

(** [static_cast<sf::Uint8>(f)] truncates [f] toward zero. When the
    truncated value does not fit in 0..255 the language leaves the result
    open and the platform decides: [uint8_out_of_range] is that decision
    ([None] stands for an infinity or a NaN). *)
Class Platform := { uint8_out_of_range : option Z → Z }.

(** x86-64: [cvttss2si] to a 32-bit integer, of which the low byte is kept. *)
Definition x86_64 : Platform := {|
  uint8_out_of_range := λ v,
    match v with
    | Some z => if (- 2 ^ 31 <? z) && (z <? 2 ^ 31) then z mod 256 else 0
    | None => 0
    end
|}.

(** AArch64: [fcvtzu] saturates. *)
Definition aarch64 : Platform := {|
  uint8_out_of_range := λ v,
    match v with
    | Some z => if z <? 0 then 0 else 255
    | None => 0
    end
|}.

Definition to_Uint8 `{Scalar T} `{Platform} (f : T) : Z :=
  match strunc f with
  | Some z => if (0 <=? z) && (z <=? 255) then z else uint8_out_of_range (Some z)
  | None => uint8_out_of_range None
  end.

(** ** The value types of SFML used by the game *)

Module sf.

(** [sf::Time]: microseconds *)
Definition Time := Z.
Definition Time_Zero : Time := 0.
Definition milliseconds (amount : Z) : Time := amount * 1000.
(** [Time::asSeconds]: [m_microseconds / 1000000.f] *)
Definition asSeconds `{Scalar T} (t : Time) : T := sdiv (sofZ t) (sofZ 1000000).

Record Vector2 (A : Type) := mkVector2 { x : A; y : A }.
Arguments mkVector2 {A}.
Arguments x {A}.
Arguments y {A}.

Record Rect (A : Type) := mkRect { left : A; top : A; width : A; height : A }.
Arguments mkRect {A}.
Arguments left {A}.
Arguments top {A}.
Arguments width {A}.
Arguments height {A}.

Record Color := mkColor { r : Z; g : Z; b : Z; a : Z }.
Definition Red : Color := mkColor 255 0 0 255.
Definition Green : Color := mkColor 0 255 0 255.
Definition Blue : Color := mkColor 0 0 255 255.
Definition Yellow : Color := mkColor 255 255 0 255.
Definition White : Color := mkColor 255 255 255 255.
Definition Black : Color := mkColor 0 0 0 255.

#[global] Instance Color_eq_dec : EqDecision Color.
Proof. solve_decision. Defined.

Definition with_alpha (c : Color) (alpha : Z) : Color :=
  mkColor (r c) (g c) (b c) alpha.

Record Vertex (A : Type) := mkVertex {
  position : Vector2 A;
  color : Color;
  texCoords : Vector2 A;
}.
Arguments mkVertex {A}.
Arguments position {A}.
Arguments color {A}.
Arguments texCoords {A}.

Section Rect_ops.
Context `{Scalar T}.

(** [std::min] and [std::max] *)
Definition min (u v : T) : T := if sltb v u then v else u.
Definition max (u v : T) : T := if sltb u v then v else u.

(** [Rect<T>::intersects]: rectangles of negative size are allowed, the
    intersection must have a positive area. *)
Definition intersects (r1 r2 : Rect T) : bool :=
  let r1MinX := min (left r1) (sadd (left r1) (width r1)) in
  let r1MaxX := max (left r1) (sadd (left r1) (width r1)) in
  let r1MinY := min (top r1) (sadd (top r1) (height r1)) in
  let r1MaxY := max (top r1) (sadd (top r1) (height r1)) in
  let r2MinX := min (left r2) (sadd (left r2) (width r2)) in
  let r2MaxX := max (left r2) (sadd (left r2) (width r2)) in
  let r2MinY := min (top r2) (sadd (top r2) (height r2)) in
  let r2MaxY := max (top r2) (sadd (top r2) (height r2)) in
  let interLeft := max r1MinX r2MinX in
  let interTop := max r1MinY r2MinY in
  let interRight := min r1MaxX r2MaxX in
  let interBottom := min r1MaxY r2MaxY in
  sltb interLeft interRight && sltb interTop interBottom.

(** The part of [sf::Sprite] the systems read and write: the texture
    rectangle and the position. Origin, rotation and scale keep their
    defaults in every sprite component. *)
Record Sprite := mkSprite {
  textureRect : Rect Z;
  spritePosition : Vector2 T;
}.

Definition getTextureRect (s : Sprite) : Rect Z := textureRect s.
Definition setTextureRect (rectangle : Rect Z) (s : Sprite) : Sprite :=
  mkSprite rectangle (spritePosition s).
Definition setPosition (px py : T) (s : Sprite) : Sprite :=
  mkSprite (textureRect s) (mkVector2 px py).

(** [Sprite::getGlobalBounds]: the local bounds
    [(0, 0, |width|, |height|)] moved by the position; the bounding box
    of the moved corners. *)
Definition getGlobalBounds (s : Sprite) : Rect T :=
  let w := sofZ (Z.abs (width (textureRect s))) in
  let h := sofZ (Z.abs (height (textureRect s))) in
  let x0 := x (spritePosition s) in
  let x1 := sadd w (x (spritePosition s)) in
  let y0 := y (spritePosition s) in
  let y1 := sadd h (y (spritePosition s)) in
  let l := min x0 x1 in
  let t := min y0 y1 in
  let r := max x0 x1 in
  let b := max y0 y1 in
  mkRect l t (ssub r l) (ssub b t).
End Rect_ops.
Arguments Sprite T : clear implicits.

End sf.

(** ** Entities and components *)

(** Addresses of heap-allocated entities and components. *)
Definition EntityPtr := nat.
Definition ComponentPtr := nat.

(** [kantan::Entity] *)
Record Entity := mkEntity {
  m_id : nat;
  m_name : string;
  m_components_of : gmap string ComponentPtr;
}.

(** The classes a [getComponent<T>] can ask for. *)
Inductive Capability :=
  | AnyComponent
  | DeletionMarkerCap
  | HitboxCap
  | SpriteCap
  | MovementCap
  | AnimationCap
  | LifeCap
  | ParticleCap.

#[global] Instance Capability_eq_dec : EqDecision Capability.
Proof. solve_decision. Defined.

(** Game events ([EventType], [ColoredBallShotData], [EntityDeathData]). *)
Definition ColoredBallShot : Z := 1.
Definition EntityDeath : Z := 2.
Definition PlayerHit : Z := 3.

Section Components.
Context {T : Type}.

(** [ParticleComponent::Particle] *)
Record Particle := mkParticle {
  p_velocity : sf.Vector2 T;
  p_lifetime : sf.Time;
}.

(** The component objects, by dynamic class. [BaseComponent] is a plain
    [kantan::Component] carrying only a name. *)
Inductive Component :=
  | BaseComponent (name : string)
  | DeletionMarkerComponent (toDelete : bool)
  | HitboxComponent (hitbox : sf.Rect T) (isBlocking : bool)
  | SpriteComponent (sprite : sf.Sprite T)
  | MovementComponent (velocity : sf.Vector2 T)
  | AnimationComponent (frames : list (sf.Rect Z)) (currentFrame : Z)
                       (lastFrame : sf.Time) (fps : Z)
  | LifeComponent (lifepoints : Z) (alive : bool)
  | ParticleComponent (color : sf.Color) (center : sf.Vector2 T)
                      (m_particles : list Particle)
                      (m_vertices : list (sf.Vertex T)) (lifetime : sf.Time).

(** [Component::getName]: the name each constructor passes to the base. *)
Definition getName (c : Component) : string :=
  match c with
  | BaseComponent name => name
  | DeletionMarkerComponent _ => "DeletionMarker"
  | HitboxComponent _ _ => "Hitbox"
  | SpriteComponent _ => "Sprite"
  | MovementComponent _ => "Movement"
  | AnimationComponent _ _ _ _ => "Animation"
  | LifeComponent _ _ => "Life"
  | ParticleComponent _ _ _ _ _ => "Particle"
  end.

Definition dynamic_class (c : Component) : Capability :=
  match c with
  | BaseComponent _ => AnyComponent
  | DeletionMarkerComponent _ => DeletionMarkerCap
  | HitboxComponent _ _ => HitboxCap
  | SpriteComponent _ => SpriteCap
  | MovementComponent _ => MovementCap
  | AnimationComponent _ _ _ _ => AnimationCap
  | LifeComponent _ _ => LifeCap
  | ParticleComponent _ _ _ _ _ => ParticleCap
  end.

(** Does [dynamic_cast<cap*>] succeed on an object of this class: the
    class itself or its base [kantan::Component]. *)
Definition dynamic_cast_ok (cap : Capability) (c : Component) : bool :=
  bool_decide (cap = AnyComponent) || bool_decide (cap = dynamic_class c).

(** The heap: entity objects and component objects. *)
Record Store := mkStore {
  entity_mem : gmap EntityPtr Entity;
  component_mem : gmap ComponentPtr Component;
}.

Definition deref_entity (σ : Store) (e : EntityPtr) : result Entity :=
  match entity_mem σ !! e with
  | Some ent => Ok ent
  | None => Fault DanglingPointer
  end.

Definition deref (σ : Store) (p : option ComponentPtr) : result Component :=
  match p with
  | None => Fault NullDereference
  | Some a =>
      match component_mem σ !! a with
      | Some c => Ok c
      | None => Fault DanglingPointer
      end
  end.

Definition store_component (a : ComponentPtr) (c : Component) (σ : Store) : Store :=
  mkStore (entity_mem σ) (<[a := c]> (component_mem σ)).

Definition store_entity (e : EntityPtr) (ent : Entity) (σ : Store) : Store :=
  mkStore (<[e := ent]> (entity_mem σ)) (component_mem σ).

(** *** [kantan::Entity] member functions *)

(** Modelled from the spec: [Entity::getName] is defined in Entity.cpp,
    which is not among the sources. The spec has the category name given
    at creation, used as a type tag for gameplay dispatch. *)
Definition Entity_getName (σ : Store) (e : EntityPtr) : result string :=
  ent ← deref_entity σ e; Ok (m_name ent).

(** [Entity::getComponent<T>], Entity.hpp: find the name, then
    [dynamic_cast] the stored pointer. *)
Definition getComponent (σ : Store) (e : EntityPtr) (cap : Capability)
    (name : string) : result (option ComponentPtr) :=
  ent ← deref_entity σ e;
  match m_components_of ent !! name with
  | Some a =>
      match component_mem σ !! a with
      | Some c => Ok (if dynamic_cast_ok cap c then Some a else None)
      | None => Fault DanglingPointer
      end
  | None => Ok None
  end.

(** Modelled from the spec: [Entity::hasComponent], [Entity::addComponent],
    [Entity::removeComponent] and [Entity::getAllComponents] are defined in
    Entity.cpp, which is not among the sources. The spec has one slot per
    component name, [hasComponent] true right after [addComponent] and
    false right after [removeComponent], and [getAllComponents] exposing
    the whole mapping. *)
Definition hasComponent (σ : Store) (e : EntityPtr) (name : string) : result bool :=
  ent ← deref_entity σ e;
  Ok (bool_decide (is_Some (m_components_of ent !! name))).

Definition addComponent (e : EntityPtr) (comp : option ComponentPtr)
    (σ : Store) : result Store :=
  ent ← deref_entity σ e;
  c ← deref σ comp;
  match comp with
  | Some a =>
      Ok (store_entity e
            (mkEntity (m_id ent) (m_name ent) (<[getName c := a]> (m_components_of ent))) σ)
  | None => Fault NullDereference
  end.

Definition removeComponent (e : EntityPtr) (name : string) (σ : Store) : result Store :=
  ent ← deref_entity σ e;
  Ok (store_entity e
        (mkEntity (m_id ent) (m_name ent) (delete name (m_components_of ent))) σ).

Definition getAllComponents (σ : Store) (e : EntityPtr)
    : result (gmap string ComponentPtr) :=
  ent ← deref_entity σ e; Ok (m_components_of ent).

(** *** Typed access through a component pointer *)

Definition read_hitbox (σ : Store) (p : option ComponentPtr)
    : result (sf.Rect T * bool) :=
  c ← deref σ p;
  match c with
  | HitboxComponent box blocking => Ok (box, blocking)
  | _ => Fault DanglingPointer
  end.

Definition read_velocity (σ : Store) (p : option ComponentPtr)
    : result (sf.Vector2 T) :=
  c ← deref σ p;
  match c with
  | MovementComponent v => Ok v
  | _ => Fault DanglingPointer
  end.

Definition read_life (σ : Store) (p : option ComponentPtr) : result (Z * bool) :=
  c ← deref σ p;
  match c with
  | LifeComponent lp al => Ok (lp, al)
  | _ => Fault DanglingPointer
  end.

Definition read_toDelete (σ : Store) (p : option ComponentPtr) : result bool :=
  c ← deref σ p;
  match c with
  | DeletionMarkerComponent d => Ok d
  | _ => Fault DanglingPointer
  end.

Definition read_sprite (σ : Store) (p : option ComponentPtr) : result (sf.Sprite T) :=
  c ← deref σ p;
  match c with
  | SpriteComponent s => Ok s
  | _ => Fault DanglingPointer
  end.

(** [p->field = v]: the object must be there, and of the class of [p]. *)
Definition write (σ : Store) (p : option ComponentPtr)
    (upd : Component → option Component) : result Store :=
  c ← deref σ p;
  match p, upd c with
  | Some a, Some c' => Ok (store_component a c' σ)
  | _, _ => Fault DanglingPointer
  end.

Definition set_velocity (v : sf.Vector2 T) (c : Component) : option Component :=
  match c with MovementComponent _ => Some (MovementComponent v) | _ => None end.

Definition set_hitbox (box : sf.Rect T) (c : Component) : option Component :=
  match c with
  | HitboxComponent _ blocking => Some (HitboxComponent box blocking)
  | _ => None
  end.

Definition set_lifepoints (lp : Z) (c : Component) : option Component :=
  match c with LifeComponent _ al => Some (LifeComponent lp al) | _ => None end.

Definition decrement_lifepoints (c : Component) : option Component :=
  match c with LifeComponent lp al => Some (LifeComponent (lp - 1) al) | _ => None end.

Definition set_alive (al : bool) (c : Component) : option Component :=
  match c with LifeComponent lp _ => Some (LifeComponent lp al) | _ => None end.

Definition set_toDelete (d : bool) (c : Component) : option Component :=
  match c with DeletionMarkerComponent _ => Some (DeletionMarkerComponent d) | _ => None end.

Definition set_sprite (s : sf.Sprite T) (c : Component) : option Component :=
  match c with SpriteComponent _ => Some (SpriteComponent s) | _ => None end.

(** *** Events *)

Inductive EventData :=
  | ColoredBallShotData (color : sf.Color) (center : sf.Vector2 T)
  | EntityDeathData (entity : EntityPtr).

(** Modelled from the spec: [kantan::Event] and [kantan::pollEvent] come
    from kantan/Event, which is not among the sources. An event carries an
    integer type tag and an optional payload; the queue is a FIFO and
    [pollEvent] removes and returns its head. *)
Record Event := mkEvent {
  eventType : Z;
  eventData : option EventData;
}.

Definition pollEvent (q : list Event) : option (Event * list Event) :=
  match q with
  | [] => None
  | ev :: rest => Some (ev, rest)
  end.

End Components.
Arguments Particle T : clear implicits.
Arguments Component T : clear implicits.
Arguments Store T : clear implicits.
Arguments EventData T : clear implicits.
Arguments Event T : clear implicits.

(** ** Systems *)

Section Systems.
Context `{Scalar T} `{Platform}.

Definition CollisionRecord := list (EntityPtr * EntityPtr).

(** *** [PhysicSystem::update] *)

(** [fstNewHitbox]: the hitbox of [fst] with the movement applied. *)
Definition tentative_hitbox (box : sf.Rect T) (velocity : sf.Vector2 T) (dt : T)
    : sf.Rect T :=
  sf.mkRect (sadd (sf.left box) (smul (sf.x velocity) dt))
            (sadd (sf.top box) (smul (sf.y velocity) dt))
            (sf.width box) (sf.height box).

(** [movement]: the effective movement before any correction. *)
Definition tentative_movement (velocity : sf.Vector2 T) (dt : T) : sf.Vector2 T :=
  sf.mkVector2 (smul (sf.x velocity) dt) (smul (sf.y velocity) dt).

(** The four tests on the hitboxes as they were before the movement. *)
Definition from_bottom (fstBox sndBox : sf.Rect T) : bool :=
  sleb (sadd (sf.top fstBox) (sf.height fstBox)) (sf.top sndBox).
Definition from_top (fstBox sndBox : sf.Rect T) : bool :=
  sgeb (sf.top fstBox) (sadd (sf.top sndBox) (sf.height sndBox)).
Definition from_right (fstBox sndBox : sf.Rect T) : bool :=
  sleb (sadd (sf.left fstBox) (sf.width fstBox)) (sf.left sndBox).
Definition from_left (fstBox sndBox : sf.Rect T) : bool :=
  sgeb (sf.left fstBox) (sadd (sf.left sndBox) (sf.width sndBox)).

(** The [if]/[else if] chain run when the tentative hitbox intersects. *)
Definition correct_movement (fstBox sndBox : sf.Rect T) (movement : sf.Vector2 T)
    : sf.Vector2 T :=
  if from_bottom fstBox sndBox then
    sf.mkVector2 (sf.x movement)
      (ssub (sf.top sndBox) (sadd (sf.top fstBox) (sf.height fstBox)))
  else if from_top fstBox sndBox then
    sf.mkVector2 (sf.x movement)
      (sneg (ssub (sf.top fstBox) (sadd (sf.top sndBox) (sf.height sndBox))))
  else if from_right fstBox sndBox then
    sf.mkVector2
      (ssub (sf.left sndBox) (sadd (sf.left fstBox) (sf.width fstBox)))
      (sf.y movement)
  else if from_left fstBox sndBox then
    sf.mkVector2
      (sneg (ssub (sf.left fstBox) (sadd (sf.left sndBox) (sf.width sndBox))))
      (sf.y movement)
  else
    movement.

(** The movement at the end of the body of the inner loop, and whether
    the pair is recorded. *)
Definition pair_movement (dt : T) (fstBox sndBox : sf.Rect T)
    (velocity : sf.Vector2 T) : sf.Vector2 T * bool :=
  let fstNewHitbox := tentative_hitbox fstBox velocity dt in
  let movement := tentative_movement velocity dt in
  if sf.intersects fstNewHitbox sndBox
  then (correct_movement fstBox sndBox movement, true)
  else (movement, false).

(** The velocity of [fst] after one turn of the inner loop. *)
Definition pair_step (dt : T) (fstBox : sf.Rect T) (fstBlocking : bool)
    (sndBox : sf.Rect T) (sndBlocking : bool) (velocity : sf.Vector2 T)
    : result (sf.Vector2 T * bool) :=
  let '(movement, hit) := pair_movement dt fstBox sndBox velocity in
  if fstBlocking && sndBlocking then
    vx ← checked_div (sf.x movement) dt;
    vy ← checked_div (sf.y movement) dt;
    Ok (sf.mkVector2 vx vy, hit)
  else Ok (velocity, hit).

(** The inner loop on the values alone: the hitbox of [fst] is fixed
    while the loop runs, its velocity is threaded from pair to pair. *)
Fixpoint pair_loop (dt : T) (fstBox : sf.Rect T) (fstBlocking : bool)
    (others : list (sf.Rect T * bool)) (velocity : sf.Vector2 T)
    : result (sf.Vector2 T) :=
  match others with
  | [] => Ok velocity
  | (sndBox, sndBlocking) :: rest =>
      '(velocity', _) ← pair_step dt fstBox fstBlocking sndBox sndBlocking velocity;
      pair_loop dt fstBox fstBlocking rest velocity'
  end.

(** The hitbox once the corrected velocity is applied. *)
Definition apply_velocity (box : sf.Rect T) (velocity : sf.Vector2 T) (dt : T)
    : sf.Rect T :=
  tentative_hitbox box velocity dt.

(** One turn of the inner loop, on the heap. *)
Definition PhysicSystem_pair (dt : T) (fst : EntityPtr)
    (fstHitbox fstMovement : option ComponentPtr)
    (st : Store T * CollisionRecord) (snd : EntityPtr)
    : result (Store T * CollisionRecord) :=
  let '(σ, m_collisions) := st in
  if bool_decide (fst = snd) then Ok st else
  sndHas ← hasComponent σ snd "Hitbox";
  if negb sndHas then Ok st else
  fstHas ← hasComponent σ fst "Movement";
  if negb fstHas then Ok st else
  sndHitbox ← getComponent σ snd HitboxCap "Hitbox";
  '(fstBox, fstBlocking) ← read_hitbox σ fstHitbox;
  velocity ← read_velocity σ fstMovement;
  '(sndBox, sndBlocking) ← read_hitbox σ sndHitbox;
  '(velocity', hit) ← pair_step dt fstBox fstBlocking sndBox sndBlocking velocity;
  let m_collisions' := if (hit : bool) then m_collisions ++ [(fst, snd)] else m_collisions in
  σ' ← (if fstBlocking && sndBlocking
        then write σ fstMovement (set_velocity velocity')
        else Ok σ);
  Ok (σ', m_collisions').

(** One turn of the outer loop. *)
Definition PhysicSystem_entity (dt : T) (entities : list EntityPtr)
    (st : Store T * CollisionRecord) (fst : EntityPtr)
    : result (Store T * CollisionRecord) :=
  let '(σ, m_collisions) := st in
  hasHitbox ← hasComponent σ fst "Hitbox";
  hasMovement ← hasComponent σ fst "Movement";
  if negb hasHitbox || negb hasMovement then Ok st else
  fstHitbox ← getComponent σ fst HitboxCap "Hitbox";
  fstMovement ← getComponent σ fst MovementCap "Movement";
  '(σ1, m_collisions1) ←
    for_each (PhysicSystem_pair dt fst fstHitbox fstMovement) (σ, m_collisions) entities;
  '(box, _) ← read_hitbox σ1 fstHitbox;
  velocity ← read_velocity σ1 fstMovement;
  σ2 ← write σ1 fstHitbox (set_hitbox (apply_velocity box velocity dt));
  Ok (σ2, m_collisions1).

(** The record is cleared, then every entity is checked against all the
    others. The event queue is not used. *)
Definition PhysicSystem_update (elapsed : sf.Time) (entities : list EntityPtr)
    (σ : Store T) : result (Store T * CollisionRecord) :=
  for_each (PhysicSystem_entity (sf.asSeconds elapsed) entities)
           (σ, [] : CollisionRecord) entities.

(** *** [CollisionEffectsSystem::update] *)

(** [collision.first->getName() == a && collision.second->getName() == b] *)
Definition names_are (σ : Store T) (collision : EntityPtr * EntityPtr)
    (a b : string) : result bool :=
  firstName ← Entity_getName σ (collision.1);
  if bool_decide (firstName = a) then
    secondName ← Entity_getName σ (collision.2);
    Ok (bool_decide (secondName = b))
  else Ok false.

(** The colour of a ball, from the left edge of its texture rectangle. *)
Definition ball_color (textureRect : sf.Rect Z) : sf.Color :=
  if sf.left textureRect <? 64 then sf.Red
  else if sf.left textureRect <? 64 * 2 then sf.Blue
  else if sf.left textureRect <? 64 * 3 then sf.Green
  else sf.Yellow.

Definition sprite_center (s : sf.Sprite T) : sf.Vector2 T :=
  sf.mkVector2
    (sadd (sf.left (sf.getGlobalBounds s))
          (sdiv (sf.width (sf.getGlobalBounds s)) (sofZ 2)))
    (sadd (sf.top (sf.getGlobalBounds s))
          (sdiv (sf.height (sf.getGlobalBounds s)) (sofZ 2))).

(** [e->getComponent<LifeComponent>("Life")->lifepoints = 0] *)
Definition kill (σ : Store T) (e : EntityPtr) : result (Store T) :=
  life ← getComponent σ e LifeCap "Life";
  write σ life (set_lifepoints 0).

(** [dmc = e->getComponent<DeletionMarkerComponent>("DeletionMarker");
    dmc->toDelete = true] *)
Definition mark_for_deletion (σ : Store T) (e : EntityPtr) : result (Store T) :=
  dmc ← getComponent σ e DeletionMarkerCap "DeletionMarker";
  write σ dmc (set_toDelete true).

(** [life = e->getComponent<LifeComponent>("Life"); life->lifepoints--] *)
Definition hurt (σ : Store T) (e : EntityPtr) : result (Store T) :=
  life ← getComponent σ e LifeCap "Life";
  write σ life decrement_lifepoints.

(** The body of the loop over the collision record. *)
Definition CollisionEffectsSystem_pair (st : Store T * list (Event T))
    (collision : EntityPtr * EntityPtr) : result (Store T * list (Event T)) :=
  let '(σ, eventQueue) := st in
  sakuraBall ← names_are σ collision "Sakura" "Ball";
  if (sakuraBall : bool) then
    σ ← kill σ (collision.2);
    σ ← kill σ (collision.1);
    σ ← mark_for_deletion σ (collision.1);
    σ ← mark_for_deletion σ (collision.2);
    sprite ← getComponent σ (collision.2) SpriteCap "Sprite";
    s ← read_sprite σ sprite;
    let color := ball_color (sf.getTextureRect s) in
    let center := sprite_center s in
    Ok (σ, eventQueue ++ [mkEvent ColoredBallShot (Some (ColoredBallShotData color center))])
  else
  ballBox ← names_are σ collision "Ball" "Box";
  if (ballBox : bool) then
    σ ← kill σ (collision.1);
    σ ← mark_for_deletion σ (collision.1);
    Ok (σ, eventQueue)
  else
  boxBall ← names_are σ collision "Box" "Ball";
  if (boxBall : bool) then
    σ ← kill σ (collision.2);
    σ ← mark_for_deletion σ (collision.2);
    Ok (σ, eventQueue)
  else
  ballPlayer ← names_are σ collision "Ball" "Player";
  if (ballPlayer : bool) then
    σ ← kill σ (collision.1);
    σ ← mark_for_deletion σ (collision.1);
    σ ← hurt σ (collision.2);
    Ok (σ, eventQueue ++ [mkEvent PlayerHit None])
  else
  playerBall ← names_are σ collision "Player" "Ball";
  if (playerBall : bool) then
    σ ← kill σ (collision.2);
    σ ← mark_for_deletion σ (collision.2);
    σ ← hurt σ (collision.1);
    Ok (σ, eventQueue ++ [mkEvent PlayerHit None])
  else Ok st.

(** The loop over [m_collisions]; the record is cleared afterwards, so
    only the heap and the queue come back. *)
Definition CollisionEffectsSystem_update (m_collisions : CollisionRecord)
    (σ : Store T) (eventQueue : list (Event T))
    : result (Store T * list (Event T)) :=
  for_each CollisionEffectsSystem_pair (σ, eventQueue) m_collisions.

(** *** [SynchronizeSystem::update] *)

Definition SynchronizeSystem_entity (σ : Store T) (e : EntityPtr)
    : result (Store T) :=
  hasHitbox ← hasComponent σ e "Hitbox";
  hasSprite ← hasComponent σ e "Sprite";
  if negb hasHitbox || negb hasSprite then Ok σ else
  hitbox ← getComponent σ e HitboxCap "Hitbox";
  sprite ← getComponent σ e SpriteCap "Sprite";
  '(box, _) ← read_hitbox σ hitbox;
  s ← read_sprite σ sprite;
  write σ sprite (set_sprite (sf.setPosition (sf.left box) (sf.top box) s)).

Definition SynchronizeSystem_update (entities : list EntityPtr) (σ : Store T)
    : result (Store T) :=
  for_each SynchronizeSystem_entity σ entities.

(** *** [LifeSystem::update] *)

Definition death_event (e : EntityPtr) : Event T :=
  mkEvent EntityDeath (Some (EntityDeathData e)).

Definition LifeSystem_entity (st : Store T * list (Event T)) (e : EntityPtr)
    : result (Store T * list (Event T)) :=
  let '(σ, eventQueue) := st in
  hasLife ← hasComponent σ e "Life";
  if negb hasLife then Ok st else
  life ← getComponent σ e LifeCap "Life";
  '(lifepoints, _) ← read_life σ life;
  if lifepoints <=? 0 then
    σ' ← write σ life (set_alive false);
    Ok (σ', eventQueue ++ [death_event e])
  else Ok st.

Definition LifeSystem_update (entities : list EntityPtr) (σ : Store T)
    (eventQueue : list (Event T)) : result (Store T * list (Event T)) :=
  for_each LifeSystem_entity (σ, eventQueue) entities.

(** *** [ParticleWatcherSystem::update] *)

(** [ratio = p.lifetime.asSeconds(); static_cast<sf::Uint8>(ratio * 255)] *)
Definition particle_alpha (lifetime : sf.Time) : Z :=
  let ratio : T := sf.asSeconds lifetime in
  to_Uint8 (smul ratio (sofZ 255)).

(** The body of the loop over the particles, for the particle [p] and
    its vertex [v]. *)
Definition update_particle (elapsed : sf.Time) (p : Particle T) (v : sf.Vertex T)
    : Particle T * sf.Vertex T :=
  let lifetime := p_lifetime p - elapsed in
  let dt : T := sf.asSeconds elapsed in
  let position :=
    sf.mkVector2 (sadd (sf.x (sf.position v)) (smul (sf.x (p_velocity p)) dt))
                 (sadd (sf.y (sf.position v)) (smul (sf.y (p_velocity p)) dt)) in
  (mkParticle (p_velocity p) lifetime,
   sf.mkVertex position (sf.with_alpha (sf.color v) (particle_alpha lifetime))
               (sf.texCoords v)).

(** The loop [for i < m_particles.size()]; [m_vertices[i]] must exist. *)
Fixpoint update_particles (elapsed : sf.Time) (i : nat) (particles : list (Particle T))
    (vertices : list (sf.Vertex T)) : result (list (Particle T) * list (sf.Vertex T)) :=
  match particles with
  | [] => Ok ([], vertices)
  | p :: rest =>
      match vertices !! i with
      | None => Fault DanglingPointer
      | Some v =>
          let '(p', v') := update_particle elapsed p v in
          '(rest', vertices') ← update_particles elapsed (S i) rest (<[i := v']> vertices);
          Ok (p' :: rest', vertices')
      end
  end.

(** [sf::seconds(2.f)], the age at which an emitter is deleted. *)
Definition emitter_cap : sf.Time := 2000000.

Definition ParticleWatcherSystem_entity (elapsed : sf.Time) (σ : Store T)
    (e : EntityPtr) : result (Store T) :=
  hasParticle ← hasComponent σ e "Particle";
  if negb hasParticle then Ok σ else
  particles ← getComponent σ e ParticleCap "Particle";
  c ← deref σ particles;
  match c with
  | ParticleComponent color center m_particles m_vertices lifetime =>
      let lifetime := lifetime + elapsed in
      if emitter_cap <=? lifetime then
        σ ← write σ particles
              (λ _, Some (ParticleComponent color center m_particles m_vertices lifetime));
        mark_for_deletion σ e
      else
        '(m_particles', m_vertices') ← update_particles elapsed 0 m_particles m_vertices;
        write σ particles
          (λ _, Some (ParticleComponent color center m_particles' m_vertices' lifetime))
  | _ => Fault DanglingPointer
  end.

Definition ParticleWatcherSystem_update (elapsed : sf.Time)
    (entities : list EntityPtr) (σ : Store T) : result (Store T) :=
  for_each (ParticleWatcherSystem_entity elapsed) σ entities.

End Systems.

(** ** The world *)

Inductive Difficulty := EASY | NORMAL | HARD | JAPANESE.

(** What the world takes from outside the program: [std::cos], [std::sin]
    and the sequence of values [std::rand] returns. *)
Class Environment (T : Type) := {
  cosf : T → T;
  sinf : T → T;
  rand : nat → Z;
}.

Inductive Sound :=
  | sugoiSound | hitSound | changeAffinitySound | hitGoodBallSound | hitWrongBallSound
  | firstMusic | secondMusic.

Inductive AudioCall := play (s : Sound) | stop (s : Sound).

Section World.
Context `{Scalar T} `{Platform} `{Environment T}.

(** The global tunable constants. *)
Record Constants := mkConstants {
  COMBO_MIN : T;
  LIFE_POINTS : T;
  BALL_VELOCITY : T;
  SAKURA_VELOCITY : T;
  SUGOI_COMBO : Z;
  BALLS_INTERVAL : T;
  PLAYER_SPEED : T;
  SHOOT_INTERVAL : T;
  AFFINITY_CHANGE_INTERVAL : T;
}.

(** The values the constructor of [World] assigns for each difficulty. *)
Definition constants_of (difficulty : Difficulty) : Constants :=
  match difficulty with
  | EASY =>
      mkConstants (sofZ 5) (sofZ 8) (sofZ 300) (sneg (sofZ 300)) 10
                  (sofZ 1000) (sofZ 500) (sofZ 250) (sofZ 30)
  | NORMAL =>
      mkConstants (sofZ 5) (sofZ 5) (sofZ 300) (sneg (sofZ 300)) 10
                  (sofZ 750) (sofZ 500) (sofZ 250) (sofZ 25)
  | HARD =>
      mkConstants (sofZ 10) (sofZ 3) (sofZ 400) (sneg (sofZ 400)) 20
                  (sofZ 250) (sofZ 525) (sofZ 225) (sofZ 15)
  | JAPANESE =>
      mkConstants (sofZ 20) (sofZ 1) (sofZ 450) (sneg (sofZ 450)) 50
                  (sofZ 150) (sofZ 550) (sofZ 200) (sofZ 5)
  end.

(** The members of [World] the simulation reads and writes, the heap they
    point into, the global state ([Entity::m_lastid], the position in the
    [std::rand] sequence, the constants) and the trace of audio calls. *)
Record World := mkWorld {
  heap : Store T;
  m_entities : list EntityPtr;
  m_components : list ComponentPtr;
  m_eventQueue : list (Event T);
  m_player : option EntityPtr;
  m_isRunning : bool;
  m_colorAffinity : sf.Color;
  m_score : Z;
  m_combo : Z;
  m_lastSugoiDisplay : sf.Time;
  m_lastAffinityChange : sf.Time;
  constants : Constants;
  m_lastid : nat;
  rand_calls : nat;
  audio : list AudioCall;
}.

Definition with_heap (σ : Store T) (w : World) : World :=
  mkWorld σ (m_entities w) (m_components w) (m_eventQueue w) (m_player w)
    (m_isRunning w) (m_colorAffinity w) (m_score w) (m_combo w)
    (m_lastSugoiDisplay w) (m_lastAffinityChange w) (constants w) (m_lastid w)
    (rand_calls w) (audio w).

Definition with_entities (l : list EntityPtr) (w : World) : World :=
  mkWorld (heap w) l (m_components w) (m_eventQueue w) (m_player w)
    (m_isRunning w) (m_colorAffinity w) (m_score w) (m_combo w)
    (m_lastSugoiDisplay w) (m_lastAffinityChange w) (constants w) (m_lastid w)
    (rand_calls w) (audio w).

Definition with_components (l : list ComponentPtr) (w : World) : World :=
  mkWorld (heap w) (m_entities w) l (m_eventQueue w) (m_player w)
    (m_isRunning w) (m_colorAffinity w) (m_score w) (m_combo w)
    (m_lastSugoiDisplay w) (m_lastAffinityChange w) (constants w) (m_lastid w)
    (rand_calls w) (audio w).

Definition with_eventQueue (q : list (Event T)) (w : World) : World :=
  mkWorld (heap w) (m_entities w) (m_components w) q (m_player w)
    (m_isRunning w) (m_colorAffinity w) (m_score w) (m_combo w)
    (m_lastSugoiDisplay w) (m_lastAffinityChange w) (constants w) (m_lastid w)
    (rand_calls w) (audio w).

Definition with_isRunning (b : bool) (w : World) : World :=
  mkWorld (heap w) (m_entities w) (m_components w) (m_eventQueue w) (m_player w)
    b (m_colorAffinity w) (m_score w) (m_combo w)
    (m_lastSugoiDisplay w) (m_lastAffinityChange w) (constants w) (m_lastid w)
    (rand_calls w) (audio w).

Definition with_colorAffinity (c : sf.Color) (w : World) : World :=
  mkWorld (heap w) (m_entities w) (m_components w) (m_eventQueue w) (m_player w)
    (m_isRunning w) c (m_score w) (m_combo w)
    (m_lastSugoiDisplay w) (m_lastAffinityChange w) (constants w) (m_lastid w)
    (rand_calls w) (audio w).

Definition with_score (n : Z) (w : World) : World :=
  mkWorld (heap w) (m_entities w) (m_components w) (m_eventQueue w) (m_player w)
    (m_isRunning w) (m_colorAffinity w) n (m_combo w)
    (m_lastSugoiDisplay w) (m_lastAffinityChange w) (constants w) (m_lastid w)
    (rand_calls w) (audio w).

Definition with_combo (n : Z) (w : World) : World :=
  mkWorld (heap w) (m_entities w) (m_components w) (m_eventQueue w) (m_player w)
    (m_isRunning w) (m_colorAffinity w) (m_score w) n
    (m_lastSugoiDisplay w) (m_lastAffinityChange w) (constants w) (m_lastid w)
    (rand_calls w) (audio w).

Definition with_lastSugoiDisplay (t : sf.Time) (w : World) : World :=
  mkWorld (heap w) (m_entities w) (m_components w) (m_eventQueue w) (m_player w)
    (m_isRunning w) (m_colorAffinity w) (m_score w) (m_combo w)
    t (m_lastAffinityChange w) (constants w) (m_lastid w)
    (rand_calls w) (audio w).

Definition with_lastAffinityChange (t : sf.Time) (w : World) : World :=
  mkWorld (heap w) (m_entities w) (m_components w) (m_eventQueue w) (m_player w)
    (m_isRunning w) (m_colorAffinity w) (m_score w) (m_combo w)
    (m_lastSugoiDisplay w) t (constants w) (m_lastid w)
    (rand_calls w) (audio w).

Definition with_lastid (n : nat) (w : World) : World :=
  mkWorld (heap w) (m_entities w) (m_components w) (m_eventQueue w) (m_player w)
    (m_isRunning w) (m_colorAffinity w) (m_score w) (m_combo w)
    (m_lastSugoiDisplay w) (m_lastAffinityChange w) (constants w) n
    (rand_calls w) (audio w).

Definition with_rand_calls (n : nat) (w : World) : World :=
  mkWorld (heap w) (m_entities w) (m_components w) (m_eventQueue w) (m_player w)
    (m_isRunning w) (m_colorAffinity w) (m_score w) (m_combo w)
    (m_lastSugoiDisplay w) (m_lastAffinityChange w) (constants w) (m_lastid w)
    n (audio w).

Definition call (c : AudioCall) (w : World) : World :=
  mkWorld (heap w) (m_entities w) (m_components w) (m_eventQueue w) (m_player w)
    (m_isRunning w) (m_colorAffinity w) (m_score w) (m_combo w)
    (m_lastSugoiDisplay w) (m_lastAffinityChange w) (constants w) (m_lastid w)
    (rand_calls w) (audio w ++ [c]).

(** *** Factories *)

(** [createComponent<C>()]: [new C()], pushed in the components vector.
    [c] is the default-constructed object. *)
Definition createComponent (c : Component T) (w : World) : ComponentPtr * World :=
  let a := fresh (dom (component_mem (heap w))) in
  (a, with_components (m_components w ++ [a]) (with_heap (store_component a c (heap w)) w)).

(** [createEntity]. Modelled from the spec: the constructor of
    [kantan::Entity] is in Entity.cpp, which is not among the sources; the
    spec has a unique, monotonically increasing identifier, the given
    category name and no component. *)
Definition createEntity (name : string) (w : World) : result (EntityPtr * World) :=
  let e := fresh (dom (entity_mem (heap w))) in
  let w := with_lastid (S (m_lastid w))
             (with_heap (store_entity e (mkEntity (m_lastid w) name ∅) (heap w)) w) in
  let '(dmc, w) := createComponent (DeletionMarkerComponent false) w in
  σ ← addComponent e (Some dmc) (heap w);
  Ok (e, with_entities (m_entities w ++ [e]) (with_heap σ w)).

(** The constructor of [ParticleComponent::Particle], after [n] calls to
    [std::rand]: three more calls. *)
Definition new_Particle (n : nat) : Particle T :=
  let angle := sdiv (smul (sofZ (rand n mod 360)) (sdiv (sofZ 314) (sofZ 100))) (sofZ 180) in
  let speed := sadd (sofZ (rand (S n) mod 50)) (sofZ 20) in
  mkParticle (sf.mkVector2 (smul (cosf angle) speed) (smul (sinf angle) speed))
             (sf.milliseconds (rand (S (S n)) mod 2000 + 1000)).

Fixpoint new_Particles (count : nat) (n : nat) : list (Particle T) :=
  match count with
  | O => []
  | S count' => new_Particle n :: new_Particles count' (n + 3)
  end.

(** The default [sf::Vertex]. *)
Definition new_Vertex : sf.Vertex T :=
  sf.mkVertex (sf.mkVector2 (sofZ 0) (sofZ 0)) sf.White (sf.mkVector2 (sofZ 0) (sofZ 0)).

Definition pool_size : nat := 1000.

(** The constructor of [ParticleComponent]. *)
Definition new_ParticleComponent (n : nat) : Component T :=
  ParticleComponent sf.Black (sf.mkVector2 (sofZ 0) (sofZ 0))
    (new_Particles pool_size n) (replicate pool_size new_Vertex) sf.Time_Zero.

(** [ParticleComponent::init], after [color] and [center] are assigned. *)
Definition init_vertices (color : sf.Color) (center : sf.Vector2 T) (count : nat)
    (vertices : list (sf.Vertex T)) : list (sf.Vertex T) :=
  imap (λ i v, if bool_decide (i < count)%nat
               then sf.mkVertex center color (sf.texCoords v) else v) vertices.

Definition configure_particles (color : sf.Color) (position : sf.Vector2 T)
    (c : Component T) : option (Component T) :=
  match c with
  | ParticleComponent _ _ m_particles m_vertices lifetime =>
      Some (ParticleComponent color position m_particles
              (init_vertices color position (length m_particles) m_vertices) lifetime)
  | _ => None
  end.

Definition createExplosion (color : sf.Color) (position : sf.Vector2 T) (w : World)
    : result World :=
  '(explosion, w) ← createEntity "Explosion" w;
  let '(particles, w) := createComponent (new_ParticleComponent (rand_calls w)) w in
  let w := with_rand_calls (rand_calls w + 3 * pool_size) w in
  σ ← write (heap w) (Some particles) (configure_particles color position);
  σ ← addComponent explosion (Some particles) σ;
  Ok (with_heap σ w).

(** *** The passes of [World::update], from the physics on *)

Definition World_physics (dt : sf.Time) (w : World)
    : result (World * CollisionRecord) :=
  '(σ, m_collisions) ← PhysicSystem_update dt (m_entities w) (heap w);
  σ ← SynchronizeSystem_update (m_entities w) σ;
  Ok (with_heap σ w, m_collisions).

(** [m_collider.setCollisionRecord(m_physics.getCollisionRecord());
    m_collider.update(...)] *)
Definition World_collisionEffects (m_collisions : CollisionRecord) (w : World)
    : result World :=
  '(σ, q) ← CollisionEffectsSystem_update m_collisions (heap w) (m_eventQueue w);
  Ok (with_eventQueue q (with_heap σ w)).

Definition World_lifes (w : World) : result World :=
  '(σ, q) ← LifeSystem_update (m_entities w) (heap w) (m_eventQueue w);
  Ok (with_eventQueue q (with_heap σ w)).

Definition stop_everything (w : World) : World :=
  call (stop secondMusic) (call (stop firstMusic) (call (stop hitWrongBallSound)
    (call (stop hitGoodBallSound) (call (stop changeAffinitySound)
      (call (stop hitSound) (call (stop sugoiSound) w)))))).

(** [case EventType::PlayerHit] *)
Definition on_PlayerHit (w : World) : result World :=
  let w := call (play hitSound) (with_combo 0 w) in
  match m_player w with
  | None => Fault NullDereference
  | Some player =>
      life ← getComponent (heap w) player LifeCap "Life";
      '(lifepoints, _) ← read_life (heap w) life;
      if lifepoints <=? 0
      then Ok (stop_everything (with_isRunning false w))
      else Ok w
  end.

(** [m_combo > COMBO_MIN] *)
Definition above_COMBO_MIN (w : World) : bool :=
  sgtb (sofZ (m_combo w)) (COMBO_MIN (constants w)).

(** The block under [// Update score and combo.] *)
Definition update_score_and_combo (color : sf.Color) (w : World) : result World :=
  if bool_decide (color = m_colorAffinity w) then
    let w := call (play hitGoodBallSound) w in
    let w := with_combo (m_combo w + 1) w in
    sugoi ← (if above_COMBO_MIN w then
               if SUGOI_COMBO (constants w) =? 0 then Fault DivisionByZero
               else Ok (Z.rem (m_combo w) (SUGOI_COMBO (constants w)) =? 0)
             else Ok false);
    let w := if (sugoi : bool)
             then with_lastSugoiDisplay sf.Time_Zero (call (play sugoiSound) w)
             else w in
    if above_COMBO_MIN w
    then Ok (with_score (m_score w + m_combo w) w)
    else Ok (with_score (m_score w + 1) w)
  else
    let w := call (play hitWrongBallSound) w in
    Ok (with_combo 0 (with_score (m_score w - 1) w)).

(** [case EventType::ColoredBallShot]. Modelled from the spec:
    [Event::getEventData<D>] is in kantan/Event, not among the sources; it
    gives the payload attached to the event, which is then dereferenced. *)
Definition on_ColoredBallShot (event : Event T) (w : World) : result World :=
  match eventData event with
  | Some (ColoredBallShotData color center) =>
      w ← createExplosion color center w;
      update_score_and_combo color w
  | _ => Fault NullDereference
  end.

(** The [switch] on the type of a polled event. *)
Definition World_handleEvent (event : Event T) (w : World) : result World :=
  if eventType event =? PlayerHit then on_PlayerHit w
  else if eventType event =? ColoredBallShot then on_ColoredBallShot event w
  else Ok w.

(** [while(kantan::pollEvent(event, m_eventQueue))], with a bound on the
    number of turns. No handler pushes an event, so one turn more than
    there are queued events reaches the empty queue. *)
Fixpoint World_handleEvents_loop (turns : nat) (w : World) : result World :=
  match turns with
  | O => Ok w
  | S turns' =>
      match pollEvent (m_eventQueue w) with
      | None => Ok w
      | Some (event, rest) =>
          w ← World_handleEvent event (with_eventQueue rest w);
          World_handleEvents_loop turns' w
      end
  end.

Definition World_handleEvents (w : World) : result World :=
  World_handleEvents_loop (S (length (m_eventQueue w))) w.

(** [sf::seconds(amount)] *)
Definition seconds (amount : T) : sf.Time :=
  default 0 (strunc (smul amount (sofZ 1000000))).

Definition next_affinity (c : sf.Color) : sf.Color :=
  if bool_decide (c = sf.Yellow) then sf.Red
  else if bool_decide (c = sf.Red) then sf.Blue
  else if bool_decide (c = sf.Blue) then sf.Green
  else if bool_decide (c = sf.Green) then sf.Yellow
  else c.

(** [/// Check affinity change.] *)
Definition World_checkAffinityChange (w : World) : World :=
  if seconds (AFFINITY_CHANGE_INTERVAL (constants w)) <? m_lastAffinityChange w then
    with_lastAffinityChange sf.Time_Zero
      (call (play changeAffinitySound)
         (with_colorAffinity (next_affinity (m_colorAffinity w)) w))
  else w.

Definition World_particles (dt : sf.Time) (w : World) : result World :=
  σ ← ParticleWatcherSystem_update dt (m_entities w) (heap w);
  Ok (with_heap σ w).

(** *** [World::cleanEntities] *)

(** [std::find] then [erase]: the first occurrence goes. *)
Fixpoint erase_first (c : ComponentPtr) (l : list ComponentPtr) : list ComponentPtr :=
  match l with
  | [] => []
  | c' :: l' => if bool_decide (c' = c) then l' else c' :: erase_first c l'
  end.

(** The loop over the components of a deleted entity. *)
Definition erase_components (components : gmap string ComponentPtr)
    (l : list ComponentPtr) : list ComponentPtr :=
  foldl (λ acc nc, erase_first (nc.2) acc) l (map_to_list components).

(** The loop over [m_entities]. The vector is [kept ++ todo] and the
    iterator stands at the head of [todo]: an erased entity leaves the
    iterator where it is, facing the next one. *)
Fixpoint cleanEntities_loop (σ : Store T) (todo kept : list EntityPtr)
    (l : list ComponentPtr) : result (list EntityPtr * list ComponentPtr) :=
  match todo with
  | [] => Ok (kept, l)
  | e :: rest =>
      dmc ← getComponent σ e DeletionMarkerCap "DeletionMarker";
      toDelete ← read_toDelete σ dmc;
      if (toDelete : bool) then
        components ← getAllComponents σ e;
        cleanEntities_loop σ rest kept (erase_components components l)
      else cleanEntities_loop σ rest (kept ++ [e]) l
  end.

Definition cleanEntities (w : World) : result World :=
  '(entities, components) ←
    cleanEntities_loop (heap w) (m_entities w) [] (m_components w);
  Ok (with_components components (with_entities entities w)).

(** The passes that follow the collision effects. *)
Definition World_after_collisionEffects (dt : sf.Time) (w : World) : result World :=
  w ← World_lifes w;
  w ← World_handleEvents w;
  World_particles dt (World_checkAffinityChange w).

(** [World::update] from [/// Physics logic.] to its end. *)
Definition World_update_systems (dt : sf.Time) (w : World) : result World :=
  '(w, m_collisions) ← World_physics dt w;
  w ← World_collisionEffects m_collisions w;
  w ← World_after_collisionEffects dt w;
  cleanEntities w.

End World.
Arguments Constants T : clear implicits.
Arguments World T : clear implicits.

(** * The rest of the game: animation, factories, input and teardown *)

(** ** [AnimationSystem::update] *)

(** [unsigned int] arithmetic *)
Definition uint32 (z : Z) : Z := z mod 2 ^ 32.

(** [int] arithmetic. An overflow is undefined in the language; the value
    written here is the one two's complement hardware gives. *)
Definition int32 (z : Z) : Z := (z + 2 ^ 31) mod 2 ^ 32 - 2 ^ 31.

Section Animation.
Context `{Scalar T}.

(** [sf::seconds(1.f / fps)]. With [fps == 0] the quotient is an infinity,
    which has no conversion to an integer. *)
Definition frame_period (fps : Z) : result sf.Time :=
  if fps =? 0 then Fault DivisionByZero
  else Ok (seconds (sdiv (sofZ 1) (sofZ fps))).

(** [if(currentFrame + 1 >= frames.size()) currentFrame = 0; else currentFrame++;]
    with [currentFrame] an [unsigned int] and the size a [size_t]. *)
Definition next_frame (frames : list (sf.Rect Z)) (currentFrame : Z) : Z :=
  if Z.of_nat (length frames) <=? uint32 (currentFrame + 1)
  then 0
  else uint32 (currentFrame + 1).

(** [p->sprite.f(...)]: a member function of the sprite called through a
    pointer to its component. *)
Definition update_sprite (f : sf.Sprite T → sf.Sprite T) (c : Component T)
    : option (Component T) :=
  match c with SpriteComponent s => Some (SpriteComponent (f s)) | _ => None end.

Definition set_animation (frames : list (sf.Rect Z)) (currentFrame : Z)
    (lastFrame : sf.Time) (fps : Z) (c : Component T) : option (Component T) :=
  match c with
  | AnimationComponent _ _ _ _ => Some (AnimationComponent frames currentFrame lastFrame fps)
  | _ => None
  end.

Definition AnimationSystem_entity (elapsed : sf.Time) (σ : Store T) (e : EntityPtr)
    : result (Store T) :=
  hasSprite ← hasComponent σ e "Sprite";
  hasAnimation ← hasComponent σ e "Animation";
  if negb hasSprite || negb hasAnimation then Ok σ else
  sprite ← getComponent σ e SpriteCap "Sprite";
  animation ← getComponent σ e AnimationCap "Animation";
  c ← deref σ animation;
  match c with
  | AnimationComponent frames currentFrame lastFrame fps =>
      let lastFrame := lastFrame + elapsed in
      σ ← write σ animation (set_animation frames currentFrame lastFrame fps);
      period ← frame_period fps;
      if period <? lastFrame then
        let currentFrame := next_frame frames currentFrame in
        σ ← write σ animation (set_animation frames currentFrame sf.Time_Zero fps);
        match frames !! Z.to_nat currentFrame with
        | Some frame => write σ sprite (update_sprite (sf.setTextureRect frame))
        | None => Fault DanglingPointer
        end
      else Ok σ
  | _ => Fault DanglingPointer
  end.

Definition AnimationSystem_update (elapsed : sf.Time) (entities : list EntityPtr)
    (σ : Store T) : result (Store T) :=
  for_each (AnimationSystem_entity elapsed) σ entities.

End Animation.

(** ** The factories of [World] *)

(** Modelled from the spec: [ResourceHolder::get] is defined in
    ResourceHolder.inl, which is not among the sources. The spec has
    opaque asset handles addressed by small integer identifiers, loaded
    once at initialization; [texture_size] is the size of the texture
    loaded under an identifier. *)
Class Assets := { texture_size : Z → Z * Z }.

#[global] Instance IntRect_eq_dec : EqDecision (sf.Rect Z).
Proof. solve_decision. Defined.

Section Factories.
Context `{Scalar T} `{Platform} `{Environment T} `{Assets}.

(** The default-constructed components. [fps] is left uninitialised by
    the constructor of [AnimationComponent]: 0 stands for its
    indeterminate value. *)
Definition new_Sprite : sf.Sprite T :=
  sf.mkSprite (sf.mkRect 0 0 0 0) (sf.mkVector2 (sofZ 0) (sofZ 0)).
Definition new_SpriteComponent : Component T := SpriteComponent new_Sprite.
Definition new_HitboxComponent : Component T :=
  HitboxComponent (sf.mkRect (sofZ 0) (sofZ 0) (sofZ 0) (sofZ 0)) true.
Definition new_MovementComponent : Component T :=
  MovementComponent (sf.mkVector2 (sofZ 0) (sofZ 0)).
Definition new_AnimationComponent : Component T :=
  AnimationComponent [] 0 sf.Time_Zero 0.

(** A [float] converted to an [int]; a value that is not finite has no
    conversion, and none of the constants is such a value. *)
Definition to_int (f : T) : Z := default 0 (strunc f).

(** [LifeComponent()]: [lifepoints(LIFE_POINTS)], [alive(true)] *)
Definition new_LifeComponent (w : World T) : Component T :=
  LifeComponent (to_int (LIFE_POINTS (constants w))) true.

(** [Sprite::setTexture]: a sprite that has no texture yet and an empty
    rectangle takes the whole texture as its rectangle. Each sprite is
    given its texture once, when it is new. *)
Definition setTexture (id : Z) (s : sf.Sprite T) : sf.Sprite T :=
  if bool_decide (sf.textureRect s = sf.mkRect 0 0 0 0)
  then sf.setTextureRect (sf.mkRect 0 0 (texture_size id).1 (texture_size id).2) s
  else s.

Definition set_isBlocking (blocking : bool) (c : Component T) : option (Component T) :=
  match c with
  | HitboxComponent box _ => Some (HitboxComponent box blocking)
  | _ => None
  end.

(** [animation->frames.push_back(...)], once for each of [more], and
    [animation->fps = fps] *)
Definition push_frames (more : list (sf.Rect Z)) (c : Component T) : option (Component T) :=
  match c with
  | AnimationComponent frames currentFrame lastFrame fps =>
      Some (AnimationComponent (frames ++ more) currentFrame lastFrame fps)
  | _ => None
  end.

Definition set_fps (fps : Z) (c : Component T) : option (Component T) :=
  match c with
  | AnimationComponent frames currentFrame lastFrame _ =>
      Some (AnimationComponent frames currentFrame lastFrame fps)
  | _ => None
  end.

(** [p->field = v] on a component of the world. *)
Definition configure (p : ComponentPtr) (upd : Component T → option (Component T))
    (w : World T) : result (World T) :=
  σ ← write (heap w) (Some p) upd; Ok (with_heap σ w).

(** [e->addComponent(p)] *)
Definition attach (e : EntityPtr) (p : ComponentPtr) (w : World T) : result (World T) :=
  σ ← addComponent e (Some p) (heap w); Ok (with_heap σ w).

(** The 36 frames of the animated box: two rows of 18. *)
Definition box_frames : list (sf.Rect Z) :=
  ((λ i, sf.mkRect (64 * i) 0 64 64) <$> seqZ 0 18)
  ++ ((λ i, sf.mkRect (64 * i) 64 64 64) <$> seqZ 0 18).

Definition createBox (position : sf.Vector2 T) (w : World T) : result (World T) :=
  '(box, w) ← createEntity "Box" w;
  let '(sprite, w) := createComponent new_SpriteComponent w in
  let '(hitbox, w) := createComponent new_HitboxComponent w in
  let '(animation, w) := createComponent new_AnimationComponent w in
  w ← configure sprite (update_sprite (setTexture 0)) w;
  w ← configure sprite (update_sprite (sf.setTextureRect (sf.mkRect 0 0 64 64))) w;
  w ← configure hitbox
        (set_hitbox (sf.mkRect (sf.x position) (sf.y position) (sofZ 64) (sofZ 64))) w;
  w ← configure animation (push_frames box_frames) w;
  w ← configure animation (set_fps 24) w;
  w ← attach box sprite w;
  w ← attach box hitbox w;
  attach box animation w.

(** [buildWalls]: the left wall, the bottom wall, the right wall. *)
Definition buildWalls (w : World T) : result (World T) :=
  w ← for_each (λ w i, createBox (sf.mkVector2 (sofZ 0) (sofZ (64 * i))) w) w (seqZ 0 12);
  w ← for_each (λ w i, createBox (sf.mkVector2 (sofZ (64 * i)) (sofZ 704)) w) w (seqZ 1 10);
  for_each (λ w i, createBox (sf.mkVector2 (sofZ 704) (sofZ (64 * i))) w) w (seqZ 0 12).

Definition shootSakura (position : sf.Vector2 T) (w : World T) : result (World T) :=
  '(sakura, w) ← createEntity "Sakura" w;
  let '(sprite, w) := createComponent new_SpriteComponent w in
  let '(hitbox, w) := createComponent new_HitboxComponent w in
  let '(movement, w) := createComponent new_MovementComponent w in
  let '(life, w) := createComponent (new_LifeComponent w) w in
  w ← configure sprite (update_sprite (setTexture 1)) w;
  s ← read_sprite (heap w) (Some sprite);
  w ← configure hitbox
        (set_hitbox (sf.mkRect (sf.x position) (sf.y position)
                               (sf.width (sf.getGlobalBounds s))
                               (sf.height (sf.getGlobalBounds s)))) w;
  w ← configure hitbox (set_isBlocking false) w;
  w ← configure movement
        (set_velocity (sf.mkVector2 (sofZ 0) (SAKURA_VELOCITY (constants w)))) w;
  w ← configure life (set_lifepoints 1) w;
  w ← attach sakura sprite w;
  w ← attach sakura hitbox w;
  w ← attach sakura movement w;
  attach sakura life w.

Definition with_player (p : option EntityPtr) (w : World T) : World T :=
  mkWorld (heap w) (m_entities w) (m_components w) (m_eventQueue w) p
    (m_isRunning w) (m_colorAffinity w) (m_score w) (m_combo w)
    (m_lastSugoiDisplay w) (m_lastAffinityChange w) (constants w) (m_lastid w)
    (rand_calls w) (audio w).

Definition addPlayer (w : World T) : result (World T) :=
  '(player, w) ← createEntity "Player" w;
  let w := with_player (Some player) w in
  let '(sprite, w) := createComponent new_SpriteComponent w in
  let '(hitbox, w) := createComponent new_HitboxComponent w in
  let '(movement, w) := createComponent new_MovementComponent w in
  let '(life, w) := createComponent (new_LifeComponent w) w in
  w ← configure sprite (update_sprite (setTexture 2)) w;
  s ← read_sprite (heap w) (Some sprite);
  w ← configure hitbox
        (set_hitbox (sf.mkRect (sofZ 65) (sofZ 640)
                               (sf.width (sf.getGlobalBounds s))
                               (sf.height (sf.getGlobalBounds s)))) w;
  w ← configure movement (set_velocity (sf.mkVector2 (sofZ 0) (sofZ 0))) w;
  w ← configure life (set_lifepoints (to_int (LIFE_POINTS (constants w)))) w;
  w ← attach player sprite w;
  w ← attach player hitbox w;
  w ← attach player movement w;
  attach player life w.

(** [65 + ((std::rand() * 1000) % 576)] *)
Definition randomX (r : Z) : Z := 65 + Z.rem (int32 (r * 1000)) 576.
(** [64 * (rand() % (int)(3 + 1))] *)
Definition randomColor (r : Z) : Z := 64 * Z.rem r 4.

Definition createBall (w : World T) : result (World T) :=
  let x := randomX (rand (rand_calls w)) in
  let colour := randomColor (rand (S (rand_calls w))) in
  let w := with_rand_calls (rand_calls w + 2) w in
  '(box, w) ← createEntity "Ball" w;
  let '(sprite, w) := createComponent new_SpriteComponent w in
  let '(hitbox, w) := createComponent new_HitboxComponent w in
  let '(movement, w) := createComponent new_MovementComponent w in
  let '(life, w) := createComponent (new_LifeComponent w) w in
  w ← configure sprite (update_sprite (setTexture 3)) w;
  w ← configure sprite (update_sprite (sf.setTextureRect (sf.mkRect colour 0 64 64))) w;
  w ← configure hitbox
        (set_hitbox (sf.mkRect (sofZ x) (sneg (sofZ 64)) (sofZ 64) (sofZ 64))) w;
  w ← configure hitbox (set_isBlocking false) w;
  w ← configure movement
        (set_velocity (sf.mkVector2 (sofZ 0) (BALL_VELOCITY (constants w)))) w;
  w ← configure life (set_lifepoints 1) w;
  w ← attach box sprite w;
  w ← attach box hitbox w;
  w ← attach box movement w;
  attach box life w.

(** The constructor of [World]. [Entity::m_lastid] and the position in
    the sequence of [std::rand] are global: they come from outside. The
    player is not set before [init]. *)
Definition new_World (difficulty : Difficulty) (lastid : nat) (rand_calls : nat)
    : World T :=
  mkWorld (mkStore ∅ ∅) [] [] [] None true sf.Red 0 0 (seconds (sofZ 1000)) sf.Time_Zero
    (constants_of difficulty) lastid rand_calls [].

(** [World::init], after the assets are loaded. *)
Definition World_init (w : World T) : result (World T) :=
  let w := call (play firstMusic) w in
  w ← addPlayer w;
  buildWalls w.

(** [renderColorAffinity]: the rectangle of the ball image shown for the
    current affinity. The sprite is new and is given the texture of the
    balls first: for any other colour its rectangle stays the whole
    texture. *)
Definition affinity_rect (c : sf.Color) : sf.Rect Z :=
  if bool_decide (c = sf.Red) then sf.mkRect 0 0 64 64
  else if bool_decide (c = sf.Blue) then sf.mkRect 64 0 64 64
  else if bool_decide (c = sf.Green) then sf.mkRect (64 * 2) 0 64 64
  else if bool_decide (c = sf.Yellow) then sf.mkRect (64 * 3) 0 64 64
  else sf.getTextureRect (setTexture 3 new_Sprite).

(** ** [World::update], from its beginning *)

(** The state of the keyboard and of the two musics when the tick starts. *)
Record Input := mkInput {
  key_Space : bool;
  key_Q : bool;
  key_D : bool;
  firstMusic_playing : bool;
  secondMusic_playing : bool;
}.

(** The members of [World] that only the beginning of [update] uses,
    beside the world itself. *)
Record Game := mkGame {
  world : World T;
  m_lastSakuraShoot : sf.Time;
  m_lastBallSpawn : sf.Time;
  m_lastMusic : Z;
}.

(** The world of [main], constructed and initialised. *)
Definition new_Game (difficulty : Difficulty) (lastid : nat) (rand_calls : nat)
    : result Game :=
  w ← World_init (new_World difficulty lastid rand_calls);
  Ok (mkGame w sf.Time_Zero sf.Time_Zero 0).

Definition updatePlaylist (input : Input) (g : Game) : Game :=
  let silent := negb (firstMusic_playing input) && negb (secondMusic_playing input) in
  if silent && (m_lastMusic g =? 0) then
    mkGame (call (play secondMusic) (world g)) (m_lastSakuraShoot g) (m_lastBallSpawn g) 1
  else if silent && (m_lastMusic g =? 1) then
    mkGame (call (play firstMusic) (world g)) (m_lastSakuraShoot g) (m_lastBallSpawn g) 0
  else g.

(** [if(dt.asSeconds() > 0.5f) dt = sf::seconds(0.5f);] *)
Definition clamp_dt (dt : sf.Time) : sf.Time :=
  if sgtb (sf.asSeconds dt) (sdiv (sofZ 1) (sofZ 2) : T)
  then seconds (sdiv (sofZ 1) (sofZ 2))
  else dt.

Definition set_velocity_x (vx : T) (c : Component T) : option (Component T) :=
  match c with
  | MovementComponent v => Some (MovementComponent (sf.mkVector2 vx (sf.y v)))
  | _ => None
  end.

(** Where a projectile leaves from, given the hitbox of the player. *)
Definition muzzle (box : sf.Rect T) : sf.Vector2 T :=
  sf.mkVector2
    (ssub (sadd (sf.left box) (sdiv (sf.width box) (sofZ 2)))
          (sdiv (sofZ (texture_size 1).1) (sofZ 2)))
    (ssub (ssub (sf.top box) (sdiv (sf.height box) (sofZ 2)))
          (sdiv (sofZ (texture_size 1).2) (sofZ 2))).

(** [/// Real-time input.] and [/// Gameplay logic.] *)
Definition World_input (input : Input) (g : Game) : result Game :=
  let w := world g in
  match m_player w with
  | None => Fault NullDereference
  | Some player =>
      movement ← getComponent (heap w) player MovementCap "Movement";
      w ← (σ ← write (heap w) movement (set_velocity (sf.mkVector2 (sofZ 0) (sofZ 0)));
           Ok (with_heap σ w));
      '(w, lastSakuraShoot) ←
        (if key_Space input
            && (sf.milliseconds (to_int (SHOOT_INTERVAL (constants w))) <? m_lastSakuraShoot g)
         then
           hitbox ← getComponent (heap w) player HitboxCap "Hitbox";
           '(box, _) ← read_hitbox (heap w) hitbox;
           w ← shootSakura (muzzle box) w;
           Ok (w, sf.Time_Zero)
         else Ok (w, m_lastSakuraShoot g));
      w ← (if key_Q input then
             σ ← write (heap w) movement (set_velocity_x (sneg (PLAYER_SPEED (constants w))));
             Ok (with_heap σ w)
           else if key_D input then
             σ ← write (heap w) movement (set_velocity_x (PLAYER_SPEED (constants w)));
             Ok (with_heap σ w)
           else Ok w);
      '(w, lastBallSpawn) ←
        (if sf.milliseconds (to_int (BALLS_INTERVAL (constants w))) <? m_lastBallSpawn g
         then w ← createBall w; Ok (w, sf.Time_Zero)
         else Ok (w, m_lastBallSpawn g));
      Ok (mkGame w lastSakuraShoot lastBallSpawn (m_lastMusic g))
  end.

(** [/// Update the timers.] *)
Definition World_timers (dt : sf.Time) (g : Game) : Game :=
  let w := world g in
  mkGame
    (with_lastAffinityChange (m_lastAffinityChange w + dt)
       (with_lastSugoiDisplay (m_lastSugoiDisplay w + dt) w))
    (m_lastSakuraShoot g + dt) (m_lastBallSpawn g + dt) (m_lastMusic g).

Definition World_animations (dt : sf.Time) (w : World T) : result (World T) :=
  σ ← AnimationSystem_update dt (m_entities w) (heap w);
  Ok (with_heap σ w).

(** [World::update] *)
Definition World_update (input : Input) (dt : sf.Time) (g : Game) : result Game :=
  let g := updatePlaylist input g in
  let dt := clamp_dt dt in
  let g := World_timers dt g in
  g ← World_input input g;
  w ← World_animations dt (world g);
  w ← World_update_systems dt w;
  Ok (mkGame w (m_lastSakuraShoot g) (m_lastBallSpawn g) (m_lastMusic g)).

(** ** [World::render] *)

(** What is drawn on the window. A text is drawn with its background,
    and stands here for both; the image of the affinity is scaled and put
    at the right top of the window. *)
Inductive Draw :=
  | draw_vertices (m_vertices : list (sf.Vertex T))
  | draw_sprite (sprite : sf.Sprite T)
  | draw_heart (position : sf.Vector2 T)
  | draw_score (m_score : Z)
  | draw_combo (m_combo : Z) (special : bool)
  | draw_affinity (rectangle : sf.Rect Z)
  | draw_sugoi.

(** [ParticleRenderSystem::update] *)
Definition ParticleRenderSystem_entity (σ : Store T) (drawn : list Draw) (e : EntityPtr)
    : result (list Draw) :=
  hasParticle ← hasComponent σ e "Particle";
  if negb hasParticle then Ok drawn else
  particles ← getComponent σ e ParticleCap "Particle";
  c ← deref σ particles;
  match c with
  | ParticleComponent _ _ _ m_vertices _ => Ok (drawn ++ [draw_vertices m_vertices])
  | _ => Fault DanglingPointer
  end.

Definition ParticleRenderSystem_update (entities : list EntityPtr) (σ : Store T)
    (drawn : list Draw) : result (list Draw) :=
  for_each (ParticleRenderSystem_entity σ) drawn entities.

(** The size of the view of the window [main] opens. *)
Definition view_size : sf.Vector2 T := sf.mkVector2 (sofZ 768) (sofZ 768).

(** [SpriteRenderSystem::update] *)
Definition SpriteRenderSystem_entity (σ : Store T) (drawn : list Draw) (e : EntityPtr)
    : result (list Draw) :=
  let viewHitbox := sf.mkRect (sofZ 0) (sofZ 0) (sf.x view_size) (sf.y view_size) in
  hasSprite ← hasComponent σ e "Sprite";
  if negb hasSprite then Ok drawn else
  sprite ← getComponent σ e SpriteCap "Sprite";
  s ← read_sprite σ sprite;
  if sf.intersects viewHitbox (sf.getGlobalBounds s)
  then Ok (drawn ++ [draw_sprite s])
  else Ok drawn.

Definition SpriteRenderSystem_update (entities : list EntityPtr) (σ : Store T)
    (drawn : list Draw) : result (list Draw) :=
  for_each (SpriteRenderSystem_entity σ) drawn entities.

(** [renderPlayerLife]: a heart for each life point. *)
Definition renderPlayerLife (w : World T) (drawn : list Draw) : result (list Draw) :=
  match m_player w with
  | None => Fault NullDereference
  | Some player =>
      life ← getComponent (heap w) player LifeCap "Life";
      '(lifepoints, _) ← read_life (heap w) life;
      Ok (drawn
          ++ ((λ i, draw_heart
                      (sf.mkVector2 (sadd (sofZ 20) (smul (sofZ i) (sofZ 40))) (sofZ 720)))
              <$> seqZ 0 lifepoints))
  end.

(** [m_combo > COMBO_MIN && m_combo % SUGOI_COMBO == 0
     && m_lastSugoiDisplay < sf::seconds(1.5f)] *)
Definition sugoi_shown (w : World T) : result bool :=
  if above_COMBO_MIN w then
    if SUGOI_COMBO (constants w) =? 0 then Fault DivisionByZero
    else Ok ((Z.rem (m_combo w) (SUGOI_COMBO (constants w)) =? 0)
             && (m_lastSugoiDisplay w <? seconds (sdiv (sofZ 3) (sofZ 2))))
  else Ok false.

(** [World::render] *)
Definition World_render (w : World T) : result (list Draw) :=
  drawn ← ParticleRenderSystem_update (m_entities w) (heap w) [];
  drawn ← SpriteRenderSystem_update (m_entities w) (heap w) drawn;
  drawn ← renderPlayerLife w drawn;
  let drawn := drawn ++ [draw_score (m_score w)] in
  let drawn := drawn ++ [draw_combo (m_combo w) (above_COMBO_MIN w)] in
  let drawn := drawn ++ [draw_affinity (affinity_rect (m_colorAffinity w))] in
  sugoi ← sugoi_shown w;
  Ok (if (sugoi : bool) then drawn ++ [draw_sugoi] else drawn).

(** The game loop of [main]: for each frame one [update] and one
    [render], until the world stops running. It gives the last state of
    the game and what each frame showed. *)
Fixpoint run (frames : list (Input * sf.Time)) (g : Game) (shown : list (list Draw))
    : result (Game * list (list Draw)) :=
  match frames with
  | [] => Ok (g, shown)
  | (input, dt) :: rest =>
      g ← World_update input dt g;
      drawn ← World_render (world g);
      if m_isRunning (world g) then run rest g (shown ++ [drawn])
      else Ok (g, shown ++ [drawn])
  end.

(** ** [World::~World] *)

(** [delete p]: the object must be there. *)
Definition delete_entity (σ : Store T) (e : EntityPtr) : result (Store T) :=
  match entity_mem σ !! e with
  | Some _ => Ok (mkStore (delete e (entity_mem σ)) (component_mem σ))
  | None => Fault DanglingPointer
  end.

Definition delete_component (σ : Store T) (a : ComponentPtr) : result (Store T) :=
  match component_mem σ !! a with
  | Some _ => Ok (mkStore (entity_mem σ) (delete a (component_mem σ)))
  | None => Fault DanglingPointer
  end.

(** The destructor deletes what the two registries list. The destructor
    of an entity is the implicit one: it deletes no component. *)
Definition World_destructor (w : World T) : result (Store T) :=
  σ ← for_each delete_entity (heap w) (m_entities w);
  for_each delete_component σ (m_components w).

End Factories.
Arguments Game T : clear implicits.
Arguments Draw T : clear implicits.

(** * Properties *)

(** ** Vocabulary of the statements *)

Section Vocabulary.
Context {T : Type}.

(** A particle pool has a vertex for each particle. *)
Definition pool_ok (c : Component T) : bool :=
  match c with
  | ParticleComponent _ _ m_particles m_vertices _ =>
      bool_decide (length m_particles ≤ length m_vertices)%nat
  | _ => true
  end.

(** The object stored under [name] is of the class that carries this name. *)
Definition well_named (name : string) (c : Component T) : bool :=
  bool_decide (getName c = name)
  && bool_decide (dynamic_class c ≠ AnyComponent)
  && pool_ok c.

Definition slot_ok (σ : Store T) (name : string) (a : ComponentPtr) : bool :=
  match component_mem σ !! a with
  | Some c => well_named name c
  | None => false
  end.

(** [e] points to an entity whose components are all allocated under
    their own names, a deletion marker among them: what the factories of
    the world build. *)
Definition entity_ok (σ : Store T) (e : EntityPtr) : bool :=
  match entity_mem σ !! e with
  | Some ent =>
      bool_decide (map_Forall (λ name a, slot_ok σ name a = true) (m_components_of ent))
      && bool_decide (is_Some (m_components_of ent !! "DeletionMarker"))
  | None => false
  end.

Definition has (σ : Store T) (e : EntityPtr) (name : string) : bool :=
  match entity_mem σ !! e with
  | Some ent => bool_decide (is_Some (m_components_of ent !! name))
  | None => false
  end.

Definition name_of (σ : Store T) (e : EntityPtr) : option string :=
  m_name <$> entity_mem σ !! e.

(** The component stored by [e] under [name]. *)
Definition component_of (σ : Store T) (e : EntityPtr) (name : string)
    : option (Component T) :=
  ent ← entity_mem σ !! e;
  a ← m_components_of ent !! name;
  component_mem σ !! a.

(** The deletion marker of [e] is set. *)
Definition marked (σ : Store T) (e : EntityPtr) : bool :=
  match component_of σ e "DeletionMarker" with
  | Some (DeletionMarkerComponent d) => d
  | _ => false
  end.

Definition lifepoints_of (σ : Store T) (e : EntityPtr) : option Z :=
  match component_of σ e "Life" with
  | Some (LifeComponent lifepoints _) => Some lifepoints
  | _ => None
  end.

Definition alive_of (σ : Store T) (e : EntityPtr) : option bool :=
  match component_of σ e "Life" with
  | Some (LifeComponent _ alive) => Some alive
  | _ => None
  end.

(** [e] has a life component with no life point left. *)
Definition lifeless (σ : Store T) (e : EntityPtr) : bool :=
  match lifepoints_of σ e with
  | Some lifepoints => lifepoints <=? 0
  | None => false
  end.

(** The addresses of the components of [e]. *)
Definition components_of (σ : Store T) (e : EntityPtr) : list ComponentPtr :=
  match entity_mem σ !! e with
  | Some ent => (map_to_list (m_components_of ent)).*2
  | None => []
  end.

(** What a component may become while staying the same object: its name
    and class stay, a pool keeps a vertex for each particle, a set deletion
    marker stays set. *)
Definition evolves (c c' : Component T) : Prop :=
  getName c = getName c'
  ∧ dynamic_class c = dynamic_class c'
  ∧ (pool_ok c = true → pool_ok c' = true)
  ∧ (c = DeletionMarkerComponent true → c' = DeletionMarkerComponent true).

(** The heap [σ'] has every entity of [σ], unchanged, and every component
    of [σ], evolved. *)
Definition extends (σ σ' : Store T) : Prop :=
  entity_mem σ ⊆ entity_mem σ'
  ∧ ∀ a c, component_mem σ !! a = Some c →
           ∃ c', component_mem σ' !! a = Some c' ∧ evolves c c'.

(** What the life system may do to a component: a life keeps its points,
    and once marked as not alive it stays so; anything else is left alone. *)
Definition life_step (c c' : Component T) : Prop :=
  match c, c' with
  | LifeComponent lp al, LifeComponent lp' al' => lp = lp' ∧ (al = false → al' = false)
  | _, _ => c = c'
  end.

(** The entities are those of [σ] and every component made a [life_step]. *)
Definition same_lives (σ σ' : Store T) : Prop :=
  entity_mem σ' = entity_mem σ
  ∧ ∀ a, option_Forall2 life_step (component_mem σ !! a) (component_mem σ' !! a).

(** Entities named after a projectile, a ball or the player carry a life
    and a sprite. *)
Definition tagged_ok (σ : Store T) (e : EntityPtr) : bool :=
  entity_ok σ e
  && match name_of σ e with
     | Some name =>
         if bool_decide (name = "Sakura") || bool_decide (name = "Ball")
            || bool_decide (name = "Player")
         then has σ e "Life" && has σ e "Sprite"
         else true
     | None => false
     end.

(** What the physics system sees of [snd] while it moves [fst]: the
    hitbox of another entity, if it has one. *)
Definition obstacle (σ : Store T) (fst snd : EntityPtr) : option (sf.Rect T * bool) :=
  if bool_decide (fst = snd) then None
  else match component_of σ snd "Hitbox" with
       | Some (HitboxComponent hitbox isBlocking) => Some (hitbox, isBlocking)
       | _ => None
       end.

Definition obstacles (σ : Store T) (fst : EntityPtr) (entities : list EntityPtr)
    : list (sf.Rect T * bool) :=
  omap (obstacle σ fst) entities.

(** The events the collision-effects system pushes: a hit of the player,
    or a destroyed ball with its colour and centre. *)
Definition effect_event (event : Event T) : Prop :=
  event = mkEvent PlayerHit None
  ∨ ∃ color center,
      event = mkEvent ColoredBallShot (Some (ColoredBallShotData color center)).

End Vocabulary.

(** One of the four tests of the physics system holds. *)
Definition side_contact `{Scalar T} (fstBox sndBox : sf.Rect T) : bool :=
  from_bottom fstBox sndBox || from_top fstBox sndBox
  || from_right fstBox sndBox || from_left fstBox sndBox.

(** ** Concrete situations *)

(** A ball already hit: no life point left, marked for deletion. *)
Definition hit_ball : Store binary32.t :=
  mkStore
    {[ 0%nat := mkEntity 0 "Ball" {[ "DeletionMarker" := 0%nat; "Life" := 1%nat ]} ]}
    {[ 0%nat := DeletionMarkerComponent true; 1%nat := LifeComponent 0 true ]}.

(** The same ball once the life system has seen it. *)
Definition hit_ball_seen : Store binary32.t :=
  mkStore
    {[ 0%nat := mkEntity 0 "Ball" {[ "DeletionMarker" := 0%nat; "Life" := 1%nat ]} ]}
    {[ 0%nat := DeletionMarkerComponent true; 1%nat := LifeComponent 0 false ]}.

(** The components [shootSakura] and [createBall] give a projectile and a
    ball: a 16 by 16 projectile at (110, 170) going up, a blue ball (second
    band of the texture) of 64 by 64 at (100, 100) coming down. *)
Definition sakura_components (lifepoints : Z) (toDelete : bool)
    : list (ComponentPtr * Component binary32.t) :=
  [ (0%nat, DeletionMarkerComponent toDelete);
    (1%nat, SpriteComponent
              (sf.mkSprite (sf.mkRect 0 0 16 16) (sf.mkVector2 (sofZ 110) (sofZ 170))));
    (2%nat, HitboxComponent (sf.mkRect (sofZ 110) (sofZ 170) (sofZ 16) (sofZ 16)) false);
    (3%nat, MovementComponent (sf.mkVector2 (sofZ 0) (sofZ (-300))));
    (4%nat, LifeComponent lifepoints true) ].

Definition ball_components (lifepoints : Z) (toDelete : bool)
    : list (ComponentPtr * Component binary32.t) :=
  [ (5%nat, DeletionMarkerComponent toDelete);
    (6%nat, SpriteComponent
              (sf.mkSprite (sf.mkRect 64 0 64 64) (sf.mkVector2 (sofZ 100) (sofZ 100))));
    (7%nat, HitboxComponent (sf.mkRect (sofZ 100) (sofZ 100) (sofZ 64) (sofZ 64)) false);
    (8%nat, MovementComponent (sf.mkVector2 (sofZ 0) (sofZ 300)));
    (9%nat, LifeComponent lifepoints true) ].

Definition sakura : EntityPtr := 0%nat.
Definition ball : EntityPtr := 1%nat.

Definition sakura_entity : Entity :=
  mkEntity 0 "Sakura"
    {[ "DeletionMarker" := 0%nat; "Sprite" := 1%nat; "Hitbox" := 2%nat;
       "Movement" := 3%nat; "Life" := 4%nat ]}.

Definition ball_entity : Entity :=
  mkEntity 1 "Ball"
    {[ "DeletionMarker" := 5%nat; "Sprite" := 6%nat; "Hitbox" := 7%nat;
       "Movement" := 8%nat; "Life" := 9%nat ]}.

(** A projectile and a ball in flight. *)
Definition sakura_and_ball : Store binary32.t :=
  mkStore {[ sakura := sakura_entity; ball := ball_entity ]}
          (list_to_map (sakura_components 1 false ++ ball_components 1 false)).

(** Both of them hit. *)
Definition sakura_and_ball_hit : Store binary32.t :=
  mkStore {[ sakura := sakura_entity; ball := ball_entity ]}
          (list_to_map (sakura_components 0 true ++ ball_components 0 true)).

(** A projectile and an entity named as a ball that has no life. *)
Definition ball_without_life : Store binary32.t :=
  mkStore
    {[ sakura := sakura_entity;
       ball := mkEntity 1 "Ball"
                 {[ "DeletionMarker" := 5%nat; "Sprite" := 6%nat; "Hitbox" := 7%nat;
                    "Movement" := 8%nat ]} ]}
    (list_to_map (sakura_components 1 false ++ ball_components 1 false)).

(** An environment in which [std::rand] always returns 0: every particle
    leaves at angle 0, where the cosine is 1 and the sine 0. *)
Definition calm `{Scalar T} : Environment T :=
  {| cosf := λ _, sofZ 1; sinf := λ _, sofZ 0; rand := λ _, 0 |}.

(** A world in the middle of a tick: the hit ball is still registered, and
    the event of its destruction waits in the queue. *)
Definition mid_tick (m_combo : Z) : World binary32.t :=
  mkWorld hit_ball [0%nat] [0%nat; 1%nat]
    [mkEvent ColoredBallShot
       (Some (ColoredBallShotData sf.Red (sf.mkVector2 (sofZ 132) (sofZ 132))))]
    None true sf.Red 0 m_combo 0 0
    (mkConstants (sofZ 5) (sofZ 5) (sofZ 300) (sneg (sofZ 300)) 10
                 (sofZ 750) (sofZ 500) (sofZ 250) (sofZ 25))
    1 0 [].

(** A frame at 60 images per second, in microseconds. *)
Definition frame : sf.Time := 16662.

(** A box resting one unit above another, and falling. *)
Definition upper_box `{Scalar T} : sf.Rect T := sf.mkRect (sofZ 0) (sofZ 0) (sofZ 10) (sofZ 10).
Definition lower_box `{Scalar T} : sf.Rect T := sf.mkRect (sofZ 0) (sofZ 11) (sofZ 10) (sofZ 10).
Definition falling `{Scalar T} : sf.Vector2 T := sf.mkVector2 (sofZ 0) (sofZ 100).

(** A box overlapping [upper_box], and a slow diagonal move. *)
Definition inner_box `{Scalar T} : sf.Rect T := sf.mkRect (sofZ 5) (sofZ 5) (sofZ 10) (sofZ 10).
Definition drifting `{Scalar T} : sf.Vector2 T := sf.mkVector2 (sofZ 50) (sofZ 50).

(** A thin box nine units above the floor, falling fast enough to reach it
    in a frame of 33333 microseconds. *)
Definition thin_box `{Scalar T} : sf.Rect T := sf.mkRect (sofZ 0) (sofZ 0) (sofZ 10) (sofZ 1).
Definition floor_box `{Scalar T} : sf.Rect T := sf.mkRect (sofZ 0) (sofZ 10) (sofZ 10) (sofZ 10).
Definition fast `{Scalar T} : sf.Vector2 T := sf.mkVector2 (sofZ 0) (sofZ 300).

(** A box out of reach, and the velocity of the player running to the
    right. *)
Definition far_box `{Scalar T} : sf.Rect T := sf.mkRect (sofZ 100) (sofZ 100) (sofZ 10) (sofZ 10).
Definition running `{Scalar T} : sf.Vector2 T := sf.mkVector2 (sofZ 500) (sofZ 0).

(** The player as [addPlayer] builds it, taking its texture to be 64 by
    64: a blocking hitbox at (65, 640) and five life points. *)
Definition player : EntityPtr := 2%nat.

Definition player_components : list (ComponentPtr * Component binary32.t) :=
  [ (10%nat, DeletionMarkerComponent false);
    (11%nat, SpriteComponent
               (sf.mkSprite (sf.mkRect 0 0 64 64) (sf.mkVector2 (sofZ 65) (sofZ 640))));
    (12%nat, HitboxComponent (sf.mkRect (sofZ 65) (sofZ 640) (sofZ 64) (sofZ 64)) true);
    (13%nat, MovementComponent (sf.mkVector2 (sofZ 0) (sofZ 0)));
    (14%nat, LifeComponent 5 true) ].

Definition player_entity : Entity :=
  mkEntity 2 "Player"
    {[ "DeletionMarker" := 10%nat; "Sprite" := 11%nat; "Hitbox" := 12%nat;
       "Movement" := 13%nat; "Life" := 14%nat ]}.

(** A game in progress: the player, and a projectile six units under a
    ball, registered before it. *)
Definition in_flight : World binary32.t :=
  mkWorld
    (mkStore {[ sakura := sakura_entity; ball := ball_entity; player := player_entity ]}
       (list_to_map (sakura_components 1 false ++ ball_components 1 false
                     ++ player_components)))
    [player; sakura; ball] (seq 0 15) [] (Some player) true sf.Blue 0 0 0 0
    (constants_of NORMAL) 3 0 [].

(** An explosion ten milliseconds before the end of its two seconds, with
    two particles left. *)
Definition spark : Store binary32.t :=
  mkStore
    {[ 0%nat := mkEntity 0 "Explosion" {[ "DeletionMarker" := 0%nat; "Particle" := 1%nat ]} ]}
    {[ 0%nat := DeletionMarkerComponent false;
       1%nat := ParticleComponent sf.Red (sf.mkVector2 (sofZ 132) (sofZ 132))
                  [ mkParticle (sf.mkVector2 (sofZ 20) (sofZ 0)) 10000;
                    mkParticle (sf.mkVector2 (sofZ 0) (sofZ 20)) 500000 ]
                  [ sf.mkVertex (sf.mkVector2 (sofZ 172) (sofZ 132)) sf.Red
                                (sf.mkVector2 (sofZ 0) (sofZ 0));
                    sf.mkVertex (sf.mkVector2 (sofZ 132) (sofZ 172)) sf.Red
                                (sf.mkVector2 (sofZ 0) (sofZ 0)) ]
                  1990000 ]}.

(** An expired explosion that was given no deletion marker. *)
Definition spark_without_marker : Store binary32.t :=
  mkStore
    {[ 0%nat := mkEntity 0 "Explosion" {[ "Particle" := 1%nat ]} ]}
    {[ 1%nat := ParticleComponent sf.Red (sf.mkVector2 (sofZ 132) (sofZ 132)) [] []
                  1990000 ]}.

(** ** Vocabulary of the statements about the world *)

Section World_vocabulary.
Context {T : Type}.

(** The handler of [event] finds what it dereferences: the life of the
    player for a hit, the payload for a destroyed ball. *)
Definition event_ok (w : World T) (event : Event T) : bool :=
  if eventType event =? PlayerHit then
    match m_player w with
    | Some player => entity_ok (heap w) player && has (heap w) player "Life"
    | None => false
    end
  else if eventType event =? ColoredBallShot then
    match eventData event with
    | Some (ColoredBallShotData _ _) => true
    | _ => false
    end
  else true.

(** A world as its factories and systems leave it: every registered
    entity is [entity_ok], every queued event can be handled, the combo
    milestone is not zero, and the component registry lists allocated
    components, each once. *)
Definition world_ok (w : World T) : bool :=
  forallb (entity_ok (heap w)) (m_entities w)
  && forallb (event_ok w) (m_eventQueue w)
  && negb (SUGOI_COMBO (constants w) =? 0)
  && bool_decide (NoDup (m_components w))
  && forallb (λ a, bool_decide (is_Some (component_mem (heap w) !! a))) (m_components w).

(** From [w] to [w']: the heap is extended, the registries only grow at
    their end, the player and the constants stay. *)
Definition grows (w w' : World T) : Prop :=
  extends (heap w) (heap w')
  ∧ m_entities w `prefix_of` m_entities w'
  ∧ m_components w `prefix_of` m_components w'
  ∧ m_player w' = m_player w
  ∧ constants w' = constants w.

(** [w'] differs from [w] in the score, the combo, the timers, the flags
    and the audio trace at most. *)
Definition same_registry (w w' : World T) : Prop :=
  heap w' = heap w
  ∧ m_entities w' = m_entities w
  ∧ m_components w' = m_components w
  ∧ m_eventQueue w' = m_eventQueue w
  ∧ m_player w' = m_player w
  ∧ constants w' = constants w.

End World_vocabulary.

(** The particle emitter of an explosion, once configured. *)
Definition explosion_particles `{Scalar T} `{Environment T}
    (color : sf.Color) (position : sf.Vector2 T) (n : nat) : Component T :=
  ParticleComponent color position (new_Particles pool_size n)
    (init_vertices color position (length (new_Particles pool_size n))
       (replicate pool_size new_Vertex))
    sf.Time_Zero.

(** ** Vocabulary of the further statements *)

Section More_vocabulary.
Context {T : Type}.

(** The address [e] holds under [name]. *)
Definition slot (σ : Store T) (e : EntityPtr) (name : string) : option ComponentPtr :=
  ent ← entity_mem σ !! e; m_components_of ent !! name.

(** What a pair of the collision record is made of: two different listed
    entities, the first with a hitbox and a movement, the second with a
    hitbox. *)
Definition recordable (σ : Store T) (entities : list EntityPtr)
    (collision : EntityPtr * EntityPtr) : Prop :=
  collision.1 ∈ entities ∧ collision.2 ∈ entities
  ∧ collision.1 ≠ collision.2
  ∧ has σ (collision.1) "Hitbox" = true
  ∧ has σ (collision.1) "Movement" = true
  ∧ has σ (collision.2) "Hitbox" = true.

(** The heap [σ'] has every entity of [σ], unchanged, and every component
    of [σ], changed as [R] allows. *)
Definition lifts (R : Component T → Component T → Prop) (σ σ' : Store T) : Prop :=
  entity_mem σ ⊆ entity_mem σ'
  ∧ ∀ a c, component_mem σ !! a = Some c →
           ∃ c', component_mem σ' !! a = Some c' ∧ R c c'.

(** The event is handled by [case EventType::PlayerHit]. *)
Definition is_PlayerHit (event : Event T) : bool := eventType event =? PlayerHit.

End More_vocabulary.

Section Film_vocabulary.
Context {T : Type}.

(** What may happen to a component while an animation keeps its frames
    and its speed. *)
Definition film_kept (c c' : Component T) : Prop :=
  match c with
  | AnimationComponent frames _ _ fps =>
      ∃ currentFrame lastFrame, c' = AnimationComponent frames currentFrame lastFrame fps
  | _ => True
  end.

(** The animation of [e], if it has one, has frames to show and a speed. *)
Definition film_ready (σ : Store T) (e : EntityPtr) : bool :=
  match component_of σ e "Animation" with
  | Some (AnimationComponent frames _ _ fps) => bool_decide (frames ≠ []) && negb (fps =? 0)
  | _ => true
  end.

(** From [σ] to [σ'] every object stays what it is, and every animation
    keeps its frames and its speed. *)
Definition steady (σ σ' : Store T) : Prop := extends σ σ' ∧ lifts film_kept σ σ'.

(** An entity as the factories of the world build it. *)
Definition ready (σ : Store T) (e : EntityPtr) : bool := tagged_ok σ e && film_ready σ e.

End Film_vocabulary.

Section Spawn_vocabulary.
Context {T : Type}.

(** The names under which the components [cs] are added to an entity. *)
Definition named (cs : list (ComponentPtr * Component T)) : list (string * ComponentPtr) :=
  (λ ac, (getName ac.2, ac.1)) <$> cs.

(** The world [w] with one more entity at the address [e], made of the
    components [cs], each at its address. *)
Definition spawned (w : World T) (e : EntityPtr) (name : string)
    (cs : list (ComponentPtr * Component T)) : World T :=
  mkWorld
    (mkStore (<[e := mkEntity (m_lastid w) name (list_to_map (named cs))]>
                (entity_mem (heap w)))
             (list_to_map cs ∪ component_mem (heap w)))
    (m_entities w ++ [e]) (m_components w ++ cs.*1) (m_eventQueue w) (m_player w)
    (m_isRunning w) (m_colorAffinity w) (m_score w) (m_combo w)
    (m_lastSugoiDisplay w) (m_lastAffinityChange w) (constants w)
    (S (m_lastid w)) (rand_calls w) (audio w).

(** The addresses [new] gives: free, and different from one another. *)
Definition fresh_for (w : World T) (e : EntityPtr) (addresses : list ComponentPtr) : Prop :=
  entity_mem (heap w) !! e = None
  ∧ NoDup addresses
  ∧ ∀ a, a ∈ addresses → component_mem (heap w) !! a = None.

(** A component of a class of the game, with a vertex for each particle
    and, for an animation, frames and a speed. *)
Definition component_ok (c : Component T) : bool :=
  bool_decide (dynamic_class c ≠ AnyComponent) && pool_ok c
  && match c with
     | AnimationComponent frames _ _ fps => bool_decide (frames ≠ []) && negb (fps =? 0)
     | _ => true
     end.

(** The player has what [World::update] asks of it. *)
Definition player_ready (w : World T) : bool :=
  match m_player w with
  | Some player =>
      entity_ok (heap w) player && has (heap w) player "Life"
      && has (heap w) player "Movement" && has (heap w) player "Hitbox"
  | None => false
  end.

(** Every registered entity is as the factories build them, and the
    player is there. *)
Definition manned (w : World T) : bool :=
  forallb (ready (heap w)) (m_entities w) && player_ready w.

(** A world as [init] and [update] leave it. *)
Definition settled (w : World T) : bool := world_ok w && manned w.

End Spawn_vocabulary.

(** The bounds of a new sprite that was given the texture [id]. *)
Definition image_size `{Scalar T} `{Assets} (id : Z) : sf.Rect T :=
  sf.getGlobalBounds (sf.mkSprite (sf.mkRect 0 0 (texture_size id).1 (texture_size id).2)
                                  (sf.mkVector2 (sofZ 0) (sofZ 0))).

(** A box of the walls at [position]: a blocking hitbox of 64 by 64. *)
Definition box_at `{Scalar T} (σ : Store T) (b : EntityPtr) (position : sf.Vector2 T)
    : Prop :=
  name_of σ b = Some "Box"
  ∧ component_of σ b "Hitbox"
    = Some (HitboxComponent
              (sf.mkRect (sf.x position) (sf.y position) (sofZ 64) (sofZ 64)) true).

(** From [w] to [w'], the entities [boxes] were added, each a box of the
    walls at its position; nothing that was there changed. *)
Definition walled `{Scalar T} (w w' : World T)
    (boxes : list (EntityPtr * sf.Vector2 T)) : Prop :=
  m_entities w' = m_entities w ++ boxes.*1
  ∧ Forall (λ b, box_at (heap w') b.1 b.2) boxes
  ∧ lifts eq (heap w) (heap w')
  ∧ m_player w' = m_player w
  ∧ m_eventQueue w' = m_eventQueue w
  ∧ m_isRunning w' = m_isRunning w
  ∧ m_score w' = m_score w
  ∧ m_combo w' = m_combo w
  ∧ constants w' = constants w
  ∧ audio w' = audio w.

(** Where [buildWalls] puts the boxes: the left wall, the bottom wall,
    the right wall. *)
Definition wall_positions `{Scalar T} : list (sf.Vector2 T) :=
  ((λ i, sf.mkVector2 (sofZ 0) (sofZ (64 * i))) <$> seqZ 0 12)
  ++ ((λ i, sf.mkVector2 (sofZ (64 * i)) (sofZ 704)) <$> seqZ 1 10)
  ++ ((λ i, sf.mkVector2 (sofZ 704) (sofZ (64 * i))) <$> seqZ 0 12).

(** The heart of the life point [i], and the draws that are hearts. *)
Definition heart `{Scalar T} (i : Z) : Draw T :=
  draw_heart (sf.mkVector2 (sadd (sofZ 20) (smul (sofZ i) (sofZ 40))) (sofZ 720)).

Definition is_heart {T} (d : Draw T) : bool :=
  match d with draw_heart _ => true | _ => false end.

(** The event is handled by [case EventType::ColoredBallShot]. *)
Definition is_ColoredBallShot {T} (event : Event T) : bool :=
  eventType event =? ColoredBallShot.

(** The computation did not stop on a null pointer: it ran to its end, or
    stopped on a fault of another kind. *)
Definition null_safe {A} (r : result A) : Prop := r ≠ Fault NullDereference.

(** ** Further situations *)

(** The player running to the right, its hitbox one unit from a ball
    that comes down beside it. The player is registered first, as [init]
    has it. *)
Definition running_into_a_ball : World binary32.t :=
  mkWorld
    (mkStore {[ ball := ball_entity; player := player_entity ]}
       (list_to_map
          ([ (5%nat, DeletionMarkerComponent false);
             (6%nat, SpriteComponent
                       (sf.mkSprite (sf.mkRect 64 0 64 64)
                                    (sf.mkVector2 (sofZ 130) (sofZ 600))));
             (7%nat, HitboxComponent
                       (sf.mkRect (sofZ 130) (sofZ 600) (sofZ 64) (sofZ 64)) false);
             (8%nat, MovementComponent (sf.mkVector2 (sofZ 0) (sofZ 300)));
             (9%nat, LifeComponent 1 true);
             (10%nat, DeletionMarkerComponent false);
             (11%nat, SpriteComponent
                        (sf.mkSprite (sf.mkRect 0 0 64 64)
                                     (sf.mkVector2 (sofZ 65) (sofZ 640))));
             (12%nat, HitboxComponent
                        (sf.mkRect (sofZ 65) (sofZ 640) (sofZ 64) (sofZ 64)) true);
             (13%nat, MovementComponent (sf.mkVector2 (sofZ 500) (sofZ 0)));
             (14%nat, LifeComponent 5 true) ] : list (ComponentPtr * Component binary32.t))))
    [player; ball] (seq 5 10) [] (Some player) true sf.Blue 0 0 0 0
    (constants_of NORMAL) 3 0 [].

(** A box of the walls, at the last of its frames, a little before the
    end of the period of this frame. *)
Definition a_box (frames : list (sf.Rect Z)) : Store binary32.t :=
  mkStore
    {[ 0%nat := mkEntity 0 "Box"
                  {[ "DeletionMarker" := 0%nat; "Sprite" := 1%nat; "Hitbox" := 2%nat;
                     "Animation" := 3%nat ]} ]}
    {[ 0%nat := DeletionMarkerComponent false;
       1%nat := SpriteComponent
                  (sf.mkSprite (sf.mkRect 1088 64 64 64) (sf.mkVector2 (sofZ 0) (sofZ 64)));
       2%nat := HitboxComponent (sf.mkRect (sofZ 0) (sofZ 64) (sofZ 64) (sofZ 64)) true;
       3%nat := AnimationComponent frames 35 40000 24 ]}.

(** The player alone after its last hit: no life point left, and the
    event of the hit waiting in the queue. *)
Definition last_hit : World binary32.t :=
  mkWorld
    (mkStore {[ player := player_entity ]}
       (list_to_map
          ([ (10%nat, DeletionMarkerComponent false);
             (11%nat, SpriteComponent
                        (sf.mkSprite (sf.mkRect 0 0 64 64)
                                     (sf.mkVector2 (sofZ 65) (sofZ 640))));
             (12%nat, HitboxComponent
                        (sf.mkRect (sofZ 65) (sofZ 640) (sofZ 64) (sofZ 64)) true);
             (13%nat, MovementComponent (sf.mkVector2 (sofZ 0) (sofZ 0)));
             (14%nat, LifeComponent 0 true) ] : list (ComponentPtr * Component binary32.t))))
    [player] (seq 10 5) [mkEvent PlayerHit None] (Some player) true sf.Blue 7 3 0 0
    (constants_of NORMAL) 3 0 [].

(** Sizes taken for the images: the sheet of the animated box, 18 by 2
    frames of 64 by 64; a projectile of 16 by 16; the four balls side by
    side; 64 by 64 for the others. *)
Definition textures : Assets :=
  {| texture_size := λ id,
       if id =? 0 then (1152, 128)
       else if id =? 1 then (16, 16)
       else if id =? 3 then (256, 64)
       else (64, 64) |}.

(** The game in progress, the last projectile shot 0.3 s ago and the
    last ball created 0.8 s ago. *)
Definition a_game : Game binary32.t := mkGame in_flight 300000 800000 0.

(** The space bar and the two direction keys held, both musics over. *)
Definition all_keys : Input := mkInput true true true false false.

(** The world once [cleanEntities] has erased the projectile and the
    ball of [sakura_and_ball_hit]. *)
Definition before_the_sweep : World binary32.t :=
  mkWorld sakura_and_ball_hit [sakura; ball] (seq 0 10) [] None true sf.Blue 0 0 0 0
    (constants_of NORMAL) 2 0 [].

(** Two frames: all keys held for a sixtieth of a second, then the
    right key alone after a pause of 0.8 s. *)
Definition two_frames : list (Input * sf.Time) :=
  [(all_keys, frame); (mkInput false false true true false, 800000)].

(** ** Loops, heaps and what the passes keep *)

Lemma bind_Ok {A B} (f : A → result B) (a : A) : (Ok a ≫= f) = f a.
Proof. reflexivity. Qed.

Lemma bind_Fault {A B} (f : A → result B) (e : fault) : (Fault e ≫= f) = Fault e.
Proof. reflexivity. Qed.

Section Loops.
Context {A B : Type}.

Lemma for_each_nil (body : A → B → result A) st : for_each body st [] = Ok st.
Proof. reflexivity. Qed.

Lemma for_each_cons (body : A → B → result A) st b l :
  for_each body st (b :: l) = (body st b ≫= λ st', for_each body st' l).
Proof. reflexivity. Qed.

Lemma for_each_app (body : A → B → result A) st l1 l2 :
  for_each body st (l1 ++ l2) = (st' ← for_each body st l1; for_each body st' l2).
Proof.
  revert st. induction l1 as [|b l1 IH]; intros st; cbn; [done|].
  destruct (body st b) as [st'|f]; cbn; [apply IH|done].
Qed.

(** A loop whose body keeps an invariant [I] and moves the state along a
    preorder [R] runs to its end. *)
Lemma for_each_invariant (body : A → B → result A) (I : A → Prop) (R : A → A → Prop)
    `{!PreOrder R} l st :
  (∀ st x, x ∈ l → I st → ∃ st', body st x = Ok st' ∧ I st' ∧ R st st') →
  I st →
  ∃ st', for_each body st l = Ok st' ∧ I st' ∧ R st st'.
Proof.
  revert st. induction l as [|b l IH]; intros st Hbody HI; cbn.
  - exists st. done.
  - destruct (Hbody st b) as (st1 & -> & HI1 & HR1); [left|done|]. cbn.
    destruct (IH st1) as (st2 & -> & HI2 & HR2); [|done|].
    { intros ???. apply Hbody. by right. }
    exists st2. split; [done|]. split; [done|]. by etrans.
Qed.
End Loops.

Section Heap_facts.
Context {T : Type}.
Implicit Types (σ : Store T) (c : Component T).

Lemma dynamic_cast_ok_spec cap c :
  dynamic_cast_ok cap c = true ↔ cap = AnyComponent ∨ cap = dynamic_class c.
Proof.
  unfold dynamic_cast_ok. rewrite orb_true_iff, !bool_decide_eq_true. done.
Qed.

Lemma evolves_refl c : evolves c c.
Proof. by repeat split. Qed.

Lemma evolves_trans c1 c2 c3 : evolves c1 c2 → evolves c2 c3 → evolves c1 c3.
Proof.
  intros (?&?&?&?) (?&?&?&?). repeat split; [congruence|congruence|auto|auto].
Qed.

#[global] Instance extends_preorder : PreOrder (@extends T).
Proof.
  split.
  - intros σ. split; [done|]. intros a c Hc. exists c. split; [done|apply evolves_refl].
  - intros σ1 σ2 σ3 [He1 Hc1] [He2 Hc2]. split; [by etrans|].
    intros a c Hc. destruct (Hc1 a c Hc) as (c2 & H2 & Hev2).
    destruct (Hc2 a c2 H2) as (c3 & H3 & Hev3).
    exists c3. split; [done|]. by eapply evolves_trans.
Qed.

Lemma write_Ok σ p upd a c c' :
  p = Some a → component_mem σ !! a = Some c → upd c = Some c' →
  write σ p upd = Ok (store_component a c' σ).
Proof. intros -> Hc Hu. unfold write, deref. rewrite Hc. cbn. by rewrite Hu. Qed.

Lemma write_inv σ p upd σ' :
  write σ p upd = Ok σ' →
  ∃ a c c', p = Some a ∧ component_mem σ !! a = Some c ∧ upd c = Some c'
            ∧ σ' = store_component a c' σ.
Proof.
  unfold write, deref. destruct p as [a|]; [|done].
  destruct (component_mem σ !! a) as [c|] eqn:Hc; [|done]. cbn.
  destruct (upd c) as [c'|] eqn:Hu; [|done]. intros [= <-]. by exists a, c, c'.
Qed.

Lemma store_component_extends σ a c c' :
  component_mem σ !! a = Some c → evolves c c' → extends σ (store_component a c' σ).
Proof.
  intros Hc Hev. split; [done|]. intros b d Hd. cbn.
  destruct (decide (a = b)) as [->|Hne].
  - rewrite lookup_insert_eq. exists c'. split; [done|]. congruence.
  - rewrite lookup_insert_ne by done. exists d. split; [done|apply evolves_refl].
Qed.

Lemma set_velocity_evolves v c c' : set_velocity v c = Some c' → evolves c c'.
Proof. destruct c; intros [= <-]; by repeat split. Qed.
Lemma set_hitbox_evolves b c c' : set_hitbox b c = Some c' → evolves c c'.
Proof. destruct c; intros [= <-]; by repeat split. Qed.
Lemma set_lifepoints_evolves lp c c' : set_lifepoints lp c = Some c' → evolves c c'.
Proof. destruct c; intros [= <-]; by repeat split. Qed.
Lemma decrement_lifepoints_evolves c c' : decrement_lifepoints c = Some c' → evolves c c'.
Proof. destruct c; intros [= <-]; by repeat split. Qed.
Lemma set_alive_evolves al c c' : set_alive al c = Some c' → evolves c c'.
Proof. destruct c; intros [= <-]; by repeat split. Qed.
Lemma set_sprite_evolves s c c' : set_sprite s c = Some c' → evolves c c'.
Proof. destruct c; intros [= <-]; by repeat split. Qed.
Lemma set_toDelete_evolves c c' : set_toDelete true c = Some c' → evolves c c'.
Proof. destruct c; intros [= <-]; by repeat split. Qed.

(** What a well-named slot holds. *)
Lemma well_named_Life c : well_named "Life" c = true → ∃ lp al, c = LifeComponent lp al.
Proof.
  unfold well_named. rewrite !andb_true_iff, !bool_decide_eq_true.
  intros [[Hn Hc] _]. destruct c; cbn in *; try done. eauto.
Qed.
Lemma well_named_DeletionMarker c :
  well_named "DeletionMarker" c = true → ∃ d, c = DeletionMarkerComponent d.
Proof.
  unfold well_named. rewrite !andb_true_iff, !bool_decide_eq_true.
  intros [[Hn Hc] _]. destruct c; cbn in *; try done. eauto.
Qed.
Lemma well_named_Sprite c : well_named "Sprite" c = true → ∃ s, c = SpriteComponent s.
Proof.
  unfold well_named. rewrite !andb_true_iff, !bool_decide_eq_true.
  intros [[Hn Hc] _]. destruct c; cbn in *; try done. eauto.
Qed.
Lemma well_named_Particle c :
  well_named "Particle" c = true →
  ∃ col cen ps vs lt, c = ParticleComponent col cen ps vs lt ∧ (length ps ≤ length vs)%nat.
Proof.
  unfold well_named. rewrite !andb_true_iff, !bool_decide_eq_true.
  intros [[Hn Hc] Hp]. destruct c; cbn in *; try done.
  apply bool_decide_eq_true in Hp. eauto 10.
Qed.

Lemma well_named_evolves name c c' :
  well_named name c = true → evolves c c' → well_named name c' = true.
Proof.
  unfold well_named. rewrite !andb_true_iff, !bool_decide_eq_true.
  intros [[Hn Hc] Hp] (Hn' & Hc' & Hp' & _). rewrite <- Hn', <- Hc'. auto.
Qed.

Lemma entity_ok_inv σ e :
  entity_ok σ e = true →
  ∃ ent, entity_mem σ !! e = Some ent
         ∧ (∀ name a, m_components_of ent !! name = Some a →
              ∃ c, component_mem σ !! a = Some c ∧ well_named name c = true)
         ∧ is_Some (m_components_of ent !! "DeletionMarker").
Proof.
  unfold entity_ok. destruct (entity_mem σ !! e) as [ent|]; [|done].
  rewrite andb_true_iff, !bool_decide_eq_true. intros [Hall Hdm].
  exists ent. split; [done|]. split; [|done].
  intros name a Ha. specialize (Hall name a Ha). cbn in Hall.
  unfold slot_ok in Hall. destruct (component_mem σ !! a) as [c|]; [|done]. eauto.
Qed.

Lemma entity_ok_intro σ e ent :
  entity_mem σ !! e = Some ent →
  (∀ name a, m_components_of ent !! name = Some a →
     ∃ c, component_mem σ !! a = Some c ∧ well_named name c = true) →
  is_Some (m_components_of ent !! "DeletionMarker") →
  entity_ok σ e = true.
Proof.
  intros He Hall Hdm. unfold entity_ok. rewrite He.
  rewrite andb_true_iff, !bool_decide_eq_true. split; [|done].
  intros name a Ha. destruct (Hall name a Ha) as (c & Hc & Hw). cbn.
  unfold slot_ok. by rewrite Hc.
Qed.

Lemma extends_entity σ σ' e ent :
  extends σ σ' → entity_mem σ !! e = Some ent → entity_mem σ' !! e = Some ent.
Proof. intros [He _] H. by eapply lookup_weaken. Qed.

Lemma entity_ok_extends σ σ' e :
  extends σ σ' → entity_ok σ e = true → entity_ok σ' e = true.
Proof.
  intros Hext Hok. destruct (entity_ok_inv _ _ Hok) as (ent & He & Hall & Hdm).
  apply entity_ok_intro with ent; [by eapply extends_entity| |done].
  intros name a Ha. destruct (Hall name a Ha) as (c & Hc & Hw).
  destruct Hext as [_ Hext]. destruct (Hext a c Hc) as (c' & Hc' & Hev).
  exists c'. split; [done|]. by eapply well_named_evolves.
Qed.

Lemma has_extends σ σ' e name :
  extends σ σ' → has σ e name = true → has σ' e name = true.
Proof.
  intros Hext. unfold has. destruct (entity_mem σ !! e) as [ent|] eqn:He; [|done].
  by rewrite (extends_entity _ _ _ _ Hext He).
Qed.

Lemma name_of_extends σ σ' e n :
  extends σ σ' → name_of σ e = Some n → name_of σ' e = Some n.
Proof.
  intros Hext. unfold name_of. destruct (entity_mem σ !! e) as [ent|] eqn:He; [|done].
  by rewrite (extends_entity _ _ _ _ Hext He).
Qed.

Lemma marked_extends σ σ' e :
  extends σ σ' → marked σ e = true → marked σ' e = true.
Proof.
  intros Hext. unfold marked, component_of.
  destruct (entity_mem σ !! e) as [ent|] eqn:He; [|done].
  rewrite (extends_entity _ _ _ _ Hext He). cbn.
  destruct (m_components_of ent !! "DeletionMarker") as [a|]; [|done]. cbn.
  destruct (component_mem σ !! a) as [c|] eqn:Hc; [|done].
  destruct Hext as [_ Hext]. destruct (Hext a c Hc) as (c' & -> & (_ & _ & _ & Hm)).
  destruct c; try done. intros ->. by rewrite (Hm eq_refl).
Qed.

Lemma tagged_ok_extends σ σ' e :
  extends σ σ' → tagged_ok σ e = true → tagged_ok σ' e = true.
Proof.
  intros Hext. unfold tagged_ok. rewrite !andb_true_iff. intros [Hok Hn].
  split; [by eapply entity_ok_extends|].
  destruct (name_of σ e) as [n|] eqn:En; [|done].
  rewrite (name_of_extends _ _ _ _ Hext En).
  destruct (_ || _); [|done]. apply andb_true_iff in Hn as [H1 H2].
  apply andb_true_iff. split; by eapply has_extends.
Qed.

(** Looking up a component that is there, under its own name. *)
Lemma hasComponent_has σ e ent name :
  entity_mem σ !! e = Some ent → hasComponent σ e name = Ok (has σ e name).
Proof. intros He. unfold hasComponent, deref_entity, has. by rewrite He. Qed.

Lemma getComponent_Some σ e ent name a c cap :
  entity_mem σ !! e = Some ent → m_components_of ent !! name = Some a →
  component_mem σ !! a = Some c → dynamic_class c = cap →
  getComponent σ e cap name = Ok (Some a).
Proof.
  intros He Ha Hc Hcap. unfold getComponent, deref_entity.
  rewrite He. cbn. rewrite Ha, Hc. unfold dynamic_cast_ok.
  rewrite (bool_decide_eq_true_2 (cap = dynamic_class c)) by done.
  by rewrite orb_true_r.
Qed.

Lemma getComponent_absent σ e ent name cap :
  entity_mem σ !! e = Some ent → m_components_of ent !! name = None →
  getComponent σ e cap name = Ok None.
Proof.
  intros He Ha. unfold getComponent, deref_entity. rewrite He. cbn. by rewrite Ha.
Qed.

End Heap_facts.

(** ** The life system *)

Section Life_facts.
Context {T : Type}.
Implicit Types (σ : Store T) (c : Component T).

#[global] Instance life_step_preorder : PreOrder (@life_step T).
Proof.
  split.
  - intros c. by destruct c.
  - intros c1 c2 c3 H12 H23. unfold life_step in *.
    destruct c1; try (subst c2; done).
    destruct c2; try done. destruct c3; try done.
    destruct H12, H23. split; [congruence|auto].
Qed.

#[global] Instance same_lives_preorder : PreOrder (@same_lives T).
Proof.
  split.
  - intros σ. split; [done|]. intros a. reflexivity.
  - intros σ1 σ2 σ3 [He1 Hc1] [He2 Hc2]. split; [congruence|]. intros a.
    etrans; [apply Hc1|apply Hc2].
Qed.

Lemma life_step_evolves c c' : life_step c c' → evolves c c'.
Proof.
  destruct c, c'; cbn; intros Hs;
    try (inversion Hs; subst; apply evolves_refl).
  by repeat split.
Qed.

Lemma same_lives_extends σ σ' : same_lives σ σ' → extends σ σ'.
Proof.
  intros [He Hc]. split; [by rewrite He|]. intros a c Ha. specialize (Hc a).
  rewrite Ha in Hc. inversion Hc as [? c' Hstep|]; subst.
  exists c'. split; [done|]. by apply life_step_evolves.
Qed.

Lemma same_lives_lifepoints σ σ' e :
  same_lives σ σ' → lifepoints_of σ' e = lifepoints_of σ e.
Proof.
  intros [He Hc]. unfold lifepoints_of, component_of. rewrite He.
  destruct (entity_mem σ !! e) as [ent|]; [|done]. cbn.
  destruct (m_components_of ent !! "Life") as [a|]; [|done]. cbn.
  destruct (Hc a) as [c c' Hstep|]; [|done]. unfold life_step in Hstep.
  destruct c; try (by subst c'). destruct c'; try done. by destruct Hstep as [-> _].
Qed.

Lemma same_lives_lifeless σ σ' e : same_lives σ σ' → lifeless σ' e = lifeless σ e.
Proof. intros Hs. unfold lifeless. by rewrite (same_lives_lifepoints _ _ _ Hs). Qed.

Lemma same_lives_dead σ σ' e :
  same_lives σ σ' → alive_of σ e = Some false → alive_of σ' e = Some false.
Proof.
  intros [He Hc]. unfold alive_of, component_of. rewrite He.
  destruct (entity_mem σ !! e) as [ent|]; [|done]. cbn.
  destruct (m_components_of ent !! "Life") as [a|]; [|done]. cbn.
  destruct (Hc a) as [c c' Hstep|]; [|done]. unfold life_step in Hstep.
  destruct c; try (by subst c'). destruct c'; try done.
  destruct Hstep as [_ Hal]. intros [= ->]. by rewrite Hal.
Qed.

Lemma store_life_same_lives σ a lp al al' :
  component_mem σ !! a = Some (LifeComponent lp al) → (al = false → al' = false) →
  same_lives σ (store_component a (LifeComponent lp al') σ).
Proof.
  intros Ha Hal. split; [done|]. intros b. cbn.
  destruct (decide (a = b)) as [<-|Hne].
  - rewrite lookup_insert_eq, Ha. by constructor.
  - rewrite lookup_insert_ne by done. reflexivity.
Qed.

(** The body of the loop of the life system, on an entity of the world. *)
Lemma LifeSystem_entity_spec σ q e :
  entity_ok σ e = true →
  ∃ σ', LifeSystem_entity (σ, q) e
        = Ok (σ', q ++ (if lifeless σ e then [death_event e] else []))
      ∧ same_lives σ σ'
      ∧ (lifeless σ e = true → alive_of σ' e = Some false).
Proof.
  intros Hok. destruct (entity_ok_inv _ _ Hok) as (ent & He & Hall & _).
  unfold LifeSystem_entity. rewrite (hasComponent_has _ _ _ _ He). cbn.
  unfold lifeless, lifepoints_of, alive_of, component_of, has. rewrite He. cbn.
  destruct (m_components_of ent !! "Life") as [a|] eqn:Ha; cbn.
  - destruct (Hall _ _ Ha) as (c & Hc & Hw).
    destruct (well_named_Life _ Hw) as (lp & al & ->).
    rewrite (getComponent_Some _ _ _ _ _ _ LifeCap He Ha Hc) by done. cbn.
    unfold read_life, deref. rewrite Hc. cbn.
    destruct (lp <=? 0) eqn:Hlp.
    + eexists. split; [done|].
      split; [by eapply store_life_same_lives|]. intros _. cbn.
      rewrite He. cbn. rewrite Ha. cbn. by rewrite lookup_insert_eq.
    + exists σ. rewrite app_nil_r. split; [done|]. split; [reflexivity|done].
  - exists σ. rewrite app_nil_r. split; [done|]. split; [reflexivity|done].
Qed.

Lemma LifeSystem_update_spec entities : ∀ σ q,
  Forall (λ e, entity_ok σ e = true) entities →
  ∃ σ', LifeSystem_update entities σ q
        = Ok (σ', q ++ (death_event <$> filter (λ e, lifeless σ e = true) entities))
      ∧ same_lives σ σ'
      ∧ (∀ e, e ∈ entities → lifeless σ e = true → alive_of σ' e = Some false).
Proof.
  unfold LifeSystem_update.
  induction entities as [|e entities IH]; intros σ q Hall.
  - exists σ. rewrite for_each_nil, filter_nil, fmap_nil, app_nil_r. split; [done|]. split; [done|]. intros e He.
    by apply not_elem_of_nil in He.
  - apply Forall_cons_1 in Hall as [Hok Hall].
    destruct (LifeSystem_entity_spec σ q e Hok) as (σ1 & Hstep & Hs1 & Hdead).
    rewrite for_each_cons, Hstep, bind_Ok.
    destruct (IH σ1 (q ++ (if lifeless σ e then [death_event e] else [])))
      as (σ' & -> & Hs' & Hdead').
    { eapply Forall_impl; [|exact Hall]. intros e' ?. cbn.
      eapply entity_ok_extends; [by apply same_lives_extends|done]. }
    exists σ'. split.
    { f_equal. f_equal. rewrite filter_cons.
      rewrite (list_filter_iff (λ e0, lifeless σ1 e0 = true) (λ e0, lifeless σ e0 = true))
        by (intros e0; by rewrite (same_lives_lifeless _ _ _ Hs1)).
      destruct (lifeless σ e) eqn:El.
      - rewrite decide_True by done. rewrite fmap_cons. by rewrite <- app_assoc.
      - rewrite decide_False by (by intros ?). by rewrite app_nil_r. }
    split; [by etrans|]. intros e' He' Hl.
    apply elem_of_cons in He' as [->|He'].
    + eapply same_lives_dead; [done|]. by apply Hdead.
    + apply Hdead'; [done|]. by rewrite (same_lives_lifeless _ _ _ Hs1).
Qed.
End Life_facts.

(** ** The collision-effects system *)

Section Collision_facts.
Context `{Scalar T}.
Implicit Types (σ : Store T) (c : Component T).

Lemma has_inv σ e name :
  has σ e name = true →
  ∃ ent a, entity_mem σ !! e = Some ent ∧ m_components_of ent !! name = Some a.
Proof.
  unfold has. destruct (entity_mem σ !! e) as [ent|]; [|done].
  rewrite bool_decide_eq_true. intros [a Ha]. eauto.
Qed.

Lemma entity_ok_slot σ e ent name a :
  entity_ok σ e = true → entity_mem σ !! e = Some ent →
  m_components_of ent !! name = Some a →
  ∃ c, component_mem σ !! a = Some c ∧ well_named name c = true.
Proof.
  intros Hok He Ha. destruct (entity_ok_inv _ _ Hok) as (ent' & He' & Hall & _).
  rewrite He in He'. injection He' as <-. eauto.
Qed.

Lemma entity_ok_marker σ e :
  entity_ok σ e = true →
  ∃ ent a d, entity_mem σ !! e = Some ent
             ∧ m_components_of ent !! "DeletionMarker" = Some a
             ∧ component_mem σ !! a = Some (DeletionMarkerComponent d).
Proof.
  intros Hok. destruct (entity_ok_inv _ _ Hok) as (ent & He & Hall & [a Ha]).
  destruct (Hall _ _ Ha) as (c & Hc & Hw).
  destruct (well_named_DeletionMarker _ Hw) as (d & ->). eauto 10.
Qed.

Lemma entity_ok_life σ e :
  entity_ok σ e = true → has σ e "Life" = true →
  ∃ ent a lp al, entity_mem σ !! e = Some ent
                 ∧ m_components_of ent !! "Life" = Some a
                 ∧ component_mem σ !! a = Some (LifeComponent lp al).
Proof.
  intros Hok Hhas. destruct (has_inv _ _ _ Hhas) as (ent & a & He & Ha).
  destruct (entity_ok_slot _ _ _ _ _ Hok He Ha) as (c & Hc & Hw).
  destruct (well_named_Life _ Hw) as (lp & al & ->). eauto 10.
Qed.

Lemma entity_ok_sprite σ e :
  entity_ok σ e = true → has σ e "Sprite" = true →
  ∃ ent a s, entity_mem σ !! e = Some ent
             ∧ m_components_of ent !! "Sprite" = Some a
             ∧ component_mem σ !! a = Some (SpriteComponent s).
Proof.
  intros Hok Hhas. destruct (has_inv _ _ _ Hhas) as (ent & a & He & Ha).
  destruct (entity_ok_slot _ _ _ _ _ Hok He Ha) as (c & Hc & Hw).
  destruct (well_named_Sprite _ Hw) as (s & ->). eauto 10.
Qed.

Lemma component_of_store_same σ e ent name a c :
  entity_mem σ !! e = Some ent → m_components_of ent !! name = Some a →
  component_of (store_component a c σ) e name = Some c.
Proof.
  intros He Ha. unfold component_of. cbn. rewrite He. cbn. rewrite Ha. cbn.
  by rewrite lookup_insert_eq.
Qed.

(** [kill], [mark_for_deletion] and [hurt] on an entity that has what they
    look up. *)
Lemma kill_spec σ e :
  entity_ok σ e = true → has σ e "Life" = true →
  ∃ σ', kill σ e = Ok σ' ∧ extends σ σ' ∧ lifepoints_of σ' e = Some 0.
Proof.
  intros Hok Hhas. destruct (entity_ok_life _ _ Hok Hhas) as (ent & a & lp & al & He & Ha & Hc).
  unfold kill. rewrite (getComponent_Some _ _ _ _ _ _ LifeCap He Ha Hc) by done.
  rewrite bind_Ok. erewrite write_Ok by (done || by cbn).
  eexists. split; [done|]. split.
  - eapply store_component_extends; [done|]. by eapply set_lifepoints_evolves.
  - unfold lifepoints_of. by erewrite component_of_store_same.
Qed.

Lemma mark_for_deletion_spec σ e :
  entity_ok σ e = true →
  ∃ σ', mark_for_deletion σ e = Ok σ' ∧ extends σ σ' ∧ marked σ' e = true.
Proof.
  intros Hok. destruct (entity_ok_marker _ _ Hok) as (ent & a & d & He & Ha & Hc).
  unfold mark_for_deletion.
  rewrite (getComponent_Some _ _ _ _ _ _ DeletionMarkerCap He Ha Hc) by done.
  rewrite bind_Ok. erewrite write_Ok by (done || by cbn).
  eexists. split; [done|]. split.
  - eapply store_component_extends; [done|]. by eapply set_toDelete_evolves.
  - unfold marked. by erewrite component_of_store_same.
Qed.

Lemma hurt_spec σ e :
  entity_ok σ e = true → has σ e "Life" = true →
  ∃ σ', hurt σ e = Ok σ' ∧ extends σ σ'.
Proof.
  intros Hok Hhas. destruct (entity_ok_life _ _ Hok Hhas) as (ent & a & lp & al & He & Ha & Hc).
  unfold hurt. rewrite (getComponent_Some _ _ _ _ _ _ LifeCap He Ha Hc) by done.
  rewrite bind_Ok. erewrite write_Ok by (done || by cbn).
  eexists. split; [done|].
  eapply store_component_extends; [done|]. by eapply decrement_lifepoints_evolves.
Qed.

Lemma read_sprite_spec σ e :
  entity_ok σ e = true → has σ e "Sprite" = true →
  ∃ a s, getComponent σ e SpriteCap "Sprite" = Ok (Some a)
         ∧ read_sprite σ (Some a) = Ok s
         ∧ component_of σ e "Sprite" = Some (SpriteComponent s).
Proof.
  intros Hok Hhas. destruct (entity_ok_sprite _ _ Hok Hhas) as (ent & a & s & He & Ha & Hc).
  exists a, s. rewrite (getComponent_Some _ _ _ _ _ _ SpriteCap He Ha Hc) by done.
  unfold read_sprite, deref, component_of. rewrite Hc, He. cbn. rewrite Ha. cbn.
  by rewrite Hc.
Qed.

Lemma names_are_spec σ e1 e2 n1 n2 a b :
  name_of σ e1 = Some n1 → name_of σ e2 = Some n2 →
  names_are σ (e1, e2) a b = Ok (bool_decide (n1 = a) && bool_decide (n2 = b)).
Proof.
  unfold name_of, names_are, Entity_getName, deref_entity. cbn.
  destruct (entity_mem σ !! e1) as [ent1|]; [|done].
  destruct (entity_mem σ !! e2) as [ent2|]; [|done]. cbn.
  intros [= <-] [= <-]. by destruct (bool_decide (m_name ent1 = a)).
Qed.

Lemma tagged_ok_inv σ e :
  tagged_ok σ e = true →
  entity_ok σ e = true
  ∧ ∃ n, name_of σ e = Some n
         ∧ (n = "Sakura" ∨ n = "Ball" ∨ n = "Player" →
            has σ e "Life" = true ∧ has σ e "Sprite" = true).
Proof.
  unfold tagged_ok. rewrite andb_true_iff. intros [Hok Hn]. split; [done|].
  destruct (name_of σ e) as [n|]; [|done]. exists n. split; [done|].
  intros Hname.
  rewrite (proj2 (orb_true_iff _ _)) in Hn.
  - by apply andb_true_iff in Hn.
  - rewrite orb_true_iff, !bool_decide_eq_true. tauto.
Qed.


End Collision_facts.

(** One effect of the collision-effects system applied to the current
    heap [s], itself an extension of the heap [σ0] the pair started from. *)
Ltac effect_step start :=
  lazymatch goal with
  | |- context [kill ?s ?e ≫= _] =>
      let s' := fresh "st" in
      let Hk := fresh "Hk" in
      let Hx := fresh "Hx" in
      destruct (kill_spec s e) as (s' & Hk & Hx & _);
      [ apply (entity_ok_extends start s); assumption
      | apply (has_extends start s); assumption
      | rewrite Hk, bind_Ok;
        assert (extends start s') by (by trans s) ]
  | |- context [mark_for_deletion ?s ?e ≫= _] =>
      let s' := fresh "st" in
      let Hk := fresh "Hk" in
      let Hx := fresh "Hx" in
      destruct (mark_for_deletion_spec s e) as (s' & Hk & Hx & _);
      [ apply (entity_ok_extends start s); assumption
      | rewrite Hk, bind_Ok;
        assert (extends start s') by (by trans s) ]
  | |- context [hurt ?s ?e ≫= _] =>
      let s' := fresh "st" in
      let Hk := fresh "Hk" in
      let Hx := fresh "Hx" in
      destruct (hurt_spec s e) as (s' & Hk & Hx);
      [ apply (entity_ok_extends start s); assumption
      | apply (has_extends start s); assumption
      | rewrite Hk, bind_Ok;
        assert (extends start s') by (by trans s) ]
  end.

Section Collision_pairs.
Context `{Scalar T}.

Lemma CollisionEffectsSystem_pair_safe σ q collision :
  tagged_ok σ (collision.1) = true → tagged_ok σ (collision.2) = true →
  ∃ σ' added,
    CollisionEffectsSystem_pair (σ, q) collision = Ok (σ', q ++ added)
    ∧ extends σ σ' ∧ Forall effect_event added.
Proof.
  destruct collision as [e1 e2]. cbn [fst snd]. intros H1 H2.
  destruct (tagged_ok_inv _ _ H1) as (Hok1 & n1 & Hn1 & Hcap1).
  destruct (tagged_ok_inv _ _ H2) as (Hok2 & n2 & Hn2 & Hcap2).
  assert (extends σ σ) as Hrefl by reflexivity.
  unfold CollisionEffectsSystem_pair. cbn [fst snd].
  rewrite (names_are_spec _ _ _ _ _ "Sakura" "Ball" Hn1 Hn2), bind_Ok.
  destruct (bool_decide (n1 = "Sakura") && bool_decide (n2 = "Ball")) eqn:E1.
  { apply andb_true_iff in E1 as [->%bool_decide_eq_true ->%bool_decide_eq_true].
    destruct Hcap1 as [HL1 HS1]; [tauto|]. destruct Hcap2 as [HL2 HS2]; [tauto|].
    do 4 effect_step σ.
    destruct (read_sprite_spec st2 e2) as (a & s & Hg & Hr & _);
      [by apply (entity_ok_extends σ)|by apply (has_extends σ)|].
    rewrite Hg, bind_Ok, Hr, bind_Ok. eexists _, [_]. split; [reflexivity|].
    split; [done|]. constructor; [right; eauto|constructor]. }
  rewrite (names_are_spec _ _ _ _ _ "Ball" "Box" Hn1 Hn2), bind_Ok.
  destruct (bool_decide (n1 = "Ball") && bool_decide (n2 = "Box")) eqn:E2.
  { apply andb_true_iff in E2 as [->%bool_decide_eq_true ->%bool_decide_eq_true].
    destruct Hcap1 as [HL1 HS1]; [tauto|].
    do 2 effect_step σ. eexists _, []. rewrite app_nil_r.
    split; [reflexivity|]. split; [done|constructor]. }
  rewrite (names_are_spec _ _ _ _ _ "Box" "Ball" Hn1 Hn2), bind_Ok.
  destruct (bool_decide (n1 = "Box") && bool_decide (n2 = "Ball")) eqn:E3.
  { apply andb_true_iff in E3 as [->%bool_decide_eq_true ->%bool_decide_eq_true].
    destruct Hcap2 as [HL2 HS2]; [tauto|].
    do 2 effect_step σ. eexists _, []. rewrite app_nil_r.
    split; [reflexivity|]. split; [done|constructor]. }
  rewrite (names_are_spec _ _ _ _ _ "Ball" "Player" Hn1 Hn2), bind_Ok.
  destruct (bool_decide (n1 = "Ball") && bool_decide (n2 = "Player")) eqn:E4.
  { apply andb_true_iff in E4 as [->%bool_decide_eq_true ->%bool_decide_eq_true].
    destruct Hcap1 as [HL1 HS1]; [tauto|]. destruct Hcap2 as [HL2 HS2]; [tauto|].
    do 3 effect_step σ. eexists _, [_]. split; [reflexivity|].
    split; [done|]. constructor; [by left|constructor]. }
  rewrite (names_are_spec _ _ _ _ _ "Player" "Ball" Hn1 Hn2), bind_Ok.
  destruct (bool_decide (n1 = "Player") && bool_decide (n2 = "Ball")) eqn:E5.
  { apply andb_true_iff in E5 as [->%bool_decide_eq_true ->%bool_decide_eq_true].
    destruct Hcap1 as [HL1 HS1]; [tauto|]. destruct Hcap2 as [HL2 HS2]; [tauto|].
    do 3 effect_step σ. eexists _, [_]. split; [reflexivity|].
    split; [done|]. constructor; [by left|constructor]. }
  exists σ, []. rewrite app_nil_r. split; [done|]. split; [done|constructor].
Qed.

Lemma CollisionEffectsSystem_update_safe m_collisions : ∀ σ q,
  Forall (λ collision, tagged_ok σ (collision.1) = true
                       ∧ tagged_ok σ (collision.2) = true) m_collisions →
  ∃ σ' added,
    CollisionEffectsSystem_update m_collisions σ q = Ok (σ', q ++ added)
    ∧ extends σ σ' ∧ Forall effect_event added.
Proof.
  unfold CollisionEffectsSystem_update.
  induction m_collisions as [|collision rest IH]; intros σ q Hall.
  - exists σ, []. rewrite for_each_nil, app_nil_r. split; [done|]. split; [done|constructor].
  - apply Forall_cons_1 in Hall as [[H1 H2] Hall].
    destruct (CollisionEffectsSystem_pair_safe σ q collision H1 H2)
      as (σ1 & added1 & Hstep & Hx1 & Hev1).
    rewrite for_each_cons, Hstep, bind_Ok.
    destruct (IH σ1 (q ++ added1)) as (σ' & added & Hrun & Hx' & Hev).
    { eapply Forall_impl; [|exact Hall]. intros p [? ?].
      split; by eapply tagged_ok_extends. }
    exists σ', (added1 ++ added). split; [rewrite app_assoc; exact Hrun|].
    split; [by etrans|]. by apply Forall_app.
Qed.

End Collision_pairs.

(** ** What the effects leave alone *)

Section Effect_frames.
Context `{Scalar T}.
Implicit Types (σ : Store T) (c : Component T).

(** A write through a pointer changes the component an entity holds under
    a name only if that is the object written. *)
Lemma component_of_write σ p upd σ' e name :
  write σ p upd = Ok σ' →
  component_of σ' e name = component_of σ e name
  ∨ ∃ c c', component_of σ e name = Some c ∧ upd c = Some c'
            ∧ component_of σ' e name = Some c'.
Proof.
  intros (a & c & c' & -> & Hc & Hu & ->)%write_inv. unfold component_of. cbn.
  destruct (entity_mem σ !! e) as [ent|]; cbn; [|by left].
  destruct (m_components_of ent !! name) as [a0|]; cbn; [|by left].
  destruct (decide (a = a0)) as [<-|Hne].
  - right. exists c, c'. by rewrite lookup_insert_eq.
  - left. by rewrite lookup_insert_ne.
Qed.

Lemma kill_frame σ e σ' e' name :
  kill σ e = Ok σ' →
  component_of σ' e' name = component_of σ e' name
  ∨ ∃ lp al, component_of σ e' name = Some (LifeComponent lp al)
             ∧ component_of σ' e' name = Some (LifeComponent 0 al).
Proof.
  unfold kill. destruct (getComponent σ e LifeCap "Life") as [life|]; [|done].
  rewrite bind_Ok. intros Hw.
  destruct (component_of_write _ _ _ _ e' name Hw) as [|(c & c' & Hc & Hu & Hc')];
    [by left|].
  right. destruct c; try done. injection Hu as <-. eauto.
Qed.

Lemma mark_for_deletion_frame σ e σ' e' name :
  mark_for_deletion σ e = Ok σ' →
  component_of σ' e' name = component_of σ e' name
  ∨ ∃ d, component_of σ e' name = Some (DeletionMarkerComponent d)
         ∧ component_of σ' e' name = Some (DeletionMarkerComponent true).
Proof.
  unfold mark_for_deletion.
  destruct (getComponent σ e DeletionMarkerCap "DeletionMarker") as [dmc|]; [|done].
  rewrite bind_Ok. intros Hw.
  destruct (component_of_write _ _ _ _ e' name Hw) as [|(c & c' & Hc & Hu & Hc')];
    [by left|].
  right. destruct c; try done. injection Hu as <-. eauto.
Qed.

Lemma kill_keeps_dead σ e σ' e' :
  kill σ e = Ok σ' → lifepoints_of σ e' = Some 0 → lifepoints_of σ' e' = Some 0.
Proof.
  intros Hk. unfold lifepoints_of.
  destruct (kill_frame _ _ _ e' "Life" Hk) as [->|(lp & al & -> & ->)]; done.
Qed.

Lemma kill_keeps_sprite σ e σ' e' s :
  kill σ e = Ok σ' →
  component_of σ e' "Sprite" = Some (SpriteComponent s) →
  component_of σ' e' "Sprite" = Some (SpriteComponent s).
Proof.
  intros Hk Hs.
  destruct (kill_frame _ _ _ e' "Sprite" Hk) as [->|(lp & al & Hc & _)]; [done|].
  congruence.
Qed.

Lemma mark_for_deletion_keeps_life σ e σ' e' :
  mark_for_deletion σ e = Ok σ' → lifepoints_of σ' e' = lifepoints_of σ e'.
Proof.
  intros Hm. unfold lifepoints_of.
  destruct (mark_for_deletion_frame _ _ _ e' "Life" Hm) as [->|(d & -> & ->)]; done.
Qed.

Lemma mark_for_deletion_keeps_sprite σ e σ' e' s :
  mark_for_deletion σ e = Ok σ' →
  component_of σ e' "Sprite" = Some (SpriteComponent s) →
  component_of σ' e' "Sprite" = Some (SpriteComponent s).
Proof.
  intros Hm Hs.
  destruct (mark_for_deletion_frame _ _ _ e' "Sprite" Hm) as [->|(d & Hc & _)]; [done|].
  congruence.
Qed.

End Effect_frames.

(** ** The particle system *)

Section Particle_facts.
Context `{Scalar T} `{Platform}.

Lemma update_particles_spec elapsed (particles : list (Particle T)) : ∀ i vertices,
  (i + length particles ≤ length vertices)%nat →
  ∃ particles' vertices',
    update_particles elapsed i particles vertices = Ok (particles', vertices')
    ∧ length particles' = length particles
    ∧ length vertices' = length vertices.
Proof.
  induction particles as [|p rest IH]; intros i vertices Hlen; cbn [update_particles].
  - by exists [], vertices.
  - cbn [length] in Hlen.
    destruct (lookup_lt_is_Some_2 vertices i) as [v Hv]; [lia|]. rewrite Hv.
    destruct (update_particle elapsed p v) as [p' v'].
    destruct (IH (S i) (<[i := v']> vertices)) as (ps & vs & Hrun & Hps & Hvs).
    { rewrite length_insert. lia. }
    rewrite Hrun, bind_Ok. exists (p' :: ps), vs.
    split; [done|]. cbn [length]. rewrite Hps, Hvs, length_insert. done.
Qed.

Lemma ParticleWatcherSystem_entity_spec elapsed (σ : Store T) e :
  entity_ok σ e = true →
  ∃ σ', ParticleWatcherSystem_entity elapsed σ e = Ok σ' ∧ extends σ σ'.
Proof.
  intros Hok. destruct (entity_ok_inv _ _ Hok) as (ent & He & Hall & _).
  unfold ParticleWatcherSystem_entity.
  rewrite (hasComponent_has _ _ _ _ He), bind_Ok. unfold has. rewrite He.
  destruct (m_components_of ent !! "Particle") as [a|] eqn:Ha; cbn [negb bool_decide].
  2:{ rewrite bool_decide_eq_false_2 by (intros [? ?]; done). cbn. by exists σ. }
  rewrite bool_decide_eq_true_2 by eauto. cbn [negb].
  destruct (Hall _ _ Ha) as (c & Hc & Hw).
  destruct (well_named_Particle _ Hw) as (col & cen & ps & vs & lt & -> & Hpool).
  rewrite (getComponent_Some _ _ _ _ _ _ ParticleCap He Ha Hc) by done.
  rewrite bind_Ok. unfold deref at 1. rewrite Hc, bind_Ok.
  destruct (emitter_cap <=? lt + elapsed).
  - erewrite write_Ok by done. rewrite bind_Ok.
    set (σ1 := store_component a _ σ).
    assert (extends σ σ1) as Hx1.
    { eapply store_component_extends; [done|]. by repeat split. }
    destruct (mark_for_deletion_spec σ1 e) as (σ' & -> & Hx' & _);
      [by apply (entity_ok_extends σ)|].
    exists σ'. split; [done|]. by trans σ1.
  - destruct (update_particles_spec elapsed ps 0 vs) as (ps' & vs' & -> & Hps & Hvs);
      [cbn; lia|].
    rewrite bind_Ok. erewrite write_Ok by done.
    eexists. split; [done|].
    eapply store_component_extends; [done|]. repeat split; try done.
    cbn. intros _. apply bool_decide_eq_true. lia.
Qed.

Lemma ParticleWatcherSystem_update_spec elapsed entities : ∀ (σ : Store T),
  Forall (λ e, entity_ok σ e = true) entities →
  ∃ σ', ParticleWatcherSystem_update elapsed entities σ = Ok σ' ∧ extends σ σ'.
Proof.
  unfold ParticleWatcherSystem_update.
  induction entities as [|e rest IH]; intros σ Hall.
  - exists σ. by rewrite for_each_nil.
  - apply Forall_cons_1 in Hall as [Hok Hall].
    destruct (ParticleWatcherSystem_entity_spec elapsed σ e Hok) as (σ1 & Hstep & Hx1).
    rewrite for_each_cons, Hstep, bind_Ok.
    destruct (IH σ1) as (σ' & Hrun & Hx').
    { eapply Forall_impl; [|exact Hall]. intros e' ?. by apply (entity_ok_extends σ). }
    exists σ'. split; [done|]. by trans σ1.
Qed.

End Particle_facts.

(** ** The world in order *)

Lemma forallb_Forall {A} (f : A → bool) (l : list A) :
  forallb f l = true ↔ Forall (λ x, f x = true) l.
Proof.
  induction l as [|x l IH]; cbn.
  - split; [by constructor|done].
  - rewrite andb_true_iff, IH. split.
    + intros [? ?]. by constructor.
    + intros [? ?]%Forall_cons_1. done.
Qed.

Section World_ok_facts.
Context {T : Type}.

Lemma world_ok_spec (w : World T) :
  world_ok w = true ↔
  Forall (λ e, entity_ok (heap w) e = true) (m_entities w)
  ∧ Forall (λ event, event_ok w event = true) (m_eventQueue w)
  ∧ SUGOI_COMBO (constants w) ≠ 0
  ∧ NoDup (m_components w)
  ∧ Forall (λ a, is_Some (component_mem (heap w) !! a)) (m_components w).
Proof.
  unfold world_ok. rewrite !andb_true_iff, !forallb_Forall, negb_true_iff,
    Z.eqb_neq, bool_decide_eq_true.
  split.
  - intros [[[[? ?] ?] ?] Ha]. repeat split; try done.
    eapply Forall_impl; [|exact Ha]. intros a. cbn. by rewrite bool_decide_eq_true.
  - intros (? & ? & ? & ? & Ha). repeat split; try done.
    eapply Forall_impl; [|exact Ha]. intros a. cbn. by rewrite bool_decide_eq_true.
Qed.

#[global] Instance grows_preorder : PreOrder (@grows T).
Proof.
  split.
  - intros w. split; [reflexivity|]. by repeat split.
  - intros w1 w2 w3 (Hh1 & He1 & Hc1 & Hp1 & Hk1) (Hh2 & He2 & Hc2 & Hp2 & Hk2).
    split; [by trans (heap w2)|]. repeat split; [by etrans|by etrans|congruence|congruence].
Qed.

Lemma event_ok_grows (w w' : World T) event :
  grows w w' → event_ok w event = true → event_ok w' event = true.
Proof.
  intros (Hh & _ & _ & Hp & _). unfold event_ok. rewrite Hp.
  destruct (eventType event =? PlayerHit); [|done].
  destruct (m_player w) as [player|]; [|done].
  rewrite !andb_true_iff. intros [? ?].
  split; [by eapply entity_ok_extends|by eapply has_extends].
Qed.

Lemma extends_allocated (σ σ' : Store T) a :
  extends σ σ' → is_Some (component_mem σ !! a) → is_Some (component_mem σ' !! a).
Proof. intros [_ Hc] [c Hs]. destruct (Hc a c Hs) as (c' & ? & _). eauto. Qed.

(** A pass that touches neither the registries nor the queue keeps the
    world in order. *)
Lemma world_ok_heap (w w' : World T) :
  world_ok w = true → extends (heap w) (heap w') →
  m_entities w' = m_entities w → m_components w' = m_components w →
  m_player w' = m_player w → constants w' = constants w →
  Forall (λ event, event_ok w' event = true) (m_eventQueue w') →
  world_ok w' = true.
Proof.
  rewrite !world_ok_spec. intros (He & Hq & Hs & Hn & Ha) Hx Hes Hcs Hp Hk Hq'.
  rewrite Hes, Hcs, Hk. repeat split; try done.
  - eapply Forall_impl; [|exact He]. intros e ?. by eapply entity_ok_extends.
  - eapply Forall_impl; [|exact Ha]. intros a ?. by eapply extends_allocated.
Qed.

End World_ok_facts.

(** ** The factories of the world *)

Section World_facts.
Context `{Scalar T} `{Platform} `{Environment T}.

Lemma createEntity_eq name (w : World T) :
  let e := fresh (dom (entity_mem (heap w))) in
  let d := fresh (dom (component_mem (heap w))) in
  createEntity name w
  = Ok (e,
        mkWorld
          (mkStore
             (<[e := mkEntity (m_lastid w) name {["DeletionMarker" := d]}]>
                (entity_mem (heap w)))
             (<[d := DeletionMarkerComponent false]> (component_mem (heap w))))
          (m_entities w ++ [e]) (m_components w ++ [d]) (m_eventQueue w) (m_player w)
          (m_isRunning w) (m_colorAffinity w) (m_score w) (m_combo w)
          (m_lastSugoiDisplay w) (m_lastAffinityChange w) (constants w)
          (S (m_lastid w)) (rand_calls w) (audio w)).
Proof.
  intros e d. unfold createEntity, createComponent, addComponent, deref_entity, deref.
  cbn. fold e d. rewrite !lookup_insert_eq. cbn.
  unfold store_entity, with_entities, with_heap. cbn.
  rewrite insert_insert_eq. rewrite insert_empty. done.
Qed.

Lemma createExplosion_eq color position (w : World T) :
  let e := fresh (dom (entity_mem (heap w))) in
  let d := fresh (dom (component_mem (heap w))) in
  let p := fresh (dom (<[d := DeletionMarkerComponent false]> (component_mem (heap w)))) in
  createExplosion color position w
  = Ok (mkWorld
          (mkStore
             (<[e := mkEntity (m_lastid w) "Explosion"
                       (<["Particle" := p]> {["DeletionMarker" := d]})]>
                (entity_mem (heap w)))
             (<[p := explosion_particles color position (rand_calls w)]>
                (<[d := DeletionMarkerComponent false]> (component_mem (heap w)))))
          (m_entities w ++ [e]) ((m_components w ++ [d]) ++ [p]) (m_eventQueue w)
          (m_player w) (m_isRunning w) (m_colorAffinity w) (m_score w) (m_combo w)
          (m_lastSugoiDisplay w) (m_lastAffinityChange w) (constants w)
          (S (m_lastid w)) (rand_calls w + 3 * pool_size)%nat (audio w)).
Proof.
  intros e d p. unfold createExplosion. rewrite createEntity_eq, bind_Ok. fold e d.
  unfold createComponent, write, deref, addComponent, deref_entity, deref.
  cbn -[fresh new_Particles init_vertices pool_size replicate Nat.mul Nat.add].
  fold p. rewrite !lookup_insert_eq.
  cbn -[fresh new_Particles init_vertices pool_size replicate Nat.mul Nat.add].
  rewrite !lookup_insert_eq.
  cbn -[fresh new_Particles init_vertices pool_size replicate Nat.mul Nat.add].
  unfold store_entity, with_heap.
  cbn -[fresh new_Particles init_vertices pool_size replicate Nat.mul Nat.add].
  rewrite !insert_insert_eq. done.
Qed.

Lemma length_new_Particles count n : length (new_Particles count n) = count.
Proof. revert n. induction count as [|count IH]; intros n; cbn; [done|]. by rewrite IH. Qed.

Lemma explosion_particles_ok color position n :
  well_named "Particle" (explosion_particles color position n) = true.
Proof.
  unfold well_named, explosion_particles. cbn [getName dynamic_class pool_ok].
  rewrite !andb_true_iff, !bool_decide_eq_true. split; [done|].
  unfold init_vertices. by rewrite length_imap, length_replicate, length_new_Particles.
Qed.

Lemma fresh_component_None (m : gmap ComponentPtr (Component T)) :
  m !! fresh (dom m) = None.
Proof. apply not_elem_of_dom. apply is_fresh. Qed.

Lemma fresh_entity_None (m : gmap EntityPtr Entity) : m !! fresh (dom m) = None.
Proof. apply not_elem_of_dom. apply is_fresh. Qed.

(** An explosion is always created, and leaves the world in order. *)
Lemma createExplosion_spec color position (w : World T) :
  world_ok w = true →
  ∃ w', createExplosion color position w = Ok w'
        ∧ world_ok w' = true ∧ grows w w'
        ∧ m_eventQueue w' = m_eventQueue w
        ∧ m_isRunning w' = m_isRunning w
        ∧ m_colorAffinity w' = m_colorAffinity w
        ∧ m_score w' = m_score w
        ∧ m_combo w' = m_combo w
        ∧ m_lastSugoiDisplay w' = m_lastSugoiDisplay w
        ∧ m_lastAffinityChange w' = m_lastAffinityChange w
        ∧ audio w' = audio w.
Proof.
  intros Hok. pose proof Hok as (He & Hq & Hs & Hn & Ha)%world_ok_spec.
  rewrite createExplosion_eq.
  set (e := fresh (dom (entity_mem (heap w)))).
  set (d := fresh (dom (component_mem (heap w)))).
  set (cm1 := <[d := DeletionMarkerComponent false]> (component_mem (heap w))).
  set (p := fresh (dom cm1)).
  assert (entity_mem (heap w) !! e = None) as Hfe by apply fresh_entity_None.
  assert (component_mem (heap w) !! d = None) as Hfd by apply fresh_component_None.
  assert (cm1 !! p = None) as Hfp by apply fresh_component_None.
  assert (p ≠ d) as Hpd.
  { intros ->. subst cm1. by rewrite lookup_insert_eq in Hfp. }
  assert (component_mem (heap w) !! p = None) as Hfp'.
  { subst cm1. by rewrite lookup_insert_ne in Hfp. }
  eexists. split; [reflexivity|].
  match goal with |- world_ok ?x = true ∧ _ => set (w' := x) end.
  assert (extends (heap w) (heap w')) as Hx.
  { split; cbn.
    - by apply insert_subseteq.
    - intros a c Hc. exists c. split; [|apply evolves_refl].
      rewrite lookup_insert_ne by congruence. subst cm1.
      rewrite lookup_insert_ne by congruence. done. }
  assert (grows w w') as Hg.
  { split; [done|]. repeat split; cbn.
    - by apply prefix_app_r.
    - rewrite <- app_assoc. by apply prefix_app_r. }
  split; [|split; [done|by repeat split]].
  apply world_ok_spec. cbn [heap m_entities m_eventQueue constants m_components w'].
  split; [|split; [|split; [done|split]]].
  - apply Forall_app. split.
    + eapply Forall_impl; [|exact He]. intros e' ?. by apply (entity_ok_extends (heap w)).
    + apply Forall_singleton.
      eapply entity_ok_intro; [cbn; by rewrite lookup_insert_eq| |].
      * intros name a. cbn. rewrite lookup_insert_Some.
        intros [[<- <-]|[_ Hd]].
        -- eexists. rewrite lookup_insert_eq. split; [done|].
           apply explosion_particles_ok.
        -- apply lookup_singleton_Some in Hd as [<- <-].
           exists (DeletionMarkerComponent false). split; [|done].
           rewrite lookup_insert_ne by done. subst cm1. by rewrite lookup_insert_eq.
      * cbn. rewrite lookup_insert_ne by done. rewrite lookup_singleton_eq. eauto.
  - eapply Forall_impl; [|exact Hq]. intros event ?. by apply (event_ok_grows w).
  - apply list.NoDup_app. split; [apply list.NoDup_app; split; [done|split]|split].
    + intros a Hin ->%list_elem_of_singleton.
      rewrite list.Forall_forall in Ha. destruct (Ha _ Hin) as [? ?]. congruence.
    + apply list.NoDup_singleton.
    + intros a Hin ->%list_elem_of_singleton.
      apply elem_of_app in Hin as [Hin| ->%list_elem_of_singleton]; [|done].
      rewrite list.Forall_forall in Ha. destruct (Ha _ Hin) as [? ?]. congruence.
    + apply list.NoDup_singleton.
  - rewrite !Forall_app, !Forall_singleton. cbn. split; [split|].
    + eapply Forall_impl; [|exact Ha]. intros a ?. by apply (extends_allocated (heap w) (heap w')).
    + rewrite lookup_insert_ne by done. subst cm1. rewrite lookup_insert_eq. eauto.
    + rewrite lookup_insert_eq. eauto.
Qed.

End World_facts.

(** ** The passes of the world *)

Section World_passes.
Context `{Scalar T} `{Platform} `{Environment T}.

Lemma same_registry_ok (w w' : World T) :
  world_ok w = true → same_registry w w' → world_ok w' = true ∧ grows w w'.
Proof.
  intros Hok (Hh & He & Hc & Hq & Hp & Hk). split.
  - unfold world_ok, event_ok in *. by rewrite Hh, He, Hc, Hq, Hp, Hk.
  - split; [by rewrite Hh|]. by rewrite He, Hc.
Qed.

Lemma update_score_and_combo_spec color (w : World T) :
  SUGOI_COMBO (constants w) ≠ 0 →
  ∃ w', update_score_and_combo color w = Ok w' ∧ same_registry w w'.
Proof.
  intros Hs%Z.eqb_neq. unfold update_score_and_combo.
  destruct (bool_decide (color = m_colorAffinity w));
    [|eexists; split; [reflexivity|by repeat split]].
  unfold above_COMBO_MIN. cbn [constants m_combo with_combo call SUGOI_COMBO].
  rewrite Hs.
  cbn -[sgtb sofZ Z.rem Z.eqb].
  repeat match goal with
         | |- context [if ?b then _ else _] => destruct b; cbn -[sgtb sofZ Z.rem Z.eqb]
         end;
    (eexists; split; [reflexivity|by repeat split]).
Qed.

Lemma on_PlayerHit_spec (w : World T) player :
  m_player w = Some player →
  entity_ok (heap w) player = true → has (heap w) player "Life" = true →
  ∃ w', on_PlayerHit w = Ok w' ∧ same_registry w w'.
Proof.
  intros Hp Hok Hhas.
  destruct (entity_ok_life _ _ Hok Hhas) as (ent & a & lp & al & He & Ha & Hc).
  unfold on_PlayerHit. cbn [m_player call with_combo heap]. rewrite Hp.
  rewrite (getComponent_Some _ _ _ _ _ _ LifeCap He Ha Hc) by done.
  rewrite bind_Ok. unfold read_life, deref. rewrite Hc. cbn.
  destruct (lp <=? 0); (eexists; split; [reflexivity|by repeat split]).
Qed.

Lemma World_handleEvent_spec event (w : World T) :
  world_ok w = true → event_ok w event = true →
  ∃ w', World_handleEvent event w = Ok w'
        ∧ world_ok w' = true ∧ grows w w' ∧ m_eventQueue w' = m_eventQueue w.
Proof.
  intros Hok Hev. unfold World_handleEvent, event_ok in *.
  destruct (eventType event =? PlayerHit).
  { destruct (m_player w) as [player|] eqn:Hp; [|done].
    apply andb_true_iff in Hev as [Hpok Hlife].
    destruct (on_PlayerHit_spec w player Hp Hpok Hlife) as (w' & -> & Hsame).
    exists w'. split; [done|].
    destruct (same_registry_ok _ _ Hok Hsame). by destruct Hsame as (_&_&_&?&_). }
  destruct (eventType event =? ColoredBallShot).
  { unfold on_ColoredBallShot.
    destruct (eventData event) as [[color center|]|]; try done.
    destruct (createExplosion_spec color center w Hok)
      as (w1 & -> & Hok1 & Hg1 & Hq1 & _).
    rewrite bind_Ok.
    destruct (update_score_and_combo_spec color w1) as (w' & -> & Hsame).
    { apply world_ok_spec in Hok1. tauto. }
    exists w'. split; [done|].
    destruct (same_registry_ok _ _ Hok1 Hsame) as [Hok' Hg'].
    split; [done|]. split; [by trans w1|].
    destruct Hsame as (_&_&_&?&_). congruence. }
  exists w. split; [done|]. split; [done|]. split; [reflexivity|done].
Qed.

Lemma world_ok_pop (w : World T) event rest :
  world_ok w = true → m_eventQueue w = event :: rest →
  world_ok (with_eventQueue rest w) = true ∧ event_ok (with_eventQueue rest w) event = true.
Proof.
  rewrite !world_ok_spec. intros (He & Hq & Hs & Hn & Ha) Heq. rewrite Heq in Hq.
  apply Forall_cons_1 in Hq as [Hev Hq]. by repeat split.
Qed.

Lemma World_handleEvents_loop_spec turns : ∀ (w : World T),
  (length (m_eventQueue w) < turns)%nat → world_ok w = true →
  ∃ w', World_handleEvents_loop turns w = Ok w'
        ∧ world_ok w' = true ∧ grows w w' ∧ m_eventQueue w' = [].
Proof.
  induction turns as [|turns IH]; intros w Hlen Hok; [lia|].
  cbn [World_handleEvents_loop]. unfold pollEvent.
  destruct (m_eventQueue w) as [|event rest] eqn:Hq.
  { exists w. split; [done|]. split; [done|]. split; [reflexivity|done]. }
  destruct (world_ok_pop w event rest Hok Hq) as [Hok0 Hev0].
  destruct (World_handleEvent_spec event _ Hok0 Hev0) as (w1 & -> & Hok1 & Hg1 & Hq1).
  rewrite bind_Ok.
  destruct (IH w1) as (w' & -> & Hok' & Hg' & Hq'); [|done|].
  { rewrite Hq1. cbn in *. lia. }
  exists w'. split; [done|]. split; [done|]. split; [|done].
  trans w1; [|done]. trans (with_eventQueue rest w); [|done].
  split; [reflexivity|by repeat split].
Qed.

Lemma World_handleEvents_spec (w : World T) :
  world_ok w = true →
  ∃ w', World_handleEvents w = Ok w'
        ∧ world_ok w' = true ∧ grows w w' ∧ m_eventQueue w' = [].
Proof. intros Hok. apply World_handleEvents_loop_spec; [lia|done]. Qed.

Lemma World_lifes_spec (w : World T) :
  world_ok w = true →
  ∃ w', World_lifes w = Ok w' ∧ world_ok w' = true ∧ grows w w'.
Proof.
  intros Hok. pose proof Hok as (He & Hq & Hs & Hn & Ha)%world_ok_spec.
  unfold World_lifes.
  destruct (LifeSystem_update_spec (m_entities w) (heap w) (m_eventQueue w) He)
    as (σ' & -> & Hsame & _).
  rewrite bind_Ok. eexists. split; [done|].
  assert (extends (heap w) σ') as Hx by by apply same_lives_extends.
  match goal with |- world_ok ?x = true ∧ _ => set (w' := x) end.
  assert (grows w w') as Hg by (split; [done|by repeat split]).
  split; [|done].
  apply (world_ok_heap w); try done. cbn. apply Forall_app. split.
  - eapply Forall_impl; [|exact Hq]. intros event ?. by apply (event_ok_grows w).
  - apply list.Forall_forall. intros event (e & -> & _)%list_elem_of_fmap. done.
Qed.

Lemma World_particles_spec dt (w : World T) :
  world_ok w = true →
  ∃ w', World_particles dt w = Ok w' ∧ world_ok w' = true ∧ grows w w'.
Proof.
  intros Hok. pose proof Hok as (He & Hq & Hs & Hn & Ha)%world_ok_spec.
  unfold World_particles.
  destruct (ParticleWatcherSystem_update_spec dt (m_entities w) (heap w) He)
    as (σ' & -> & Hx).
  rewrite bind_Ok. eexists. split; [done|].
  match goal with |- world_ok ?x = true ∧ _ => set (w' := x) end.
  assert (grows w w') as Hg by (split; [done|by repeat split]).
  split; [|done].
  apply (world_ok_heap w); try done. cbn.
  eapply Forall_impl; [|exact Hq]. intros event ?. by apply (event_ok_grows w).
Qed.

Lemma World_checkAffinityChange_spec (w : World T) :
  same_registry w (World_checkAffinityChange w).
Proof. unfold World_checkAffinityChange. destruct (_ <? _); by repeat split. Qed.

(** The passes between the collision effects and the sweep run to their
    end and leave the world in order. *)
Lemma World_after_collisionEffects_spec dt (w : World T) :
  world_ok w = true →
  ∃ w', World_after_collisionEffects dt w = Ok w' ∧ world_ok w' = true ∧ grows w w'.
Proof.
  intros Hok. unfold World_after_collisionEffects.
  destruct (World_lifes_spec w Hok) as (w1 & -> & Hok1 & Hg1). rewrite bind_Ok.
  destruct (World_handleEvents_spec w1 Hok1) as (w2 & -> & Hok2 & Hg2 & _).
  rewrite bind_Ok.
  destruct (same_registry_ok _ _ Hok2 (World_checkAffinityChange_spec w2)) as [Hok3 Hg3].
  destruct (World_particles_spec dt _ Hok3) as (w4 & -> & Hok4 & Hg4).
  exists w4. split; [done|]. split; [done|].
  trans w1; [done|]. trans w2; [done|]. by trans (World_checkAffinityChange w2).
Qed.

End World_passes.

(** ** Score and combo *)

Section Explosion_frame.
Context `{Scalar T} `{Platform} `{Environment T}.

(** An explosion touches the heap, the registries, the entity counter and
    the random sequence only. *)
Lemma createExplosion_frame color position (w : World T) :
  ∃ w', createExplosion color position w = Ok w'
        ∧ m_colorAffinity w' = m_colorAffinity w
        ∧ m_score w' = m_score w
        ∧ m_combo w' = m_combo w
        ∧ m_lastSugoiDisplay w' = m_lastSugoiDisplay w
        ∧ audio w' = audio w
        ∧ constants w' = constants w.
Proof. rewrite createExplosion_eq. eexists. split; [reflexivity|]. by repeat split. Qed.

End Explosion_frame.

(** A hit of the right colour, in binary32, from a combo of [n]. *)
Lemma matching_hit `{Platform} `{Environment binary32.t} (w : World binary32.t) color n :
  m_colorAffinity w = color →
  COMBO_MIN (constants w) = sofZ 5 →
  SUGOI_COMBO (constants w) = 10 →
  m_combo w = n →
  sgtb (sofZ (n + 1)) (sofZ 5 : binary32.t) = true →
  ∃ w', update_score_and_combo color w = Ok w'
        ∧ m_combo w' = n + 1
        ∧ m_score w' = m_score w + (n + 1)
        ∧ audio w'
          = audio w ++ play hitGoodBallSound
                       :: (if Z.rem (n + 1) 10 =? 0 then [play sugoiSound] else [])
        ∧ m_lastSugoiDisplay w'
          = if Z.rem (n + 1) 10 =? 0 then sf.Time_Zero else m_lastSugoiDisplay w.
Proof.
  intros Haff Hmin Hsugoi Hcombo Habove.
  unfold update_score_and_combo, above_COMBO_MIN.
  rewrite bool_decide_eq_true_2 by done.
  cbn -[sgtb sofZ Z.rem Z.eqb]. rewrite Hmin, Hsugoi, Hcombo, Habove.
  change (10 =? 0) with false. cbn -[sgtb sofZ Z.rem Z.eqb].
  destruct (Z.rem (n + 1) 10 =? 0); cbn -[sgtb sofZ Z.rem Z.eqb];
    rewrite ?Hmin, ?Hcombo, ?Habove; (eexists; split; [reflexivity|]);
    cbn; rewrite ?Hcombo; repeat split; try done.
  by rewrite <- app_assoc.
Qed.

(** ** The sweep of the deleted entities *)

Lemma erase_first_subseteq c l : erase_first c l ⊆ l.
Proof.
  induction l as [|c' l IH]; cbn; [done|].
  case_bool_decide.
  - by apply list_subseteq_cons.
  - intros x [->|Hx]%elem_of_cons; [left|right; by apply IH].
Qed.

Lemma erase_first_NoDup c l : NoDup l → NoDup (erase_first c l).
Proof.
  induction l as [|c' l IH]; cbn; [done|].
  intros [Hc' Hl]%list.NoDup_cons. case_bool_decide; [done|].
  apply list.NoDup_cons. split; [|by apply IH].
  intros Hin. apply Hc'. by apply (erase_first_subseteq c).
Qed.

Lemma erase_first_gone c l : NoDup l → c ∉ erase_first c l.
Proof.
  induction l as [|c' l IH]; cbn; [intros _; apply not_elem_of_nil|].
  intros [Hc' Hl]%list.NoDup_cons. case_bool_decide as Heq; [by subst|].
  intros [->|Hin]%elem_of_cons; [done|]. by apply IH.
Qed.

Lemma erase_all_spec (cs : list (string * ComponentPtr)) : ∀ l,
  NoDup l →
  let l' := foldl (λ acc nc, erase_first (nc.2) acc) l cs in
  NoDup l' ∧ l' ⊆ l ∧ ∀ a, a ∈ cs.*2 → a ∉ l'.
Proof.
  induction cs as [|[name c] cs IH]; intros l Hl; cbn.
  - split; [done|]. split; [done|]. intros a Ha. by apply not_elem_of_nil in Ha.
  - destruct (IH (erase_first c l)) as (Hn & Hsub & Hgone); [by apply erase_first_NoDup|].
    split; [done|]. split.
    + trans (erase_first c l); [done|apply erase_first_subseteq].
    + intros a [->|Ha]%elem_of_cons; [|by apply Hgone].
      intros Hin. apply Hsub in Hin. by apply erase_first_gone in Hin.
Qed.

Lemma erase_components_spec (components : gmap string ComponentPtr) l :
  NoDup l →
  NoDup (erase_components components l)
  ∧ erase_components components l ⊆ l
  ∧ ∀ a, a ∈ (map_to_list components).*2 → a ∉ erase_components components l.
Proof. intros Hl. by apply erase_all_spec. Qed.

Section Sweep.
Context `{Scalar T} `{Platform} `{Environment T}.

Lemma read_marker (σ : Store T) e :
  entity_ok σ e = true →
  ∃ ent a, entity_mem σ !! e = Some ent
    ∧ getComponent σ e DeletionMarkerCap "DeletionMarker" = Ok (Some a)
    ∧ read_toDelete σ (Some a) = Ok (marked σ e).
Proof.
  intros Hok. destruct (entity_ok_marker _ _ Hok) as (ent & a & d & He & Ha & Hc).
  exists ent, a. split; [done|].
  rewrite (getComponent_Some _ _ _ _ _ _ DeletionMarkerCap He Ha Hc) by done.
  split; [done|]. unfold read_toDelete, deref, marked, component_of.
  rewrite Hc, He. cbn. rewrite Ha. cbn. by rewrite Hc.
Qed.

Lemma cleanEntities_loop_spec (σ : Store T) todo : ∀ kept l,
  Forall (λ e, entity_ok σ e = true) todo → NoDup l →
  ∃ l', cleanEntities_loop σ todo kept l
        = Ok (kept ++ filter (λ e, marked σ e = false) todo, l')
      ∧ NoDup l' ∧ l' ⊆ l
      ∧ ∀ e, e ∈ todo → marked σ e = true → ∀ a, a ∈ components_of σ e → a ∉ l'.
Proof.
  induction todo as [|e todo IH]; intros kept l Hall Hl; cbn [cleanEntities_loop].
  - exists l. rewrite filter_nil, app_nil_r. repeat split; try done.
    intros e He. by apply not_elem_of_nil in He.
  - apply Forall_cons_1 in Hall as [Hok Hall].
    destruct (read_marker σ e Hok) as (ent & a & He & -> & Hr).
    rewrite bind_Ok, Hr, bind_Ok. rewrite filter_cons.
    destruct (marked σ e) eqn:Hm.
    + unfold getAllComponents, deref_entity. rewrite He. cbn [mbind result_bind].
      destruct (erase_components_spec (m_components_of ent) l Hl) as (Hn1 & Hsub1 & Hgone1).
      destruct (IH kept (erase_components (m_components_of ent) l) Hall Hn1)
        as (l' & -> & Hn' & Hsub' & Hgone').
      exists l'. rewrite decide_False by done. split; [done|]. split; [done|].
      split; [by trans (erase_components (m_components_of ent) l)|].
      intros e' [->|Hin]%elem_of_cons Hm' a' Ha'; [|by eapply Hgone'].
      intros Hin'. apply Hsub' in Hin'. revert Hin'. apply Hgone1.
      unfold components_of in Ha'. by rewrite He in Ha'.
    + destruct (IH (kept ++ [e]) l Hall Hl) as (l' & -> & Hn' & Hsub' & Hgone').
      exists l'. rewrite decide_True by done. rewrite <- app_assoc. split; [done|].
      split; [done|]. split; [done|].
      intros e' [->|Hin]%elem_of_cons Hm' a' Ha'; [congruence|by eapply Hgone'].
Qed.

Lemma cleanEntities_spec (w : World T) :
  world_ok w = true →
  ∃ w', cleanEntities w = Ok w'
    ∧ heap w' = heap w
    ∧ m_entities w' = filter (λ e, marked (heap w) e = false) (m_entities w)
    ∧ m_components w' ⊆ m_components w
    ∧ ∀ e, e ∈ m_entities w → marked (heap w) e = true →
           ∀ a, a ∈ components_of (heap w) e → a ∉ m_components w'.
Proof.
  intros (He & _ & _ & Hn & _)%world_ok_spec. unfold cleanEntities.
  destruct (cleanEntities_loop_spec (heap w) (m_entities w) [] (m_components w) He Hn)
    as (l' & -> & _ & Hsub & Hgone).
  rewrite bind_Ok. eexists. split; [done|]. by repeat split.
Qed.

End Sweep.

(** ** The velocity of a blocking pair *)

(** With both hitboxes blocking the velocity is the movement divided by
    the elapsed time, whether or not the pair was recorded. *)
Lemma pair_step_blocking `{Scalar T} (fstBox sndBox : sf.Rect T) (velocity : sf.Vector2 T)
    (dt : T) :
  pair_step dt fstBox true sndBox true velocity
  = if sdivisor dt
    then Ok (sf.mkVector2 (sdiv (sf.x (pair_movement dt fstBox sndBox velocity).1) dt)
                          (sdiv (sf.y (pair_movement dt fstBox sndBox velocity).1) dt),
             (pair_movement dt fstBox sndBox velocity).2)
    else Fault DivisionByZero.
Proof.
  unfold pair_step, checked_div.
  destruct (pair_movement dt fstBox sndBox velocity) as [m hit]. cbn.
  by destruct (sdivisor dt).
Qed.

(** [x * 0 / 0] in binary32, whatever [x] is. *)
Lemma binary32_times_zero_by_zero (x : binary32.t) :
  sdiv (smul x (S754_zero false)) (S754_zero false) = S754_nan.
Proof. by destruct x as [[]|[]| |[] ? ?]. Qed.

(** In exact arithmetic. *)
Lemma checked_div_exact (a b : Qc) : b ≠ 0%Qc → checked_div a b = Ok (a / b)%Qc.
Proof. intros Hb. unfold checked_div. cbn. by rewrite bool_decide_eq_true_2. Qed.

Lemma Qc_mul_div (a b : Qc) : b ≠ 0%Qc → (a * b / b = a)%Qc.
Proof. intros. field. done. Qed.

(** ** The physics system on the heap *)

Section Physics_heap.
Context `{Scalar T}.
Implicit Types (σ : Store T) (c : Component T).

Lemma well_named_Hitbox c :
  well_named "Hitbox" c = true → ∃ box blocking, c = HitboxComponent box blocking.
Proof.
  unfold well_named. rewrite !andb_true_iff, !bool_decide_eq_true.
  intros [[Hn Hc] _]. destruct c; cbn in *; try done. eauto.
Qed.

Lemma well_named_Movement c :
  well_named "Movement" c = true → ∃ v, c = MovementComponent v.
Proof.
  unfold well_named. rewrite !andb_true_iff, !bool_decide_eq_true.
  intros [[Hn Hc] _]. destruct c; cbn in *; try done. eauto.
Qed.

Lemma entity_ok_hitbox σ e :
  entity_ok σ e = true → has σ e "Hitbox" = true →
  ∃ ent a box blocking, entity_mem σ !! e = Some ent
                        ∧ m_components_of ent !! "Hitbox" = Some a
                        ∧ component_mem σ !! a = Some (HitboxComponent box blocking).
Proof.
  intros Hok Hhas. destruct (has_inv _ _ _ Hhas) as (ent & a & He & Ha).
  destruct (entity_ok_slot _ _ _ _ _ Hok He Ha) as (c & Hc & Hw).
  destruct (well_named_Hitbox _ Hw) as (box & blocking & ->). eauto 10.
Qed.

Lemma entity_ok_movement σ e :
  entity_ok σ e = true → has σ e "Movement" = true →
  ∃ ent a v, entity_mem σ !! e = Some ent
             ∧ m_components_of ent !! "Movement" = Some a
             ∧ component_mem σ !! a = Some (MovementComponent v).
Proof.
  intros Hok Hhas. destruct (has_inv _ _ _ Hhas) as (ent & a & He & Ha).
  destruct (entity_ok_slot _ _ _ _ _ Hok He Ha) as (c & Hc & Hw).
  destruct (well_named_Movement _ Hw) as (v & ->). eauto 10.
Qed.

(** A hitbox stays a hitbox and a movement a movement while the heap is
    extended. *)
Lemma extends_hitbox σ σ' a box blocking :
  extends σ σ' → component_mem σ !! a = Some (HitboxComponent box blocking) →
  ∃ box' blocking', component_mem σ' !! a = Some (HitboxComponent box' blocking').
Proof.
  intros [_ Hx] Hc. destruct (Hx _ _ Hc) as (c' & Hc' & _ & Hclass & _).
  destruct c'; try done. eauto.
Qed.

Lemma extends_movement σ σ' a v :
  extends σ σ' → component_mem σ !! a = Some (MovementComponent v) →
  ∃ v', component_mem σ' !! a = Some (MovementComponent v').
Proof.
  intros [_ Hx] Hc. destruct (Hx _ _ Hc) as (c' & Hc' & _ & Hclass & _).
  destruct c'; try done. eauto.
Qed.

(** The body of the inner loop is [pair_step] on the values the two
    entities hold: the new velocity is stored when both hitboxes are
    blocking, the pair is recorded when the step reports a hit. *)
Lemma PhysicSystem_pair_eq dt fst snd fstEntity sndEntity fstHitbox fstMovement sndHitbox
    fstBox fstBlocking sndBox sndBlocking velocity σ (m_collisions : CollisionRecord) :
  fst ≠ snd →
  entity_mem σ !! fst = Some fstEntity →
  is_Some (m_components_of fstEntity !! "Movement") →
  entity_mem σ !! snd = Some sndEntity →
  m_components_of sndEntity !! "Hitbox" = Some sndHitbox →
  component_mem σ !! sndHitbox = Some (HitboxComponent sndBox sndBlocking) →
  component_mem σ !! fstHitbox = Some (HitboxComponent fstBox fstBlocking) →
  component_mem σ !! fstMovement = Some (MovementComponent velocity) →
  PhysicSystem_pair dt fst (Some fstHitbox) (Some fstMovement) (σ, m_collisions) snd
  = '(velocity', hit) ← pair_step dt fstBox fstBlocking sndBox sndBlocking velocity;
    Ok (if fstBlocking && sndBlocking
        then store_component fstMovement (MovementComponent velocity') σ
        else σ,
        if (hit : bool) then m_collisions ++ [(fst, snd)] else m_collisions).
Proof.
  intros Hne He1 Hm1 He2 Ha2 Hc2 Hch Hcm. unfold PhysicSystem_pair.
  rewrite bool_decide_eq_false_2 by done.
  rewrite (hasComponent_has _ _ _ _ He2), bind_Ok. unfold has at 1. rewrite He2.
  rewrite bool_decide_eq_true_2 by eauto. cbn [negb].
  rewrite (hasComponent_has _ _ _ _ He1), bind_Ok. unfold has at 1. rewrite He1.
  rewrite bool_decide_eq_true_2 by done. cbn [negb].
  rewrite (getComponent_Some _ _ _ _ _ _ HitboxCap He2 Ha2 Hc2) by done.
  rewrite bind_Ok. unfold read_hitbox, read_velocity, deref.
  rewrite Hch, Hcm, Hc2. cbn.
  destruct (pair_step dt fstBox fstBlocking sndBox sndBlocking velocity)
    as [[velocity' hit]|f]; [|done]. cbn.
  destruct (fstBlocking && sndBlocking); [|done].
  by rewrite Hcm.
Qed.

Lemma pair_step_Ok dt fstBox fstBlocking sndBox sndBlocking velocity :
  sdivisor dt = true →
  ∃ velocity' hit,
    pair_step dt fstBox fstBlocking sndBox sndBlocking velocity = Ok (velocity', hit).
Proof.
  intros Hdt. unfold pair_step, checked_div. rewrite Hdt.
  destruct (pair_movement dt fstBox sndBox velocity) as [m hit].
  destruct (fstBlocking && sndBlocking); cbn; eauto.
Qed.

Lemma PhysicSystem_pair_spec dt fst snd fstHitbox fstMovement fstBox fstBlocking velocity
    σ (m_collisions : CollisionRecord) :
  sdivisor dt = true →
  entity_ok σ fst = true → entity_ok σ snd = true →
  component_mem σ !! fstHitbox = Some (HitboxComponent fstBox fstBlocking) →
  component_mem σ !! fstMovement = Some (MovementComponent velocity) →
  ∃ σ' m_collisions',
    PhysicSystem_pair dt fst (Some fstHitbox) (Some fstMovement) (σ, m_collisions) snd
    = Ok (σ', m_collisions')
    ∧ extends σ σ'
    ∧ (m_collisions' = m_collisions ∨ m_collisions' = m_collisions ++ [(fst, snd)]).
Proof.
  intros Hdt Hok1 Hok2 Hch Hcm.
  destruct (decide (fst = snd)) as [Heq|Hne].
  { unfold PhysicSystem_pair. rewrite bool_decide_eq_true_2 by done.
    exists σ, m_collisions. split; [done|]. split; [reflexivity|by left]. }
  destruct (entity_ok_inv _ _ Hok1) as (ent1 & He1 & _).
  destruct (entity_ok_inv _ _ Hok2) as (ent2 & He2 & _).
  destruct (has σ snd "Hitbox") eqn:Hh2.
  2:{ unfold PhysicSystem_pair. rewrite bool_decide_eq_false_2 by done.
      rewrite (hasComponent_has _ _ _ _ He2), bind_Ok, Hh2. cbn.
      exists σ, m_collisions. split; [done|]. split; [reflexivity|by left]. }
  destruct (has σ fst "Movement") eqn:Hm1.
  2:{ unfold PhysicSystem_pair. rewrite bool_decide_eq_false_2 by done.
      rewrite (hasComponent_has _ _ _ _ He2), bind_Ok, Hh2. cbn [negb].
      rewrite (hasComponent_has _ _ _ _ He1), bind_Ok, Hm1. cbn.
      exists σ, m_collisions. split; [done|]. split; [reflexivity|by left]. }
  destruct (entity_ok_hitbox _ _ Hok2 Hh2) as (ent2' & a2 & box2 & b2 & He2' & Ha2 & Hc2).
  rewrite He2 in He2'. injection He2' as <-.
  assert (is_Some (m_components_of ent1 !! "Movement")) as Hm.
  { unfold has in Hm1. rewrite He1 in Hm1. by apply bool_decide_eq_true in Hm1. }
  rewrite (PhysicSystem_pair_eq dt fst snd ent1 ent2 fstHitbox fstMovement a2
             fstBox fstBlocking box2 b2 velocity σ m_collisions) by done.
  destruct (pair_step_Ok dt fstBox fstBlocking box2 b2 velocity Hdt) as (v' & hit & ->).
  rewrite bind_Ok. eexists _, _. split; [done|]. split.
  - destruct (fstBlocking && b2); [|reflexivity].
    eapply store_component_extends; [done|]. by repeat split.
  - destruct hit; [by right|by left].
Qed.

Lemma PhysicSystem_pairs_spec dt fst fstHitbox fstMovement others :
  ∀ σ (m_collisions : CollisionRecord) fstBox fstBlocking velocity,
  sdivisor dt = true →
  entity_ok σ fst = true → Forall (λ e, entity_ok σ e = true) others →
  component_mem σ !! fstHitbox = Some (HitboxComponent fstBox fstBlocking) →
  component_mem σ !! fstMovement = Some (MovementComponent velocity) →
  ∃ σ' added,
    for_each (PhysicSystem_pair dt fst (Some fstHitbox) (Some fstMovement))
             (σ, m_collisions) others
    = Ok (σ', m_collisions ++ added)
    ∧ extends σ σ'
    ∧ Forall (λ collision, collision.1 = fst ∧ collision.2 ∈ others) added.
Proof.
  induction others as [|snd rest IH]; intros σ m_collisions fstBox fstBlocking velocity
    Hdt Hok1 Hall Hch Hcm.
  - exists σ, []. rewrite for_each_nil, app_nil_r. split; [done|]. split; [reflexivity|done].
  - apply Forall_cons_1 in Hall as [Hok2 Hall].
    destruct (PhysicSystem_pair_spec dt fst snd fstHitbox fstMovement fstBox fstBlocking
                velocity σ m_collisions Hdt Hok1 Hok2 Hch Hcm)
      as (σ1 & rec1 & Hstep & Hx1 & Hrec1).
    rewrite for_each_cons, Hstep, bind_Ok.
    destruct (extends_hitbox _ _ _ _ _ Hx1 Hch) as (box1 & b1 & Hch1).
    destruct (extends_movement _ _ _ _ Hx1 Hcm) as (v1 & Hcm1).
    destruct (IH σ1 rec1 box1 b1 v1) as (σ' & added & Hrun & Hx' & Hadded); try done.
    { by apply (entity_ok_extends σ). }
    { eapply Forall_impl; [|exact Hall]. intros e ?. by apply (entity_ok_extends σ). }
    rewrite Hrun.
    assert (Forall (λ collision : EntityPtr * EntityPtr,
                      collision.1 = fst ∧ collision.2 ∈ snd :: rest) added) as Hadded'.
    { eapply Forall_impl; [|exact Hadded]. intros p [? ?]. split; [done|by right]. }
    destruct Hrec1 as [->| ->].
    + exists σ', added. split; [done|]. split; [by trans σ1|done].
    + exists σ', ((fst, snd) :: added). rewrite <- app_assoc. split; [done|].
      split; [by trans σ1|]. constructor; [|done]. split; [done|by left].
Qed.

Lemma PhysicSystem_entity_spec dt entities fst σ (m_collisions : CollisionRecord) :
  sdivisor dt = true →
  entity_ok σ fst = true → Forall (λ e, entity_ok σ e = true) entities →
  ∃ σ' added,
    PhysicSystem_entity dt entities (σ, m_collisions) fst = Ok (σ', m_collisions ++ added)
    ∧ extends σ σ'
    ∧ Forall (λ collision, collision.1 = fst ∧ collision.2 ∈ entities) added.
Proof.
  intros Hdt Hok Hall. destruct (entity_ok_inv _ _ Hok) as (ent & He & _).
  unfold PhysicSystem_entity.
  rewrite !(hasComponent_has _ _ _ _ He), !bind_Ok.
  destruct (has σ fst "Hitbox") eqn:Hh; cbn [negb orb].
  2:{ exists σ, []. rewrite app_nil_r. split; [done|]. split; [reflexivity|done]. }
  destruct (has σ fst "Movement") eqn:Hm; cbn [negb].
  2:{ exists σ, []. rewrite app_nil_r. split; [done|]. split; [reflexivity|done]. }
  destruct (entity_ok_hitbox _ _ Hok Hh) as (ent1 & ah & box & blocking & He1 & Hah & Hch).
  destruct (entity_ok_movement _ _ Hok Hm) as (ent2 & am & v & He2 & Ham & Hcm).
  rewrite (getComponent_Some _ _ _ _ _ _ HitboxCap He1 Hah Hch) by done.
  rewrite (getComponent_Some _ _ _ _ _ _ MovementCap He2 Ham Hcm) by done.
  rewrite !bind_Ok.
  destruct (PhysicSystem_pairs_spec dt fst ah am entities σ m_collisions box blocking v)
    as (σ1 & added & -> & Hx1 & Hadded); try done.
  rewrite bind_Ok.
  destruct (extends_hitbox _ _ _ _ _ Hx1 Hch) as (box1 & b1 & Hch1).
  destruct (extends_movement _ _ _ _ Hx1 Hcm) as (v1 & Hcm1).
  unfold read_hitbox, read_velocity, deref at 1 2. rewrite Hch1, Hcm1, !bind_Ok.
  erewrite write_Ok by (done || by cbn). rewrite bind_Ok.
  eexists _, added. split; [done|]. split; [|done].
  trans σ1; [done|]. eapply store_component_extends; [done|]. by repeat split.
Qed.

Lemma PhysicSystem_entities_spec dt entities todo :
  ∀ σ (m_collisions : CollisionRecord),
  sdivisor dt = true →
  Forall (λ e, entity_ok σ e = true) entities →
  Forall (λ e, entity_ok σ e = true) todo →
  ∃ σ' added,
    for_each (PhysicSystem_entity dt entities) (σ, m_collisions) todo
    = Ok (σ', m_collisions ++ added)
    ∧ extends σ σ'
    ∧ Forall (λ collision, collision.1 ∈ todo ∧ collision.2 ∈ entities) added.
Proof.
  induction todo as [|fst rest IH]; intros σ m_collisions Hdt Hall Htodo.
  - exists σ, []. rewrite for_each_nil, app_nil_r. split; [done|]. split; [reflexivity|done].
  - apply Forall_cons_1 in Htodo as [Hok Htodo].
    destruct (PhysicSystem_entity_spec dt entities fst σ m_collisions Hdt Hok Hall)
      as (σ1 & added1 & Hstep & Hx1 & Hadded1).
    rewrite for_each_cons, Hstep, bind_Ok.
    destruct (IH σ1 (m_collisions ++ added1)) as (σ' & added & Hrun & Hx' & Hadded); try done.
    { eapply Forall_impl; [|exact Hall]. intros e ?. by apply (entity_ok_extends σ). }
    { eapply Forall_impl; [|exact Htodo]. intros e ?. by apply (entity_ok_extends σ). }
    exists σ', (added1 ++ added). split; [rewrite app_assoc; exact Hrun|].
    split; [by trans σ1|]. apply Forall_app. split.
    + eapply Forall_impl; [|exact Hadded1]. intros p [-> ?]. split; [by left|done].
    + eapply Forall_impl; [|exact Hadded]. intros p [? ?]. split; [by right|done].
Qed.

Lemma PhysicSystem_update_spec elapsed entities σ :
  sdivisor (sf.asSeconds (T := T) elapsed) = true →
  Forall (λ e, entity_ok σ e = true) entities →
  ∃ σ' m_collisions,
    PhysicSystem_update elapsed entities σ = Ok (σ', m_collisions)
    ∧ extends σ σ'
    ∧ Forall (λ collision, collision.1 ∈ entities ∧ collision.2 ∈ entities) m_collisions.
Proof.
  intros Hdt Hall. unfold PhysicSystem_update.
  destruct (PhysicSystem_entities_spec (sf.asSeconds elapsed) entities entities σ [])
    as (σ' & added & Hrun & Hx & Hadded); try done.
  exists σ', added. done.
Qed.

Lemma SynchronizeSystem_entity_spec σ e :
  entity_ok σ e = true →
  ∃ σ', SynchronizeSystem_entity σ e = Ok σ' ∧ extends σ σ'.
Proof.
  intros Hok. destruct (entity_ok_inv _ _ Hok) as (ent & He & _).
  unfold SynchronizeSystem_entity.
  rewrite !(hasComponent_has _ _ _ _ He), !bind_Ok.
  destruct (has σ e "Hitbox") eqn:Hh; cbn [negb orb]; [|by exists σ].
  destruct (has σ e "Sprite") eqn:Hs; cbn [negb]; [|by exists σ].
  destruct (entity_ok_hitbox _ _ Hok Hh) as (ent1 & ah & box & blocking & He1 & Hah & Hch).
  destruct (entity_ok_sprite _ _ Hok Hs) as (ent2 & asp & s & He2 & Has & Hcs).
  rewrite (getComponent_Some _ _ _ _ _ _ HitboxCap He1 Hah Hch) by done.
  rewrite (getComponent_Some _ _ _ _ _ _ SpriteCap He2 Has Hcs) by done.
  rewrite !bind_Ok. unfold read_hitbox, read_sprite, deref at 1 2.
  rewrite Hch, Hcs, !bind_Ok.
  erewrite write_Ok by (done || by cbn).
  eexists. split; [done|]. eapply store_component_extends; [done|]. by repeat split.
Qed.

Lemma SynchronizeSystem_update_spec entities : ∀ σ,
  Forall (λ e, entity_ok σ e = true) entities →
  ∃ σ', SynchronizeSystem_update entities σ = Ok σ' ∧ extends σ σ'.
Proof.
  unfold SynchronizeSystem_update.
  induction entities as [|e rest IH]; intros σ Hall.
  - exists σ. by rewrite for_each_nil.
  - apply Forall_cons_1 in Hall as [Hok Hall].
    destruct (SynchronizeSystem_entity_spec σ e Hok) as (σ1 & Hstep & Hx1).
    rewrite for_each_cons, Hstep, bind_Ok.
    destruct (IH σ1) as (σ' & Hrun & Hx').
    { eapply Forall_impl; [|exact Hall]. intros e' ?. by apply (entity_ok_extends σ). }
    exists σ'. split; [done|]. by trans σ1.
Qed.

End Physics_heap.

(** ** A whole tick *)

Section World_tick.
Context `{Scalar T} `{Platform} `{Environment T}.

Lemma World_physics_spec dt (w : World T) :
  sdivisor (sf.asSeconds (T := T) dt) = true → world_ok w = true →
  ∃ w' m_collisions,
    World_physics dt w = Ok (w', m_collisions)
    ∧ world_ok w' = true ∧ grows w w'
    ∧ m_entities w' = m_entities w
    ∧ Forall (λ collision, collision.1 ∈ m_entities w ∧ collision.2 ∈ m_entities w)
             m_collisions.
Proof.
  intros Hdt Hok. pose proof Hok as (He & Hq & Hs & Hn & Ha)%world_ok_spec.
  unfold World_physics.
  destruct (PhysicSystem_update_spec dt (m_entities w) (heap w) Hdt He)
    as (σ1 & m_collisions & -> & Hx1 & Hrec).
  rewrite bind_Ok.
  destruct (SynchronizeSystem_update_spec (m_entities w) σ1) as (σ2 & -> & Hx2).
  { eapply Forall_impl; [|exact He]. intros e ?. by apply (entity_ok_extends (heap w)). }
  rewrite bind_Ok. eexists _, m_collisions. split; [done|].
  assert (extends (heap w) σ2) as Hx by by trans σ1.
  match goal with |- world_ok ?x = true ∧ _ => set (w' := x) end.
  assert (grows w w') as Hg by (split; [done|by repeat split]).
  split; [|done].
  apply (world_ok_heap w); try done. cbn.
  eapply Forall_impl; [|exact Hq]. intros event ?. by apply (event_ok_grows w).
Qed.

Lemma effect_event_ok (w : World T) event :
  event_ok w (mkEvent PlayerHit None) = true → effect_event event →
  event_ok w event = true.
Proof. intros Hp [->|(color & center & ->)]; [done|reflexivity]. Qed.

Lemma World_collisionEffects_spec m_collisions (w : World T) :
  world_ok w = true → event_ok w (mkEvent PlayerHit None) = true →
  Forall (λ collision, tagged_ok (heap w) (collision.1) = true
                       ∧ tagged_ok (heap w) (collision.2) = true) m_collisions →
  ∃ w', World_collisionEffects m_collisions w = Ok w'
        ∧ world_ok w' = true ∧ grows w w' ∧ m_entities w' = m_entities w.
Proof.
  intros Hok Hplayer Hall. pose proof Hok as (He & Hq & Hs & Hn & Ha)%world_ok_spec.
  unfold World_collisionEffects.
  destruct (CollisionEffectsSystem_update_safe m_collisions (heap w) (m_eventQueue w) Hall)
    as (σ' & added & -> & Hx & Hev).
  rewrite bind_Ok. eexists. split; [done|].
  match goal with |- world_ok ?x = true ∧ _ => set (w' := x) end.
  assert (grows w w') as Hg by (split; [done|by repeat split]).
  split; [|done].
  apply (world_ok_heap w); try done. cbn. apply Forall_app. split.
  - eapply Forall_impl; [|exact Hq]. intros event ?. by apply (event_ok_grows w).
  - eapply Forall_impl; [|exact Hev]. intros event ?.
    apply effect_event_ok; [|done]. by apply (event_ok_grows w).
Qed.

Lemma cleanEntities_ok (w : World T) :
  world_ok w = true → ∃ w', cleanEntities w = Ok w' ∧ world_ok w' = true.
Proof.
  intros Hok. pose proof Hok as (He & Hq & Hs & Hn & Ha)%world_ok_spec.
  unfold cleanEntities.
  destruct (cleanEntities_loop_spec (heap w) (m_entities w) [] (m_components w) He Hn)
    as (l' & -> & Hn' & Hsub & _).
  rewrite bind_Ok. eexists. split; [done|]. apply world_ok_spec. cbn.
  split; [|split; [|split; [|split]]]; try done.
  - apply list.Forall_forall. intros e [_ Hin]%list_elem_of_filter.
    rewrite list.Forall_forall in He. by apply He.
  - apply list.Forall_forall. intros a Hin. rewrite list.Forall_forall in Ha.
    apply Ha. by apply Hsub.
Qed.

Lemma World_update_systems_spec dt (w : World T) :
  sdivisor (sf.asSeconds (T := T) dt) = true →
  world_ok w = true → event_ok w (mkEvent PlayerHit None) = true →
  Forall (λ e, tagged_ok (heap w) e = true) (m_entities w) →
  ∃ w', World_update_systems dt w = Ok w' ∧ world_ok w' = true.
Proof.
  intros Hdt Hok Hplayer Htag. unfold World_update_systems.
  destruct (World_physics_spec dt w Hdt Hok) as (w1 & m_collisions & -> & Hok1 & Hg1 & He1 & Hrec).
  rewrite bind_Ok.
  destruct (World_collisionEffects_spec m_collisions w1 Hok1)
    as (w2 & -> & Hok2 & Hg2 & He2).
  { by apply (event_ok_grows w). }
  { rewrite list.Forall_forall in Htag. destruct Hg1 as (Hx1 & _).
    eapply Forall_impl; [|exact Hrec]. intros collision [Hin1 Hin2].
    split; apply (tagged_ok_extends (heap w)); auto. }
  rewrite bind_Ok.
  destruct (World_after_collisionEffects_spec dt w2 Hok2) as (w3 & -> & Hok3 & _).
  rewrite bind_Ok. by apply cleanEntities_ok.
Qed.

End World_tick.

(** ** The loops of the physics system and the loop on the values *)

Section Physics_loops.
Context `{Scalar T}.
Implicit Types (σ : Store T) (c : Component T).

Lemma store_component_id σ a c :
  component_mem σ !! a = Some c → store_component a c σ = σ.
Proof. intros Hc. destruct σ as [em cm]. unfold store_component. cbn in *. by rewrite insert_id. Qed.

Lemma store_component_twice σ a c c' :
  store_component a c' (store_component a c σ) = store_component a c' σ.
Proof. unfold store_component. cbn. by rewrite insert_insert_eq. Qed.

(** Storing a new velocity hides no hitbox. *)
Lemma obstacle_store_velocity σ a v v' fst snd :
  component_mem σ !! a = Some (MovementComponent v) →
  obstacle (store_component a (MovementComponent v') σ) fst snd = obstacle σ fst snd.
Proof.
  intros Hc. unfold obstacle, component_of. cbn.
  destruct (bool_decide (fst = snd)); [done|].
  destruct (entity_mem σ !! snd) as [ent|]; cbn; [|done].
  destruct (m_components_of ent !! "Hitbox") as [a0|]; cbn; [|done].
  destruct (decide (a = a0)) as [<-|Hne].
  - by rewrite lookup_insert_eq, Hc.
  - by rewrite lookup_insert_ne.
Qed.

Lemma obstacles_store_velocity σ a v v' fst entities :
  component_mem σ !! a = Some (MovementComponent v) →
  obstacles (store_component a (MovementComponent v') σ) fst entities
  = obstacles σ fst entities.
Proof.
  intros Hc. unfold obstacles. induction entities as [|e rest IH]; cbn; [done|].
  by rewrite (obstacle_store_velocity _ _ v), IH.
Qed.

Lemma pair_step_not_blocking dt fstBox fstBlocking sndBox sndBlocking velocity :
  fstBlocking && sndBlocking = false →
  ∃ hit, pair_step dt fstBox fstBlocking sndBox sndBlocking velocity = Ok (velocity, hit).
Proof.
  intros Hb. unfold pair_step.
  destruct (pair_movement dt fstBox sndBox velocity) as [m hit]. rewrite Hb. eauto.
Qed.

Lemma PhysicSystem_pair_self dt fst fstHitbox fstMovement
    (st : Store T * CollisionRecord) :
  PhysicSystem_pair dt fst fstHitbox fstMovement st fst = Ok st.
Proof.
  unfold PhysicSystem_pair. destruct st as [σ m_collisions].
  by rewrite bool_decide_eq_true_2.
Qed.

Lemma PhysicSystem_pair_no_hitbox dt fst snd sndEntity fstHitbox fstMovement σ
    (m_collisions : CollisionRecord) :
  entity_mem σ !! snd = Some sndEntity → has σ snd "Hitbox" = false →
  PhysicSystem_pair dt fst fstHitbox fstMovement (σ, m_collisions) snd
  = Ok (σ, m_collisions).
Proof.
  intros He Hh. unfold PhysicSystem_pair. case_bool_decide; [done|].
  by rewrite (hasComponent_has _ _ _ _ He), bind_Ok, Hh.
Qed.

(** The inner loop stores in the movement of [fst] what [pair_loop]
    computes on the hitboxes of the others, and touches nothing else. *)
Lemma PhysicSystem_pairs_loop dt fst fstEntity fstHitbox fstMovement fstBox fstBlocking
    entities : ∀ σ (m_collisions : CollisionRecord) velocity,
  entity_mem σ !! fst = Some fstEntity →
  is_Some (m_components_of fstEntity !! "Movement") →
  component_mem σ !! fstHitbox = Some (HitboxComponent fstBox fstBlocking) →
  component_mem σ !! fstMovement = Some (MovementComponent velocity) →
  Forall (λ e, entity_ok σ e = true) entities →
  (st ← for_each (PhysicSystem_pair dt fst (Some fstHitbox) (Some fstMovement))
                 (σ, m_collisions) entities;
   Ok (st.1))
  = (velocity' ← pair_loop dt fstBox fstBlocking (obstacles σ fst entities) velocity;
     Ok (store_component fstMovement (MovementComponent velocity') σ)).
Proof.
  induction entities as [|snd rest IH]; intros σ m_collisions velocity He Hm Hch Hcm Hall.
  { cbn. by rewrite store_component_id. }
  apply Forall_cons_1 in Hall as [Hok Hall].
  destruct (entity_ok_inv _ _ Hok) as (sndEntity & He2 & _).
  rewrite for_each_cons. unfold obstacles. cbn [omap list_omap]. fold (obstacles σ fst rest).
  unfold obstacle at 1.
  destruct (decide (fst = snd)) as [Heq|Hne].
  { subst snd. rewrite PhysicSystem_pair_self, bind_Ok, bool_decide_eq_true_2 by done.
    by apply IH. }
  rewrite (bool_decide_eq_false_2 (fst = snd)) by done.
  destruct (has σ snd "Hitbox") eqn:Hh.
  2:{ rewrite (PhysicSystem_pair_no_hitbox _ _ _ _ _ _ _ _ He2 Hh), bind_Ok.
      assert (component_of σ snd "Hitbox" = None) as ->.
      { unfold has in Hh. rewrite He2 in Hh. apply bool_decide_eq_false in Hh.
        unfold component_of. rewrite He2. cbn.
        destruct (m_components_of sndEntity !! "Hitbox"); [|done].
        exfalso. apply Hh. eauto. }
      by apply IH. }
  destruct (entity_ok_hitbox _ _ Hok Hh) as (ent2 & a2 & box2 & b2 & He2' & Ha2 & Hc2).
  rewrite He2 in He2'. injection He2' as <-.
  assert (component_of σ snd "Hitbox" = Some (HitboxComponent box2 b2)) as ->.
  { unfold component_of. rewrite He2. cbn. rewrite Ha2. cbn. done. }
  rewrite (PhysicSystem_pair_eq dt fst snd fstEntity sndEntity fstHitbox fstMovement a2
             fstBox fstBlocking box2 b2 velocity σ m_collisions) by done.
  cbn [pair_loop].
  destruct (pair_step dt fstBox fstBlocking box2 b2 velocity) as [[v1 hit]|f] eqn:Hstep;
    [|done].
  rewrite !bind_Ok.
  set (σ1 := store_component fstMovement (MovementComponent v1) σ).
  assert ((if fstBlocking && b2 then σ1 else σ) = σ1) as ->.
  { destruct (fstBlocking && b2) eqn:Hb; [done|].
    destruct (pair_step_not_blocking dt fstBox fstBlocking box2 b2 velocity Hb) as (hit' & Hs).
    rewrite Hs in Hstep. injection Hstep as <- _. subst σ1.
    by rewrite store_component_id. }
  assert (extends σ σ1) as Hx.
  { eapply store_component_extends; [done|]. by repeat split. }
  assert (fstHitbox ≠ fstMovement) as Hne' by (intros ->; congruence).
  rewrite (IH σ1 _ v1); try done.
  - subst σ1. rewrite (obstacles_store_velocity _ _ velocity) by done.
    destruct (pair_loop dt fstBox fstBlocking (obstacles σ fst rest) v1) as [v'|f]; [|done].
    rewrite !bind_Ok. by rewrite store_component_twice.
  - subst σ1. cbn. by rewrite lookup_insert_ne.
  - subst σ1. cbn. by rewrite lookup_insert_eq.
  - eapply Forall_impl; [|exact Hall]. intros e ?. by apply (entity_ok_extends σ).
Qed.

End Physics_loops.

(** * The statements of the specification *)

(** ** C1 *)

(** C1. The collision-effects system reacts to a projectile and a ball
    recorded in this order only. On a pair recorded as (ball, projectile)
    it changes nothing and emits nothing; on the same two entities recorded
    as (projectile, ball) both lives are zeroed, both markers set, and one
    event carries the colour of the second band and the centre of the
    ball. *)
Theorem ball_then_sakura_is_ignored :
  CollisionEffectsSystem_update [(ball, sakura)] sakura_and_ball []
  = Ok (sakura_and_ball, [])
  ∧ CollisionEffectsSystem_update [(sakura, ball)] sakura_and_ball []
    = Ok (sakura_and_ball_hit,
          [mkEvent ColoredBallShot
             (Some (ColoredBallShotData sf.Blue (sf.mkVector2 (sofZ 132) (sofZ 132))))]).
Proof. split; vm_compute; reflexivity. Qed.

(** ** C2 *)

(** C2. The code gives the vertex the byte of the remaining lifetime in
    seconds times 255, with no clamp and no reference to the initial
    lifetime. A particle whose remaining lifetime is its initial lifetime
    of two seconds (a lifetime the constructor draws when [std::rand]
    gives 1000 modulo 2000) is not given alpha 255 on x86-64 but 254, and
    a particle half a second past its end is not given alpha 0 but 129:
    the value wraps. Both products, 510 and -127.5, are out of the range
    of a byte, so the result is left to the platform: on AArch64, which
    saturates, the same two particles get 255 and 0. With one second or
    nothing left the alpha is 255 and 0 on both. *)
Theorem particle_alpha_wraps :
  sf.milliseconds (1000 mod 2000 + 1000) = 2000000
  ∧ sf.a (sf.color
            (@update_particle binary32.t _ x86_64 0
               (mkParticle (sf.mkVector2 (sofZ 0) (sofZ 0)) 2000000)
               (sf.mkVertex (sf.mkVector2 (sofZ 0) (sofZ 0)) sf.Red
                            (sf.mkVector2 (sofZ 0) (sofZ 0)))).2) = 254
  ∧ @particle_alpha binary32.t _ x86_64 (-500000) = 129
  ∧ @particle_alpha binary32.t _ aarch64 2000000 = 255
  ∧ @particle_alpha binary32.t _ aarch64 (-500000) = 0
  ∧ @particle_alpha binary32.t _ x86_64 1000000 = 255
  ∧ @particle_alpha binary32.t _ x86_64 0 = 0
  ∧ @particle_alpha binary32.t _ aarch64 1000000 = 255
  ∧ @particle_alpha binary32.t _ aarch64 0 = 0.
Proof. repeat split; vm_compute; reflexivity. Qed.

(** ** C3 *)

(** C3, as stated, fails: the life system does not look at the alive flag.
    A ball with no life point left gets a death event at the first pass,
    which marks it as not alive, and a second death event at the next
    pass. *)
Lemma second_death_event :
  LifeSystem_update [0%nat] hit_ball [] = Ok (hit_ball_seen, [death_event 0%nat])
  ∧ alive_of hit_ball_seen 0%nat = Some false
  ∧ LifeSystem_update [0%nat] hit_ball_seen [death_event 0%nat]
    = Ok (hit_ball_seen, [death_event 0%nat; death_event 0%nat]).
Proof. split; [|split]; vm_compute; reflexivity. Qed.

(** C3, amended. At each pass the life system emits one death event for
    each listed entity that has a life component with no life point left,
    whether or not it was already marked as not alive, and marks it as not
    alive; the life points are left as they are, so a pass over the same
    entities emits the same events again. *)
Theorem LifeSystem_death_event_every_pass {T} (entities : list EntityPtr)
    (σ : Store T) (q : list (Event T)) :
  Forall (λ e, entity_ok σ e = true) entities →
  let events := death_event <$> filter (λ e, lifeless σ e = true) entities in
  ∃ σ',
    LifeSystem_update entities σ q = Ok (σ', q ++ events)
    ∧ (∀ e, lifepoints_of σ' e = lifepoints_of σ e)
    ∧ (∀ e, e ∈ entities → lifeless σ e = true → alive_of σ' e = Some false)
    ∧ ∃ σ'', LifeSystem_update entities σ' (q ++ events)
             = Ok (σ'', (q ++ events) ++ events).
Proof.
  intros Hall events.
  destruct (LifeSystem_update_spec entities σ q Hall) as (σ' & Hrun & Hs & Hdead).
  exists σ'. split; [done|]. split; [intros e; by apply same_lives_lifepoints|].
  split; [done|].
  destruct (LifeSystem_update_spec entities σ' (q ++ events)) as (σ'' & Hrun' & _).
  { eapply Forall_impl; [|exact Hall]. intros e ?. cbn.
    eapply entity_ok_extends; [by apply same_lives_extends|done]. }
  exists σ''. rewrite Hrun'. do 3 f_equal. subst events. f_equal.
  apply list_filter_iff. intros e. by rewrite (same_lives_lifeless _ _ _ Hs).
Qed.

Lemma LifeSystem_death_event_every_pass_witness :
  Forall (λ e, entity_ok hit_ball_seen e = true) [0%nat]
  ∧ ∃ σ', LifeSystem_update [0%nat] hit_ball_seen []
          = Ok (σ', [] ++ (death_event <$> filter (λ e, lifeless hit_ball_seen e = true) [0%nat]))
    ∧ (∀ e, lifepoints_of σ' e = lifepoints_of hit_ball_seen e)
    ∧ (∀ e, e ∈ [0%nat] → lifeless hit_ball_seen e = true → alive_of σ' e = Some false)
    ∧ ∃ σ'', LifeSystem_update [0%nat] σ'
               ([] ++ (death_event <$> filter (λ e, lifeless hit_ball_seen e = true) [0%nat]))
             = Ok (σ'', ([] ++ (death_event <$> filter (λ e, lifeless hit_ball_seen e = true) [0%nat]))
                        ++ (death_event <$> filter (λ e, lifeless hit_ball_seen e = true) [0%nat])).
Proof.
  assert (Forall (λ e, entity_ok hit_ball_seen e = true) [0%nat]) as Hok
    by (repeat constructor).
  split; [exact Hok|].
  exact (LifeSystem_death_event_every_pass [0%nat] hit_ball_seen [] Hok).
Defined.

(** ** C4 *)

(** C4. When the hitbox of the first entity, moved by its velocity times
    the elapsed time, intersects the hitbox of the second, the pair is
    recorded and the movement is corrected by the first test that holds on
    the hitboxes as they were: from the bottom, else from the top, else
    from the right, else from the left, else nothing. In particular a
    rectangle moving straight down onto a rectangle below it has its
    vertical movement set to the top of the target minus the bottom of the
    source. *)
Theorem collision_side_priority `{Scalar T} dt (fstBox sndBox : sf.Rect T) velocity :
  sf.intersects (tentative_hitbox fstBox velocity dt) sndBox = true →
  let movement := tentative_movement velocity dt in
  ∃ corrected,
    pair_movement dt fstBox sndBox velocity = (corrected, true)
    ∧ (from_bottom fstBox sndBox = true →
         corrected = sf.mkVector2 (sf.x movement)
           (ssub (sf.top sndBox) (sadd (sf.top fstBox) (sf.height fstBox))))
    ∧ (from_bottom fstBox sndBox = false → from_top fstBox sndBox = true →
         corrected = sf.mkVector2 (sf.x movement)
           (sneg (ssub (sf.top fstBox) (sadd (sf.top sndBox) (sf.height sndBox)))))
    ∧ (from_bottom fstBox sndBox = false → from_top fstBox sndBox = false →
       from_right fstBox sndBox = true →
         corrected = sf.mkVector2
           (ssub (sf.left sndBox) (sadd (sf.left fstBox) (sf.width fstBox)))
           (sf.y movement))
    ∧ (from_bottom fstBox sndBox = false → from_top fstBox sndBox = false →
       from_right fstBox sndBox = false → from_left fstBox sndBox = true →
         corrected = sf.mkVector2
           (sneg (ssub (sf.left fstBox) (sadd (sf.left sndBox) (sf.width sndBox))))
           (sf.y movement))
    ∧ (from_bottom fstBox sndBox = false → from_top fstBox sndBox = false →
       from_right fstBox sndBox = false → from_left fstBox sndBox = false →
         corrected = movement)
    ∧ (sf.x velocity = sofZ 0 →
       sleb (sadd (sf.top fstBox) (sf.height fstBox)) (sf.top sndBox) = true →
         sf.y corrected = ssub (sf.top sndBox) (sadd (sf.top fstBox) (sf.height fstBox))
         ∧ sf.x corrected = smul (sofZ 0) dt).
Proof.
  intros Hhit movement. unfold pair_movement. rewrite Hhit.
  eexists; split; [reflexivity|]. unfold correct_movement.
  split; [by intros ->|].
  split; [by intros -> ->|].
  split; [by intros -> -> ->|].
  split; [by intros -> -> -> ->|].
  split; [by intros -> -> -> ->|].
  intros Hvx Hb. unfold from_bottom. rewrite Hb. cbn. by rewrite Hvx.
Qed.

(** A box falling onto a box one unit below it, in binary32. *)
Lemma collision_side_priority_witness :
  sf.intersects (tentative_hitbox (T := binary32.t) upper_box falling (sf.asSeconds 20000))
                lower_box = true
  ∧ ∃ corrected,
      pair_movement (T := binary32.t) (sf.asSeconds 20000) upper_box lower_box falling
      = (corrected, true)
      ∧ sf.y corrected = sofZ 1.
Proof.
  assert (sf.intersects
            (tentative_hitbox (T := binary32.t) upper_box falling (sf.asSeconds 20000))
            lower_box = true) as Hhit by (vm_compute; reflexivity).
  split; [exact Hhit|].
  destruct (collision_side_priority (T := binary32.t) (sf.asSeconds 20000)
              upper_box lower_box falling Hhit) as (corrected & Hm & Hbottom & _).
  exists corrected. split; [exact Hm|].
  rewrite (Hbottom ltac:(vm_compute; reflexivity)). vm_compute. reflexivity.
Defined.

(** ** C5 *)

(** C5, as stated, fails, in binary32. For a frame of 16662 microseconds
    and a box falling onto a box one unit below, both blocking, the new
    velocity times the elapsed time is not the clamped displacement of one
    unit. For a frame of 33333 microseconds and a thin box falling onto
    the floor nine units below, the test from the bottom holds and the
    displacement is clamped, yet the box moved by the new velocity still
    intersects the floor. And for two blocking boxes that already overlap
    no test of the chain holds, nothing is clamped, and the box moved by
    the new velocity still intersects the other. *)
Lemma blocking_correction_residue :
  (∃ v',
     pair_step (T := binary32.t) (sf.asSeconds frame) upper_box true lower_box true falling
     = Ok (v', true)
     ∧ sf.y (correct_movement upper_box lower_box
               (tentative_movement falling (sf.asSeconds frame))) = sofZ 1
     ∧ sf.y (tentative_movement v' (sf.asSeconds frame)) ≠ sofZ 1)
  ∧ (∃ v',
       pair_step (T := binary32.t) (sf.asSeconds 33333) thin_box true floor_box true fast
       = Ok (v', true)
       ∧ from_bottom (T := binary32.t) thin_box floor_box = true
       ∧ sf.intersects (apply_velocity thin_box v' (sf.asSeconds 33333)) floor_box = true)
  ∧ (∃ v',
       pair_step (T := binary32.t) (sf.asSeconds 20000) upper_box true inner_box true drifting
       = Ok (v', true)
       ∧ side_contact (T := binary32.t) upper_box inner_box = false
       ∧ sf.intersects (apply_velocity upper_box v' (sf.asSeconds 20000)) inner_box = true).
Proof.
  split; [|split].
  - eexists. split; [vm_compute; reflexivity|]. split; [vm_compute; reflexivity|].
    vm_compute. discriminate.
  - eexists. split; [vm_compute; reflexivity|]. split; vm_compute; reflexivity.
  - eexists. split; [vm_compute; reflexivity|]. split; vm_compute; reflexivity.
Qed.

(** C5, amended. In the arithmetic of the code, when the moved hitbox of
    the first entity intersects the second and both are blocking, the
    pair is recorded and the new velocity is the corrected movement
    divided by the elapsed time, component by component; when none of the
    four side tests holds the corrected movement is the movement itself;
    and the next pairs of the loop start from the new velocity. Nothing
    is said of the product of the new velocity by the elapsed time. *)
Theorem blocking_correction_velocity `{Scalar T} (fstBox sndBox : sf.Rect T)
    (velocity : sf.Vector2 T) (dt : T) :
  sdivisor dt = true →
  sf.intersects (tentative_hitbox fstBox velocity dt) sndBox = true →
  let c := correct_movement fstBox sndBox (tentative_movement velocity dt) in
  let v' := sf.mkVector2 (sdiv (sf.x c) dt) (sdiv (sf.y c) dt) in
  pair_step dt fstBox true sndBox true velocity = Ok (v', true)
  ∧ (side_contact fstBox sndBox = false → c = tentative_movement velocity dt)
  ∧ (∀ rest,
     pair_loop dt fstBox true ((sndBox, true) :: rest) velocity
     = pair_loop dt fstBox true rest v').
Proof.
  intros Hdt Hhit c v'.
  assert (pair_step dt fstBox true sndBox true velocity = Ok (v', true)) as Hstep.
  { rewrite pair_step_blocking, Hdt. unfold pair_movement. by rewrite Hhit. }
  split; [done|]. split.
  - unfold side_contact. rewrite !orb_false_iff. intros [[[Hb Ht] Hr] Hl].
    subst c. unfold correct_movement. by rewrite Hb, Ht, Hr, Hl.
  - intros rest. cbn [pair_loop]. by rewrite Hstep.
Qed.

(** The thin box falling onto the floor, in binary32: the movement of
    9.9999 is clamped to 9, and the new velocity is 9 divided by the
    elapsed time, rounded. *)
Lemma blocking_correction_velocity_witness :
  sdivisor (sf.asSeconds (T := binary32.t) 33333) = true
  ∧ sf.intersects (tentative_hitbox (T := binary32.t) thin_box fast (sf.asSeconds 33333))
                  floor_box = true
  ∧ pair_step (T := binary32.t) (sf.asSeconds 33333) thin_box true floor_box true fast
    = Ok (sf.mkVector2 (S754_zero false) (S754_finite false 8847449 (-15)), true).
Proof.
  assert (sdivisor (sf.asSeconds (T := binary32.t) 33333) = true) as Hdt by reflexivity.
  assert (sf.intersects (tentative_hitbox (T := binary32.t) thin_box fast (sf.asSeconds 33333))
            floor_box = true) as Hhit by (vm_compute; reflexivity).
  split; [exact Hdt|]. split; [exact Hhit|].
  exact (proj1 (blocking_correction_velocity (T := binary32.t) thin_box floor_box fast
                  (sf.asSeconds 33333) Hdt Hhit)).
Defined.

(** ** C6 *)

(** C6. With COMBO_MIN = 5 and SUGOI_COMBO = 10, handling the event of a
    destroyed ball of the colour of the affinity increments the combo
    first: from 12 it goes to 13, no milestone sound is played and the
    milestone timer is left alone; from 19 it goes to 20, the milestone
    sound is played, its timer reset, and the score grows by 20. *)
Theorem combo_milestone `{Platform} `{Environment binary32.t} (w : World binary32.t)
    (color : sf.Color) (center : sf.Vector2 binary32.t) :
  m_colorAffinity w = color →
  COMBO_MIN (constants w) = sofZ 5 →
  SUGOI_COMBO (constants w) = 10 →
  let event := mkEvent ColoredBallShot (Some (ColoredBallShotData color center)) in
  (m_combo w = 12 →
   ∃ w', World_handleEvent event w = Ok w'
         ∧ m_combo w' = 13
         ∧ m_score w' = m_score w + 13
         ∧ audio w' = audio w ++ [play hitGoodBallSound]
         ∧ m_lastSugoiDisplay w' = m_lastSugoiDisplay w)
  ∧ (m_combo w = 19 →
     ∃ w', World_handleEvent event w = Ok w'
           ∧ m_combo w' = 20
           ∧ m_score w' = m_score w + 20
           ∧ audio w' = audio w ++ [play hitGoodBallSound; play sugoiSound]
           ∧ m_lastSugoiDisplay w' = sf.Time_Zero).
Proof.
  intros Haff Hmin Hsugoi event.
  destruct (createExplosion_frame color center w)
    as (w1 & Hboom & Haff1 & Hscore1 & Hcombo1 & Htimer1 & Haudio1 & Hk1).
  assert (World_handleEvent event w = update_score_and_combo color w1) as ->.
  { unfold World_handleEvent, on_ColoredBallShot. cbn [eventType eventData event].
    change (ColoredBallShot =? PlayerHit) with false.
    change (ColoredBallShot =? ColoredBallShot) with true. cbn [negb].
    by rewrite Hboom, bind_Ok. }
  rewrite <- Hscore1, <- Htimer1, <- Haudio1.
  split; intros Hcombo.
  - destruct (matching_hit w1 color 12) as (w' & -> & ? & ? & ? & ?);
      [congruence..|reflexivity|]. by exists w'.
  - destruct (matching_hit w1 color 19) as (w' & -> & ? & ? & ? & ?);
      [congruence..|reflexivity|]. by exists w'.
Qed.

(** The hit ball of [mid_tick], of the colour of the affinity, at a combo
    of 19. *)
Lemma combo_milestone_witness :
  m_colorAffinity (mid_tick 19) = sf.Red
  ∧ COMBO_MIN (constants (mid_tick 19)) = sofZ 5
  ∧ SUGOI_COMBO (constants (mid_tick 19)) = 10
  ∧ m_combo (mid_tick 19) = 19
  ∧ ∃ w',
      @World_handleEvent binary32.t _ calm
        (mkEvent ColoredBallShot
           (Some (ColoredBallShotData sf.Red (sf.mkVector2 (sofZ 132) (sofZ 132)))))
        (mid_tick 19) = Ok w'
      ∧ m_combo w' = 20
      ∧ m_score w' = m_score (mid_tick 19) + 20
      ∧ audio w' = audio (mid_tick 19) ++ [play hitGoodBallSound; play sugoiSound]
      ∧ m_lastSugoiDisplay w' = sf.Time_Zero.
Proof.
  repeat (split; [reflexivity|]).
  exact (proj2 (@combo_milestone x86_64 calm (mid_tick 19) sf.Red
                  (sf.mkVector2 (sofZ 132) (sofZ 132)) eq_refl eq_refl eq_refl) eq_refl).
Defined.

(** ** C8 *)

(** C8. An entity registered and marked for deletion in the middle of a
    tick is still registered after the passes that remain (lives, events,
    affinity, particles), with the same name and components, all of them
    allocated under their names, and still marked. The sweep then leaves
    the heap alone and keeps, in their order, exactly the registered
    entities that are not marked; no component of a marked entity is left
    in the component registry. *)
Theorem deferred_deletion `{Scalar T} `{Platform} `{Environment T}
    (dt : sf.Time) (w : World T) (e : EntityPtr) :
  world_ok w = true → e ∈ m_entities w → marked (heap w) e = true →
  ∃ w1 w2,
    World_after_collisionEffects dt w = Ok w1
    ∧ e ∈ m_entities w1
    ∧ entity_mem (heap w1) !! e = entity_mem (heap w) !! e
    ∧ entity_ok (heap w1) e = true
    ∧ marked (heap w1) e = true
    ∧ cleanEntities w1 = Ok w2
    ∧ heap w2 = heap w1
    ∧ m_entities w2 = filter (λ e', marked (heap w1) e' = false) (m_entities w1)
    ∧ (∀ e', e' ∈ m_entities w1 → marked (heap w1) e' = true →
         (e' ∉ m_entities w2)
         ∧ ∀ a, a ∈ components_of (heap w1) e' → a ∉ m_components w2)
    ∧ (∀ e', e' ∈ m_entities w1 → marked (heap w1) e' = false → e' ∈ m_entities w2).
Proof.
  intros Hok Hin Hmarked.
  destruct (World_after_collisionEffects_spec dt w Hok) as (w1 & Hrun & Hok1 & Hg).
  destruct (cleanEntities_spec w1 Hok1) as (w2 & Hsweep & Hheap & Hkept & _ & Hgone).
  destruct Hg as (Hx & Hes & _).
  pose proof Hok as (He & _)%world_ok_spec.
  rewrite list.Forall_forall in He.
  destruct (entity_ok_inv _ _ (He e Hin)) as (ent & Hent & _).
  exists w1, w2. split; [done|].
  split; [by eapply elem_of_prefix|].
  split; [rewrite Hent; apply (extends_entity (heap w)); done|].
  split; [apply (entity_ok_extends (heap w)); [done|by apply He]|].
  split; [by apply (marked_extends (heap w))|].
  split; [done|]. split; [done|]. split; [done|]. split.
  - intros e' Hin' Hm'. split; [|by apply Hgone].
    rewrite Hkept. intros [Hm'' _]%list_elem_of_filter. congruence.
  - intros e' Hin' Hm'. rewrite Hkept. by apply list_elem_of_filter.
Qed.

(** The hit ball of [mid_tick]: an explosion is created while the events
    are handled, and the ball is swept at the end. *)
Lemma deferred_deletion_witness :
  world_ok (mid_tick 0) = true
  ∧ 0%nat ∈ m_entities (mid_tick 0)
  ∧ marked (heap (mid_tick 0)) 0%nat = true
  ∧ ∃ w1 w2,
      @World_after_collisionEffects binary32.t _ x86_64 calm frame (mid_tick 0) = Ok w1
      ∧ 0%nat ∈ m_entities w1
      ∧ @cleanEntities binary32.t w1 = Ok w2
      ∧ 0%nat ∉ m_entities w2.
Proof.
  assert (world_ok (mid_tick 0) = true) as Hok by (vm_compute; reflexivity).
  assert (0%nat ∈ m_entities (mid_tick 0)) as Hin by (left).
  assert (marked (heap (mid_tick 0)) 0%nat = true) as Hm by reflexivity.
  repeat (split; [assumption|]).
  destruct (@deferred_deletion binary32.t _ x86_64 calm frame (mid_tick 0) 0%nat Hok Hin Hm)
    as (w1 & w2 & Hrun & Hin1 & _ & _ & Hm1 & Hsweep & _ & _ & Hgone & _).
  exists w1, w2. repeat (split; [assumption|]). exact (proj1 (Hgone _ Hin1 Hm1)).
Defined.

(** ** C9 *)

(** C9. On a live entity, [getComponent] gives the stored component when
    the name is there and its class is the requested one or derives from
    it, and gives the null pointer, with no fault, when the name is missing
    or the class does not match. *)
Theorem getComponent_soft {T} (σ : Store T) e ent cap name :
  entity_mem σ !! e = Some ent →
  (∀ a c, m_components_of ent !! name = Some a → component_mem σ !! a = Some c →
     (cap = AnyComponent ∨ cap = dynamic_class c) →
     getComponent σ e cap name = Ok (Some a))
  ∧ (m_components_of ent !! name = None → getComponent σ e cap name = Ok None)
  ∧ (∀ a c, m_components_of ent !! name = Some a → component_mem σ !! a = Some c →
     cap ≠ AnyComponent → cap ≠ dynamic_class c →
     getComponent σ e cap name = Ok None).
Proof.
  intros He. unfold getComponent, deref_entity. rewrite He. cbn.
  split; [|split].
  - intros a c Ha Hc Hcap. rewrite Ha, Hc.
    apply dynamic_cast_ok_spec in Hcap. by rewrite Hcap.
  - intros Hn. by rewrite Hn.
  - intros a c Ha Hc H1 H2. rewrite Ha, Hc.
    destruct (dynamic_cast_ok cap c) eqn:E; [|done].
    apply dynamic_cast_ok_spec in E. tauto.
Qed.

(** The ball of [sakura_and_ball]: its life under "Life", nothing under
    "Particle", and no hitbox under "Life". *)
Lemma getComponent_soft_witness :
  entity_mem sakura_and_ball !! ball = Some ball_entity
  ∧ getComponent sakura_and_ball ball LifeCap "Life" = Ok (Some 9%nat)
  ∧ getComponent sakura_and_ball ball ParticleCap "Particle" = Ok None
  ∧ getComponent sakura_and_ball ball HitboxCap "Life" = Ok None.
Proof.
  assert (entity_mem sakura_and_ball !! ball = Some ball_entity) as He by reflexivity.
  split; [exact He|]. split; [|split].
  - exact (proj1 (getComponent_soft sakura_and_ball ball ball_entity LifeCap "Life" He)
             9%nat (LifeComponent 1 true) eq_refl eq_refl (or_intror eq_refl)).
  - exact (proj1 (proj2 (getComponent_soft sakura_and_ball ball ball_entity
                           ParticleCap "Particle" He)) eq_refl).
  - refine (proj2 (proj2 (getComponent_soft sakura_and_ball ball ball_entity
                            HitboxCap "Life" He))
              9%nat (LifeComponent 1 true) eq_refl eq_refl _ _); discriminate.
Defined.

(** ** C10 *)

(** C10. When both hitboxes are blocking the new velocity is the movement
    divided by the elapsed time, with no test on the elapsed time and
    whether or not the pair intersects: the corrected movement when it
    does, the velocity times the elapsed time when it does not. In exact
    arithmetic, for an elapsed time that is not negative, the quotient is
    defined exactly when the elapsed time is positive, and then a pair
    that does not intersect leaves the velocity as it was. In binary32 the
    quotient by a null elapsed time is no fault: a component of the new
    velocity at least is a NaN, and both are for a pair that does not
    intersect. In binary32 a pair that does not intersect changes the
    velocity by a rounding: for a frame of 16662 microseconds, 500
    becomes 500.00003. *)
Theorem blocking_update_needs_positive_dt :
  (∀ `(Scalar T) (fstBox sndBox : sf.Rect T) (velocity : sf.Vector2 T) (dt : T),
     let movement := if sf.intersects (tentative_hitbox fstBox velocity dt) sndBox
                     then correct_movement fstBox sndBox (tentative_movement velocity dt)
                     else tentative_movement velocity dt in
     pair_step dt fstBox true sndBox true velocity
     = if sdivisor dt
       then Ok (sf.mkVector2 (sdiv (sf.x movement) dt) (sdiv (sf.y movement) dt),
                sf.intersects (tentative_hitbox fstBox velocity dt) sndBox)
       else Fault DivisionByZero)
  ∧ (∀ (fstBox sndBox : sf.Rect Qc) (velocity : sf.Vector2 Qc) (dt : Qc),
       (0 ≤ dt)%Qc →
       (is_Ok (pair_step dt fstBox true sndBox true velocity) ↔ (0 < dt)%Qc)
       ∧ (dt = 0%Qc →
          pair_step dt fstBox true sndBox true velocity = Fault DivisionByZero)
       ∧ ((0 < dt)%Qc →
          sf.intersects (tentative_hitbox fstBox velocity dt) sndBox = false →
          pair_step dt fstBox true sndBox true velocity = Ok (velocity, false)))
  ∧ (∀ (fstBox sndBox : sf.Rect binary32.t) (velocity : sf.Vector2 binary32.t),
       ∃ v' hit,
         pair_step (sf.asSeconds 0) fstBox true sndBox true velocity = Ok (v', hit)
         ∧ (sf.x v' = S754_nan ∨ sf.y v' = S754_nan)
         ∧ (hit = false → v' = sf.mkVector2 S754_nan S754_nan))
  ∧ pair_step (T := binary32.t) (sf.asSeconds frame) upper_box true far_box true running
    = Ok (sf.mkVector2 (S754_finite false 16384001 (-15)) (S754_zero false), false)
  ∧ running (T := binary32.t)
    = sf.mkVector2 (S754_finite false 16384000 (-15)) (S754_zero false).
Proof.
  split; [|split; [|split; [|split]]].
  - intros T ? fstBox sndBox velocity dt movement. rewrite pair_step_blocking.
    unfold pair_movement. subst movement.
    by destruct (sf.intersects _ _).
  - intros fstBox sndBox velocity dt Hdt. split; [|split].
    + unfold pair_step. destruct (pair_movement dt fstBox sndBox velocity) as [m hit]. cbn.
      destruct (decide (dt = 0%Qc)) as [->|Hne].
      * split; [intros [? ?]; done|]. intros Hlt. by apply Qclt_not_eq in Hlt.
      * rewrite !checked_div_exact by done. cbn. split; [|by eexists].
        intros _. apply Qcle_lt_or_eq in Hdt as [?|?]; [done|]. congruence.
    + intros ->. unfold pair_step.
      by destruct (pair_movement 0%Qc fstBox sndBox velocity) as [m hit].
    + intros Hlt Hmiss.
      assert (dt ≠ 0%Qc) as Hne by (intros ->; by apply Qclt_not_eq in Hlt).
      unfold pair_step, pair_movement. rewrite Hmiss. cbn.
      rewrite !checked_div_exact by done. cbn.
      destruct velocity as [vx vy]. cbn. by rewrite !Qc_mul_div.
  - intros fstBox sndBox velocity. rewrite pair_step_blocking.
    change (sdivisor (sf.asSeconds (T := binary32.t) 0)) with true. cbv iota.
    change (sf.asSeconds (T := binary32.t) 0) with (S754_zero false).
    eexists _, _. split; [reflexivity|]. unfold pair_movement.
    destruct (sf.intersects _ _).
    + split; [|done]. cbn [fst snd]. unfold correct_movement.
      destruct (from_bottom fstBox sndBox);
        [left; apply binary32_times_zero_by_zero|].
      destruct (from_top fstBox sndBox);
        [left; apply binary32_times_zero_by_zero|].
      destruct (from_right fstBox sndBox);
        [right; apply binary32_times_zero_by_zero|].
      destruct (from_left fstBox sndBox);
        [right; apply binary32_times_zero_by_zero|].
      left; apply binary32_times_zero_by_zero.
    + cbn [fst snd tentative_movement sf.x sf.y].
      split; [left; apply binary32_times_zero_by_zero|]. intros _.
      by rewrite !binary32_times_zero_by_zero.
  - vm_compute. reflexivity.
  - vm_compute. reflexivity.
Qed.

(** Two blocking boxes far apart, for a frame of 20 ms, in exact
    arithmetic. *)
Lemma blocking_update_needs_positive_dt_witness :
  (0 ≤ sf.asSeconds (T := Qc) 20000)%Qc
  ∧ (0 < sf.asSeconds (T := Qc) 20000)%Qc
  ∧ pair_step (T := Qc) (sf.asSeconds 20000) upper_box true far_box true falling
    = Ok (falling, false).
Proof.
  assert (0 ≤ sf.asSeconds (T := Qc) 20000)%Qc as Hle by (intros Hc; discriminate Hc).
  assert (0 < sf.asSeconds (T := Qc) 20000)%Qc as Hlt by reflexivity.
  split; [exact Hle|]. split; [exact Hlt|].
  apply (proj1 (proj2 blocking_update_needs_positive_dt) upper_box far_box falling
           (sf.asSeconds 20000) Hle); [exact Hlt|].
  vm_compute. reflexivity.
Defined.

(** * Further properties *)

(** ** The collision-effects system *)

(** X1. A projectile recorded against a ball, both as the factories build
    them: both lives are set to zero, both deletion markers are set, and
    one event is pushed at the end of the queue, with the colour of the
    band of the texture rectangle of the ball and the centre of its
    sprite. *)
Theorem sakura_then_ball_effects `{Scalar T} (σ : Store T) (q : list (Event T))
    (e1 e2 : EntityPtr) (s : sf.Sprite T) :
  tagged_ok σ e1 = true → tagged_ok σ e2 = true →
  name_of σ e1 = Some "Sakura" → name_of σ e2 = Some "Ball" →
  component_of σ e2 "Sprite" = Some (SpriteComponent s) →
  ∃ σ',
    CollisionEffectsSystem_update [(e1, e2)] σ q
    = Ok (σ', q ++ [mkEvent ColoredBallShot
                      (Some (ColoredBallShotData (ball_color (sf.getTextureRect s))
                                                 (sprite_center s)))])
    ∧ extends σ σ'
    ∧ lifepoints_of σ' e1 = Some 0 ∧ lifepoints_of σ' e2 = Some 0
    ∧ marked σ' e1 = true ∧ marked σ' e2 = true.
Proof.
  intros H1 H2 Hn1 Hn2 Hs.
  destruct (tagged_ok_inv _ _ H1) as (Hok1 & n1 & Hn1' & Hcap1).
  destruct (tagged_ok_inv _ _ H2) as (Hok2 & n2 & Hn2' & Hcap2).
  rewrite Hn1 in Hn1'. injection Hn1' as <-. rewrite Hn2 in Hn2'. injection Hn2' as <-.
  destruct Hcap1 as [HL1 HS1]; [tauto|]. destruct Hcap2 as [HL2 HS2]; [tauto|].
  unfold CollisionEffectsSystem_update. rewrite for_each_cons.
  unfold CollisionEffectsSystem_pair. cbn [fst snd].
  rewrite (names_are_spec _ _ _ _ _ "Sakura" "Ball" Hn1 Hn2), bind_Ok.
  rewrite !bool_decide_eq_true_2 by done. cbn [andb].
  destruct (kill_spec σ e2 Hok2 HL2) as (σ1 & Hk1 & Hx1 & Hd2). rewrite Hk1, bind_Ok.
  destruct (kill_spec σ1 e1) as (σ2 & Hk2 & Hx2 & Hd1);
    [by apply (entity_ok_extends σ)|by apply (has_extends σ)|]. rewrite Hk2, bind_Ok.
  assert (extends σ σ2) as Hx02 by by trans σ1.
  destruct (mark_for_deletion_spec σ2 e1) as (σ3 & Hk3 & Hx3 & Hm1);
    [by apply (entity_ok_extends σ)|]. rewrite Hk3, bind_Ok.
  assert (extends σ σ3) as Hx03 by by trans σ2.
  destruct (mark_for_deletion_spec σ3 e2) as (σ4 & Hk4 & Hx4 & Hm2);
    [by apply (entity_ok_extends σ)|]. rewrite Hk4, bind_Ok.
  assert (extends σ σ4) as Hx04 by by trans σ3.
  assert (component_of σ4 e2 "Sprite" = Some (SpriteComponent s)) as Hs4.
  { apply (mark_for_deletion_keeps_sprite _ _ _ _ _ Hk4).
    apply (mark_for_deletion_keeps_sprite _ _ _ _ _ Hk3).
    apply (kill_keeps_sprite _ _ _ _ _ Hk2). by apply (kill_keeps_sprite _ _ _ _ _ Hk1). }
  destruct (read_sprite_spec σ4 e2) as (a & s' & Hg & Hr & Hs');
    [by apply (entity_ok_extends σ)|by apply (has_extends σ)|].
  rewrite Hs4 in Hs'. injection Hs' as <-.
  rewrite Hg, bind_Ok, Hr, !bind_Ok, for_each_nil.
  exists σ4. split; [done|]. split; [done|]. repeat split.
  - rewrite (mark_for_deletion_keeps_life _ _ _ _ Hk4),
      (mark_for_deletion_keeps_life _ _ _ _ Hk3). done.
  - rewrite (mark_for_deletion_keeps_life _ _ _ _ Hk4),
      (mark_for_deletion_keeps_life _ _ _ _ Hk3).
    by apply (kill_keeps_dead _ _ _ _ Hk2).
  - by apply (marked_extends σ3).
  - done.
Qed.

Lemma sakura_then_ball_effects_witness :
  tagged_ok sakura_and_ball sakura = true
  ∧ tagged_ok sakura_and_ball ball = true
  ∧ name_of sakura_and_ball sakura = Some "Sakura"
  ∧ name_of sakura_and_ball ball = Some "Ball"
  ∧ ∃ σ',
      CollisionEffectsSystem_update [(sakura, ball)] sakura_and_ball []
      = Ok (σ', [mkEvent ColoredBallShot
                   (Some (ColoredBallShotData sf.Blue (sf.mkVector2 (sofZ 132) (sofZ 132))))])
      ∧ lifepoints_of σ' sakura = Some 0 ∧ lifepoints_of σ' ball = Some 0
      ∧ marked σ' sakura = true ∧ marked σ' ball = true.
Proof.
  assert (tagged_ok sakura_and_ball sakura = true) as H1 by (vm_compute; reflexivity).
  assert (tagged_ok sakura_and_ball ball = true) as H2 by (vm_compute; reflexivity).
  assert (name_of sakura_and_ball sakura = Some "Sakura") as H3 by reflexivity.
  assert (name_of sakura_and_ball ball = Some "Ball") as H4 by reflexivity.
  repeat (split; [assumption|]).
  destruct (sakura_then_ball_effects sakura_and_ball [] sakura ball
              (sf.mkSprite (sf.mkRect 64 0 64 64) (sf.mkVector2 (sofZ 100) (sofZ 100)))
              H1 H2 H3 H4 eq_refl) as (σ' & Hrun & _ & Hrest).
  exists σ'. split; [|exact Hrest].
  rewrite Hrun. vm_compute. reflexivity.
Defined.

(** X2. A ball recorded against a projectile, in this order: the
    collision-effects system changes nothing and pushes nothing. *)
Theorem ball_then_sakura_no_effect `{Scalar T} (σ : Store T) (q : list (Event T))
    (e1 e2 : EntityPtr) :
  name_of σ e1 = Some "Ball" → name_of σ e2 = Some "Sakura" →
  CollisionEffectsSystem_update [(e1, e2)] σ q = Ok (σ, q).
Proof.
  intros Hn1 Hn2. unfold CollisionEffectsSystem_update.
  rewrite for_each_cons. unfold CollisionEffectsSystem_pair.
  rewrite !(names_are_spec _ _ _ _ _ _ _ Hn1 Hn2), !bind_Ok.
  reflexivity.
Qed.

Lemma ball_then_sakura_no_effect_witness :
  name_of sakura_and_ball ball = Some "Ball"
  ∧ name_of sakura_and_ball sakura = Some "Sakura"
  ∧ CollisionEffectsSystem_update [(ball, sakura)] sakura_and_ball [] = Ok (sakura_and_ball, []).
Proof.
  assert (name_of sakura_and_ball ball = Some "Ball") as H1 by reflexivity.
  assert (name_of sakura_and_ball sakura = Some "Sakura") as H2 by reflexivity.
  split; [exact H1|]. split; [exact H2|].
  exact (ball_then_sakura_no_effect sakura_and_ball [] ball sakura H1 H2).
Defined.

(** ** The physics system *)

(** X4. One turn of the outer loop of the physics system, for an entity
    that has a hitbox and a movement: its velocity becomes what
    [pair_loop] computes from the hitboxes of the other entities, taken in
    the order of the registry, and its hitbox is moved once by that
    velocity; no other component changes. *)
Theorem PhysicSystem_entity_loop `{Scalar T} dt fst fstEntity fstHitbox fstMovement
    fstBox fstBlocking velocity entities (σ : Store T) (m_collisions : CollisionRecord) :
  entity_mem σ !! fst = Some fstEntity →
  m_components_of fstEntity !! "Hitbox" = Some fstHitbox →
  m_components_of fstEntity !! "Movement" = Some fstMovement →
  component_mem σ !! fstHitbox = Some (HitboxComponent fstBox fstBlocking) →
  component_mem σ !! fstMovement = Some (MovementComponent velocity) →
  Forall (λ e, entity_ok σ e = true) entities →
  (st ← PhysicSystem_entity dt entities (σ, m_collisions) fst; Ok (st.1))
  = (velocity' ← pair_loop dt fstBox fstBlocking (obstacles σ fst entities) velocity;
     Ok (store_component fstHitbox
           (HitboxComponent (apply_velocity fstBox velocity' dt) fstBlocking)
           (store_component fstMovement (MovementComponent velocity') σ))).
Proof.
  intros He Hah Ham Hch Hcm Hall.
  assert (fstHitbox ≠ fstMovement) as Hne by (intros ->; congruence).
  unfold PhysicSystem_entity.
  rewrite !(hasComponent_has _ _ _ _ He), !bind_Ok. unfold has. rewrite He.
  rewrite !bool_decide_eq_true_2 by eauto. cbn [negb orb].
  rewrite (getComponent_Some _ _ _ _ _ _ HitboxCap He Hah Hch) by done.
  rewrite (getComponent_Some _ _ _ _ _ _ MovementCap He Ham Hcm) by done.
  rewrite !bind_Ok.
  pose proof (PhysicSystem_pairs_loop dt fst fstEntity fstHitbox fstMovement fstBox
                fstBlocking entities σ m_collisions velocity He) as Hloop.
  specialize (Hloop ltac:(eauto) Hch Hcm Hall).
  destruct (for_each _ _ entities) as [[σ1 rec1]|f];
    destruct (pair_loop dt fstBox fstBlocking (obstacles σ fst entities) velocity)
      as [v'|f']; try done.
  injection Hloop as ->. rewrite !bind_Ok.
  assert (fstMovement ≠ fstHitbox) as Hne' by congruence.
  unfold read_hitbox, read_velocity, deref at 1 2. cbn [component_mem store_component].
  rewrite (lookup_insert_ne _ fstMovement fstHitbox) by done. rewrite Hch, bind_Ok.
  rewrite lookup_insert_eq, !bind_Ok.
  erewrite write_Ok;
    [|reflexivity|cbn; rewrite lookup_insert_ne by done; exact Hch|reflexivity].
  done.
Qed.

(** The ball of [sakura_and_ball], checked against the projectile. *)
Lemma PhysicSystem_entity_loop_witness :
  Forall (λ e, entity_ok sakura_and_ball e = true) [sakura; ball]
  ∧ (st ← PhysicSystem_entity (sf.asSeconds frame) [sakura; ball] (sakura_and_ball, []) ball;
     Ok (st.1))
    = (velocity' ← pair_loop (sf.asSeconds frame)
                     (sf.mkRect (sofZ 100) (sofZ 100) (sofZ 64) (sofZ 64)) false
                     (obstacles sakura_and_ball ball [sakura; ball])
                     (sf.mkVector2 (sofZ 0) (sofZ 300));
       Ok (store_component 7%nat
             (HitboxComponent
                (apply_velocity (sf.mkRect (sofZ 100) (sofZ 100) (sofZ 64) (sofZ 64))
                                velocity' (sf.asSeconds frame)) false)
             (store_component 8%nat (MovementComponent velocity') sakura_and_ball))).
Proof.
  assert (Forall (λ e, entity_ok sakura_and_ball e = true) [sakura; ball]) as Hall
    by (repeat constructor).
  split; [exact Hall|].
  exact (PhysicSystem_entity_loop (T := binary32.t) (sf.asSeconds frame) ball ball_entity
           7%nat 8%nat _ false _ [sakura; ball] sakura_and_ball []
           eq_refl eq_refl eq_refl eq_refl eq_refl Hall).
Defined.

(** X3. A projectile registered before a ball and six units under it, at
    60 frames per second. In the first tick only the ball reaches the
    projectile: the physics records the pair (ball, projectile) alone,
    and the tick ends with both alive and the score unchanged. In the
    second tick the physics records both orders, the first of which is
    handled: both are swept and the score is 1. *)
Theorem hit_seen_from_the_ball_only :
  ∃ w1 w2,
    World_physics frame in_flight = Ok (w1, [(ball, sakura)])
    ∧ @World_update_systems binary32.t _ x86_64 calm frame in_flight = Ok w2
    ∧ m_entities w2 = [player; sakura; ball]
    ∧ lifepoints_of (heap w2) sakura = Some 1
    ∧ lifepoints_of (heap w2) ball = Some 1
    ∧ m_score w2 = 0
    ∧ ∃ w3 w4,
        World_physics frame w2 = Ok (w3, [(sakura, ball); (ball, sakura)])
        ∧ @World_update_systems binary32.t _ x86_64 calm frame w2 = Ok w4
        ∧ (sakura ∉ m_entities w4) ∧ (ball ∉ m_entities w4)
        ∧ m_score w4 = 1.
Proof.
  eexists _, _. split; [vm_compute; reflexivity|].
  split; [vm_compute; reflexivity|].
  split; [reflexivity|]. split; [vm_compute; reflexivity|].
  split; [vm_compute; reflexivity|]. split; [reflexivity|].
  eexists _, _. split; [vm_compute; reflexivity|].
  split; [vm_compute; reflexivity|].
  split; [|split; [|reflexivity]]; vm_compute; intros Hin;
    repeat (apply elem_of_cons in Hin as [Hin|Hin]; [discriminate Hin|]);
    by apply elem_of_nil in Hin.
Qed.

(** ** The world *)

(** X5. A tick, from the physics to the sweep, on a world in order in
    which the player has a life and every entity named after a projectile,
    a ball or the player has a life and a sprite: every pass runs to its
    end, whatever is dereferenced is there, and the world is left in
    order. The elapsed time must be one by which a [float] can be
    divided, which every binary32 value is. *)
Theorem tick_runs `{Scalar T} `{Platform} `{Environment T} (dt : sf.Time) (w : World T) :
  sdivisor (sf.asSeconds (T := T) dt) = true →
  world_ok w = true → event_ok w (mkEvent PlayerHit None) = true →
  Forall (λ e, tagged_ok (heap w) e = true) (m_entities w) →
  ∃ w', World_update_systems dt w = Ok w' ∧ world_ok w' = true.
Proof. apply World_update_systems_spec. Qed.

Lemma tick_runs_witness :
  sdivisor (sf.asSeconds (T := binary32.t) frame) = true
  ∧ world_ok in_flight = true
  ∧ event_ok in_flight (mkEvent PlayerHit None) = true
  ∧ Forall (λ e, tagged_ok (heap in_flight) e = true) (m_entities in_flight)
  ∧ ∃ w', @World_update_systems binary32.t _ x86_64 calm frame in_flight = Ok w'
          ∧ world_ok w' = true.
Proof.
  assert (sdivisor (sf.asSeconds (T := binary32.t) frame) = true) as Hdt by reflexivity.
  assert (world_ok in_flight = true) as Hok by (vm_compute; reflexivity).
  assert (event_ok in_flight (mkEvent PlayerHit None) = true) as Hp
    by (vm_compute; reflexivity).
  assert (Forall (λ e, tagged_ok (heap in_flight) e = true) (m_entities in_flight)) as Ht
    by (repeat constructor).
  repeat (split; [assumption|]).
  exact (@tick_runs binary32.t _ x86_64 calm frame in_flight Hdt Hok Hp Ht).
Defined.

(** X6. Handling the event of a destroyed ball whose colour is not the
    affinity resets the combo to 0, takes exactly 1 from the score and
    plays the wrong-ball sound, whatever the combo was. *)
Theorem wrong_colour_hit `{Scalar T} `{Platform} `{Environment T} (w : World T)
    (color : sf.Color) (center : sf.Vector2 T) :
  color ≠ m_colorAffinity w →
  ∃ w', World_handleEvent
          (mkEvent ColoredBallShot (Some (ColoredBallShotData color center))) w = Ok w'
        ∧ m_combo w' = 0
        ∧ m_score w' = m_score w - 1
        ∧ audio w' = audio w ++ [play hitWrongBallSound].
Proof.
  intros Hne.
  destruct (createExplosion_frame color center w)
    as (w1 & Hboom & Haff1 & Hscore1 & Hcombo1 & Htimer1 & Haudio1 & Hk1).
  unfold World_handleEvent, on_ColoredBallShot. cbn [eventType eventData].
  change (ColoredBallShot =? PlayerHit) with false.
  change (ColoredBallShot =? ColoredBallShot) with true. cbn [negb].
  rewrite Hboom, bind_Ok. unfold update_score_and_combo.
  rewrite bool_decide_eq_false_2 by congruence.
  eexists. split; [reflexivity|]. cbn. by rewrite Hscore1, Haudio1.
Qed.

Lemma wrong_colour_hit_witness :
  sf.Blue ≠ m_colorAffinity (mid_tick 7)
  ∧ ∃ w', @World_handleEvent binary32.t _ calm
            (mkEvent ColoredBallShot
               (Some (ColoredBallShotData sf.Blue (sf.mkVector2 (sofZ 132) (sofZ 132)))))
            (mid_tick 7) = Ok w'
          ∧ m_combo w' = 0
          ∧ m_score w' = m_score (mid_tick 7) - 1
          ∧ audio w' = audio (mid_tick 7) ++ [play hitWrongBallSound].
Proof.
  assert (sf.Blue ≠ m_colorAffinity (mid_tick 7)) as Hne by discriminate.
  split; [exact Hne|].
  exact (@wrong_colour_hit binary32.t _ x86_64 calm (mid_tick 7) sf.Blue
           (sf.mkVector2 (sofZ 132) (sofZ 132)) Hne).
Defined.

(** X7. [createEntity] always succeeds: it registers, at the end of the
    registry, a new entity of the given name whose only component is a
    new deletion marker, not set, itself registered at the end of the
    component registry. *)
Theorem createEntity_marker `{Scalar T} `{Platform} `{Environment T} (name : string)
    (w : World T) :
  ∃ e w',
    createEntity name w = Ok (e, w')
    ∧ entity_mem (heap w) !! e = None
    ∧ m_entities w' = m_entities w ++ [e]
    ∧ name_of (heap w') e = Some name
    ∧ (∃ a, components_of (heap w') e = [a]
            ∧ component_of (heap w') e "DeletionMarker" = Some (DeletionMarkerComponent false)
            ∧ component_mem (heap w) !! a = None
            ∧ m_components w' = m_components w ++ [a])
    ∧ marked (heap w') e = false.
Proof.
  rewrite createEntity_eq. eexists _, _. split; [reflexivity|].
  split; [apply fresh_entity_None|]. split; [reflexivity|].
  split; [unfold name_of; cbn; by rewrite lookup_insert_eq|].
  split.
  - exists (fresh (dom (component_mem (heap w)))).
    unfold components_of, component_of. cbn. rewrite !lookup_insert_eq. cbn.
    rewrite map_to_list_singleton, lookup_singleton_eq. cbn. rewrite lookup_insert_eq.
    split; [done|]. split; [done|]. split; [apply fresh_component_None|done].
  - unfold marked, component_of. cbn. rewrite !lookup_insert_eq. cbn.
    rewrite lookup_singleton_eq. cbn. by rewrite lookup_insert_eq.
Qed.

(** ** The particle system *)

(** X8. The particle system on an emitter: its age grows by the elapsed
    time; from two seconds on the entity is marked for deletion and its
    particles are left as they are; before that the marker is left alone
    and the particles and vertices are those [update_particles] gives. *)
Theorem emitter_expires `{Scalar T} `{Platform} (elapsed : sf.Time) (σ : Store T)
    (e : EntityPtr) color center m_particles m_vertices lifetime :
  entity_ok σ e = true →
  component_of σ e "Particle"
  = Some (ParticleComponent color center m_particles m_vertices lifetime) →
  ∃ σ',
    ParticleWatcherSystem_entity elapsed σ e = Ok σ'
    ∧ (emitter_cap ≤ lifetime + elapsed →
       marked σ' e = true
       ∧ component_of σ' e "Particle"
         = Some (ParticleComponent color center m_particles m_vertices (lifetime + elapsed)))
    ∧ (lifetime + elapsed < emitter_cap →
       marked σ' e = marked σ e
       ∧ ∃ m_particles' m_vertices',
           update_particles elapsed 0 m_particles m_vertices = Ok (m_particles', m_vertices')
           ∧ component_of σ' e "Particle"
             = Some (ParticleComponent color center m_particles' m_vertices'
                       (lifetime + elapsed))).
Proof.
  intros Hok Hp. destruct (entity_ok_inv _ _ Hok) as (ent & He & Hall & _).
  unfold component_of in Hp. rewrite He in Hp. cbn in Hp.
  destruct (m_components_of ent !! "Particle") as [a|] eqn:Ha; [|done]. cbn in Hp.
  destruct (Hall _ _ Ha) as (c & Hc & Hw). rewrite Hc in Hp. injection Hp as ->.
  destruct (well_named_Particle _ Hw) as (? & ? & ? & ? & ? & [= <- <- <- <- <-] & Hpool).
  unfold ParticleWatcherSystem_entity.
  rewrite (hasComponent_has _ _ _ _ He), bind_Ok. unfold has. rewrite He.
  rewrite bool_decide_eq_true_2 by eauto. cbn [negb].
  rewrite (getComponent_Some _ _ _ _ _ _ ParticleCap He Ha Hc) by done.
  rewrite bind_Ok. unfold deref at 1. rewrite Hc, bind_Ok.
  destruct (emitter_cap <=? lifetime + elapsed) eqn:Hcap.
  - apply Z.leb_le in Hcap.
    erewrite write_Ok by done. rewrite bind_Ok.
    set (σ1 := store_component a _ σ).
    assert (extends σ σ1) as Hx1.
    { eapply store_component_extends; [done|]. by repeat split. }
    destruct (mark_for_deletion_spec σ1 e) as (σ' & Hm & Hx' & Hmarked);
      [by apply (entity_ok_extends σ)|].
    exists σ'. split; [done|]. split; [|lia]. intros _. split; [done|].
    assert (component_of σ1 e "Particle"
            = Some (ParticleComponent color center m_particles m_vertices
                      (lifetime + elapsed))) as Hp1
      by (subst σ1; by erewrite component_of_store_same).
    destruct (mark_for_deletion_frame _ _ _ e "Particle" Hm) as [->|(d & Hd & _)];
      [done|congruence].
  - apply Z.leb_gt in Hcap.
    destruct (update_particles_spec elapsed m_particles 0 m_vertices)
      as (ps' & vs' & Hrun & _); [cbn; lia|].
    rewrite Hrun, bind_Ok. erewrite write_Ok by done.
    eexists. split; [done|]. split; [lia|]. intros _. split.
    + unfold marked, component_of. cbn. rewrite He. cbn.
      destruct (m_components_of ent !! "DeletionMarker") as [d|]; [|done]. cbn.
      destruct (decide (a = d)) as [<-|Hne].
      * by rewrite lookup_insert_eq, Hc.
      * by rewrite lookup_insert_ne.
    + exists ps', vs'. split; [done|]. by erewrite component_of_store_same.
Qed.

Lemma emitter_expires_witness :
  entity_ok spark 0%nat = true
  ∧ emitter_cap ≤ 1990000 + frame
  ∧ ∃ σ', ParticleWatcherSystem_entity (T := binary32.t) (H0 := x86_64) frame spark 0%nat
          = Ok σ'
          ∧ marked σ' 0%nat = true.
Proof.
  assert (entity_ok spark 0%nat = true) as Hok by (vm_compute; reflexivity).
  assert (emitter_cap ≤ 1990000 + frame) as Hcap by (vm_compute; discriminate).
  split; [exact Hok|]. split; [exact Hcap|].
  destruct (emitter_expires (T := binary32.t) (H0 := x86_64) frame spark 0%nat
              _ _ _ _ _ Hok eq_refl) as (σ' & Hrun & Hold & _).
  exists σ'. split; [exact Hrun|]. exact (proj1 (Hold Hcap)).
Defined.

(** ** Reading a run backwards *)

Lemma bind_Ok_inv {A B} (m : result A) (f : A → result B) (b : B) :
  (m ≫= f) = Ok b → ∃ a, m = Ok a ∧ f a = Ok b.
Proof. destruct m as [a|e]; [by exists a|done]. Qed.

(** From the result of a computation to the results of its steps. *)
Ltac run_inv H :=
  repeat match type of H with
         | (_ ≫= _) = Ok _ =>
             let a := fresh "r" in
             let Ha := fresh "Hr" in
             apply bind_Ok_inv in H as (a & Ha & H)
         | (let '(_, _) := ?p in _) = Ok _ => destruct p
         | (if ?b then _ else _) = Ok _ =>
             let Hb := fresh "Hb" in destruct b eqn:Hb
         | Fault _ = Ok _ => discriminate H
         end.

Section Loops_inv.
Context {A B : Type}.

(** What every turn of a loop keeps, the loop keeps. *)
Lemma for_each_keeps (body : A → B → result A) (I : A → Prop) l : ∀ st st',
  (∀ st x st', x ∈ l → I st → body st x = Ok st' → I st') →
  I st → for_each body st l = Ok st' → I st'.
Proof.
  induction l as [|b l IH]; intros st st' Hbody HI Hrun.
  - rewrite for_each_nil in Hrun. by injection Hrun as <-.
  - rewrite for_each_cons in Hrun. apply bind_Ok_inv in Hrun as (st1 & H1 & Hrun).
    eapply (IH st1); [|by eapply Hbody; [left|..]|done].
    intros ???? . apply Hbody. by right.
Qed.
End Loops_inv.

Section Record_facts.
Context `{Scalar T}.
Implicit Types (σ : Store T).

Lemma hasComponent_Ok σ e name b : hasComponent σ e name = Ok b → has σ e name = b.
Proof.
  unfold hasComponent, deref_entity, has.
  destruct (entity_mem σ !! e); [|done]. by intros [= <-].
Qed.

Lemma write_entities σ p upd σ' : write σ p upd = Ok σ' → entity_mem σ' = entity_mem σ.
Proof. by intros (a & c & c' & -> & _ & _ & ->)%write_inv. Qed.

Lemma has_entities σ σ' e name :
  entity_mem σ' = entity_mem σ → has σ' e name = has σ e name.
Proof. unfold has. by intros ->. Qed.

Lemma PhysicSystem_pair_record dt fst snd fstHitbox fstMovement σ σ'
    (m_collisions m_collisions' : CollisionRecord) :
  PhysicSystem_pair dt fst fstHitbox fstMovement (σ, m_collisions) snd
  = Ok (σ', m_collisions') →
  entity_mem σ' = entity_mem σ
  ∧ (m_collisions' = m_collisions
     ∨ m_collisions' = m_collisions ++ [(fst, snd)]
       ∧ fst ≠ snd ∧ has σ snd "Hitbox" = true ∧ has σ fst "Movement" = true).
Proof.
  unfold PhysicSystem_pair. intros Hrun.
  case_bool_decide as Hne; [injection Hrun as <- <-; by split; [|left]|].
  apply bind_Ok_inv in Hrun as (sndHas & Hh2%hasComponent_Ok & Hrun).
  destruct sndHas; cbn [negb] in Hrun; [|injection Hrun as <- <-; by split; [|left]].
  apply bind_Ok_inv in Hrun as (fstHas & Hm1%hasComponent_Ok & Hrun).
  destruct fstHas; cbn [negb] in Hrun; [|injection Hrun as <- <-; by split; [|left]].
  apply bind_Ok_inv in Hrun as (sndHitbox & _ & Hrun).
  apply bind_Ok_inv in Hrun as ([fstBox fstBlocking] & _ & Hrun).
  apply bind_Ok_inv in Hrun as (velocity & _ & Hrun).
  apply bind_Ok_inv in Hrun as ([sndBox sndBlocking] & _ & Hrun).
  apply bind_Ok_inv in Hrun as ([velocity' hit] & _ & Hrun).
  apply bind_Ok_inv in Hrun as (σ1 & Hw & Hrun). injection Hrun as <- <-.
  split.
  - destruct (fstBlocking && sndBlocking); [by eapply write_entities|by injection Hw as <-].
  - destruct hit; [right|by left]. done.
Qed.

Lemma PhysicSystem_entity_record dt entities fst σ σ'
    (m_collisions m_collisions' : CollisionRecord) :
  fst ∈ entities →
  Forall (recordable σ entities) m_collisions →
  PhysicSystem_entity dt entities (σ, m_collisions) fst = Ok (σ', m_collisions') →
  entity_mem σ' = entity_mem σ ∧ Forall (recordable σ entities) m_collisions'.
Proof.
  intros Hin Hrec. unfold PhysicSystem_entity. intros Hrun.
  apply bind_Ok_inv in Hrun as (hasHitbox & Hh%hasComponent_Ok & Hrun).
  apply bind_Ok_inv in Hrun as (hasMovement & Hm%hasComponent_Ok & Hrun).
  destruct hasHitbox; cbn [negb orb] in Hrun; [|by injection Hrun as <- <-].
  destruct hasMovement; cbn [negb] in Hrun; [|by injection Hrun as <- <-].
  apply bind_Ok_inv in Hrun as (fstHitbox & _ & Hrun).
  apply bind_Ok_inv in Hrun as (fstMovement & _ & Hrun).
  apply bind_Ok_inv in Hrun as ([σ1 rec1] & Hloop & Hrun).
  apply bind_Ok_inv in Hrun as ([box blocking] & _ & Hrun).
  apply bind_Ok_inv in Hrun as (velocity & _ & Hrun).
  apply bind_Ok_inv in Hrun as (σ2 & Hw%write_entities & Hrun). injection Hrun as <- <-.
  assert (entity_mem σ1 = entity_mem σ ∧ Forall (recordable σ entities) rec1) as [He1 Hrec1].
  { revert Hloop.
    apply (for_each_keeps _
             (λ st, entity_mem st.1 = entity_mem σ ∧ Forall (recordable σ entities) st.2));
      [|done].
    intros [σa reca] snd [σb recb] Hsnd [Hea Hreca] Hstep.
    cbn [Datatypes.fst Datatypes.snd] in *.
    apply PhysicSystem_pair_record in Hstep as [Heb Hstep].
    split; [congruence|].
    destruct Hstep as [->|(-> & Hne & Hh2 & Hm1)]; [done|].
    apply Forall_app. split; [done|]. apply Forall_singleton.
    rewrite (has_entities σ σa) in Hh2, Hm1 by done. by repeat split. }
  split; [congruence|done].
Qed.

Lemma PhysicSystem_update_record elapsed entities σ σ' (m_collisions : CollisionRecord) :
  PhysicSystem_update elapsed entities σ = Ok (σ', m_collisions) →
  entity_mem σ' = entity_mem σ ∧ Forall (recordable σ entities) m_collisions.
Proof.
  unfold PhysicSystem_update.
  apply (for_each_keeps _
           (λ st, entity_mem st.1 = entity_mem σ ∧ Forall (recordable σ entities) st.2));
    [|done].
  intros [σa reca] fst [σb recb] Hin [Hea Hreca] Hstep. cbn [Datatypes.fst Datatypes.snd] in *.
  assert (Forall (recordable σa entities) reca) as Hreca'.
  { eapply Forall_impl; [|exact Hreca]. intros c (?&?&?&?&?&?).
    rewrite <- !(has_entities σ σa) in * by done. by repeat split. }
  apply PhysicSystem_entity_record in Hstep as [Heb Hrecb]; [|done..].
  split; [congruence|].
  eapply Forall_impl; [|exact Hrecb]. intros c (?&?&?&?&?&?).
  rewrite !(has_entities σ σa) in * by done. by repeat split.
Qed.

End Record_facts.

(** ** The effects of a collision, address by address *)

(** The comparisons of two names written in the program. *)
Ltac eval_names :=
  repeat match goal with
  | |- context [bool_decide (?a = ?b)] =>
      let v := eval vm_compute in (bool_decide (a = b)) in
      change (bool_decide (a = b)) with v
  end;
  cbn [andb].

Section Effects_by_address.
Context `{Scalar T}.
Implicit Types (σ : Store T) (c : Component T).

Lemma component_of_slot σ e name :
  component_of σ e name = slot σ e name ≫= (component_mem σ !!.).
Proof.
  unfold component_of, slot. destruct (entity_mem σ !! e) as [ent|]; [|done]. cbn.
  by destruct (m_components_of ent !! name).
Qed.

Lemma slot_store σ a c e name : slot (store_component a c σ) e name = slot σ e name.
Proof. done. Qed.

Lemma component_of_store σ a c e name :
  component_of (store_component a c σ) e name
  = if bool_decide (slot σ e name = Some a) then Some c else component_of σ e name.
Proof.
  rewrite !component_of_slot, slot_store. cbn.
  destruct (slot σ e name) as [a0|]; cbn; [|by rewrite bool_decide_eq_false_2].
  case_bool_decide as Heq.
  - injection Heq as ->. by rewrite lookup_insert_eq.
  - rewrite lookup_insert_ne; [done|congruence].
Qed.

Lemma getComponent_slot σ e cap name a :
  getComponent σ e cap name = Ok (Some a) → slot σ e name = Some a.
Proof.
  unfold getComponent, deref_entity, slot.
  destruct (entity_mem σ !! e) as [ent|]; [|done]. cbn.
  destruct (m_components_of ent !! name) as [a0|]; [|done].
  destruct (component_mem σ !! a0) as [c|]; [|done].
  destruct (dynamic_cast_ok cap c); [|done]. by intros [= ->].
Qed.

(** What [kill], [hurt] and [mark_for_deletion] store, and where. *)
Lemma kill_inv σ e σ' :
  kill σ e = Ok σ' →
  ∃ a lp al, slot σ e "Life" = Some a
             ∧ component_mem σ !! a = Some (LifeComponent lp al)
             ∧ σ' = store_component a (LifeComponent 0 al) σ.
Proof.
  unfold kill. intros (life & Hg & Hw)%bind_Ok_inv.
  apply write_inv in Hw as (a & c & c' & -> & Hc & Hu & ->).
  apply getComponent_slot in Hg. destruct c; try done. injection Hu as <-. eauto 10.
Qed.

Lemma hurt_inv σ e σ' :
  hurt σ e = Ok σ' →
  ∃ a lp al, slot σ e "Life" = Some a
             ∧ component_mem σ !! a = Some (LifeComponent lp al)
             ∧ σ' = store_component a (LifeComponent (lp - 1) al) σ.
Proof.
  unfold hurt. intros (life & Hg & Hw)%bind_Ok_inv.
  apply write_inv in Hw as (a & c & c' & -> & Hc & Hu & ->).
  apply getComponent_slot in Hg. destruct c; try done. injection Hu as <-. eauto 10.
Qed.

Lemma mark_for_deletion_inv σ e σ' :
  mark_for_deletion σ e = Ok σ' →
  ∃ a d, slot σ e "DeletionMarker" = Some a
         ∧ component_mem σ !! a = Some (DeletionMarkerComponent d)
         ∧ σ' = store_component a (DeletionMarkerComponent true) σ.
Proof.
  unfold mark_for_deletion. intros (dmc & Hg & Hw)%bind_Ok_inv.
  apply write_inv in Hw as (a & c & c' & -> & Hc & Hu & ->).
  apply getComponent_slot in Hg. destruct c; try done. injection Hu as <-. eauto 10.
Qed.

Lemma lifepoints_of_slot σ e lp :
  lifepoints_of σ e = Some lp →
  ∃ a al, slot σ e "Life" = Some a ∧ component_mem σ !! a = Some (LifeComponent lp al).
Proof.
  unfold lifepoints_of. rewrite component_of_slot.
  destruct (slot σ e "Life") as [a|]; [|done]. cbn.
  destruct (component_mem σ !! a) as [[]|] eqn:Hc; try done. intros [= ->]. eauto.
Qed.

Lemma kill_lifepoints σ e σ' e' :
  kill σ e = Ok σ' →
  lifepoints_of σ' e'
  = if bool_decide (slot σ e' "Life" = slot σ e "Life") then Some 0 else lifepoints_of σ e'.
Proof.
  intros (a & lp & al & Hs & Hc & ->)%kill_inv. unfold lifepoints_of.
  rewrite component_of_store, Hs. by case_bool_decide.
Qed.

Lemma hurt_lifepoints σ e σ' e' lp :
  hurt σ e = Ok σ' → lifepoints_of σ e = Some lp →
  lifepoints_of σ' e'
  = if bool_decide (slot σ e' "Life" = slot σ e "Life") then Some (lp - 1)
    else lifepoints_of σ e'.
Proof.
  intros (a & lp' & al & Hs & Hc & ->)%hurt_inv Hlp. unfold lifepoints_of in *.
  rewrite component_of_store, Hs. case_bool_decide; [|done].
  rewrite component_of_slot, Hs in Hlp. cbn in Hlp. rewrite Hc in Hlp. congruence.
Qed.

Lemma kill_slot σ e σ' e' name : kill σ e = Ok σ' → slot σ' e' name = slot σ e' name.
Proof. by intros (a & lp & al & Hs & Hc & ->)%kill_inv. Qed.
Lemma hurt_slot σ e σ' e' name : hurt σ e = Ok σ' → slot σ' e' name = slot σ e' name.
Proof. by intros (a & lp & al & Hs & Hc & ->)%hurt_inv. Qed.
Lemma mark_for_deletion_slot σ e σ' e' name :
  mark_for_deletion σ e = Ok σ' → slot σ' e' name = slot σ e' name.
Proof. by intros (a & d & Hs & Hc & ->)%mark_for_deletion_inv. Qed.

(** A ball recorded with the player, in one order or the other. *)
Lemma ball_and_player σ q ball player lp collision :
  tagged_ok σ ball = true → tagged_ok σ player = true →
  name_of σ ball = Some "Ball" → name_of σ player = Some "Player" →
  lifepoints_of σ player = Some lp →
  slot σ ball "Life" ≠ slot σ player "Life" →
  collision = (ball, player) ∨ collision = (player, ball) →
  ∃ σ',
    CollisionEffectsSystem_pair (σ, q) collision = Ok (σ', q ++ [mkEvent PlayerHit None])
    ∧ extends σ σ'
    ∧ (∀ e name, slot σ' e name = slot σ e name)
    ∧ lifepoints_of σ' ball = Some 0
    ∧ marked σ' ball = true
    ∧ lifepoints_of σ' player = Some (lp - 1).
Proof.
  intros H1 H2 Hn1 Hn2 Hlp Hslots Hc.
  destruct (tagged_ok_inv _ _ H1) as (Hok1 & n1 & Hn1' & Hcap1).
  destruct (tagged_ok_inv _ _ H2) as (Hok2 & n2 & Hn2' & Hcap2).
  rewrite Hn1 in Hn1'. injection Hn1' as <-. rewrite Hn2 in Hn2'. injection Hn2' as <-.
  destruct Hcap1 as [HL1 HS1]; [tauto|]. destruct Hcap2 as [HL2 HS2]; [tauto|].
  destruct (kill_spec σ ball Hok1 HL1) as (σ1 & Hk1 & Hx1 & Hd1).
  destruct (mark_for_deletion_spec σ1 ball) as (σ2 & Hk2 & Hx2 & Hm2);
    [by apply (entity_ok_extends σ)|].
  assert (extends σ σ2) as Hx02 by by trans σ1.
  destruct (hurt_spec σ2 player) as (σ3 & Hk3 & Hx3);
    [by apply (entity_ok_extends σ)|by apply (has_extends σ)|].
  assert (extends σ σ3) as Hx03 by by trans σ2.
  assert (lifepoints_of σ2 player = Some lp) as Hlp2.
  { rewrite (mark_for_deletion_keeps_life _ _ _ _ Hk2), (kill_lifepoints _ _ _ _ Hk1).
    by rewrite bool_decide_eq_false_2 by congruence. }
  exists σ3. split; [|split; [done|split; [|split; [|split]]]].
  - unfold CollisionEffectsSystem_pair.
    destruct Hc as [-> | ->]; cbn [fst snd].
    + rewrite (names_are_spec _ _ _ _ _ "Sakura" "Ball" Hn1 Hn2), bind_Ok.
      rewrite (names_are_spec _ _ _ _ _ "Ball" "Box" Hn1 Hn2), bind_Ok.
      rewrite (names_are_spec _ _ _ _ _ "Box" "Ball" Hn1 Hn2), bind_Ok.
      rewrite (names_are_spec _ _ _ _ _ "Ball" "Player" Hn1 Hn2), bind_Ok.
      eval_names.
      by rewrite Hk1, bind_Ok, Hk2, bind_Ok, Hk3, bind_Ok.
    + rewrite (names_are_spec _ _ _ _ _ "Sakura" "Ball" Hn2 Hn1), bind_Ok.
      rewrite (names_are_spec _ _ _ _ _ "Ball" "Box" Hn2 Hn1), bind_Ok.
      rewrite (names_are_spec _ _ _ _ _ "Box" "Ball" Hn2 Hn1), bind_Ok.
      rewrite (names_are_spec _ _ _ _ _ "Ball" "Player" Hn2 Hn1), bind_Ok.
      rewrite (names_are_spec _ _ _ _ _ "Player" "Ball" Hn2 Hn1), bind_Ok.
      eval_names.
      by rewrite Hk1, bind_Ok, Hk2, bind_Ok, Hk3, bind_Ok.
  - intros e name.
    by rewrite (hurt_slot _ _ _ _ _ Hk3), (mark_for_deletion_slot _ _ _ _ _ Hk2),
      (kill_slot _ _ _ _ _ Hk1).
  - rewrite (hurt_lifepoints _ _ _ _ _ Hk3 Hlp2).
    rewrite bool_decide_eq_false_2.
    + by rewrite (mark_for_deletion_keeps_life _ _ _ _ Hk2).
    + rewrite !(mark_for_deletion_slot _ _ _ _ _ Hk2), !(kill_slot _ _ _ _ _ Hk1). done.
  - by apply (marked_extends σ2).
  - rewrite (hurt_lifepoints _ _ _ _ _ Hk3 Hlp2). by rewrite bool_decide_eq_true_2.
Qed.

End Effects_by_address.

(** ** The end of the game *)

Section Lifts.
Context {T : Type}.
Implicit Types (σ : Store T) (R : Component T → Component T → Prop).

#[global] Instance lifts_preorder R `{!PreOrder R} : PreOrder (lifts R).
Proof.
  split.
  - intros σ. split; [done|]. intros a c ?. by exists c.
  - intros σ1 σ2 σ3 [He1 Hc1] [He2 Hc2]. split; [by trans (entity_mem σ2)|].
    intros a c Hc. destruct (Hc1 _ _ Hc) as (c' & Hc' & ?).
    destruct (Hc2 _ _ Hc') as (c'' & ? & ?). exists c''. split; [done|by trans c'].
Qed.

Lemma slot_lifts R σ σ' e name a : lifts R σ σ' → slot σ e name = Some a → slot σ' e name = Some a.
Proof.
  intros [He _]. unfold slot. destruct (entity_mem σ !! e) as [ent|] eqn:Hent; [|done].
  by rewrite (lookup_weaken _ _ _ _ Hent He).
Qed.

Lemma component_of_kept σ σ' e name c :
  lifts eq σ σ' → component_of σ e name = Some c → component_of σ' e name = Some c.
Proof.
  intros Hk. rewrite !component_of_slot.
  destruct (slot σ e name) as [a|] eqn:Hs; [|done]. cbn.
  rewrite (slot_lifts _ _ _ _ _ _ Hk Hs). cbn. intros Hc.
  by destruct (proj2 Hk _ _ Hc) as (? & ? & <-).
Qed.

Lemma lifeless_kept σ σ' e :
  lifts eq σ σ' → lifeless σ e = true → lifeless σ' e = true.
Proof.
  intros Hk. unfold lifeless, lifepoints_of.
  destruct (component_of σ e "Life") as [c|] eqn:Hc; [|done].
  by rewrite (component_of_kept _ _ _ _ _ Hk Hc).
Qed.

End Lifts.

Section Game_over.
Context `{Scalar T} `{Platform} `{Environment T}.
Implicit Types (σ : Store T) (w : World T).

Lemma read_life_lifepoints σ e life lp al :
  getComponent σ e LifeCap "Life" = Ok life → read_life σ life = Ok (lp, al) →
  lifepoints_of σ e = Some lp.
Proof.
  intros Hg Hr. destruct life as [a|]; [|done].
  apply getComponent_slot in Hg. unfold lifepoints_of. rewrite component_of_slot, Hg. cbn.
  unfold read_life, deref in Hr. destruct (component_mem σ !! a) as [[]|]; try done.
  cbn in Hr. by injection Hr as -> ->.
Qed.

Lemma on_PlayerHit_inv w w' player lp :
  m_player w = Some player → lifepoints_of (heap w) player = Some lp →
  on_PlayerHit w = Ok w' →
  heap w' = heap w ∧ m_player w' = m_player w ∧ m_eventQueue w' = m_eventQueue w
  ∧ m_entities w' = m_entities w
  ∧ m_isRunning w' = m_isRunning w && negb (lp <=? 0).
Proof.
  intros Hp Hlp. unfold on_PlayerHit. cbn [m_player call with_combo]. rewrite Hp.
  cbn [heap call with_combo]. intros Hrun.
  apply bind_Ok_inv in Hrun as (life & Hg & Hrun).
  apply bind_Ok_inv in Hrun as ([lp' al] & Hr & Hrun).
  rewrite (read_life_lifepoints _ _ _ _ _ Hg Hr) in Hlp. injection Hlp as ->.
  destruct (lp <=? 0); injection Hrun as <-; cbn; by rewrite ?andb_true_r, ?andb_false_r.
Qed.

Lemma update_score_and_combo_inv color w w' :
  update_score_and_combo color w = Ok w' →
  heap w' = heap w ∧ m_player w' = m_player w ∧ m_eventQueue w' = m_eventQueue w
  ∧ m_entities w' = m_entities w ∧ m_isRunning w' = m_isRunning w.
Proof.
  unfold update_score_and_combo. case_bool_decide.
  - intros (sugoi & Hs & Hrun)%bind_Ok_inv.
    destruct sugoi; destruct (above_COMBO_MIN _); by injection Hrun as <-.
  - by intros [= <-].
Qed.

Lemma createExplosion_kept color position w w' :
  createExplosion color position w = Ok w' →
  lifts eq (heap w) (heap w') ∧ m_player w' = m_player w
  ∧ m_eventQueue w' = m_eventQueue w ∧ m_isRunning w' = m_isRunning w.
Proof.
  rewrite createExplosion_eq. intros [= <-]. cbn. split; [|done]. split; cbn.
  - apply insert_subseteq, fresh_entity_None.
  - intros a c Hc. exists c. split; [|done].
    rewrite !lookup_insert_ne; [done|..].
    + intros <-. by rewrite fresh_component_None in Hc.
    + intros <-.
      pose proof (fresh_component_None
                    (<[fresh (dom (component_mem (heap w))) := DeletionMarkerComponent false]>
                       (component_mem (heap w)))) as Hf.
      apply lookup_insert_None in Hf as [Hf _]. congruence.
Qed.

Lemma World_handleEvent_inv event w w' player lp :
  m_player w = Some player → lifepoints_of (heap w) player = Some lp →
  World_handleEvent event w = Ok w' →
  lifts eq (heap w) (heap w') ∧ m_player w' = m_player w
  ∧ m_eventQueue w' = m_eventQueue w
  ∧ m_isRunning w' = m_isRunning w && negb (is_PlayerHit event && (lp <=? 0)).
Proof.
  intros Hp Hlp. unfold World_handleEvent, is_PlayerHit.
  destruct (eventType event =? PlayerHit).
  { intros (Hh & ? & ? & _ & ?)%(on_PlayerHit_inv _ _ player lp); [|done..].
    rewrite Hh. split; [reflexivity|]. cbn [andb]. by repeat split. }
  cbn [andb negb]. rewrite andb_true_r.
  destruct (eventType event =? ColoredBallShot); [|by intros [= <-]].
  unfold on_ColoredBallShot. destruct (eventData event) as [[color center|]|]; try done.
  intros (w1 & (Hk & ? & ? & ?)%createExplosion_kept
             & (Hh & ? & ? & _ & ?)%update_score_and_combo_inv)%bind_Ok_inv.
  rewrite Hh. split; [exact Hk|]. split; [congruence|]. split; congruence.
Qed.

Lemma World_handleEvents_loop_running turns : ∀ w player lp,
  (length (m_eventQueue w) < turns)%nat → world_ok w = true →
  m_player w = Some player → lifepoints_of (heap w) player = Some lp →
  ∃ w', World_handleEvents_loop turns w = Ok w'
        ∧ world_ok w' = true ∧ grows w w'
        ∧ lifepoints_of (heap w') player = Some lp
        ∧ m_isRunning w'
          = m_isRunning w && negb (existsb is_PlayerHit (m_eventQueue w) && (lp <=? 0)).
Proof.
  induction turns as [|turns IH]; intros w player lp Hlen Hok Hp Hlp; [lia|].
  cbn [World_handleEvents_loop]. unfold pollEvent.
  destruct (m_eventQueue w) as [|event rest] eqn:Hq.
  { exists w. split; [done|]. split; [done|]. split; [reflexivity|].
    split; [done|]. cbn. by rewrite andb_true_r. }
  destruct (world_ok_pop w event rest Hok Hq) as [Hok0 Hev0].
  destruct (World_handleEvent_spec event _ Hok0 Hev0) as (w1 & Hrun & Hok1 & Hg1 & Hq1).
  rewrite Hrun, bind_Ok.
  apply (World_handleEvent_inv _ _ _ player lp) in Hrun as (Hk & Hp1 & _ & Hr1); [|done..].
  assert (lifepoints_of (heap w1) player = Some lp) as Hlp1.
  { unfold lifepoints_of in *. cbn in Hk.
    destruct (component_of (heap w) player "Life") as [c|] eqn:Hc; [|done].
    by rewrite (component_of_kept _ _ _ _ _ Hk Hc). }
  destruct (IH w1 player lp) as (w' & -> & Hok' & Hg' & Hlp' & Hr'); [|done|by rewrite Hp1|done|].
  { rewrite Hq1. cbn in *. lia. }
  exists w'. split; [done|]. split; [done|]. split; [|split; [done|]].
  - trans w1; [|done]. trans (with_eventQueue rest w); [|done].
    split; [reflexivity|by repeat split].
  - rewrite Hr', Hr1, Hq1. cbn.
    destruct (m_isRunning w), (is_PlayerHit event), (existsb is_PlayerHit rest),
      (lp <=? 0); done.
Qed.

Lemma existsb_PlayerHit_deaths (l : list EntityPtr) :
  existsb is_PlayerHit (death_event (T := T) <$> l) = false.
Proof. by induction l. Qed.

Lemma World_after_collisionEffects_running dt w player lp :
  world_ok w = true → m_player w = Some player →
  lifepoints_of (heap w) player = Some lp →
  ∃ w', World_after_collisionEffects dt w = Ok w'
        ∧ world_ok w' = true
        ∧ m_isRunning w'
          = m_isRunning w && negb (existsb is_PlayerHit (m_eventQueue w) && (lp <=? 0)).
Proof.
  intros Hok Hp Hlp. pose proof Hok as (He & Hq & Hs & Hn & Ha)%world_ok_spec.
  unfold World_after_collisionEffects.
  destruct (World_lifes_spec w Hok) as (w1 & Hrun1 & Hok1 & Hg1). rewrite Hrun1, bind_Ok.
  unfold World_lifes in Hrun1.
  destruct (LifeSystem_update_spec (m_entities w) (heap w) (m_eventQueue w) He)
    as (σ1 & Hl & Hsame & _).
  rewrite Hl, bind_Ok in Hrun1. injection Hrun1 as <-.
  destruct (World_handleEvents_loop_running _ _ player lp (Nat.lt_succ_diag_r _) Hok1)
    as (w2 & Hrun2 & Hok2 & Hg2 & Hlp2 & Hr2); [done|..].
  { cbn. by rewrite (same_lives_lifepoints _ _ _ Hsame). }
  unfold World_handleEvents. rewrite Hrun2, bind_Ok.
  destruct (same_registry_ok _ _ Hok2 (World_checkAffinityChange_spec w2)) as [Hok3 Hg3].
  destruct (World_particles_spec dt _ Hok3) as (w4 & Hrun4 & Hok4 & Hg4).
  exists w4. split; [done|]. split; [done|].
  unfold World_particles in Hrun4. apply bind_Ok_inv in Hrun4 as (σ4 & _ & [= <-]).
  cbn [m_isRunning with_heap].
  assert (m_isRunning (World_checkAffinityChange w2) = m_isRunning w2) as ->.
  { unfold World_checkAffinityChange. by destruct (_ <? _). }
  rewrite Hr2. cbn. by rewrite existsb_app, existsb_PlayerHit_deaths, orb_false_r.
Qed.

End Game_over.

(** ** The animation system *)

Lemma next_frame_bounds (frames : list (sf.Rect Z)) (currentFrame : Z) :
  frames ≠ [] → 0 ≤ next_frame frames currentFrame < Z.of_nat (length frames).
Proof.
  intros Hne. unfold next_frame, uint32.
  assert (0 < Z.of_nat (length frames)) by (destruct frames; [done|cbn; lia]).
  pose proof (Z.mod_pos_bound (currentFrame + 1) (2 ^ 32) ltac:(lia)).
  destruct (Z.leb_spec (Z.of_nat (length frames)) ((currentFrame + 1) mod 2 ^ 32)); lia.
Qed.

Lemma next_frame_mod (frames : list (sf.Rect Z)) (currentFrame : Z) :
  0 ≤ currentFrame < Z.of_nat (length frames) → Z.of_nat (length frames) < 2 ^ 32 →
  next_frame frames currentFrame = (currentFrame + 1) mod Z.of_nat (length frames).
Proof.
  intros Hcf Hlen. unfold next_frame, uint32.
  rewrite (Z.mod_small (currentFrame + 1) (2 ^ 32)) by lia.
  destruct (Z.leb_spec (Z.of_nat (length frames)) (currentFrame + 1)).
  - assert (currentFrame + 1 = Z.of_nat (length frames)) as -> by lia.
    by rewrite Z.mod_same by lia.
  - by rewrite Z.mod_small by lia.
Qed.

Lemma next_frame_lookup (frames : list (sf.Rect Z)) (currentFrame : Z) :
  frames ≠ [] → is_Some (frames !! Z.to_nat (next_frame frames currentFrame)).
Proof.
  intros Hne. apply lookup_lt_is_Some. pose proof (next_frame_bounds frames currentFrame Hne).
  lia.
Qed.

Section Animation_facts.
Context `{Scalar T}.
Implicit Types (σ : Store T) (c : Component T).

#[global] Instance film_kept_preorder : PreOrder (@film_kept T).
Proof.
  split.
  - intros []; cbn; eauto.
  - intros c1 c2 c3 H12 H23. destruct c1; try done. cbn in *.
    destruct H12 as (cf & lf & ->). exact H23.
Qed.

Lemma store_component_lifts R `{!Reflexive R} σ a c c' :
  component_mem σ !! a = Some c → R c c' → lifts R σ (store_component a c' σ).
Proof.
  intros Hc HR. split; [done|]. intros a0 c0 Hc0. cbn.
  destruct (decide (a = a0)) as [<-|Hne].
  - rewrite lookup_insert_eq. exists c'. split; [done|]. congruence.
  - rewrite lookup_insert_ne by done. by exists c0.
Qed.

Lemma frame_period_Ok fps :
  fps ≠ 0 → frame_period fps = Ok (seconds (sdiv (sofZ 1) (sofZ fps) : T)).
Proof. intros Hne. unfold frame_period. by rewrite (proj2 (Z.eqb_neq _ _) Hne). Qed.

Lemma well_named_Animation c :
  well_named "Animation" c = true → ∃ frames cf lf fps, c = AnimationComponent frames cf lf fps.
Proof.
  unfold well_named. rewrite !andb_true_iff, !bool_decide_eq_true.
  intros [[Hn Hc] _]. destruct c; cbn in Hn; try done; eauto.
Qed.

(** One turn of the loop of the animation system, for an entity that has
    a sprite and an animation. *)
Lemma AnimationSystem_entity_eq elapsed σ e ent sprite animation s frames cf lf fps :
  entity_mem σ !! e = Some ent →
  m_components_of ent !! "Sprite" = Some sprite →
  m_components_of ent !! "Animation" = Some animation →
  component_mem σ !! sprite = Some (SpriteComponent s) →
  component_mem σ !! animation = Some (AnimationComponent frames cf lf fps) →
  fps ≠ 0 →
  AnimationSystem_entity elapsed σ e
  = if seconds (sdiv (sofZ 1) (sofZ fps) : T) <? lf + elapsed then
      match frames !! Z.to_nat (next_frame frames cf) with
      | Some frame =>
          Ok (store_component sprite (SpriteComponent (sf.setTextureRect frame s))
                (store_component animation
                   (AnimationComponent frames (next_frame frames cf) sf.Time_Zero fps) σ))
      | None => Fault DanglingPointer
      end
    else Ok (store_component animation (AnimationComponent frames cf (lf + elapsed) fps) σ).
Proof.
  intros He Hs Ha Hcs Hca Hfps.
  assert (sprite ≠ animation) as Hne by (intros ->; congruence).
  unfold AnimationSystem_entity.
  rewrite !(hasComponent_has _ _ _ _ He), !bind_Ok. unfold has. rewrite He.
  rewrite !bool_decide_eq_true_2 by eauto. cbn [negb orb].
  rewrite (getComponent_Some _ _ _ _ _ _ SpriteCap He Hs Hcs) by done.
  rewrite bind_Ok.
  rewrite (getComponent_Some _ _ _ _ _ _ AnimationCap He Ha Hca) by done.
  rewrite bind_Ok. unfold deref at 1. rewrite Hca, bind_Ok.
  erewrite write_Ok; [|reflexivity|exact Hca|reflexivity]. rewrite bind_Ok.
  rewrite frame_period_Ok, bind_Ok by done.
  destruct (_ <? _); [|done].
  erewrite write_Ok; [|reflexivity|cbn; apply lookup_insert_eq|reflexivity].
  rewrite bind_Ok, store_component_twice.
  destruct (frames !! _) as [frame|]; [|done].
  erewrite write_Ok;
    [|reflexivity|cbn; rewrite lookup_insert_ne by done; exact Hcs|reflexivity].
  done.
Qed.

End Animation_facts.

Section Animation_spec.
Context `{Scalar T}.
Implicit Types (σ : Store T) (c : Component T).

Lemma lifts_mono (R R' : Component T → Component T → Prop) σ σ' :
  (∀ c c', R c c' → R' c c') → lifts R σ σ' → lifts R' σ σ'.
Proof.
  intros HR [He Hc]. split; [done|]. intros a c Ha.
  destruct (Hc _ _ Ha) as (c' & ? & ?). exists c'. eauto.
Qed.

Lemma lifts_evolves σ σ' : lifts evolves σ σ' ↔ extends σ σ'.
Proof. done. Qed.

#[global] Instance steady_preorder : PreOrder (@steady T).
Proof.
  split.
  - intros σ. split; reflexivity.
  - intros σ1 σ2 σ3 [? ?] [? ?]. split; by trans σ2.
Qed.

Lemma kept_steady σ σ' : lifts eq σ σ' → steady σ σ'.
Proof.
  intros Hk. split.
  - apply lifts_evolves. eapply lifts_mono; [|exact Hk]. intros c c' <-. apply evolves_refl.
  - eapply lifts_mono; [|exact Hk]. by intros c c' <-.
Qed.

Lemma store_component_steady σ a c c' :
  component_mem σ !! a = Some c → evolves c c' → film_kept c c' →
  steady σ (store_component a c' σ).
Proof.
  intros Hc He Hf. split; [by apply (store_component_extends _ _ c)|].
  by apply (store_component_lifts _ _ _ c).
Qed.

Lemma film_ready_steady σ σ' e :
  entity_ok σ e = true → steady σ σ' → film_ready σ' e = film_ready σ e.
Proof.
  intros Hok [Hx Hf]. destruct (entity_ok_inv _ _ Hok) as (ent & He & Hall & _).
  unfold film_ready, component_of. rewrite He, (extends_entity _ _ _ _ Hx He). cbn.
  destruct (m_components_of ent !! "Animation") as [a|] eqn:Ha; [|done]. cbn.
  destruct (Hall _ _ Ha) as (c & Hc & (frames & cf & lf & fps & ->)%well_named_Animation).
  destruct (proj2 Hf _ _ Hc) as (c' & Hc' & cf' & lf' & ->). by rewrite Hc, Hc'.
Qed.

Lemma ready_steady σ σ' e : steady σ σ' → ready σ e = true → ready σ' e = true.
Proof.
  intros Hs. unfold ready. rewrite !andb_true_iff. intros [Ht Hf].
  split; [apply (tagged_ok_extends σ); [apply Hs|done]|].
  rewrite (film_ready_steady σ); [done| |done].
  by apply tagged_ok_inv in Ht as [? _].
Qed.

Lemma ready_inv σ e :
  ready σ e = true → tagged_ok σ e = true ∧ entity_ok σ e = true ∧ film_ready σ e = true.
Proof.
  unfold ready. rewrite andb_true_iff. intros [Ht Hf].
  split; [done|]. split; [|done]. by apply tagged_ok_inv in Ht as [? _].
Qed.

Lemma evolves_Animation frames cf lf fps frames' cf' lf' fps' :
  evolves (AnimationComponent (T := T) frames cf lf fps)
          (AnimationComponent frames' cf' lf' fps').
Proof. by repeat split. Qed.

Lemma evolves_Sprite (s s' : sf.Sprite T) : evolves (SpriteComponent s) (SpriteComponent s').
Proof. by repeat split. Qed.

Lemma AnimationSystem_entity_skip elapsed σ e ent :
  entity_mem σ !! e = Some ent → has σ e "Sprite" && has σ e "Animation" = false →
  AnimationSystem_entity elapsed σ e = Ok σ.
Proof.
  intros He Hno. unfold AnimationSystem_entity.
  rewrite !(hasComponent_has _ _ _ _ He), !bind_Ok.
  by destruct (has σ e "Sprite"), (has σ e "Animation").
Qed.

Lemma AnimationSystem_entity_spec elapsed σ e :
  entity_ok σ e = true → film_ready σ e = true →
  ∃ σ', AnimationSystem_entity elapsed σ e = Ok σ' ∧ steady σ σ'.
Proof.
  intros Hok Hf. destruct (entity_ok_inv _ _ Hok) as (ent & He & Hall & _).
  destruct (has σ e "Sprite" && has σ e "Animation") eqn:Hhas.
  2:{ exists σ. by rewrite (AnimationSystem_entity_skip _ _ _ ent). }
  apply andb_true_iff in Hhas as [Hs Ha].
  destruct (entity_ok_sprite _ _ Hok Hs) as (ent' & sprite & s & He' & Hsl & Hcs).
  rewrite He in He'. injection He' as <-.
  unfold has in Ha. rewrite He in Ha. apply bool_decide_eq_true in Ha as [animation Hal].
  destruct (Hall _ _ Hal)
    as (c & Hca & (frames & cf & lf & fps & ->)%well_named_Animation).
  unfold film_ready, component_of in Hf. rewrite He in Hf. cbn in Hf.
  rewrite Hal in Hf. cbn in Hf. rewrite Hca in Hf.
  apply andb_true_iff in Hf as [Hne%bool_decide_eq_true Hfps%negb_true_iff%Z.eqb_neq].
  rewrite (AnimationSystem_entity_eq _ _ _ _ _ _ _ _ _ _ _ He Hsl Hal Hcs Hca Hfps).
  destruct (_ <? _).
  - destruct (next_frame_lookup frames cf Hne) as [frame ->]. eexists. split; [done|].
    trans (store_component animation
             (AnimationComponent frames (next_frame frames cf) sf.Time_Zero fps) σ).
    + eapply store_component_steady; [done|apply evolves_Animation|]. cbn. eauto.
    + apply (store_component_steady _ _ (SpriteComponent s)); [|apply evolves_Sprite|done].
      cbn. rewrite lookup_insert_ne; [done|]. intros ->. congruence.
  - eexists. split; [done|].
    eapply store_component_steady; [done|apply evolves_Animation|]. cbn. eauto.
Qed.

Lemma AnimationSystem_update_spec elapsed entities : ∀ σ,
  Forall (λ e, ready σ e = true) entities →
  ∃ σ', AnimationSystem_update elapsed entities σ = Ok σ' ∧ steady σ σ'.
Proof.
  intros σ Hall. unfold AnimationSystem_update.
  destruct (for_each_invariant (AnimationSystem_entity elapsed)
              (λ σ, Forall (λ e, ready σ e = true) entities) steady entities σ)
    as (σ' & Hrun & _ & Hs); [|done|by exists σ'].
  intros σ0 e He Hall0.
  pose proof (proj1 (list.Forall_forall _ _) Hall0 e He) as (_ & Hok & Hf)%ready_inv.
  destruct (AnimationSystem_entity_spec elapsed σ0 e Hok Hf) as (σ1 & Hrun & Hs).
  exists σ1. split; [done|]. split; [|done].
  eapply Forall_impl; [|exact Hall0]. intros e' ?. by apply (ready_steady σ0).
Qed.

End Animation_spec.

Section Component_of.
Context {T : Type}.
Implicit Types (σ : Store T).
Lemma component_of_inv σ e name c :
  component_of σ e name = Some c →
  ∃ ent a, entity_mem σ !! e = Some ent ∧ m_components_of ent !! name = Some a
           ∧ component_mem σ !! a = Some c.
Proof.
  unfold component_of. destruct (entity_mem σ !! e) as [ent|]; [|done]. cbn.
  destruct (m_components_of ent !! name) as [a|] eqn:Ha; [|done]. cbn. eauto.
Qed.
End Component_of.


(** ** A new entity *)

Section Spawn.
Context {T : Type}.
Implicit Types (w : World T) (cs : list (ComponentPtr * Component T)).

Lemma spawned_lookup w e name cs a c :
  NoDup cs.*1 → (a, c) ∈ cs → component_mem (heap (spawned w e name cs)) !! a = Some c.
Proof. intros Hn Hin. cbn. apply lookup_union_Some_l. by apply elem_of_list_to_map_1. Qed.

Lemma spawned_kept w e name cs :
  fresh_for w e cs.*1 → lifts eq (heap w) (heap (spawned w e name cs)).
Proof.
  intros (He & Hn & Hf). split; cbn.
  - by apply insert_subseteq.
  - intros a c Hc. exists c. split; [|done]. rewrite lookup_union_r; [done|].
    apply not_elem_of_list_to_map_1. intros Hin. specialize (Hf _ Hin). congruence.
Qed.

Lemma spawned_entity w e name cs :
  entity_mem (heap (spawned w e name cs)) !! e
  = Some (mkEntity (m_lastid w) name (list_to_map (named cs))).
Proof. cbn. apply lookup_insert_eq. Qed.

Lemma named_slot cs name a :
  list_to_map (M := gmap string ComponentPtr) (named cs) !! name = Some a →
  ∃ c, (a, c) ∈ cs ∧ getName c = name.
Proof.
  intros Hin%elem_of_list_to_map_2. apply list_elem_of_fmap in Hin as ([a' c] & [= -> ->] & ?).
  eauto.
Qed.

Lemma spawned_component_of w e name cs n c :
  NoDup cs.*1 → component_of (heap (spawned w e name cs)) e n = Some c →
  c ∈ cs.*2 ∧ getName c = n.
Proof.
  intros Hn. unfold component_of. rewrite spawned_entity. cbn -[spawned].
  destruct (list_to_map (named cs) !! n) as [a|] eqn:Ha; [|done]. cbn -[spawned].
  apply named_slot in Ha as (c' & Hin & <-).
  rewrite (spawned_lookup _ _ _ _ _ _ Hn Hin). intros [= <-]. split; [|done].
  apply list_elem_of_fmap. by exists (a, c').
Qed.

Lemma spawned_entity_ok w e name cs :
  NoDup cs.*1 → Forall (λ c, component_ok c = true) cs.*2 →
  is_Some (list_to_map (M := gmap string ComponentPtr) (named cs) !! "DeletionMarker") →
  entity_ok (heap (spawned w e name cs)) e = true.
Proof.
  intros Hn Hall Hm. apply (entity_ok_intro _ _ _ (spawned_entity w e name cs)); [|done].
  cbn [m_components_of]. intros n a (c & Hin & <-)%named_slot.
  exists c. split; [by apply spawned_lookup|].
  assert (component_ok c = true) as Hc.
  { apply (proj1 (list.Forall_forall _ _) Hall). apply list_elem_of_fmap. by exists (a, c). }
  unfold component_ok in Hc. apply andb_true_iff in Hc as [[Hc Hp]%andb_true_iff _].
  unfold well_named. by rewrite bool_decide_eq_true_2, Hc, Hp.
Qed.

Lemma spawned_film_ready w e name cs :
  NoDup cs.*1 → Forall (λ c, component_ok c = true) cs.*2 →
  film_ready (heap (spawned w e name cs)) e = true.
Proof.
  intros Hn Hall. unfold film_ready.
  destruct (component_of _ e "Animation") as [c|] eqn:Hc; [|done].
  apply spawned_component_of in Hc as [Hin _]; [|done].
  apply (proj1 (list.Forall_forall _ _) Hall) in Hin. unfold component_ok in Hin.
  apply andb_true_iff in Hin as [_ Hin]. by destruct c.
Qed.

Lemma spawned_world_ok w e name cs :
  world_ok w = true → fresh_for w e cs.*1 →
  Forall (λ c, component_ok c = true) cs.*2 →
  is_Some (list_to_map (M := gmap string ComponentPtr) (named cs) !! "DeletionMarker") →
  world_ok (spawned w e name cs) = true.
Proof.
  rewrite !world_ok_spec. intros (He & Hq & Hs & Hnd & Ha) Hf Hall Hm.
  pose proof (spawned_kept w e name cs Hf) as Hk.
  destruct Hf as (Hfe & Hn & Hf).
  split; [|split; [|split; [done|split]]]; cbn -[spawned heap].
  - apply Forall_app. split.
    + eapply Forall_impl; [|exact He]. intros e' ?.
      apply (entity_ok_extends (heap w)); [|done]. by apply kept_steady.
    + apply Forall_singleton. by apply spawned_entity_ok.
  - eapply Forall_impl; [|exact Hq]. intros event. unfold event_ok.
    change (m_player (spawned w e name cs)) with (m_player w).
    destruct (eventType event =? PlayerHit); [|done].
    destruct (m_player w) as [p|]; [|done]. rewrite !andb_true_iff. intros [? ?].
    split.
    + apply (entity_ok_extends (heap w)); [|done]. by apply kept_steady.
    + apply (has_extends (heap w)); [|done]. by apply kept_steady.
  - apply list.NoDup_app. split; [done|]. split; [|done].
    intros a Hin Hin'. apply (proj1 (list.Forall_forall _ _) Ha) in Hin as [c Hc].
    specialize (Hf _ Hin'). congruence.
  - apply Forall_app. split.
    + eapply Forall_impl; [|exact Ha]. intros a [c Hc]. exists c.
      by destruct (proj2 Hk _ _ Hc) as (? & ? & <-).
    + apply list.Forall_forall. intros a ([a' c] & -> & Hin)%list_elem_of_fmap.
      exists c. by apply spawned_lookup.
Qed.

End Spawn.

(** ** The factories, step by step *)

Section Factory_steps.
Context `{Scalar T} `{Platform} `{Environment T} `{Assets}.
Implicit Types (w : World T).

Lemma createEntity_fresh name w :
  ∃ e d,
    entity_mem (heap w) !! e = None ∧ component_mem (heap w) !! d = None
    ∧ createEntity name w
      = Ok (e,
            mkWorld
              (mkStore
                 (<[e := mkEntity (m_lastid w) name {["DeletionMarker" := d]}]>
                    (entity_mem (heap w)))
                 (<[d := DeletionMarkerComponent false]> (component_mem (heap w))))
              (m_entities w ++ [e]) (m_components w ++ [d]) (m_eventQueue w) (m_player w)
              (m_isRunning w) (m_colorAffinity w) (m_score w) (m_combo w)
              (m_lastSugoiDisplay w) (m_lastAffinityChange w) (constants w)
              (S (m_lastid w)) (rand_calls w) (audio w)).
Proof.
  eexists _, _. split; [apply fresh_entity_None|]. split; [apply fresh_component_None|].
  apply createEntity_eq.
Qed.

Lemma createComponent_fresh c w :
  ∃ a,
    component_mem (heap w) !! a = None
    ∧ createComponent c w
      = (a, with_components (m_components w ++ [a])
              (with_heap (store_component a c (heap w)) w)).
Proof. eexists. split; [apply fresh_component_None|done]. Qed.

Lemma configure_Ok p upd w c c' :
  component_mem (heap w) !! p = Some c → upd c = Some c' →
  configure p upd w = Ok (with_heap (store_component p c' (heap w)) w).
Proof. intros Hc Hu. unfold configure. by erewrite write_Ok. Qed.

Lemma attach_Ok e p w ent c :
  entity_mem (heap w) !! e = Some ent → component_mem (heap w) !! p = Some c →
  attach e p w
  = Ok (with_heap
          (store_entity e
             (mkEntity (m_id ent) (m_name ent) (<[getName c := p]> (m_components_of ent)))
             (heap w)) w).
Proof.
  intros He Hc. unfold attach, addComponent, deref_entity, deref. by rewrite He, Hc.
Qed.

Lemma read_sprite_Ok (σ : Store T) a s :
  component_mem σ !! a = Some (SpriteComponent s) → read_sprite σ (Some a) = Ok s.
Proof. intros Hc. unfold read_sprite, deref. by rewrite Hc. Qed.

Lemma list_to_map_union_cons a c (cs : list (ComponentPtr * Component T))
    (m : gmap ComponentPtr (Component T)) :
  list_to_map ((a, c) :: cs) ∪ m = <[a := c]> (list_to_map cs ∪ m).
Proof. by rewrite list_to_map_cons, insert_union_l. Qed.

Lemma list_to_map_union_nil (m : gmap ComponentPtr (Component T)) :
  list_to_map [] ∪ m = m.
Proof. by rewrite list_to_map_nil, (left_id_L ∅ (∪)). Qed.

Lemma setTexture_new id :
  setTexture id new_Sprite
  = sf.mkSprite (sf.mkRect 0 0 (texture_size id).1 (texture_size id).2)
                (sf.mkVector2 (sofZ 0) (sofZ 0)).
Proof. unfold setTexture. by rewrite bool_decide_eq_true_2. Qed.

End Factory_steps.

(** The fields of a world under construction. *)
Ltac world_cbn :=
  unfold new_LifeComponent, with_heap, with_components, with_rand_calls, with_player,
    with_entities, store_component, store_entity;
  cbn [heap m_entities m_components m_eventQueue m_player m_isRunning m_colorAffinity
       m_score m_combo m_lastSugoiDisplay m_lastAffinityChange constants m_lastid
       rand_calls audio entity_mem component_mem m_id m_name m_components_of getName].

Ltac world_cbn_in H :=
  unfold new_LifeComponent, with_heap, with_components, with_rand_calls, with_player,
    with_entities, store_component, store_entity in H;
  cbn [heap m_entities m_components m_eventQueue m_player m_isRunning m_colorAffinity
       m_score m_combo m_lastSugoiDisplay m_lastAffinityChange constants m_lastid
       rand_calls audio entity_mem component_mem m_id m_name m_components_of getName] in H.

(** One [new], then what follows. *)
Ltac new_component a Ha :=
  match goal with
  | |- context [createComponent ?c ?w] =>
      destruct (createComponent_fresh c w) as (a & Ha & ->);
      world_cbn_in Ha; world_cbn;
      rewrite ?lookup_insert_None in Ha
  end.

Ltac configure_step :=
  erewrite configure_Ok;
  [|world_cbn; simplify_map_eq; reflexivity|reflexivity];
  rewrite bind_Ok; world_cbn.

Ltac attach_step :=
  erewrite attach_Ok;
  [|world_cbn; simplify_map_eq; reflexivity|world_cbn; simplify_map_eq; reflexivity];
  rewrite ?bind_Ok; world_cbn.

Ltac fresh_addresses :=
  split; [done|]; split;
  [repeat (apply NoDup_cons_2;
           [rewrite ?not_elem_of_cons; repeat split; try done; apply not_elem_of_nil|]);
   apply NoDup_nil_2
  |let a := fresh "a" in
   let Ha := fresh "Ha" in
   intros a Ha; rewrite ?elem_of_cons, elem_of_nil in Ha;
   repeat (destruct Ha as [->|Ha]; [done|]); destruct Ha].

Ltac spawned_eq :=
  f_equal; unfold spawned; world_cbn; rewrite ?setTexture_new;
  f_equal; [|by rewrite <- !app_assoc]; f_equal;
  [rewrite !insert_insert_eq; by do 2 f_equal
  |rewrite !list_to_map_union_cons, list_to_map_union_nil;
   let i := fresh "i" in
   apply map_eq; intros i; rewrite !lookup_insert; repeat case_decide; simplify_eq; done].

Ltac read_sprite_step :=
  erewrite read_sprite_Ok; [|world_cbn; simplify_map_eq; reflexivity];
  rewrite bind_Ok; world_cbn.

Section Factories_eq.
Context `{Scalar T} `{Platform} `{Environment T} `{Assets}.
Implicit Types (w : World T).

Lemma createBall_eq w :
  ∃ e d s h m l,
    fresh_for w e [d; s; h; m; l]
    ∧ createBall w
      = Ok (spawned (with_rand_calls (rand_calls w + 2) w) e "Ball"
              [ (d, DeletionMarkerComponent false);
                (s, SpriteComponent
                      (sf.mkSprite
                         (sf.mkRect (randomColor (rand (S (rand_calls w)))) 0 64 64)
                         (sf.mkVector2 (sofZ 0) (sofZ 0))));
                (h, HitboxComponent
                      (sf.mkRect (sofZ (randomX (rand (rand_calls w)))) (sneg (sofZ 64))
                                 (sofZ 64) (sofZ 64)) false);
                (m, MovementComponent
                      (sf.mkVector2 (sofZ 0) (BALL_VELOCITY (constants w))));
                (l, LifeComponent 1 true) ]).
Proof.
  unfold createBall.
  destruct (createEntity_fresh "Ball" (with_rand_calls (rand_calls w + 2) w))
    as (e & d & He & Hd & ->).
  rewrite bind_Ok. world_cbn_in He. world_cbn_in Hd. world_cbn.
  new_component s Hs. new_component h Hh. new_component m Hm. new_component l Hl.
  destruct_and!.
  do 6 configure_step. do 4 attach_step.
  exists e, d, s, h, m, l. split; [fresh_addresses|spawned_eq].
Qed.

Lemma shootSakura_eq position w :
  ∃ e d s h m l,
    fresh_for w e [d; s; h; m; l]
    ∧ shootSakura position w
      = Ok (spawned w e "Sakura"
              [ (d, DeletionMarkerComponent false);
                (s, SpriteComponent
                      (sf.mkSprite (sf.mkRect 0 0 (texture_size 1).1 (texture_size 1).2)
                                   (sf.mkVector2 (sofZ 0) (sofZ 0))));
                (h, HitboxComponent
                      (sf.mkRect (sf.x position) (sf.y position)
                                 (sf.width (image_size 1)) (sf.height (image_size 1)))
                      false);
                (m, MovementComponent
                      (sf.mkVector2 (sofZ 0) (SAKURA_VELOCITY (constants w))));
                (l, LifeComponent 1 true) ]).
Proof.
  unfold shootSakura.
  destruct (createEntity_fresh "Sakura" w) as (e & d & He & Hd & ->).
  rewrite bind_Ok. world_cbn.
  new_component s Hs. new_component h Hh. new_component m Hm. new_component l Hl.
  destruct_and!.
  configure_step. read_sprite_step. do 4 configure_step. do 4 attach_step.
  exists e, d, s, h, m, l. split; [fresh_addresses|spawned_eq].
Qed.

Lemma addPlayer_eq w :
  ∃ e d s h m l,
    fresh_for w e [d; s; h; m; l]
    ∧ addPlayer w
      = Ok (spawned (with_player (Some e) w) e "Player"
              [ (d, DeletionMarkerComponent false);
                (s, SpriteComponent
                      (sf.mkSprite (sf.mkRect 0 0 (texture_size 2).1 (texture_size 2).2)
                                   (sf.mkVector2 (sofZ 0) (sofZ 0))));
                (h, HitboxComponent
                      (sf.mkRect (sofZ 65) (sofZ 640)
                                 (sf.width (image_size 2)) (sf.height (image_size 2)))
                      true);
                (m, MovementComponent (sf.mkVector2 (sofZ 0) (sofZ 0)));
                (l, LifeComponent (to_int (LIFE_POINTS (constants w))) true) ]).
Proof.
  unfold addPlayer.
  destruct (createEntity_fresh "Player" w) as (e & d & He & Hd & ->).
  rewrite bind_Ok. world_cbn.
  new_component s Hs. new_component h Hh. new_component m Hm. new_component l Hl.
  destruct_and!.
  configure_step. read_sprite_step. do 3 configure_step. do 4 attach_step.
  exists e, d, s, h, m, l. split; [fresh_addresses|spawned_eq].
Qed.

Lemma createBox_eq position w :
  ∃ e d s h a,
    fresh_for w e [d; s; h; a]
    ∧ createBox position w
      = Ok (spawned w e "Box"
              [ (d, DeletionMarkerComponent false);
                (s, SpriteComponent
                      (sf.mkSprite (sf.mkRect 0 0 64 64) (sf.mkVector2 (sofZ 0) (sofZ 0))));
                (h, HitboxComponent
                      (sf.mkRect (sf.x position) (sf.y position) (sofZ 64) (sofZ 64)) true);
                (a, AnimationComponent box_frames 0 sf.Time_Zero 24) ]).
Proof.
  unfold createBox.
  destruct (createEntity_fresh "Box" w) as (e & d & He & Hd & ->).
  rewrite bind_Ok. world_cbn.
  new_component s Hs. new_component h Hh. new_component a Ha.
  destruct_and!.
  do 5 configure_step. do 3 attach_step.
  exists e, d, s, h, a. split; [fresh_addresses|spawned_eq].
Qed.

Lemma createExplosion_spawned color position w :
  ∃ e d p,
    fresh_for w e [d; p]
    ∧ createExplosion color position w
      = Ok (spawned (with_rand_calls (rand_calls w + 3 * pool_size) w) e "Explosion"
              [ (d, DeletionMarkerComponent false);
                (p, explosion_particles color position (rand_calls w)) ]).
Proof.
  rewrite createExplosion_eq.
  pose proof (fresh_component_None (component_mem (heap w))) as Hd.
  pose proof (fresh_component_None
                (<[fresh (dom (component_mem (heap w))) := DeletionMarkerComponent false]>
                   (component_mem (heap w)))) as Hp.
  apply lookup_insert_None in Hp as [Hp Hdp].
  eexists _, _, _. split.
  - split; [apply fresh_entity_None|]. split.
    + apply NoDup_cons_2; [|apply NoDup_singleton]. by rewrite list_elem_of_singleton.
    + intros a Ha. rewrite !elem_of_cons, elem_of_nil in Ha.
      by destruct Ha as [->|[->|[]]].
  - f_equal. unfold spawned, explosion_particles. world_cbn.
    rewrite !list_to_map_union_cons, list_to_map_union_nil, <- !app_assoc.
    rewrite (insert_insert_ne _ _ _ _ _ Hdp). reflexivity.
Qed.
End Factories_eq.

(** ** Worlds in order *)

Section Settled.
Context {T : Type}.
Implicit Types (w : World T) (cs : list (ComponentPtr * Component T)).

Lemma settled_spec w :
  settled w = true ↔
  world_ok w = true
  ∧ Forall (λ e, ready (heap w) e = true) (m_entities w)
  ∧ player_ready w = true.
Proof. unfold settled, manned. rewrite !andb_true_iff, forallb_Forall. tauto. Qed.

Lemma manned_spec w :
  manned w = true ↔
  Forall (λ e, ready (heap w) e = true) (m_entities w) ∧ player_ready w = true.
Proof. unfold manned. by rewrite !andb_true_iff, forallb_Forall. Qed.

Lemma settled_manned w : settled w = true ↔ world_ok w = true ∧ manned w = true.
Proof. unfold settled. by rewrite andb_true_iff. Qed.

Lemma player_ready_inv w :
  player_ready w = true →
  ∃ player, m_player w = Some player ∧ entity_ok (heap w) player = true
            ∧ has (heap w) player "Life" = true
            ∧ has (heap w) player "Movement" = true
            ∧ has (heap w) player "Hitbox" = true.
Proof.
  unfold player_ready. destruct (m_player w) as [player|]; [|done].
  rewrite !andb_true_iff. intros [[[? ?] ?] ?]. by exists player.
Qed.

Lemma player_ready_extends w w' :
  player_ready w = true → extends (heap w) (heap w') → m_player w' = m_player w →
  player_ready w' = true.
Proof.
  intros (player & Hp & Hok & H1 & H2 & H3)%player_ready_inv Hx Hp'.
  unfold player_ready. rewrite Hp', Hp, !andb_true_iff.
  repeat split; [by apply (entity_ok_extends (heap w))|by apply (has_extends (heap w))..].
Qed.

Lemma player_ready_event w :
  player_ready w = true → event_ok w (mkEvent PlayerHit None) = true.
Proof.
  intros (player & Hp & Hok & H1 & _)%player_ready_inv. unfold event_ok. cbn.
  by rewrite Hp, Hok, H1.
Qed.

Lemma settled_steady w w' :
  settled w = true → steady (heap w) (heap w') →
  m_entities w' = m_entities w → m_components w' = m_components w →
  m_eventQueue w' = m_eventQueue w →
  m_player w' = m_player w → constants w' = constants w →
  settled w' = true.
Proof.
  rewrite !settled_spec. intros (Hok & Hr & Hp) Hs He Hc Hq Hpl Hk.
  assert (grows w w') as Hg.
  { split; [apply Hs|]. by rewrite He, Hc. }
  split; [|split].
  - apply (world_ok_heap w); try done; [apply Hs|].
    rewrite Hq. apply world_ok_spec in Hok as (_ & Hev & _).
    eapply Forall_impl; [|exact Hev]. intros event ?. by apply (event_ok_grows w).
  - rewrite He. eapply Forall_impl; [|exact Hr]. intros e ?. by apply (ready_steady (heap w)).
  - apply (player_ready_extends w); [done|apply Hs|done].
Qed.

Lemma spawned_ready w e name cs :
  NoDup cs.*1 → Forall (λ c, component_ok c = true) cs.*2 →
  is_Some (list_to_map (M := gmap string ComponentPtr) (named cs) !! "DeletionMarker") →
  (name = "Sakura" ∨ name = "Ball" ∨ name = "Player" →
   is_Some (list_to_map (M := gmap string ComponentPtr) (named cs) !! "Life")
   ∧ is_Some (list_to_map (M := gmap string ComponentPtr) (named cs) !! "Sprite")) →
  ready (heap (spawned w e name cs)) e = true.
Proof.
  intros Hn Hall Hm Htag. unfold ready, tagged_ok, name_of, has.
  rewrite spawned_entity_ok, spawned_film_ready, spawned_entity by done.
  cbn [fmap option_fmap option_map m_name m_components_of andb].
  rewrite andb_true_r.
  destruct (bool_decide (name = "Sakura") || bool_decide (name = "Ball")
            || bool_decide (name = "Player")) eqn:Hname; [|done].
  rewrite !orb_true_iff, !bool_decide_eq_true in Hname.
  destruct Htag as [? ?]; [tauto|]. by rewrite !bool_decide_eq_true_2.
Qed.

Lemma manned_steady w w' :
  manned w = true → steady (heap w) (heap w') →
  m_entities w' ⊆ m_entities w → m_player w' = m_player w →
  manned w' = true.
Proof.
  rewrite !manned_spec. intros [Hr Hp] Hs He Hpl. split.
  - apply list.Forall_forall. intros e Hin. apply (ready_steady (heap w)); [done|].
    apply (proj1 (list.Forall_forall _ _) Hr). by apply He.
  - apply (player_ready_extends w); [done|apply Hs|done].
Qed.

Lemma spawned_manned w e name cs :
  manned w = true → fresh_for w e cs.*1 →
  Forall (λ c, component_ok c = true) cs.*2 →
  is_Some (list_to_map (M := gmap string ComponentPtr) (named cs) !! "DeletionMarker") →
  (name = "Sakura" ∨ name = "Ball" ∨ name = "Player" →
   is_Some (list_to_map (M := gmap string ComponentPtr) (named cs) !! "Life")
   ∧ is_Some (list_to_map (M := gmap string ComponentPtr) (named cs) !! "Sprite")) →
  manned (spawned w e name cs) = true.
Proof.
  rewrite !manned_spec. intros (Hr & Hp) Hf Hall Hm Htag.
  pose proof (kept_steady _ _ (spawned_kept w e name cs Hf)) as Hs.
  split.
  - change (m_entities (spawned w e name cs)) with (m_entities w ++ [e]).
    apply Forall_app. split.
    + eapply Forall_impl; [|exact Hr]. intros e' ?. by apply (ready_steady (heap w)).
    + apply Forall_singleton. apply spawned_ready; [apply Hf|done..].
  - apply (player_ready_extends w); [done|apply Hs|done].
Qed.

Lemma spawned_settled w e name cs :
  settled w = true → fresh_for w e cs.*1 →
  Forall (λ c, component_ok c = true) cs.*2 →
  is_Some (list_to_map (M := gmap string ComponentPtr) (named cs) !! "DeletionMarker") →
  (name = "Sakura" ∨ name = "Ball" ∨ name = "Player" →
   is_Some (list_to_map (M := gmap string ComponentPtr) (named cs) !! "Life")
   ∧ is_Some (list_to_map (M := gmap string ComponentPtr) (named cs) !! "Sprite")) →
  settled (spawned w e name cs) = true.
Proof.
  rewrite !settled_spec. intros (Hok & Hr & Hp) Hf Hall Hm Htag.
  pose proof (kept_steady _ _ (spawned_kept w e name cs Hf)) as Hs.
  split; [by apply spawned_world_ok|]. split.
  - change (m_entities (spawned w e name cs)) with (m_entities w ++ [e]).
    apply Forall_app. split.
    + eapply Forall_impl; [|exact Hr]. intros e' ?. by apply (ready_steady (heap w)).
    + apply Forall_singleton. apply spawned_ready; [apply Hf|done..].
  - apply (player_ready_extends w); [done|apply Hs|done].
Qed.

End Settled.

(** ** What the factories leave *)

(** The side conditions of a new entity made of listed components. *)
Ltac spawned_conditions :=
  first
    [ by repeat constructor
    | by eexists
    | let Hn := fresh in
      intros Hn; split; by eexists
    | let Hn := fresh in
      intros [Hn|[Hn|Hn]]; discriminate Hn ].

Section Factories_settled.
Context `{Scalar T} `{Platform} `{Environment T} `{Assets}.
Implicit Types (w : World T).

Lemma createBall_settled w :
  settled w = true →
  ∃ w' e, createBall w = Ok w' ∧ settled w' = true
          ∧ lifts eq (heap w) (heap w') ∧ m_entities w' = m_entities w ++ [e]
          ∧ m_player w' = m_player w ∧ constants w' = constants w.
Proof.
  intros Hs. destruct (createBall_eq w) as (e & d & s & h & m & l & Hf & ->).
  eexists _, e. split; [done|].
  split; [apply spawned_settled; [exact Hs|exact Hf|spawned_conditions..]|].
  split; [by apply (spawned_kept (with_rand_calls (rand_calls w + 2) w))|done].
Qed.

Lemma shootSakura_settled position w :
  settled w = true →
  ∃ w' e, shootSakura position w = Ok w' ∧ settled w' = true
          ∧ lifts eq (heap w) (heap w') ∧ m_entities w' = m_entities w ++ [e]
          ∧ m_player w' = m_player w ∧ constants w' = constants w.
Proof.
  intros Hs. destruct (shootSakura_eq position w) as (e & d & s & h & m & l & Hf & ->).
  eexists _, e. split; [done|].
  split; [apply spawned_settled; [exact Hs|exact Hf|spawned_conditions..]|].
  split; [by apply spawned_kept|done].
Qed.

Lemma createExplosion_settled color position w :
  settled w = true →
  ∃ w', createExplosion color position w = Ok w' ∧ settled w' = true.
Proof.
  intros Hs. destruct (createExplosion_spawned color position w) as (e & d & p & Hf & ->).
  eexists. split; [done|].
  apply spawned_settled; [exact Hs|exact Hf| |spawned_conditions..].
  apply Forall_cons_2; [done|]. apply Forall_singleton.
  pose proof (explosion_particles_ok color position (rand_calls w)) as Hp.
  unfold well_named in Hp. apply andb_true_iff in Hp as [_ Hp].
  unfold component_ok. cbn [snd]. rewrite Hp. done.
Qed.

End Factories_settled.

Section Init.
Context `{Scalar T} `{Platform} `{Environment T} `{Assets}.
Implicit Types (w : World T).

Lemma spawned_component w e name (cs : list (ComponentPtr * Component T)) n a c :
  NoDup cs.*1 → list_to_map (M := gmap string ComponentPtr) (named cs) !! n = Some a →
  (a, c) ∈ cs → component_of (heap (spawned w e name cs)) e n = Some c.
Proof.
  intros Hn Ha Hin. unfold component_of. rewrite spawned_entity. cbn -[spawned].
  rewrite Ha. cbn -[spawned]. by apply spawned_lookup.
Qed.

Lemma kept_trans (σ1 σ2 σ3 : Store T) : lifts eq σ1 σ2 → lifts eq σ2 σ3 → lifts eq σ1 σ3.
Proof.
  intros [He1 Hc1] [He2 Hc2]. split; [by trans (entity_mem σ2)|].
  intros a c Hc. destruct (Hc1 _ _ Hc) as (? & Hc' & <-). by apply Hc2.
Qed.

Lemma kept_refl (σ : Store T) : lifts eq σ σ.
Proof. split; [done|]. intros a c ?. by exists c. Qed.

Lemma name_of_kept (σ σ' : Store T) e n :
  lifts eq σ σ' → name_of σ e = Some n → name_of σ' e = Some n.
Proof. intros Hk. apply name_of_extends. by apply kept_steady. Qed.

Lemma walled_refl w : walled w w [].
Proof.
  split; [by rewrite app_nil_r|]. split; [done|]. split; [apply kept_refl|]. by repeat split.
Qed.

Lemma box_at_kept (σ σ' : Store T) b position :
  lifts eq σ σ' → box_at σ b position → box_at σ' b position.
Proof.
  intros Hk [Hn Hc]. split; [by apply (name_of_kept σ)|by apply (component_of_kept σ)].
Qed.

Lemma walled_trans w1 w2 w3 b1 b2 :
  walled w1 w2 b1 → walled w2 w3 b2 → walled w1 w3 (b1 ++ b2).
Proof.
  intros (He1 & Hn1 & Hk1 & ? & ? & ? & ? & ? & ? & ?)
         (He2 & Hn2 & Hk2 & ? & ? & ? & ? & ? & ? & ?).
  split; [by rewrite He2, He1, fmap_app, app_assoc|]. split.
  { apply Forall_app. split; [|done].
    eapply Forall_impl; [|exact Hn1]. intros b ?. by apply (box_at_kept (heap w2)). }
  split; [by apply (kept_trans _ (heap w2))|]. repeat split; congruence.
Qed.

Lemma createBox_settled position w :
  settled w = true →
  ∃ w' e, createBox position w = Ok w' ∧ settled w' = true ∧ walled w w' [(e, position)].
Proof.
  intros Hs. destruct (createBox_eq position w) as (e & d & s & h & a & Hf & ->).
  eexists _, e. split; [done|].
  split; [apply spawned_settled; [exact Hs|exact Hf|spawned_conditions..]|].
  split; [done|]. split.
  { apply Forall_singleton. split; [unfold name_of; by rewrite spawned_entity|].
    cbn [fst snd]. apply (spawned_component _ _ _ _ _ h); [apply Hf|done|].
    rewrite !elem_of_cons. tauto. }
  split; [by apply spawned_kept|]. by repeat split.
Qed.

Lemma createBoxes_settled (f : Z → sf.Vector2 T) l : ∀ w,
  settled w = true →
  ∃ w' boxes,
    for_each (λ w i, createBox (f i) w) w l = Ok w'
    ∧ settled w' = true ∧ walled w w' boxes ∧ boxes.*2 = f <$> l.
Proof.
  induction l as [|i l IH]; intros w Hs.
  { exists w, []. split; [done|]. split; [done|]. split; [apply walled_refl|done]. }
  rewrite for_each_cons.
  destruct (createBox_settled (f i) w Hs) as (w1 & e & -> & Hs1 & Hw1).
  rewrite bind_Ok. destruct (IH w1 Hs1) as (w' & boxes & -> & Hs' & Hw' & Hpos).
  exists w', ([(e, f i)] ++ boxes). split; [done|]. split; [done|].
  split; [by apply (walled_trans _ w1)|]. cbn. by rewrite Hpos.
Qed.

Lemma buildWalls_settled w :
  settled w = true →
  ∃ w' boxes,
    buildWalls w = Ok w' ∧ settled w' = true ∧ walled w w' boxes
    ∧ boxes.*2 = wall_positions.
Proof.
  intros Hs. unfold buildWalls.
  destruct (createBoxes_settled (λ i, sf.mkVector2 (sofZ 0) (sofZ (64 * i))) (seqZ 0 12) w Hs)
    as (w1 & b1 & -> & Hs1 & Hw1 & Hl1).
  rewrite bind_Ok.
  destruct (createBoxes_settled (λ i, sf.mkVector2 (sofZ (64 * i)) (sofZ 704)) (seqZ 1 10)
              w1 Hs1) as (w2 & b2 & -> & Hs2 & Hw2 & Hl2).
  rewrite bind_Ok.
  destruct (createBoxes_settled (λ i, sf.mkVector2 (sofZ 704) (sofZ (64 * i))) (seqZ 0 12)
              w2 Hs2) as (w3 & b3 & -> & Hs3 & Hw3 & Hl3).
  exists w3, (b1 ++ b2 ++ b3). split; [done|]. split; [done|]. split.
  - apply (walled_trans _ w1); [done|]. by apply (walled_trans _ w2).
  - unfold wall_positions. by rewrite !fmap_app, Hl1, Hl2, Hl3.
Qed.

Lemma world_ok_new_World difficulty lastid n :
  world_ok (new_World (T := T) difficulty lastid n) = true.
Proof.
  apply world_ok_spec. cbn. repeat split; try done; [|apply NoDup_nil_2].
  by destruct difficulty.
Qed.

Lemma addPlayer_settled w :
  world_ok w = true → Forall (λ e, ready (heap w) e = true) (m_entities w) →
  m_eventQueue w = [] →
  ∃ w' player,
    addPlayer w = Ok w' ∧ settled w' = true
    ∧ m_entities w' = m_entities w ++ [player] ∧ m_player w' = Some player
    ∧ name_of (heap w') player = Some "Player"
    ∧ lifepoints_of (heap w') player = Some (to_int (LIFE_POINTS (constants w)))
    ∧ m_eventQueue w' = [] ∧ m_isRunning w' = m_isRunning w
    ∧ m_score w' = m_score w ∧ m_combo w' = m_combo w
    ∧ constants w' = constants w ∧ audio w' = audio w.
Proof.
  intros Hok Hr Hq.
  destruct (addPlayer_eq w) as (e & d & s & h & m & l & Hf & ->).
  match goal with |- context [Ok (spawned ?x _ _ ?y)] => set (w0 := x); set (cs := y) end.
  assert (world_ok w0 = true) as Hok0.
  { apply world_ok_spec in Hok as (He & _ & Hs & Hn & Ha). apply world_ok_spec.
    subst w0. cbn. rewrite Hq. by repeat split. }
  assert (NoDup cs.*1) as Hnd by apply Hf.
  assert (Forall (λ c, component_ok c = true) cs.*2) as Hall by (by repeat constructor).
  assert (lifts eq (heap w) (heap (spawned w0 e "Player" cs))) as Hk
    by (by apply (spawned_kept w0)).
  eexists _, e. split; [done|]. split.
  { apply settled_spec. split; [|split].
    - apply spawned_world_ok; [done|exact Hf|done|by eexists].
    - change (m_entities (spawned w0 e "Player" cs)) with (m_entities w ++ [e]).
      apply Forall_app. split.
      + eapply Forall_impl; [|exact Hr]. intros e' ?.
        apply (ready_steady (heap w)); [by apply kept_steady|done].
      + apply Forall_singleton.
        apply spawned_ready; [done|done|by eexists|]. intros _. split; by eexists.
    - unfold player_ready. change (m_player (spawned w0 e "Player" cs)) with (Some e).
      cbv iota beta. rewrite spawned_entity_ok; [|done|done|by eexists].
      unfold has. rewrite spawned_entity. done. }
  split; [done|]. split; [done|].
  split; [unfold name_of; by rewrite spawned_entity|].
  split; [|split; [exact Hq|by repeat split]].
  unfold lifepoints_of.
  rewrite (spawned_component w0 e "Player" cs "Life" l
             (LifeComponent (to_int (LIFE_POINTS (constants w))) true));
    [done|done|done|].
  subst cs. rewrite !elem_of_cons. tauto.
Qed.

Lemma World_init_settled difficulty lastid n :
  ∃ w player boxes,
    World_init (new_World (T := T) difficulty lastid n) = Ok w
    ∧ settled w = true
    ∧ m_player w = Some player
    ∧ m_entities w = player :: boxes.*1
    ∧ boxes.*2 = wall_positions
    ∧ Forall (λ b, box_at (heap w) b.1 b.2) boxes
    ∧ name_of (heap w) player = Some "Player"
    ∧ lifepoints_of (heap w) player
      = Some (to_int (LIFE_POINTS (constants_of (T := T) difficulty)))
    ∧ m_eventQueue w = [] ∧ m_isRunning w = true
    ∧ m_score w = 0 ∧ m_combo w = 0
    ∧ constants w = constants_of difficulty
    ∧ audio w = [play firstMusic].
Proof.
  unfold World_init.
  destruct (addPlayer_settled (call (play firstMusic) (new_World difficulty lastid n)))
    as (w1 & player & -> & Hs1 & He1 & Hp1 & Hn1 & Hlp1 & Hq1 & Hr1 & Hsc1 & Hco1 & Hk1
        & Ha1);
    [apply (world_ok_new_World difficulty lastid n)|done|done|].
  cbn in He1, Hlp1, Hr1, Hsc1, Hco1, Hk1, Ha1.
  rewrite bind_Ok.
  destruct (buildWalls_settled w1 Hs1)
    as (w2 & boxes & -> & Hs2 & (He2 & Hn2 & Hk2 & Hp2 & Hq2 & Hr2 & Hsc2 & Hco2 & Hc2 & Ha2)
        & Hpos).
  exists w2, player, boxes. split; [done|]. split; [done|]. split; [congruence|].
  split; [by rewrite He2, He1|]. split; [done|]. split; [done|].
  split; [by apply (name_of_kept (heap w1))|]. split.
  { unfold lifepoints_of in *.
    destruct (component_of (heap w1) player "Life") as [c|] eqn:Hc; [|done].
    by rewrite (component_of_kept _ _ _ _ _ Hk2 Hc). }
  repeat split; congruence.
Qed.

End Init.

(** ** No system but the animation system touches an animation *)

Section Films.
Context `{Scalar T} `{Platform}.
Implicit Types (σ : Store T) (c : Component T).

Lemma write_films σ p upd σ' :
  write σ p upd = Ok σ' →
  (∀ c c', deref σ p = Ok c → upd c = Some c' → film_kept c c') →
  lifts film_kept σ σ'.
Proof.
  intros (a & c & c' & -> & Hc & Hu & ->)%write_inv Hupd.
  apply (store_component_lifts _ _ _ c); [done|]. apply Hupd; [|done].
  unfold deref. by rewrite Hc.
Qed.

Lemma kill_films σ e σ' : kill σ e = Ok σ' → lifts film_kept σ σ'.
Proof.
  intros (a & lp & al & _ & Hc & ->)%kill_inv. by apply (store_component_lifts _ _ _ _ _ Hc).
Qed.

Lemma hurt_films σ e σ' : hurt σ e = Ok σ' → lifts film_kept σ σ'.
Proof.
  intros (a & lp & al & _ & Hc & ->)%hurt_inv. by apply (store_component_lifts _ _ _ _ _ Hc).
Qed.

Lemma mark_for_deletion_films σ e σ' :
  mark_for_deletion σ e = Ok σ' → lifts film_kept σ σ'.
Proof.
  intros (a & d & _ & Hc & ->)%mark_for_deletion_inv.
  by apply (store_component_lifts _ _ _ _ _ Hc).
Qed.

End Films.

(** The setters of the systems leave the animations alone. *)
Ltac setter_films :=
  let c := fresh "c" in
  let c' := fresh "c'" in
  let Hd := fresh "Hd" in
  let Hu := fresh "Hu" in
  intros c c' Hd Hu; destruct c; try done; try discriminate Hu.

(** From a run that succeeded to the heaps it went through. *)
Ltac films_inv H :=
  repeat match type of H with
         | (_ ≫= _) = Ok _ =>
             let a := fresh "r" in
             let Ha := fresh "Hr" in
             apply bind_Ok_inv in H as (a & Ha & H)
         | (let '(_, _) := ?p in _) = Ok _ => destruct p
         | (if ?b then _ else _) = Ok _ => destruct b
         | Fault _ = Ok _ => discriminate H
         | Ok _ = Ok _ => injection H as H; subst
         end.

Section Films_systems.
Context `{Scalar T} `{Platform}.
Implicit Types (σ : Store T) (c : Component T).

Lemma PhysicSystem_pair_films dt fst snd fstHitbox fstMovement σ σ'
    (m_collisions m_collisions' : CollisionRecord) :
  PhysicSystem_pair dt fst fstHitbox fstMovement (σ, m_collisions) snd
  = Ok (σ', m_collisions') →
  lifts film_kept σ σ'.
Proof.
  unfold PhysicSystem_pair. intros Hrun.
  destruct (bool_decide (fst = snd)); [injection Hrun as <- _; reflexivity|].
  apply bind_Ok_inv in Hrun as (sndHas & _ & Hrun).
  destruct (negb sndHas); [injection Hrun as <- _; reflexivity|].
  apply bind_Ok_inv in Hrun as (fstHas & _ & Hrun).
  destruct (negb fstHas); [injection Hrun as <- _; reflexivity|].
  apply bind_Ok_inv in Hrun as (sndHitbox & _ & Hrun).
  apply bind_Ok_inv in Hrun as ([fstBox fstBlocking] & _ & Hrun).
  apply bind_Ok_inv in Hrun as (velocity & _ & Hrun).
  apply bind_Ok_inv in Hrun as ([sndBox sndBlocking] & _ & Hrun).
  apply bind_Ok_inv in Hrun as ([velocity' hit] & _ & Hrun).
  apply bind_Ok_inv in Hrun as (σ1 & Hw & Hrun). injection Hrun as <- _.
  destruct (fstBlocking && sndBlocking); [|injection Hw as <-; reflexivity].
  apply (write_films _ _ _ _ Hw). setter_films.
Qed.

Lemma PhysicSystem_entity_films dt entities fst σ σ'
    (m_collisions m_collisions' : CollisionRecord) :
  PhysicSystem_entity dt entities (σ, m_collisions) fst = Ok (σ', m_collisions') →
  lifts film_kept σ σ'.
Proof.
  unfold PhysicSystem_entity. intros Hrun.
  apply bind_Ok_inv in Hrun as (hasHitbox & _ & Hrun).
  apply bind_Ok_inv in Hrun as (hasMovement & _ & Hrun).
  destruct (negb hasHitbox || negb hasMovement); [injection Hrun as <- _; reflexivity|].
  apply bind_Ok_inv in Hrun as (fstHitbox & _ & Hrun).
  apply bind_Ok_inv in Hrun as (fstMovement & _ & Hrun).
  apply bind_Ok_inv in Hrun as ([σ1 m_collisions1] & Hloop & Hrun).
  apply bind_Ok_inv in Hrun as ([box blocking] & _ & Hrun).
  apply bind_Ok_inv in Hrun as (velocity & _ & Hrun).
  apply bind_Ok_inv in Hrun as (σ2 & Hw & Hrun). injection Hrun as <- _.
  trans σ1.
  - apply (for_each_keeps _ (λ st, lifts film_kept σ st.1) _ _ _) in Hloop; [done| |done].
    intros [σa ma] snd [σb mb] _ Ha Hb. cbn in *.
    trans σa; [done|]. by apply PhysicSystem_pair_films in Hb.
  - apply (write_films _ _ _ _ Hw). setter_films.
Qed.

Lemma PhysicSystem_update_films elapsed entities σ σ' (m_collisions : CollisionRecord) :
  PhysicSystem_update elapsed entities σ = Ok (σ', m_collisions) → lifts film_kept σ σ'.
Proof.
  unfold PhysicSystem_update. intros Hrun.
  apply (for_each_keeps _ (λ st, lifts film_kept σ st.1) _ _ _) in Hrun; [done| |done].
  intros [σa ma] fst [σb mb] _ Ha Hb. cbn in *.
  trans σa; [done|]. by apply PhysicSystem_entity_films in Hb.
Qed.

Lemma SynchronizeSystem_entity_films σ e σ' :
  SynchronizeSystem_entity σ e = Ok σ' → lifts film_kept σ σ'.
Proof.
  unfold SynchronizeSystem_entity. intros Hrun.
  apply bind_Ok_inv in Hrun as (hasHitbox & _ & Hrun).
  apply bind_Ok_inv in Hrun as (hasSprite & _ & Hrun).
  destruct (negb hasHitbox || negb hasSprite); [injection Hrun as <-; reflexivity|].
  apply bind_Ok_inv in Hrun as (hitbox & _ & Hrun).
  apply bind_Ok_inv in Hrun as (sprite & _ & Hrun).
  apply bind_Ok_inv in Hrun as ([box blocking] & _ & Hrun).
  apply bind_Ok_inv in Hrun as (s & _ & Hrun).
  apply (write_films _ _ _ _ Hrun). setter_films.
Qed.

Lemma SynchronizeSystem_update_films entities σ σ' :
  SynchronizeSystem_update entities σ = Ok σ' → lifts film_kept σ σ'.
Proof.
  unfold SynchronizeSystem_update. intros Hrun.
  apply (for_each_keeps _ (λ σ1, lifts film_kept σ σ1) _ _ _) in Hrun; [done| |done].
  intros σa e σb _ Ha Hb. trans σa; [done|]. by apply SynchronizeSystem_entity_films in Hb.
Qed.

Lemma CollisionEffectsSystem_pair_films σ (q : list (Event T)) collision σ' q' :
  CollisionEffectsSystem_pair (σ, q) collision = Ok (σ', q') → lifts film_kept σ σ'.
Proof.
  unfold CollisionEffectsSystem_pair. intros Hrun.
  apply bind_Ok_inv in Hrun as (sakuraBall & _ & Hrun). destruct sakuraBall.
  { apply bind_Ok_inv in Hrun as (σ1 & H1%kill_films & Hrun).
    apply bind_Ok_inv in Hrun as (σ2 & H2%kill_films & Hrun).
    apply bind_Ok_inv in Hrun as (σ3 & H3%mark_for_deletion_films & Hrun).
    apply bind_Ok_inv in Hrun as (σ4 & H4%mark_for_deletion_films & Hrun).
    apply bind_Ok_inv in Hrun as (sprite & _ & Hrun).
    apply bind_Ok_inv in Hrun as (s & _ & Hrun). injection Hrun as <- _.
    trans σ1; [done|]. trans σ2; [done|]. by trans σ3. }
  apply bind_Ok_inv in Hrun as (ballBox & _ & Hrun). destruct ballBox.
  { apply bind_Ok_inv in Hrun as (σ1 & H1%kill_films & Hrun).
    apply bind_Ok_inv in Hrun as (σ2 & H2%mark_for_deletion_films & Hrun).
    injection Hrun as <- _. by trans σ1. }
  apply bind_Ok_inv in Hrun as (boxBall & _ & Hrun). destruct boxBall.
  { apply bind_Ok_inv in Hrun as (σ1 & H1%kill_films & Hrun).
    apply bind_Ok_inv in Hrun as (σ2 & H2%mark_for_deletion_films & Hrun).
    injection Hrun as <- _. by trans σ1. }
  apply bind_Ok_inv in Hrun as (ballPlayer & _ & Hrun). destruct ballPlayer.
  { apply bind_Ok_inv in Hrun as (σ1 & H1%kill_films & Hrun).
    apply bind_Ok_inv in Hrun as (σ2 & H2%mark_for_deletion_films & Hrun).
    apply bind_Ok_inv in Hrun as (σ3 & H3%hurt_films & Hrun).
    injection Hrun as <- _. trans σ1; [done|]. by trans σ2. }
  apply bind_Ok_inv in Hrun as (playerBall & _ & Hrun). destruct playerBall.
  { apply bind_Ok_inv in Hrun as (σ1 & H1%kill_films & Hrun).
    apply bind_Ok_inv in Hrun as (σ2 & H2%mark_for_deletion_films & Hrun).
    apply bind_Ok_inv in Hrun as (σ3 & H3%hurt_films & Hrun).
    injection Hrun as <- _. trans σ1; [done|]. by trans σ2. }
  injection Hrun as <- _. reflexivity.
Qed.

Lemma CollisionEffectsSystem_update_films m_collisions σ (q : list (Event T)) σ' q' :
  CollisionEffectsSystem_update m_collisions σ q = Ok (σ', q') → lifts film_kept σ σ'.
Proof.
  unfold CollisionEffectsSystem_update. intros Hrun.
  apply (for_each_keeps _ (λ st, lifts film_kept σ st.1) _ _ _) in Hrun; [done| |done].
  intros [σa qa] collision [σb qb] _ Ha Hb. cbn in *.
  trans σa; [done|]. by apply CollisionEffectsSystem_pair_films in Hb.
Qed.

Lemma LifeSystem_entity_films σ (q : list (Event T)) e σ' q' :
  LifeSystem_entity (σ, q) e = Ok (σ', q') → lifts film_kept σ σ'.
Proof.
  unfold LifeSystem_entity. intros Hrun.
  apply bind_Ok_inv in Hrun as (hasLife & _ & Hrun).
  destruct (negb hasLife); [injection Hrun as <- _; reflexivity|].
  apply bind_Ok_inv in Hrun as (life & _ & Hrun).
  apply bind_Ok_inv in Hrun as ([lifepoints alive] & _ & Hrun).
  destruct (lifepoints <=? 0); [|injection Hrun as <- _; reflexivity].
  apply bind_Ok_inv in Hrun as (σ1 & Hw & Hrun). injection Hrun as <- _.
  apply (write_films _ _ _ _ Hw). setter_films.
Qed.

Lemma LifeSystem_update_films entities σ (q : list (Event T)) σ' q' :
  LifeSystem_update entities σ q = Ok (σ', q') → lifts film_kept σ σ'.
Proof.
  unfold LifeSystem_update. intros Hrun.
  apply (for_each_keeps _ (λ st, lifts film_kept σ st.1) _ _ _) in Hrun; [done| |done].
  intros [σa qa] e [σb qb] _ Ha Hb. cbn in *.
  trans σa; [done|]. by apply LifeSystem_entity_films in Hb.
Qed.

Lemma ParticleWatcherSystem_entity_films elapsed σ e σ' :
  ParticleWatcherSystem_entity elapsed σ e = Ok σ' → lifts film_kept σ σ'.
Proof.
  unfold ParticleWatcherSystem_entity. intros Hrun.
  apply bind_Ok_inv in Hrun as (hasParticle & _ & Hrun).
  destruct (negb hasParticle); [injection Hrun as <-; reflexivity|].
  apply bind_Ok_inv in Hrun as (particles & _ & Hrun).
  apply bind_Ok_inv in Hrun as (c & Hc & Hrun).
  destruct c; try done.
  destruct (emitter_cap <=? _).
  - apply bind_Ok_inv in Hrun as (σ1 & Hw & Hrun%mark_for_deletion_films).
    trans σ1; [|done]. apply (write_films _ _ _ _ Hw).
    intros c c' Hd _. rewrite Hc in Hd. by injection Hd as <-.
  - apply bind_Ok_inv in Hrun as ([m_particles' m_vertices'] & _ & Hw).
    apply (write_films _ _ _ _ Hw).
    intros c c' Hd _. rewrite Hc in Hd. by injection Hd as <-.
Qed.

Lemma ParticleWatcherSystem_update_films elapsed entities σ σ' :
  ParticleWatcherSystem_update elapsed entities σ = Ok σ' → lifts film_kept σ σ'.
Proof.
  unfold ParticleWatcherSystem_update. intros Hrun.
  apply (for_each_keeps _ (λ σ1, lifts film_kept σ σ1) _ _ _) in Hrun; [done| |done].
  intros σa e σb _ Ha Hb. trans σa; [done|].
  by apply ParticleWatcherSystem_entity_films in Hb.
Qed.

End Films_systems.

(** ** A tick leaves the world in order *)

Section Tick_settled.
Context `{Scalar T} `{Platform} `{Environment T}.
Implicit Types (w : World T).

Lemma World_physics_inv dt w w' m_collisions :
  World_physics dt w = Ok (w', m_collisions) →
  ∃ σ', w' = with_heap σ' w ∧ lifts film_kept (heap w) σ'.
Proof.
  unfold World_physics. intros Hrun.
  apply bind_Ok_inv in Hrun as ([σ1 m1] & Hx1%PhysicSystem_update_films & Hrun).
  apply bind_Ok_inv in Hrun as (σ2 & Hx2%SynchronizeSystem_update_films & Hrun).
  injection Hrun as <- _. exists σ2. split; [done|]. by trans σ1.
Qed.

Lemma World_collisionEffects_inv m_collisions w w' :
  World_collisionEffects m_collisions w = Ok w' →
  ∃ σ' q, w' = with_eventQueue q (with_heap σ' w) ∧ lifts film_kept (heap w) σ'.
Proof.
  unfold World_collisionEffects. intros Hrun.
  apply bind_Ok_inv in Hrun as ([σ1 q1] & Hx1%CollisionEffectsSystem_update_films & Hrun).
  injection Hrun as <-. by exists σ1, q1.
Qed.

Lemma World_lifes_inv w w' :
  World_lifes w = Ok w' →
  ∃ σ' q, w' = with_eventQueue q (with_heap σ' w) ∧ lifts film_kept (heap w) σ'.
Proof.
  unfold World_lifes. intros Hrun.
  apply bind_Ok_inv in Hrun as ([σ1 q1] & Hx1%LifeSystem_update_films & Hrun).
  injection Hrun as <-. by exists σ1, q1.
Qed.

Lemma World_particles_inv dt w w' :
  World_particles dt w = Ok w' →
  ∃ σ', w' = with_heap σ' w ∧ lifts film_kept (heap w) σ'.
Proof.
  unfold World_particles. intros Hrun.
  apply bind_Ok_inv in Hrun as (σ1 & Hx1%ParticleWatcherSystem_update_films & Hrun).
  injection Hrun as <-. by exists σ1.
Qed.

Lemma on_PlayerHit_registry w w' :
  on_PlayerHit w = Ok w' →
  heap w' = heap w ∧ m_entities w' = m_entities w ∧ m_player w' = m_player w.
Proof.
  unfold on_PlayerHit. cbn [m_player call with_combo heap].
  destruct (m_player w) as [player|] eqn:Hp; [|done]. intros Hrun.
  apply bind_Ok_inv in Hrun as (life & _ & Hrun).
  apply bind_Ok_inv in Hrun as ([lp al] & _ & Hrun).
  destruct (lp <=? 0); by injection Hrun as <-.
Qed.

Lemma World_handleEvent_manned event w w' :
  manned w = true → World_handleEvent event w = Ok w' → manned w' = true.
Proof.
  intros Hm. unfold World_handleEvent.
  destruct (eventType event =? PlayerHit).
  { intros (Hh & He & Hp)%on_PlayerHit_registry.
    apply (manned_steady w); [done|by rewrite Hh|by rewrite He|done]. }
  destruct (eventType event =? ColoredBallShot); [|by intros [= <-]].
  unfold on_ColoredBallShot. destruct (eventData event) as [[color center|]|]; try done.
  destruct (createExplosion_spawned color center w)
    as (e & d & p & Hf & ->).
  rewrite bind_Ok.
  intros (Hh & Hp & _ & He & _)%update_score_and_combo_inv.
  match type of Hh with _ = heap ?x => set (w1 := x) in * end.
  assert (manned w1 = true) as Hm1.
  { apply spawned_manned; [exact Hm|exact Hf| |by eexists|by intros [?|[?|?]]].
    apply Forall_cons_2; [done|]. apply Forall_singleton.
    pose proof (explosion_particles_ok color center (rand_calls w)) as Hok.
    unfold well_named in Hok. apply andb_true_iff in Hok as [_ Hok].
    unfold component_ok. cbn [snd]. by rewrite Hok. }
  apply (manned_steady w1); [done|by rewrite Hh|by rewrite He|done].
Qed.

Lemma World_handleEvents_loop_manned turns : ∀ w w',
  manned w = true → World_handleEvents_loop turns w = Ok w' → manned w' = true.
Proof.
  induction turns as [|turns IH]; intros w w' Hm; cbn [World_handleEvents_loop].
  { by intros [= <-]. }
  unfold pollEvent. destruct (m_eventQueue w) as [|event rest]; [by intros [= <-]|].
  intros (w1 & Hx1 & Hrun)%bind_Ok_inv. apply (IH w1); [|done].
  by apply (World_handleEvent_manned event (with_eventQueue rest w)).
Qed.

Lemma World_checkAffinityChange_manned w :
  manned w = true → manned (World_checkAffinityChange w) = true.
Proof. unfold World_checkAffinityChange. by destruct (_ <? _). Qed.

Lemma World_update_systems_settled dt w :
  sdivisor (sf.asSeconds (T := T) dt) = true → settled w = true →
  ∃ w', World_update_systems dt w = Ok w' ∧ settled w' = true.
Proof.
  intros Hdt (Hok & Hm)%settled_manned. unfold World_update_systems.
  pose proof Hm as [Hr Hp]%manned_spec.
  (* the physics *)
  destruct (World_physics_spec dt w Hdt Hok)
    as (w1 & m_collisions & Hrun1 & Hok1 & Hg1 & He1 & Hrec).
  rewrite Hrun1, bind_Ok.
  apply World_physics_inv in Hrun1 as (σ1 & -> & Hf1).
  assert (steady (heap w) σ1) as Hs1 by (split; [apply Hg1|done]).
  assert (manned (with_heap σ1 w) = true) as Hm1 by (by apply (manned_steady w)).
  (* the collision effects *)
  destruct (World_collisionEffects_spec m_collisions (with_heap σ1 w) Hok1)
    as (w2 & Hrun2 & Hok2 & Hg2 & He2).
  { apply player_ready_event. by apply manned_spec in Hm1 as [_ ?]. }
  { eapply Forall_impl; [|exact Hrec]. intros [e1 e2] [Hin1 Hin2]. cbn in *.
    split.
    - apply (proj1 (list.Forall_forall _ _) Hr) in Hin1.
      by apply (ready_steady _ σ1), ready_inv in Hin1 as [? _].
    - apply (proj1 (list.Forall_forall _ _) Hr) in Hin2.
      by apply (ready_steady _ σ1), ready_inv in Hin2 as [? _]. }
  rewrite Hrun2, bind_Ok.
  apply World_collisionEffects_inv in Hrun2 as (σ2 & q2 & -> & Hf2).
  assert (manned (with_eventQueue q2 (with_heap σ2 (with_heap σ1 w))) = true) as Hm2.
  { apply (manned_steady (with_heap σ1 w)); [done| |done|done]. split; [apply Hg2|done]. }
  (* the lives, the events, the affinity, the particles *)
  unfold World_after_collisionEffects.
  destruct (World_lifes_spec _ Hok2) as (w3 & Hrun3 & Hok3 & Hg3).
  rewrite Hrun3, bind_Ok.
  apply World_lifes_inv in Hrun3 as (σ3 & q3 & -> & Hf3).
  match goal with |- context [World_handleEvents ?x] => set (w3 := x) in * end.
  assert (manned w3 = true) as Hm3.
  { apply (manned_steady _ _ Hm2); [|done|done]. split; [apply Hg3|done]. }
  destruct (World_handleEvents_spec w3 Hok3) as (w4 & Hrun4 & Hok4 & Hg4 & Hq4).
  rewrite Hrun4, bind_Ok.
  apply World_handleEvents_loop_manned in Hrun4; [|done].
  destruct (same_registry_ok _ _ Hok4 (World_checkAffinityChange_spec w4)) as [Hok5 Hg5].
  pose proof (World_checkAffinityChange_manned w4 Hrun4) as Hm5.
  destruct (World_particles_spec dt _ Hok5) as (w6 & Hrun6 & Hok6 & Hg6).
  rewrite Hrun6, bind_Ok.
  apply World_particles_inv in Hrun6 as (σ6 & -> & Hf6).
  match goal with |- context [cleanEntities ?x] => set (w6 := x) in * end.
  assert (manned w6 = true) as Hm6.
  { apply (manned_steady _ _ Hm5); [|done|done]. split; [apply Hg6|done]. }
  (* the sweep *)
  destruct (cleanEntities_spec w6 Hok6) as (w7 & Hrun7 & Hh7 & He7 & _).
  destruct (cleanEntities_ok w6 Hok6) as (w7' & Hrun7' & Hok7).
  rewrite Hrun7 in Hrun7'. injection Hrun7' as <-.
  exists w7. split; [done|]. apply settled_manned. split; [done|].
  apply (manned_steady w6); [done|by rewrite Hh7| |].
  - rewrite He7. intros e Hin. by apply list_elem_of_filter in Hin as [_ ?].
  - unfold cleanEntities in Hrun7. apply bind_Ok_inv in Hrun7 as ([es cs] & _ & Hrun7).
    by injection Hrun7 as <-.
Qed.

End Tick_settled.

(** ** The rendering *)

Section Render.
Context `{Scalar T} `{Platform} `{Environment T} `{Assets}.
Implicit Types (σ : Store T) (w : World T) (drawn : list (Draw T)).

Lemma ParticleRenderSystem_entity_spec σ drawn e :
  entity_ok σ e = true →
  ∃ drawn', ParticleRenderSystem_entity σ drawn e = Ok drawn'
            ∧ filter (λ d, is_heart d = true) drawn' = filter (λ d, is_heart d = true) drawn.
Proof.
  intros Hok. destruct (entity_ok_inv _ _ Hok) as (ent & He & Hall & _).
  unfold ParticleRenderSystem_entity. rewrite (hasComponent_has _ _ _ _ He), bind_Ok.
  destruct (has σ e "Particle") eqn:Hhas; cbn [negb]; [|by exists drawn].
  unfold has in Hhas. rewrite He in Hhas. apply bool_decide_eq_true in Hhas as [a Ha].
  destruct (Hall _ _ Ha) as (c & Hc & (? & ? & ? & ? & ? & -> & _)%well_named_Particle).
  rewrite (getComponent_Some _ _ _ _ _ _ ParticleCap He Ha Hc) by done.
  rewrite bind_Ok. unfold deref. rewrite Hc, bind_Ok. eexists. split; [done|].
  by rewrite list.filter_app, list.filter_cons_False, list.filter_nil, app_nil_r by done.
Qed.

Lemma SpriteRenderSystem_entity_spec σ drawn e :
  entity_ok σ e = true →
  ∃ drawn', SpriteRenderSystem_entity σ drawn e = Ok drawn'
            ∧ filter (λ d, is_heart d = true) drawn' = filter (λ d, is_heart d = true) drawn.
Proof.
  intros Hok. destruct (entity_ok_inv _ _ Hok) as (ent & He & Hall & _).
  unfold SpriteRenderSystem_entity. rewrite (hasComponent_has _ _ _ _ He), bind_Ok.
  destruct (has σ e "Sprite") eqn:Hhas; cbn [negb]; [|by exists drawn].
  destruct (read_sprite_spec σ e Hok Hhas) as (a & s & Hg & Hr & _).
  rewrite Hg, bind_Ok, Hr, bind_Ok.
  destruct (sf.intersects _ _); [|by exists drawn]. eexists. split; [done|].
  by rewrite list.filter_app, list.filter_cons_False, list.filter_nil, app_nil_r by done.
Qed.

Lemma render_loop_spec (body : list (Draw T) → EntityPtr → result (list (Draw T))) σ
    entities :
  (∀ drawn e, entity_ok σ e = true →
     ∃ drawn', body drawn e = Ok drawn'
               ∧ filter (λ d, is_heart d = true) drawn'
                 = filter (λ d, is_heart d = true) drawn) →
  Forall (λ e, entity_ok σ e = true) entities →
  ∀ drawn,
    ∃ drawn', for_each body drawn entities = Ok drawn'
              ∧ filter (λ d, is_heart d = true) drawn'
                = filter (λ d, is_heart d = true) drawn.
Proof.
  intros Hbody. induction entities as [|e entities IH]; intros Hall drawn.
  { by exists drawn. }
  apply Forall_cons_1 in Hall as [Hok Hall]. rewrite for_each_cons.
  destruct (Hbody drawn e Hok) as (drawn1 & -> & Hf1). rewrite bind_Ok.
  destruct (IH Hall drawn1) as (drawn' & -> & Hf'). exists drawn'. split; [done|].
  by rewrite Hf'.
Qed.

Lemma renderPlayerLife_spec w drawn player lp :
  m_player w = Some player → entity_ok (heap w) player = true →
  lifepoints_of (heap w) player = Some lp →
  renderPlayerLife w drawn = Ok (drawn ++ (heart <$> seqZ 0 lp)).
Proof.
  intros Hp Hok Hlp. unfold renderPlayerLife. rewrite Hp.
  apply lifepoints_of_slot in Hlp as (a & al & Hs & Hc).
  destruct (entity_ok_inv _ _ Hok) as (ent & He & _).
  unfold slot in Hs. rewrite He in Hs. cbn in Hs.
  rewrite (getComponent_Some _ _ _ _ _ _ LifeCap He Hs Hc) by done.
  rewrite bind_Ok. unfold read_life, deref. by rewrite Hc, !bind_Ok.
Qed.

Lemma filter_hearts (l : list Z) :
  filter (λ d, is_heart d = true) (heart (T := T) <$> l) = heart <$> l.
Proof.
  induction l as [|i l IH]; [done|]. cbn [fmap list_fmap].
  rewrite list.filter_cons_True by done. by rewrite <- IH at 2.
Qed.

Lemma World_render_spec w player lp :
  settled w = true → m_player w = Some player →
  lifepoints_of (heap w) player = Some lp →
  ∃ drawn, World_render w = Ok drawn
           ∧ filter (λ d, is_heart d = true) drawn = heart <$> seqZ 0 lp.
Proof.
  intros (Hok & _ & Hpr)%settled_spec Hp Hlp.
  pose proof Hok as (He & _ & Hs & _)%world_ok_spec.
  destruct (player_ready_inv _ Hpr) as (player' & Hp' & Hokp & _).
  rewrite Hp in Hp'. injection Hp' as <-.
  unfold World_render, ParticleRenderSystem_update, SpriteRenderSystem_update.
  destruct (render_loop_spec (ParticleRenderSystem_entity (heap w)) (heap w) (m_entities w)
              (ParticleRenderSystem_entity_spec (heap w)) He []) as (d1 & -> & Hf1).
  rewrite bind_Ok.
  destruct (render_loop_spec (SpriteRenderSystem_entity (heap w)) (heap w) (m_entities w)
              (SpriteRenderSystem_entity_spec (heap w)) He d1) as (d2 & -> & Hf2).
  rewrite bind_Ok, (renderPlayerLife_spec w d2 player lp Hp Hokp Hlp), bind_Ok.
  assert (∃ b, sugoi_shown w = Ok b) as [b ->].
  { unfold sugoi_shown. destruct (above_COMBO_MIN w); [|by eexists].
    rewrite (proj2 (Z.eqb_neq _ _) Hs). by eexists. }
  rewrite bind_Ok. eexists. split; [done|].
  assert (filter (λ d, is_heart d = true) d2 = []) as Hd2 by (by rewrite Hf2, Hf1).
  destruct b; rewrite !list.filter_app, Hd2, filter_hearts, !list.filter_cons_False by done;
    by rewrite !list.filter_nil, !app_nil_r.
Qed.

Lemma World_render_settled w :
  settled w = true → ∃ drawn, World_render w = Ok drawn.
Proof.
  intros Hs. pose proof Hs as (_ & _ & Hpr)%settled_spec.
  destruct (player_ready_inv _ Hpr) as (player & Hp & Hok & HL & _).
  destruct (entity_ok_life _ _ Hok HL) as (ent & a & lp & al & He & Ha & Hc).
  destruct (World_render_spec w player lp Hs Hp) as (drawn & ? & _); [|by exists drawn].
  unfold lifepoints_of, component_of. rewrite He. cbn. rewrite Ha. cbn. by rewrite Hc.
Qed.

End Render.

(** ** The whole of [World::update], and the game loop *)

Section Update_settled.
Context `{Scalar T} `{Platform} `{Environment T} `{Assets}.
Implicit Types (w : World T) (g : Game T).

Lemma World_animations_settled dt w :
  settled w = true → ∃ w', World_animations dt w = Ok w' ∧ settled w' = true.
Proof.
  intros Hs. pose proof Hs as (_ & Hr & _)%settled_spec. unfold World_animations.
  destruct (AnimationSystem_update_spec dt (m_entities w) (heap w) Hr) as (σ' & -> & Hst).
  rewrite bind_Ok. eexists. split; [done|]. by apply (settled_steady w).
Qed.

(** Writing the velocity of the player. *)
Lemma set_player_velocity w a v upd :
  settled w = true →
  component_mem (heap w) !! a = Some (MovementComponent v) →
  (∀ v, ∃ v', upd (MovementComponent v) = Some (MovementComponent v')) →
  ∃ v', write (heap w) (Some a) upd
        = Ok (store_component a (MovementComponent v') (heap w))
        ∧ settled (with_heap (store_component a (MovementComponent v') (heap w)) w) = true.
Proof.
  intros Hs Hc Hupd. destruct (Hupd v) as [v' Hv]. exists v'.
  split; [by erewrite write_Ok|].
  apply (settled_steady w); try done. cbn.
  by apply (store_component_steady _ _ (MovementComponent v)).
Qed.

(** [World::update] from the reading of the keyboard to the creation of
    a ball. *)
Lemma World_input_spec input g player :
  settled (world g) = true → m_player (world g) = Some player →
  let k := constants (world g) in
  let shoot :=
    key_Space input
    && (sf.milliseconds (to_int (SHOOT_INTERVAL k)) <? m_lastSakuraShoot g) in
  let spawn := sf.milliseconds (to_int (BALLS_INTERVAL k)) <? m_lastBallSpawn g in
  ∃ g',
    World_input input g = Ok g' ∧ settled (world g') = true
    ∧ component_of (heap (world g')) player "Movement"
      = Some (MovementComponent
                (sf.mkVector2
                   (if key_Q input then sneg (PLAYER_SPEED k)
                    else if key_D input then PLAYER_SPEED k else sofZ 0)
                   (sofZ 0)))
    ∧ m_lastSakuraShoot g' = (if shoot then sf.Time_Zero else m_lastSakuraShoot g)
    ∧ m_lastBallSpawn g' = (if spawn then sf.Time_Zero else m_lastBallSpawn g)
    ∧ m_lastMusic g' = m_lastMusic g
    ∧ length (m_entities (world g'))
      = (length (m_entities (world g))
         + (if shoot then 1 else 0) + (if spawn then 1 else 0))%nat.
Proof.
  intros Hs Hpl k shoot spawn. pose proof Hs as (_ & _ & Hp)%settled_spec.
  destruct (player_ready_inv _ Hp) as (player' & Hpl' & Hok & HL & HM & HH).
  rewrite Hpl in Hpl'. injection Hpl' as <-.
  unfold World_input. rewrite Hpl.
  destruct (entity_ok_movement _ _ Hok HM) as (ent & a & v & He & Ha & Hc).
  rewrite (getComponent_Some _ _ _ _ _ _ MovementCap He Ha Hc) by done.
  rewrite bind_Ok.
  assert (slot (heap (world g)) player "Movement" = Some a) as Hslot.
  { unfold slot. by rewrite He. }
  (* the velocity is reset *)
  destruct (set_player_velocity (world g) a v
              (set_velocity (sf.mkVector2 (sofZ 0) (sofZ 0))) Hs Hc)
    as (v1 & Hw1 & Hs1); [by eexists|].
  rewrite Hw1, !bind_Ok.
  apply write_inv in Hw1 as (? & ? & ? & [= <-] & Hc' & Hu & Heq).
  rewrite Hc in Hc'. injection Hc' as <-. cbn in Hu. injection Hu as Hu.
  assert (v1 = sf.mkVector2 (sofZ 0) (sofZ 0)) as ->.
  { apply (f_equal (λ σ, component_mem σ !! a)) in Heq. cbn in Heq.
    rewrite !lookup_insert_eq in Heq. congruence. }
  clear Hu Heq.
  match type of Hs1 with settled ?x = true => set (w1 := x) in * end.
  assert (component_mem (heap w1) !! a
          = Some (MovementComponent (sf.mkVector2 (sofZ 0) (sofZ 0)))) as Hc1
    by apply lookup_insert_eq.
  assert (slot (heap w1) player "Movement" = Some a) as Hslot1 by done.
  (* a projectile *)
  assert (∃ w2,
            (if key_Space input
                && (sf.milliseconds (to_int (SHOOT_INTERVAL (constants w1)))
                    <? m_lastSakuraShoot g)
             then
               hitbox ← getComponent (heap w1) player HitboxCap "Hitbox";
               '(box, _) ← read_hitbox (heap w1) hitbox;
               w ← shootSakura (muzzle box) w1;
               Ok (w, sf.Time_Zero)
             else Ok (w1, m_lastSakuraShoot g))
            = Ok (w2, if shoot then sf.Time_Zero else m_lastSakuraShoot g)
            ∧ settled w2 = true
            ∧ lifts eq (heap w1) (heap w2)
            ∧ constants w2 = k
            ∧ length (m_entities w2)
              = (length (m_entities (world g)) + (if shoot then 1 else 0))%nat)
    as (w2 & -> & Hs2 & Hk2 & Hcon2 & Hlen2).
  { change (constants w1) with k. fold shoot. destruct shoot.
    2:{ exists w1. split; [done|]. split; [done|]. split; [apply kept_refl|].
        split; [done|]. cbn. lia. }
    pose proof Hs1 as (_ & _ & Hp1)%settled_spec.
    destruct (player_ready_inv _ Hp1) as (player' & Hpl' & Hok1 & _ & _ & HH1).
    change (m_player w1) with (m_player (world g)) in Hpl'.
    rewrite Hpl in Hpl'. injection Hpl' as <-.
    destruct (entity_ok_hitbox _ _ Hok1 HH1) as (ent1 & h & box & blocking & He1 & Hh & Hch).
    rewrite (getComponent_Some _ _ _ _ _ _ HitboxCap He1 Hh Hch) by done.
    rewrite bind_Ok. unfold read_hitbox, deref. rewrite Hch, !bind_Ok.
    destruct (shootSakura_settled (muzzle box) w1 Hs1)
      as (w2 & e & -> & Hs2 & Hk & He2 & Hpl2 & Hcon2).
    rewrite bind_Ok. exists w2. split; [done|]. split; [done|]. split; [done|].
    split; [done|]. rewrite He2, length_app. cbn. lia. }
  rewrite bind_Ok.
  assert (component_mem (heap w2) !! a
          = Some (MovementComponent (sf.mkVector2 (sofZ 0) (sofZ 0)))) as Hc2.
  { by destruct (proj2 Hk2 _ _ Hc1) as (? & ? & <-). }
  assert (slot (heap w2) player "Movement" = Some a) as Hslot2
    by (by apply (slot_lifts eq (heap w1))).
  (* to the left or to the right *)
  set (vx := if key_Q input then sneg (PLAYER_SPEED k)
             else if key_D input then PLAYER_SPEED k else sofZ 0).
  assert (∃ w3,
            (if key_Q input then
               σ ← write (heap w2) (Some a)
                     (set_velocity_x (sneg (PLAYER_SPEED (constants w2))));
               Ok (with_heap σ w2)
             else if key_D input then
               σ ← write (heap w2) (Some a) (set_velocity_x (PLAYER_SPEED (constants w2)));
               Ok (with_heap σ w2)
             else Ok w2) = Ok w3
            ∧ settled w3 = true
            ∧ component_mem (heap w3) !! a
              = Some (MovementComponent (sf.mkVector2 vx (sofZ 0)))
            ∧ slot (heap w3) player "Movement" = Some a
            ∧ constants w3 = k
            ∧ m_entities w3 = m_entities w2)
    as (w3 & -> & Hs3 & Hc3 & Hslot3 & Hcon3 & He3).
  { rewrite Hcon2. subst vx.
    destruct (key_Q input); [|destruct (key_D input); [|by exists w2]].
    - erewrite write_Ok; [|reflexivity|exact Hc2|reflexivity]. rewrite bind_Ok.
      eexists. split; [done|]. split.
      { apply (settled_steady w2); try done. cbn.
        by apply (store_component_steady _ _ _ _ Hc2). }
      split; [apply lookup_insert_eq|done].
    - erewrite write_Ok; [|reflexivity|exact Hc2|reflexivity]. rewrite bind_Ok.
      eexists. split; [done|]. split.
      { apply (settled_steady w2); try done. cbn.
        by apply (store_component_steady _ _ _ _ Hc2). }
      split; [apply lookup_insert_eq|done]. }
  rewrite bind_Ok.
  (* a ball *)
  rewrite Hcon3. fold spawn. destruct spawn.
  - destruct (createBall_settled w3 Hs3) as (w4 & e & -> & Hs4 & Hk4 & He4 & _ & _).
    rewrite !bind_Ok. eexists. split; [done|]. cbn [world m_lastSakuraShoot m_lastBallSpawn
      m_lastMusic]. split; [done|]. split.
    { rewrite component_of_slot, (slot_lifts eq (heap w3) _ _ _ _ Hk4 Hslot3). cbn.
      by destruct (proj2 Hk4 _ _ Hc3) as (? & ? & <-). }
    repeat split; try done. rewrite He4, length_app, He3, Hlen2. cbn. lia.
  - rewrite bind_Ok. eexists. split; [done|]. cbn [world m_lastSakuraShoot m_lastBallSpawn
      m_lastMusic]. split; [done|]. split.
    { by rewrite component_of_slot, Hslot3. }
    repeat split; try done. rewrite He3, Hlen2. lia.
Qed.

Lemma World_input_settled input g :
  settled (world g) = true →
  ∃ g', World_input input g = Ok g' ∧ settled (world g') = true.
Proof.
  intros Hs. pose proof Hs as (_ & _ & Hp)%settled_spec.
  destruct (player_ready_inv _ Hp) as (player & Hpl & _).
  destruct (World_input_spec input g player Hs Hpl) as (g' & ? & ? & _). by exists g'.
Qed.

Lemma World_update_settled input dt g :
  (∀ x : T, sdivisor x = true) → settled (world g) = true →
  ∃ g', World_update input dt g = Ok g' ∧ settled (world g') = true.
Proof.
  intros Hdiv Hs. unfold World_update.
  assert (settled (world (World_timers (clamp_dt dt) (updatePlaylist input g))) = true)
    as Hs0.
  { unfold updatePlaylist.
    destruct (_ && (m_lastMusic g =? 0)); [exact Hs|].
    destruct (_ && (m_lastMusic g =? 1)); exact Hs. }
  destruct (World_input_settled input _ Hs0) as (g1 & -> & Hs1). rewrite bind_Ok.
  destruct (World_animations_settled (clamp_dt dt) _ Hs1) as (w2 & -> & Hs2).
  rewrite bind_Ok.
  destruct (World_update_systems_settled (clamp_dt dt) w2 (Hdiv _) Hs2) as (w3 & -> & Hs3).
  rewrite bind_Ok. by eexists.
Qed.

Lemma run_settled frames : ∀ g shown,
  (∀ x : T, sdivisor x = true) → settled (world g) = true →
  ∃ g' more,
    run frames g shown = Ok (g', shown ++ more)
    ∧ settled (world g') = true
    ∧ (length more ≤ length frames)%nat
    ∧ (m_isRunning (world g') = true → length more = length frames).
Proof.
  induction frames as [|[input dt] frames IH]; intros g shown Hdiv Hs.
  { exists g, []. rewrite app_nil_r. by repeat split. }
  cbn [run]. destruct (World_update_settled input dt g Hdiv Hs) as (g1 & -> & Hs1).
  rewrite bind_Ok. destruct (World_render_settled (world g1) Hs1) as (drawn & ->).
  rewrite bind_Ok. destruct (m_isRunning (world g1)) eqn:Hrun.
  - destruct (IH g1 (shown ++ [drawn]) Hdiv Hs1) as (g' & more & -> & Hs' & Hle & Hall).
    exists g', (drawn :: more). rewrite <- app_assoc. split; [done|]. split; [done|].
    cbn. split; [lia|]. intros Hr. by rewrite Hall.
  - exists g1, [drawn]. split; [done|]. split; [done|]. cbn. split; [lia|]. congruence.
Qed.

Lemma new_Game_settled difficulty lastid n :
  ∃ g, new_Game (T := T) difficulty lastid n = Ok g ∧ settled (world g) = true.
Proof.
  unfold new_Game.
  destruct (World_init_settled difficulty lastid n) as (w & player & boxes & -> & Hs & _).
  rewrite bind_Ok. by eexists.
Qed.

End Update_settled.

(** ** The destructor *)

Section Destructor.
Context `{Scalar T} `{Platform} `{Environment T} `{Assets}.
Implicit Types (σ : Store T) (w : World T).

Lemma delete_entity_Ok σ e ent :
  entity_mem σ !! e = Some ent →
  delete_entity σ e = Ok (mkStore (delete e (entity_mem σ)) (component_mem σ)).
Proof. intros He. unfold delete_entity. by rewrite He. Qed.

Lemma delete_component_Ok σ a c :
  component_mem σ !! a = Some c →
  delete_component σ a = Ok (mkStore (entity_mem σ) (delete a (component_mem σ))).
Proof. intros Ha. unfold delete_component. by rewrite Ha. Qed.

Lemma delete_entities_spec l : ∀ σ,
  NoDup l → Forall (λ e, is_Some (entity_mem σ !! e)) l →
  ∃ σ', for_each delete_entity σ l = Ok σ'
        ∧ component_mem σ' = component_mem σ
        ∧ ∀ e, entity_mem σ' !! e
               = if bool_decide (e ∈ l) then None else entity_mem σ !! e.
Proof.
  induction l as [|e0 l IH]; intros σ Hn Hall.
  { exists σ. split; [done|]. split; [done|]. intros e.
    by rewrite bool_decide_eq_false_2 by apply not_elem_of_nil. }
  apply list.NoDup_cons in Hn as [Hnin Hn]. apply Forall_cons_1 in Hall as [[ent He0] Hall].
  rewrite for_each_cons, (delete_entity_Ok _ _ _ He0), bind_Ok.
  destruct (IH (mkStore (delete e0 (entity_mem σ)) (component_mem σ)) Hn)
    as (σ' & -> & Hc & He).
  { apply list.Forall_forall. intros e Hin. cbn.
    rewrite lookup_delete_ne by (intros ->; done).
    by apply (proj1 (list.Forall_forall _ _) Hall). }
  exists σ'. split; [done|]. split; [done|]. intros e. rewrite He. cbn.
  destruct (decide (e = e0)) as [->|Hne].
  - rewrite lookup_delete_eq, (bool_decide_eq_true_2 (e0 ∈ e0 :: l)) by left.
    by destruct (bool_decide (e0 ∈ l)).
  - rewrite lookup_delete_ne by done.
    destruct (bool_decide (e ∈ l)) eqn:Hin.
    + apply bool_decide_eq_true in Hin.
      by rewrite (bool_decide_eq_true_2 (e ∈ e0 :: l)) by (by right).
    + apply bool_decide_eq_false in Hin. rewrite bool_decide_eq_false_2; [done|].
      rewrite elem_of_cons. tauto.
Qed.

Lemma delete_components_spec l : ∀ σ,
  NoDup l → Forall (λ a, is_Some (component_mem σ !! a)) l →
  ∃ σ', for_each delete_component σ l = Ok σ'
        ∧ entity_mem σ' = entity_mem σ
        ∧ ∀ a, component_mem σ' !! a
               = if bool_decide (a ∈ l) then None else component_mem σ !! a.
Proof.
  induction l as [|a0 l IH]; intros σ Hn Hall.
  { exists σ. split; [done|]. split; [done|]. intros a.
    by rewrite bool_decide_eq_false_2 by apply not_elem_of_nil. }
  apply list.NoDup_cons in Hn as [Hnin Hn]. apply Forall_cons_1 in Hall as [[c Ha0] Hall].
  rewrite for_each_cons, (delete_component_Ok _ _ _ Ha0), bind_Ok.
  destruct (IH (mkStore (entity_mem σ) (delete a0 (component_mem σ))) Hn)
    as (σ' & -> & He & Hc).
  { apply list.Forall_forall. intros a Hin. cbn.
    rewrite lookup_delete_ne by (intros ->; done).
    by apply (proj1 (list.Forall_forall _ _) Hall). }
  exists σ'. split; [done|]. split; [done|]. intros a. rewrite Hc. cbn.
  destruct (decide (a = a0)) as [->|Hne].
  - rewrite lookup_delete_eq, (bool_decide_eq_true_2 (a0 ∈ a0 :: l)) by left.
    by destruct (bool_decide (a0 ∈ l)).
  - rewrite lookup_delete_ne by done.
    destruct (bool_decide (a ∈ l)) eqn:Hin.
    + apply bool_decide_eq_true in Hin.
      by rewrite (bool_decide_eq_true_2 (a ∈ a0 :: l)) by (by right).
    + apply bool_decide_eq_false in Hin. rewrite bool_decide_eq_false_2; [done|].
      rewrite elem_of_cons. tauto.
Qed.

Lemma World_destructor_spec w :
  world_ok w = true → NoDup (m_entities w) →
  ∃ σ', World_destructor w = Ok σ'
        ∧ (∀ e, entity_mem σ' !! e
                = if bool_decide (e ∈ m_entities w) then None
                  else entity_mem (heap w) !! e)
        ∧ (∀ a, component_mem σ' !! a
                = if bool_decide (a ∈ m_components w) then None
                  else component_mem (heap w) !! a).
Proof.
  intros (He & _ & _ & Hn & Ha)%world_ok_spec Hne. unfold World_destructor.
  destruct (delete_entities_spec (m_entities w) (heap w) Hne) as (σ1 & -> & Hc1 & He1).
  { eapply Forall_impl; [|exact He]. intros e (ent & ? & _)%entity_ok_inv. by exists ent. }
  rewrite bind_Ok.
  destruct (delete_components_spec (m_components w) σ1 Hn) as (σ2 & -> & He2 & Hc2).
  { by rewrite Hc1. }
  exists σ2. split; [done|]. split.
  - intros e. by rewrite He2, He1.
  - intros a. by rewrite Hc2, Hc1.
Qed.

End Destructor.

(** ** The synchronisation *)

Section Synchronize_facts.
Context `{Scalar T}.

Lemma SynchronizeSystem_entity_eq (σ : Store T) e ent hitbox sprite box blocking s :
  entity_mem σ !! e = Some ent →
  m_components_of ent !! "Hitbox" = Some hitbox →
  m_components_of ent !! "Sprite" = Some sprite →
  component_mem σ !! hitbox = Some (HitboxComponent box blocking) →
  component_mem σ !! sprite = Some (SpriteComponent s) →
  SynchronizeSystem_entity σ e
  = Ok (store_component sprite
          (SpriteComponent (sf.setPosition (sf.left box) (sf.top box) s)) σ).
Proof.
  intros He Hh Hs Hch Hcs. unfold SynchronizeSystem_entity.
  rewrite !(hasComponent_has _ _ _ _ He), !bind_Ok. unfold has. rewrite He.
  rewrite !bool_decide_eq_true_2 by eauto. cbn [negb orb].
  rewrite (getComponent_Some _ _ _ _ _ _ HitboxCap He Hh Hch) by done.
  rewrite bind_Ok.
  rewrite (getComponent_Some _ _ _ _ _ _ SpriteCap He Hs Hcs) by done.
  rewrite bind_Ok. unfold read_hitbox, read_sprite, deref. rewrite Hch, Hcs, !bind_Ok.
  by erewrite write_Ok.
Qed.

End Synchronize_facts.

(** ** The time step, in exact arithmetic *)

Lemma exact_asSeconds (dt : sf.Time) :
  (this (sf.asSeconds (T := Qc) dt) == dt # 1000000)%Q.
Proof.
  cbn. unfold Q2Qc. cbn [this]. rewrite !Qred_correct.
  unfold Qeq, Qmult, Qinv, inject_Z. cbn. lia.
Qed.

Lemma exact_clamp_dt (dt : sf.Time) :
  clamp_dt (T := Qc) dt = Z.min dt 500000.
Proof.
  unfold clamp_dt.
  change (seconds (sdiv (sofZ 1) (sofZ 2) : Qc)) with 500000.
  unfold sgtb. cbn [sltb exact_scalar]. pose proof (exact_asSeconds dt) as Hq.
  assert (this (sdiv (sofZ 1) (sofZ 2) : Qc) = 1 # 2) as Hhalf by reflexivity.
  case_bool_decide as Hlt.
  - unfold Qclt in Hlt. rewrite Hq, Hhalf in Hlt. unfold Qlt in Hlt. cbn in Hlt. lia.
  - assert (¬ (1 # 2 < dt # 1000000)%Q) as Hge.
    { intros Hlt'. apply Hlt. unfold Qclt. by rewrite Hq, Hhalf. }
    unfold Qlt in Hge. cbn in Hge. lia.
Qed.

(** ** The events of a tick *)

Section Events_count.
Context `{Scalar T} `{Platform} `{Environment T}.
Implicit Types (w : World T).

Lemma World_handleEvent_explosions event w w' :
  World_handleEvent event w = Ok w' →
  lifts eq (heap w) (heap w')
  ∧ ∃ new, m_entities w' = m_entities w ++ new
           ∧ length new = (if is_ColoredBallShot event then 1 else 0)%nat
           ∧ Forall (λ e, entity_mem (heap w) !! e = None
                          ∧ name_of (heap w') e = Some "Explosion") new.
Proof.
  unfold World_handleEvent, is_ColoredBallShot.
  destruct (eventType event =? PlayerHit) eqn:Hhit.
  { apply Z.eqb_eq in Hhit. rewrite Hhit.
    intros (-> & -> & _)%on_PlayerHit_registry. split; [apply kept_refl|].
    exists []. by rewrite app_nil_r. }
  destruct (eventType event =? ColoredBallShot);
    [|intros [= <-]; split; [apply kept_refl|]; exists []; by rewrite app_nil_r].
  unfold on_ColoredBallShot. destruct (eventData event) as [[color center|]|]; try done.
  destruct (createExplosion_spawned color center w) as (e & d & p & Hf & ->).
  rewrite bind_Ok. intros (-> & _ & _ & -> & _)%update_score_and_combo_inv.
  split; [by apply (spawned_kept (with_rand_calls _ w))|].
  exists [e]. split; [done|]. split; [done|].
  apply Forall_cons_2; [|done]. split; [by destruct Hf|].
  unfold name_of. by rewrite spawned_entity.
Qed.

Lemma World_handleEvents_loop_explosions turns : ∀ w,
  (length (m_eventQueue w) < turns)%nat → world_ok w = true →
  ∃ w' new, World_handleEvents_loop turns w = Ok w'
        ∧ world_ok w' = true ∧ m_eventQueue w' = []
        ∧ lifts eq (heap w) (heap w')
        ∧ m_entities w' = m_entities w ++ new
        ∧ length new
          = length (filter (λ ev, is_ColoredBallShot ev = true) (m_eventQueue w))
        ∧ Forall (λ e, entity_mem (heap w) !! e = None
                       ∧ name_of (heap w') e = Some "Explosion") new.
Proof.
  induction turns as [|turns IH]; intros w Hlen Hok; [lia|].
  cbn [World_handleEvents_loop]. unfold pollEvent.
  destruct (m_eventQueue w) as [|event rest] eqn:Hq.
  { exists w, []. split; [done|]. split; [done|]. split; [done|].
    split; [apply kept_refl|]. by rewrite app_nil_r. }
  destruct (world_ok_pop w event rest Hok Hq) as [Hok0 Hev0].
  destruct (World_handleEvent_spec event _ Hok0 Hev0) as (w1 & Hrun & Hok1 & Hg1 & Hq1).
  rewrite Hrun, bind_Ok.
  apply World_handleEvent_explosions in Hrun as (Hk1 & new1 & He1 & Hl1 & Hn1).
  cbn [m_entities with_eventQueue m_eventQueue heap] in *.
  destruct (IH w1) as (w' & new & -> & Hok' & Hq' & Hk' & He' & Hl' & Hn'); [|done|].
  { rewrite Hq1. cbn in *. lia. }
  exists w', (new1 ++ new). split; [done|]. split; [done|]. split; [done|].
  split; [eapply kept_trans; [exact Hk1|exact Hk']|].
  split; [by rewrite He', He1, app_assoc|].
  split.
  - rewrite length_app, Hl1, Hl', Hq1.
    destruct (is_ColoredBallShot event) eqn:Hshot.
    + by rewrite list.filter_cons_True by done.
    + by rewrite list.filter_cons_False by congruence.
  - apply Forall_app. split.
    + eapply list.Forall_impl; [exact Hn1|]. intros e [Hf Hn]. split; [done|].
      eapply name_of_kept; [exact Hk'|exact Hn].
    + eapply list.Forall_impl; [exact Hn'|]. intros e [Hf Hn]. split; [|done].
      destruct Hk1 as [Hsub _]. by apply (lookup_weaken_None _ _ _ Hf Hsub).
Qed.

End Events_count.

(** ** A new explosion *)

Section Explosion_facts.
Context `{Scalar T} `{Platform} `{Environment T}.

Lemma new_Particles_lifetime count : ∀ n,
  Forall (λ p : Particle T, 1000000 ≤ p_lifetime p ≤ 2999000) (new_Particles count n).
Proof.
  induction count as [|count IH]; intros n; cbn [new_Particles]; [done|].
  apply Forall_cons_2; [|apply IH]. cbn. unfold sf.milliseconds.
  pose proof (Z.mod_pos_bound (rand (S (S n))) 2000 ltac:(lia)). lia.
Qed.

Lemma init_vertices_all color (center : sf.Vector2 T) count vertices :
  (length vertices ≤ count)%nat →
  Forall (λ v, sf.position v = center ∧ sf.color v = color)
         (init_vertices color center count vertices).
Proof.
  intros Hlen. apply list.Forall_forall. intros v Hin.
  apply list_elem_of_lookup in Hin as [i Hi]. unfold init_vertices in Hi.
  rewrite list_lookup_imap in Hi. destruct (vertices !! i) as [v0|] eqn:Hv0; [|done].
  apply lookup_lt_Some in Hv0. cbn in Hi.
  rewrite bool_decide_eq_true_2 in Hi by lia. by injection Hi as <-.
Qed.

End Explosion_facts.

(** ** The guards of the systems *)

Section Guards.
Context `{Scalar T}.
Implicit Types (σ : Store T).

Lemma is_Ok_null_safe {A} (r : result A) : is_Ok r → null_safe r.
Proof. intros [a ->]. done. Qed.

Lemma for_each_null_safe {A B} (body : A → B → result A) (I : A → Prop) l :
  (∀ st x, x ∈ l → I st →
     (∃ st', body st x = Ok st' ∧ I st') ∨ (∃ f, body st x = Fault f ∧ f ≠ NullDereference)) →
  ∀ st, I st → null_safe (for_each body st l).
Proof.
  induction l as [|b l IH]; intros Hbody st HI; [done|]. rewrite for_each_cons.
  destruct (Hbody st b) as [(st1 & -> & HI1)|(f & -> & Hf)]; [left|done| |].
  - rewrite bind_Ok. apply IH; [|done]. intros ???. apply Hbody. by right.
  - rewrite bind_Fault. unfold null_safe. congruence.
Qed.

(** An animation without a speed: the period is the quotient by zero. *)
Lemma AnimationSystem_entity_no_speed elapsed σ e ent sprite animation s frames cf lf :
  entity_mem σ !! e = Some ent →
  m_components_of ent !! "Sprite" = Some sprite →
  m_components_of ent !! "Animation" = Some animation →
  component_mem σ !! sprite = Some (SpriteComponent s) →
  component_mem σ !! animation = Some (AnimationComponent frames cf lf 0) →
  AnimationSystem_entity elapsed σ e = Fault DivisionByZero.
Proof.
  intros He Hs Ha Hcs Hca. unfold AnimationSystem_entity.
  rewrite !(hasComponent_has _ _ _ _ He), !bind_Ok. unfold has. rewrite He.
  rewrite !bool_decide_eq_true_2 by eauto. cbn [negb orb].
  rewrite (getComponent_Some _ _ _ _ _ _ SpriteCap He Hs Hcs) by done.
  rewrite bind_Ok.
  rewrite (getComponent_Some _ _ _ _ _ _ AnimationCap He Ha Hca) by done.
  rewrite bind_Ok. unfold deref at 1. rewrite Hca, bind_Ok.
  erewrite write_Ok; [|reflexivity|exact Hca|reflexivity]. by rewrite bind_Ok.
Qed.

(** One turn of the animation system on a well-formed entity: it ends, or
    stops on the quotient by a null speed or on a frame that is not
    there. *)
Lemma AnimationSystem_entity_guarded elapsed σ e :
  entity_ok σ e = true →
  (∃ σ', AnimationSystem_entity elapsed σ e = Ok σ' ∧ extends σ σ')
  ∨ (∃ f, AnimationSystem_entity elapsed σ e = Fault f ∧ f ≠ NullDereference).
Proof.
  intros Hok. destruct (entity_ok_inv _ _ Hok) as (ent & He & Hall & _).
  destruct (has σ e "Sprite" && has σ e "Animation") eqn:Hhas.
  2:{ left. exists σ. by rewrite (AnimationSystem_entity_skip _ _ _ ent). }
  apply andb_true_iff in Hhas as [Hs Ha].
  destruct (entity_ok_sprite _ _ Hok Hs) as (ent' & sprite & s & He' & Hsl & Hcs).
  rewrite He in He'. injection He' as <-.
  unfold has in Ha. rewrite He in Ha. apply bool_decide_eq_true in Ha as [animation Hal].
  destruct (Hall _ _ Hal)
    as (c & Hca & (frames & cf & lf & fps & ->)%well_named_Animation).
  destruct (decide (fps = 0)) as [->|Hfps].
  { right. exists DivisionByZero.
    by rewrite (AnimationSystem_entity_no_speed _ _ _ _ _ _ _ _ _ _ He Hsl Hal Hcs Hca). }
  rewrite (AnimationSystem_entity_eq _ _ _ _ _ _ _ _ _ _ _ He Hsl Hal Hcs Hca Hfps).
  destruct (_ <? _).
  - destruct (frames !! _) as [frame|]; [|right; by exists DanglingPointer].
    left. eexists. split; [done|].
    trans (store_component animation
             (AnimationComponent frames (next_frame frames cf) sf.Time_Zero fps) σ).
    + eapply store_component_extends; [done|apply evolves_Animation].
    + apply (store_component_extends _ _ (SpriteComponent s)); [|apply evolves_Sprite].
      cbn. rewrite lookup_insert_ne; [done|]. intros ->. congruence.
  - left. eexists. split; [done|].
    eapply store_component_extends; [done|apply evolves_Animation].
Qed.

Lemma AnimationSystem_update_guarded elapsed entities σ :
  Forall (λ e, entity_ok σ e = true) entities →
  null_safe (AnimationSystem_update elapsed entities σ).
Proof.
  intros Hall. unfold AnimationSystem_update.
  apply (for_each_null_safe _ (λ σ, Forall (λ e, entity_ok σ e = true) entities)); [|done].
  intros σ0 e He Hall0.
  pose proof (proj1 (list.Forall_forall _ _) Hall0 e He) as Hok.
  destruct (AnimationSystem_entity_guarded elapsed σ0 e Hok) as [(σ1 & Hrun & Hx)|Hf];
    [left|by right].
  exists σ1. split; [done|].
  eapply list.Forall_impl; [exact Hall0|]. intros e' ?. by apply (entity_ok_extends σ0).
Qed.

Lemma AnimationSystem_update_runs elapsed entities σ :
  Forall (λ e, entity_ok σ e = true) entities →
  Forall (λ e, film_ready σ e = true) entities →
  is_Ok (AnimationSystem_update elapsed entities σ).
Proof.
  intros Hall Hfilms. unfold AnimationSystem_update.
  destruct (for_each_invariant (AnimationSystem_entity elapsed)
              (λ σ, Forall (λ e, entity_ok σ e = true ∧ film_ready σ e = true) entities)
              steady entities σ)
    as (σ' & Hrun & _); [| |by exists σ'].
  - intros σ0 e He Hall0.
    pose proof (proj1 (list.Forall_forall _ _) Hall0 e He) as [Hok Hf].
    destruct (AnimationSystem_entity_spec elapsed σ0 e Hok Hf) as (σ1 & Hrun & Hs).
    exists σ1. split; [done|]. split; [|done].
    eapply list.Forall_impl; [exact Hall0|]. intros e' [Hok' Hf']. split.
    + by apply (entity_ok_extends σ0); [apply Hs|].
    + by rewrite (film_ready_steady σ0).
  - apply list.Forall_forall. intros e He. split.
    + by apply (proj1 (list.Forall_forall _ _) Hall).
    + by apply (proj1 (list.Forall_forall _ _) Hfilms).
Qed.

End Guards.

Section Render_guards.
Context `{Scalar T}.

Lemma render_systems_run (entities : list EntityPtr) (σ : Store T) (drawn : list (Draw T)) :
  Forall (λ e, entity_ok σ e = true) entities →
  is_Ok (ParticleRenderSystem_update entities σ drawn)
  ∧ is_Ok (SpriteRenderSystem_update entities σ drawn).
Proof.
  intros Hall. split.
  - destruct (render_loop_spec (ParticleRenderSystem_entity σ) σ entities
                (λ drawn e, ParticleRenderSystem_entity_spec σ drawn e) Hall drawn)
      as (drawn' & Hrun & _). by exists drawn'.
  - destruct (render_loop_spec (SpriteRenderSystem_entity σ) σ entities
                (λ drawn e, SpriteRenderSystem_entity_spec σ drawn e) Hall drawn)
      as (drawn' & Hrun & _). by exists drawn'.
Qed.
End Render_guards.

(** * The rest of the game *)

(** ** What the physics system records *)

(** X9. With a time step that can divide and well-formed entities, the
    physics system runs to its end, and every pair it records is made of
    two different entities of the list it was given, the first with a
    hitbox and a movement, the second with a hitbox: no entity is ever
    recorded with itself, and an entity that cannot move is never the
    first of a pair. *)
Theorem recorded_pairs `{Scalar T} (elapsed : sf.Time) (entities : list EntityPtr)
    (σ : Store T) :
  sdivisor (sf.asSeconds (T := T) elapsed) = true →
  Forall (λ e, entity_ok σ e = true) entities →
  ∃ σ' m_collisions,
    PhysicSystem_update elapsed entities σ = Ok (σ', m_collisions)
    ∧ entity_mem σ' = entity_mem σ
    ∧ Forall (recordable σ entities) m_collisions.
Proof.
  intros Hdt Hok.
  destruct (PhysicSystem_update_spec elapsed entities σ Hdt Hok)
    as (σ' & m_collisions & Hrun & _).
  exists σ', m_collisions. split; [done|]. by apply (PhysicSystem_update_record elapsed).
Qed.

Lemma recorded_pairs_witness :
  sdivisor (sf.asSeconds (T := binary32.t) frame) = true
  ∧ Forall (λ e, entity_ok (heap in_flight) e = true) (m_entities in_flight)
  ∧ ∃ σ' m_collisions,
      PhysicSystem_update frame (m_entities in_flight) (heap in_flight)
      = Ok (σ', m_collisions)
      ∧ entity_mem σ' = entity_mem (heap in_flight)
      ∧ Forall (recordable (heap in_flight) (m_entities in_flight)) m_collisions.
Proof.
  assert (sdivisor (sf.asSeconds (T := binary32.t) frame) = true) as Hdt by reflexivity.
  assert (Forall (λ e, entity_ok (heap in_flight) e = true) (m_entities in_flight)) as Hok
    by (repeat constructor).
  split; [exact Hdt|]. split; [exact Hok|].
  exact (recorded_pairs frame (m_entities in_flight) (heap in_flight) Hdt Hok).
Defined.

(** ** A ball and the player *)

(** X10. A ball recorded with the player, whichever comes first in the
    pair: the ball loses its life points and is marked for deletion, the
    player loses exactly one life point, one hit of the player is pushed
    at the end of the queue, and no entity changes the address of any of
    its components. The ball and the player must not share one life. *)
Theorem ball_hits_player `{Scalar T} (σ : Store T) (q : list (Event T))
    (ball player : EntityPtr) (lp : Z) (collision : EntityPtr * EntityPtr) :
  tagged_ok σ ball = true → tagged_ok σ player = true →
  name_of σ ball = Some "Ball" → name_of σ player = Some "Player" →
  lifepoints_of σ player = Some lp →
  slot σ ball "Life" ≠ slot σ player "Life" →
  collision = (ball, player) ∨ collision = (player, ball) →
  ∃ σ',
    CollisionEffectsSystem_update [collision] σ q = Ok (σ', q ++ [mkEvent PlayerHit None])
    ∧ extends σ σ'
    ∧ (∀ e name, slot σ' e name = slot σ e name)
    ∧ lifepoints_of σ' ball = Some 0
    ∧ marked σ' ball = true
    ∧ lifepoints_of σ' player = Some (lp - 1).
Proof.
  intros H1 H2 Hn1 Hn2 Hlp Hslots Hc.
  destruct (ball_and_player σ q ball player lp collision H1 H2 Hn1 Hn2 Hlp Hslots Hc)
    as (σ' & Hrun & Hrest).
  exists σ'. split; [|done].
  unfold CollisionEffectsSystem_update. by rewrite for_each_cons, Hrun, bind_Ok.
Qed.

Lemma ball_hits_player_witness :
  tagged_ok (heap in_flight) ball = true
  ∧ tagged_ok (heap in_flight) player = true
  ∧ name_of (heap in_flight) ball = Some "Ball"
  ∧ name_of (heap in_flight) player = Some "Player"
  ∧ lifepoints_of (heap in_flight) player = Some 5
  ∧ slot (heap in_flight) ball "Life" ≠ slot (heap in_flight) player "Life"
  ∧ ∃ σ',
      CollisionEffectsSystem_update [(player, ball)] (heap in_flight) []
      = Ok (σ', [] ++ [mkEvent PlayerHit None])
      ∧ extends (heap in_flight) σ'
      ∧ (∀ e name, slot σ' e name = slot (heap in_flight) e name)
      ∧ lifepoints_of σ' ball = Some 0
      ∧ marked σ' ball = true
      ∧ lifepoints_of σ' player = Some (5 - 1).
Proof.
  assert (tagged_ok (heap in_flight) ball = true) as H1 by (vm_compute; reflexivity).
  assert (tagged_ok (heap in_flight) player = true) as H2 by (vm_compute; reflexivity).
  assert (name_of (heap in_flight) ball = Some "Ball") as Hn1 by reflexivity.
  assert (name_of (heap in_flight) player = Some "Player") as Hn2 by reflexivity.
  assert (lifepoints_of (heap in_flight) player = Some 5) as Hlp by reflexivity.
  assert (slot (heap in_flight) ball "Life" ≠ slot (heap in_flight) player "Life")
    as Hs by (vm_compute; discriminate).
  repeat (split; [assumption|]).
  exact (ball_hits_player (heap in_flight) [] ball player 5
           (player, ball) H1 H2 Hn1 Hn2 Hlp Hs (or_intror eq_refl)).
Defined.

(** X11. A ball recorded with the player in both orders, as the physics
    system does in one tick when the player runs into a ball: the player
    is hit twice and loses two life points for this one ball. *)
Theorem ball_recorded_twice `{Scalar T} (σ : Store T) (q : list (Event T))
    (ball player : EntityPtr) (lp : Z) :
  tagged_ok σ ball = true → tagged_ok σ player = true →
  name_of σ ball = Some "Ball" → name_of σ player = Some "Player" →
  lifepoints_of σ player = Some lp →
  slot σ ball "Life" ≠ slot σ player "Life" →
  ∃ σ',
    CollisionEffectsSystem_update [(player, ball); (ball, player)] σ q
    = Ok (σ', q ++ [mkEvent PlayerHit None; mkEvent PlayerHit None])
    ∧ lifepoints_of σ' player = Some (lp - 2)
    ∧ lifepoints_of σ' ball = Some 0
    ∧ marked σ' ball = true.
Proof.
  intros H1 H2 Hn1 Hn2 Hlp Hslots.
  destruct (ball_and_player σ q ball player lp (player, ball) H1 H2 Hn1 Hn2 Hlp Hslots)
    as (σ1 & Hrun1 & Hx1 & Hs1 & _ & _ & Hlp1); [by right|].
  destruct (ball_and_player σ1 (q ++ [mkEvent PlayerHit None]) ball player (lp - 1)
              (ball, player)) as (σ2 & Hrun2 & Hx2 & Hs2 & Hb2 & Hm2 & Hlp2);
    [by apply (tagged_ok_extends σ)|by apply (tagged_ok_extends σ)
    |by apply (name_of_extends σ)|by apply (name_of_extends σ)|done
    |by rewrite !Hs1|by left|].
  exists σ2. unfold CollisionEffectsSystem_update.
  rewrite for_each_cons, Hrun1, bind_Ok, for_each_cons, Hrun2, bind_Ok, for_each_nil,
    <- app_assoc.
  split; [done|]. split; [|done]. rewrite Hlp2. f_equal. lia.
Qed.

Lemma ball_recorded_twice_witness :
  ∃ w,
    World_physics frame running_into_a_ball
    = Ok (w, [(player, ball); (ball, player)])
    ∧ tagged_ok (heap w) ball = true
    ∧ tagged_ok (heap w) player = true
    ∧ name_of (heap w) ball = Some "Ball"
    ∧ name_of (heap w) player = Some "Player"
    ∧ lifepoints_of (heap w) player = Some 5
    ∧ slot (heap w) ball "Life" ≠ slot (heap w) player "Life"
    ∧ ∃ σ',
        CollisionEffectsSystem_update
          [(player, ball); (ball, player)] (heap w) []
        = Ok (σ', [] ++ [mkEvent PlayerHit None; mkEvent PlayerHit None])
        ∧ lifepoints_of σ' player = Some (5 - 2)
        ∧ lifepoints_of σ' ball = Some 0
        ∧ marked σ' ball = true.
Proof.
  eexists. split; [vm_compute; reflexivity|].
  match goal with |- tagged_ok ?σ _ = true ∧ _ => set (σ0 := σ) end.
  assert (tagged_ok σ0 ball = true) as H1 by (vm_compute; reflexivity).
  assert (tagged_ok σ0 player = true) as H2 by (vm_compute; reflexivity).
  assert (name_of σ0 ball = Some "Ball") as Hn1 by (vm_compute; reflexivity).
  assert (name_of σ0 player = Some "Player") as Hn2 by (vm_compute; reflexivity).
  assert (lifepoints_of σ0 player = Some 5) as Hlp by (vm_compute; reflexivity).
  assert (slot σ0 ball "Life" ≠ slot σ0 player "Life") as Hs
    by (vm_compute; discriminate).
  repeat (split; [assumption|]).
  exact (ball_recorded_twice σ0 [] ball player 5 H1 H2 Hn1 Hn2 Hlp Hs).
Defined.

(** ** The end of the game *)

(** X12. The passes that follow the collision effects always run to
    their end in a world in order whose player has a life, and the game is
    still running after them exactly when it was running before and no hit
    of a player without life points was waiting in the queue: the game
    ends in the very tick of the last hit, and nothing starts it again. *)
Theorem game_over_in_the_tick `{Scalar T} `{Platform} `{Environment T}
    (dt : sf.Time) (w : World T) (player : EntityPtr) (lp : Z) :
  world_ok w = true → m_player w = Some player →
  lifepoints_of (heap w) player = Some lp →
  ∃ w', World_after_collisionEffects dt w = Ok w'
        ∧ world_ok w' = true
        ∧ m_isRunning w'
          = m_isRunning w && negb (existsb is_PlayerHit (m_eventQueue w) && (lp <=? 0)).
Proof. apply World_after_collisionEffects_running. Qed.

Lemma game_over_in_the_tick_witness :
  world_ok last_hit = true ∧ m_player last_hit = Some player
  ∧ lifepoints_of (heap last_hit) player = Some 0
  ∧ ∃ w', @World_after_collisionEffects binary32.t _ x86_64 calm frame last_hit = Ok w'
          ∧ world_ok w' = true
          ∧ m_isRunning w'
            = m_isRunning last_hit
              && negb (existsb is_PlayerHit (m_eventQueue last_hit) && (0 <=? 0)).
Proof.
  assert (world_ok last_hit = true) as Hok by (vm_compute; reflexivity).
  assert (m_player last_hit = Some player) as Hp by reflexivity.
  assert (lifepoints_of (heap last_hit) player = Some 0) as Hlp by reflexivity.
  repeat (split; [assumption|]).
  exact (@game_over_in_the_tick binary32.t _ x86_64 calm frame last_hit player 0 Hok Hp Hlp).
Defined.

(** ** The animation system *)

(** X13. One update of an entity that has a sprite and an animation with
    frames and a speed: the elapsed time is added to the time since the
    last frame; when the sum exceeds the period [1 / fps], the animation
    moves on by one frame, whatever the elapsed time, the time since the
    last frame is reset and the sprite shows the rectangle of the new
    current frame; otherwise the frame and the sprite stay. *)
Theorem animation_step `{Scalar T} (elapsed : sf.Time) (σ : Store T) (e : EntityPtr)
    (s : sf.Sprite T) (frames : list (sf.Rect Z)) (currentFrame : Z)
    (lastFrame : sf.Time) (fps : Z) :
  component_of σ e "Sprite" = Some (SpriteComponent s) →
  component_of σ e "Animation"
  = Some (AnimationComponent frames currentFrame lastFrame fps) →
  frames ≠ [] → fps ≠ 0 →
  ∃ σ',
    AnimationSystem_entity elapsed σ e = Ok σ'
    ∧ if seconds (sdiv (sofZ 1) (sofZ fps) : T) <? lastFrame + elapsed then
        ∃ frame,
          frames !! Z.to_nat (next_frame frames currentFrame) = Some frame
          ∧ component_of σ' e "Animation"
            = Some (AnimationComponent frames (next_frame frames currentFrame)
                                       sf.Time_Zero fps)
          ∧ component_of σ' e "Sprite" = Some (SpriteComponent (sf.setTextureRect frame s))
      else
        component_of σ' e "Animation"
        = Some (AnimationComponent frames currentFrame (lastFrame + elapsed) fps)
        ∧ component_of σ' e "Sprite" = Some (SpriteComponent s).
Proof.
  intros (ent & sprite & He & Hsl & Hcs)%component_of_inv
         (ent' & animation & He' & Hal & Hca)%component_of_inv Hne Hfps.
  rewrite He in He'. injection He' as <-.
  assert (sprite ≠ animation) as Hsa by (intros ->; congruence).
  rewrite (AnimationSystem_entity_eq _ _ _ _ _ _ _ _ _ _ _ He Hsl Hal Hcs Hca Hfps).
  destruct (_ <? _).
  - destruct (next_frame_lookup frames currentFrame Hne) as [frame Hframe].
    rewrite Hframe. eexists. split; [done|]. exists frame. split; [done|].
    rewrite !component_of_store. unfold slot. cbn. rewrite He. cbn. rewrite Hsl, Hal.
    rewrite (bool_decide_eq_false_2 (Some animation = Some sprite)) by congruence.
    by rewrite !bool_decide_eq_true_2.
  - eexists. split; [done|].
    rewrite !component_of_store. unfold slot. rewrite He. cbn. rewrite Hsl, Hal.
    rewrite (bool_decide_eq_false_2 (Some sprite = Some animation)) by congruence.
    rewrite bool_decide_eq_true_2 by done. split; [done|].
    unfold component_of. rewrite He. cbn. rewrite Hsl. done.
Qed.

Lemma animation_step_witness :
  component_of (a_box box_frames) 0%nat "Sprite"
  = Some (SpriteComponent
            (sf.mkSprite (sf.mkRect 1088 64 64 64) (sf.mkVector2 (sofZ 0) (sofZ 64))))
  ∧ component_of (a_box box_frames) 0%nat "Animation"
    = Some (AnimationComponent box_frames 35 40000 24)
  ∧ box_frames ≠ [] ∧ 24 ≠ 0
  ∧ ∃ σ',
      AnimationSystem_entity frame (a_box box_frames) 0%nat = Ok σ'
      ∧ if seconds (sdiv (sofZ 1) (sofZ 24) : binary32.t) <? 40000 + frame then
          ∃ rectangle,
            box_frames !! Z.to_nat (next_frame box_frames 35) = Some rectangle
            ∧ component_of σ' 0%nat "Animation"
              = Some (AnimationComponent box_frames (next_frame box_frames 35)
                                         sf.Time_Zero 24)
            ∧ component_of σ' 0%nat "Sprite"
              = Some (SpriteComponent
                        (sf.setTextureRect rectangle
                           (sf.mkSprite (sf.mkRect 1088 64 64 64)
                                        (sf.mkVector2 (sofZ 0) (sofZ 64)))))
        else
          component_of σ' 0%nat "Animation"
          = Some (AnimationComponent box_frames 35 (40000 + frame) 24)
          ∧ component_of σ' 0%nat "Sprite"
            = Some (SpriteComponent
                      (sf.mkSprite (sf.mkRect 1088 64 64 64)
                                   (sf.mkVector2 (sofZ 0) (sofZ 64)))).
Proof.
  assert (component_of (a_box box_frames) 0%nat "Sprite"
          = Some (SpriteComponent
                    (sf.mkSprite (sf.mkRect 1088 64 64 64)
                                 (sf.mkVector2 (sofZ 0) (sofZ 64))))) as Hs
    by reflexivity.
  assert (component_of (a_box box_frames) 0%nat "Animation"
          = Some (AnimationComponent box_frames 35 40000 24)) as Ha by reflexivity.
  assert (box_frames ≠ []) as Hne by discriminate.
  assert (24 ≠ 0) as Hfps by lia.
  repeat (split; [assumption|]).
  exact (animation_step frame (a_box box_frames) 0%nat _ box_frames 35 40000 24
           Hs Ha Hne Hfps).
Defined.

(** X14. The index of the frame after a step is an index of the list of
    frames, also when the index before was not one or was the largest
    [unsigned int]; from an index of the list, a step goes to the next
    frame and from the last frame back to the first. *)
Theorem next_frame_in_range (frames : list (sf.Rect Z)) (currentFrame : Z) :
  frames ≠ [] →
  0 ≤ next_frame frames currentFrame < Z.of_nat (length frames)
  ∧ (0 ≤ currentFrame < Z.of_nat (length frames) → Z.of_nat (length frames) < 2 ^ 32 →
     next_frame frames currentFrame = (currentFrame + 1) mod Z.of_nat (length frames)).
Proof.
  intros Hne. split; [by apply next_frame_bounds|]. apply next_frame_mod.
Qed.

Lemma next_frame_in_range_witness :
  box_frames ≠ []
  ∧ 0 ≤ next_frame box_frames (2 ^ 32 - 1) < Z.of_nat (length box_frames)
  ∧ (0 ≤ 2 ^ 32 - 1 < Z.of_nat (length box_frames) →
     Z.of_nat (length box_frames) < 2 ^ 32 →
     next_frame box_frames (2 ^ 32 - 1)
     = (2 ^ 32 - 1 + 1) mod Z.of_nat (length box_frames)).
Proof.
  assert (box_frames ≠ []) as Hne by discriminate.
  split; [exact Hne|]. exact (next_frame_in_range box_frames (2 ^ 32 - 1) Hne).
Defined.

(** X15. An animation that was given a speed but no frame: as soon as
    the period has elapsed the system reads the first element of an empty
    vector. *)
Theorem animation_without_frames `{Scalar T} (elapsed : sf.Time) (σ : Store T)
    (e : EntityPtr) (s : sf.Sprite T) (currentFrame : Z) (lastFrame : sf.Time) (fps : Z) :
  component_of σ e "Sprite" = Some (SpriteComponent s) →
  component_of σ e "Animation" = Some (AnimationComponent [] currentFrame lastFrame fps) →
  fps ≠ 0 →
  seconds (sdiv (sofZ 1) (sofZ fps) : T) < lastFrame + elapsed →
  AnimationSystem_entity elapsed σ e = Fault DanglingPointer.
Proof.
  intros (ent & sprite & He & Hsl & Hcs)%component_of_inv
         (ent' & animation & He' & Hal & Hca)%component_of_inv Hfps Hlate.
  rewrite He in He'. injection He' as <-.
  rewrite (AnimationSystem_entity_eq _ _ _ _ _ _ _ _ _ _ _ He Hsl Hal Hcs Hca Hfps).
  by rewrite (proj2 (Z.ltb_lt _ _) Hlate).
Qed.

Lemma animation_without_frames_witness :
  component_of (a_box []) 0%nat "Sprite"
  = Some (SpriteComponent
            (sf.mkSprite (sf.mkRect 1088 64 64 64) (sf.mkVector2 (sofZ 0) (sofZ 64))))
  ∧ component_of (a_box []) 0%nat "Animation" = Some (AnimationComponent [] 35 40000 24)
  ∧ 24 ≠ 0
  ∧ seconds (sdiv (sofZ 1) (sofZ 24) : binary32.t) < 40000 + frame
  ∧ AnimationSystem_entity frame (a_box []) 0%nat = Fault DanglingPointer.
Proof.
  assert (component_of (a_box []) 0%nat "Sprite"
          = Some (SpriteComponent
                    (sf.mkSprite (sf.mkRect 1088 64 64 64)
                                 (sf.mkVector2 (sofZ 0) (sofZ 64))))) as Hs
    by reflexivity.
  assert (component_of (a_box []) 0%nat "Animation"
          = Some (AnimationComponent [] 35 40000 24)) as Ha by reflexivity.
  assert (24 ≠ 0) as Hfps by lia.
  assert (seconds (sdiv (sofZ 1) (sofZ 24) : binary32.t) < 40000 + frame) as Hlate
    by (vm_compute; reflexivity).
  repeat (split; [assumption|]).
  exact (animation_without_frames frame (a_box []) 0%nat _ 35 40000 24 Hs Ha Hfps Hlate).
Defined.

(** ** The sprite follows the hitbox *)

(** X16. For an entity with a hitbox and a sprite, the synchronisation
    puts the sprite at the left top corner of the hitbox; its texture
    rectangle and the hitbox stay. *)
Theorem sprite_follows_hitbox `{Scalar T} (σ : Store T) (e : EntityPtr)
    (box : sf.Rect T) (blocking : bool) (s : sf.Sprite T) :
  component_of σ e "Hitbox" = Some (HitboxComponent box blocking) →
  component_of σ e "Sprite" = Some (SpriteComponent s) →
  ∃ σ',
    SynchronizeSystem_entity σ e = Ok σ'
    ∧ component_of σ' e "Sprite"
      = Some (SpriteComponent
                (sf.mkSprite (sf.textureRect s) (sf.mkVector2 (sf.left box) (sf.top box))))
    ∧ component_of σ' e "Hitbox" = Some (HitboxComponent box blocking).
Proof.
  intros (ent & hitbox & He & Hh & Hch)%component_of_inv
         (ent' & sprite & He' & Hs & Hcs)%component_of_inv.
  rewrite He in He'. injection He' as <-.
  assert (sprite ≠ hitbox) as Hne by (intros ->; congruence).
  rewrite (SynchronizeSystem_entity_eq _ _ _ _ _ _ _ _ He Hh Hs Hch Hcs).
  eexists. split; [done|].
  rewrite !component_of_store. unfold slot. rewrite He. cbn. rewrite Hh, Hs.
  rewrite bool_decide_eq_true_2 by done.
  rewrite (bool_decide_eq_false_2 (Some hitbox = Some sprite)) by congruence.
  split; [done|]. unfold component_of. rewrite He. cbn. by rewrite Hh.
Qed.

Lemma sprite_follows_hitbox_witness :
  component_of (heap in_flight) ball "Hitbox"
  = Some (HitboxComponent (sf.mkRect (sofZ 100) (sofZ 100) (sofZ 64) (sofZ 64)) false)
  ∧ component_of (heap in_flight) ball "Sprite"
    = Some (SpriteComponent
              (sf.mkSprite (sf.mkRect 64 0 64 64) (sf.mkVector2 (sofZ 100) (sofZ 100))))
  ∧ ∃ σ',
      SynchronizeSystem_entity (heap in_flight) ball = Ok σ'
      ∧ component_of σ' ball "Sprite"
        = Some (SpriteComponent
                  (sf.mkSprite
                     (sf.textureRect
                        (sf.mkSprite (sf.mkRect 64 0 64 64)
                                     (sf.mkVector2 (sofZ 100) (sofZ 100))))
                     (sf.mkVector2
                        (sf.left (sf.mkRect (sofZ 100) (sofZ 100) (sofZ 64) (sofZ 64)))
                        (sf.top (sf.mkRect (sofZ 100) (sofZ 100) (sofZ 64) (sofZ 64))))))
      ∧ component_of σ' ball "Hitbox"
        = Some (HitboxComponent (sf.mkRect (sofZ 100) (sofZ 100) (sofZ 64) (sofZ 64))
                                false).
Proof.
  assert (component_of (heap in_flight) ball "Hitbox"
          = Some (HitboxComponent (sf.mkRect (sofZ 100) (sofZ 100) (sofZ 64) (sofZ 64))
                                  false)) as Hh by reflexivity.
  assert (component_of (heap in_flight) ball "Sprite"
          = Some (SpriteComponent
                    (sf.mkSprite (sf.mkRect 64 0 64 64)
                                 (sf.mkVector2 (sofZ 100) (sofZ 100))))) as Hs
    by reflexivity.
  split; [exact Hh|]. split; [exact Hs|].
  exact (sprite_follows_hitbox (heap in_flight) ball _ false _ Hh Hs).
Defined.

(** ** The factories *)

(** X17. [createBall] always succeeds. It takes two values of
    [std::rand], adds one entity named as a ball at the end of the list,
    at a free address, and leaves what was there unchanged. The ball has
    one life point, a hitbox of 64 by 64 that does not block, just above
    the window at the random abscissa, the velocity of the balls
    downwards, and the rectangle of its sprite is the band of the random
    colour. A world in order stays in order. *)
Theorem createBall_spawn `{Scalar T} `{Platform} `{Environment T} `{Assets} (w : World T) :
  ∃ w' e,
    createBall w = Ok w'
    ∧ entity_mem (heap w) !! e = None
    ∧ m_entities w' = m_entities w ++ [e]
    ∧ lifts eq (heap w) (heap w')
    ∧ name_of (heap w') e = Some "Ball"
    ∧ component_of (heap w') e "Sprite"
      = Some (SpriteComponent
                (sf.mkSprite (sf.mkRect (randomColor (rand (S (rand_calls w)))) 0 64 64)
                             (sf.mkVector2 (sofZ 0) (sofZ 0))))
    ∧ component_of (heap w') e "Hitbox"
      = Some (HitboxComponent
                (sf.mkRect (sofZ (randomX (rand (rand_calls w)))) (sneg (sofZ 64))
                           (sofZ 64) (sofZ 64)) false)
    ∧ component_of (heap w') e "Movement"
      = Some (MovementComponent (sf.mkVector2 (sofZ 0) (BALL_VELOCITY (constants w))))
    ∧ component_of (heap w') e "Life" = Some (LifeComponent 1 true)
    ∧ component_of (heap w') e "DeletionMarker" = Some (DeletionMarkerComponent false)
    ∧ rand_calls w' = (rand_calls w + 2)%nat
    ∧ (settled w = true → settled w' = true).
Proof.
  destruct (createBall_eq w) as (e & d & s & h & m & l & Hf & ->).
  pose proof Hf as (He & Hn & _).
  eexists _, e. split; [done|]. split; [done|]. split; [done|].
  split; [by apply (spawned_kept (with_rand_calls (rand_calls w + 2) w))|].
  split; [unfold name_of; by rewrite spawned_entity|].
  split; [apply (spawned_component _ _ _ _ _ s); [done|done|rewrite !elem_of_cons; tauto]|].
  split; [apply (spawned_component _ _ _ _ _ h); [done|done|rewrite !elem_of_cons; tauto]|].
  split; [apply (spawned_component _ _ _ _ _ m); [done|done|rewrite !elem_of_cons; tauto]|].
  split; [apply (spawned_component _ _ _ _ _ l); [done|done|rewrite !elem_of_cons; tauto]|].
  split; [apply (spawned_component _ _ _ _ _ d); [done|done|rewrite !elem_of_cons; tauto]|].
  split; [done|]. intros Hs.
  apply spawned_settled; [exact Hs|exact Hf|spawned_conditions..].
Qed.

(** X18. [shootSakura] always succeeds. It adds one entity named as a
    projectile at the end of the list, at a free address, and leaves what
    was there unchanged. The projectile has one life point and not the
    life points of the difficulty, a hitbox that does not block, at the
    given position and of the size of its image, and the velocity of the
    projectiles. A world in order stays in order. *)
Theorem shootSakura_spawn `{Scalar T} `{Platform} `{Environment T} `{Assets}
    (position : sf.Vector2 T) (w : World T) :
  ∃ w' e,
    shootSakura position w = Ok w'
    ∧ entity_mem (heap w) !! e = None
    ∧ m_entities w' = m_entities w ++ [e]
    ∧ lifts eq (heap w) (heap w')
    ∧ name_of (heap w') e = Some "Sakura"
    ∧ component_of (heap w') e "Sprite"
      = Some (SpriteComponent
                (sf.mkSprite (sf.mkRect 0 0 (texture_size 1).1 (texture_size 1).2)
                             (sf.mkVector2 (sofZ 0) (sofZ 0))))
    ∧ component_of (heap w') e "Hitbox"
      = Some (HitboxComponent
                (sf.mkRect (sf.x position) (sf.y position)
                           (sf.width (image_size 1)) (sf.height (image_size 1))) false)
    ∧ component_of (heap w') e "Movement"
      = Some (MovementComponent (sf.mkVector2 (sofZ 0) (SAKURA_VELOCITY (constants w))))
    ∧ component_of (heap w') e "Life" = Some (LifeComponent 1 true)
    ∧ component_of (heap w') e "DeletionMarker" = Some (DeletionMarkerComponent false)
    ∧ rand_calls w' = rand_calls w
    ∧ (settled w = true → settled w' = true).
Proof.
  destruct (shootSakura_eq position w) as (e & d & s & h & m & l & Hf & ->).
  pose proof Hf as (He & Hn & _).
  eexists _, e. split; [done|]. split; [done|]. split; [done|].
  split; [by apply spawned_kept|].
  split; [unfold name_of; by rewrite spawned_entity|].
  split; [apply (spawned_component _ _ _ _ _ s); [done|done|rewrite !elem_of_cons; tauto]|].
  split; [apply (spawned_component _ _ _ _ _ h); [done|done|rewrite !elem_of_cons; tauto]|].
  split; [apply (spawned_component _ _ _ _ _ m); [done|done|rewrite !elem_of_cons; tauto]|].
  split; [apply (spawned_component _ _ _ _ _ l); [done|done|rewrite !elem_of_cons; tauto]|].
  split; [apply (spawned_component _ _ _ _ _ d); [done|done|rewrite !elem_of_cons; tauto]|].
  split; [done|]. intros Hs.
  apply spawned_settled; [exact Hs|exact Hf|spawned_conditions..].
Qed.

(** X19. Where a ball appears. As long as a thousand times the random
    value fits in an [int], the abscissa of a new ball is between 65 and
    640, so that the ball, 64 wide, falls between the two walls. With
    wrap-around the abscissa stays between -510 and 640, and a value of
    [std::rand] above 2147483 can put the ball to the left of the field. *)
Theorem randomX_between_the_walls :
  (∀ r, 0 ≤ r → r * 1000 < 2 ^ 31 → 65 ≤ randomX r ≤ 640)
  ∧ (∀ r, - 510 ≤ randomX r ≤ 640)
  ∧ randomX 2147484 = - 287.
Proof.
  split; [|split; [|reflexivity]].
  - intros r Hr Hsmall. unfold randomX, int32.
    assert ((r * 1000 + 2 ^ 31) mod 2 ^ 32 - 2 ^ 31 = r * 1000) as ->.
    { rewrite Z.mod_small; lia. }
    pose proof (Z.rem_bound_pos (r * 1000) 576 ltac:(lia) ltac:(lia)). lia.
  - intros r. unfold randomX.
    pose proof (Z.rem_bound_abs (int32 (r * 1000)) 576 ltac:(lia)) as Habs. lia.
Qed.

(** X20. The colours of the balls. The band of a new ball is one of the
    four the collision effects tell apart, the image shown for an
    affinity is the image of the balls of that colour and of no other, and
    the change of affinity goes round the four colours: red, blue, green,
    yellow and red again, so that four changes in a row show four
    different colours and come back to the first. In [update] the
    affinity moves to the next colour, and its timer is reset, exactly
    when more than the interval of the changes has passed. *)
Theorem ball_colours `{Scalar T} `{Assets} (r : Z) (c : sf.Color) :
  0 ≤ r → c ∈ [sf.Red; sf.Blue; sf.Green; sf.Yellow] →
  ball_color (sf.mkRect (randomColor r) 0 64 64) ∈ [sf.Red; sf.Blue; sf.Green; sf.Yellow]
  ∧ affinity_rect (T := T) (ball_color (sf.mkRect (randomColor r) 0 64 64))
    = sf.mkRect (randomColor r) 0 64 64
  ∧ ball_color (affinity_rect (T := T) c) = c
  ∧ next_affinity c ∈ [sf.Red; sf.Blue; sf.Green; sf.Yellow]
  ∧ next_affinity (next_affinity (next_affinity (next_affinity c))) = c
  ∧ next_affinity <$> [sf.Red; sf.Blue; sf.Green; sf.Yellow]
    = [sf.Blue; sf.Green; sf.Yellow; sf.Red]
  ∧ NoDup [c; next_affinity c; next_affinity (next_affinity c);
           next_affinity (next_affinity (next_affinity c))]
  ∧ (∀ w : World T,
       m_colorAffinity w = c →
       let due := seconds (AFFINITY_CHANGE_INTERVAL (constants w)) <? m_lastAffinityChange w in
       m_colorAffinity (World_checkAffinityChange w) = (if due then next_affinity c else c)
       ∧ m_lastAffinityChange (World_checkAffinityChange w)
         = (if due then sf.Time_Zero else m_lastAffinityChange w)).
Proof.
  intros Hr Hc.
  assert (Z.rem r 4 = 0 ∨ Z.rem r 4 = 1 ∨ Z.rem r 4 = 2 ∨ Z.rem r 4 = 3) as Hrem.
  { pose proof (Z.rem_bound_pos r 4 Hr ltac:(lia)). lia. }
  unfold randomColor.
  split; [|split].
  - destruct Hrem as [-> | [-> | [-> | ->]]]; cbn; rewrite !elem_of_cons; tauto.
  - destruct Hrem as [-> | [-> | [-> | ->]]]; reflexivity.
  - split; [|split; [|split; [|split; [reflexivity|split]]]].
    + rewrite !elem_of_cons, elem_of_nil in Hc.
      by destruct Hc as [-> | [-> | [-> | [-> | []]]]].
    + rewrite !elem_of_cons, elem_of_nil in Hc.
      destruct Hc as [-> | [-> | [-> | [-> | []]]]]; cbn; rewrite !elem_of_cons; tauto.
    + rewrite !elem_of_cons, elem_of_nil in Hc.
      by destruct Hc as [-> | [-> | [-> | [-> | []]]]].
    + rewrite !elem_of_cons, elem_of_nil in Hc.
      destruct Hc as [-> | [-> | [-> | [-> | []]]]]; cbn;
        repeat (apply NoDup_cons_2;
                [rewrite ?elem_of_cons, ?elem_of_nil; intuition discriminate|]);
        apply NoDup_nil_2.
    + intros w Hw. unfold World_checkAffinityChange.
      destruct (_ <? _); [|done]. cbn. by rewrite Hw.
Qed.

(** A ball of the fourth band, and the red affinity of [mid_tick] 26
    seconds after the last change, for an interval of 25: the next colour
    is blue. *)
Lemma ball_colours_witness :
  0 ≤ 7 ∧ sf.Red ∈ [sf.Red; sf.Blue; sf.Green; sf.Yellow]
  ∧ ball_color (sf.mkRect (randomColor 7) 0 64 64) = sf.Yellow
  ∧ @affinity_rect binary32.t _ textures sf.Yellow = sf.mkRect 192 0 64 64
  ∧ next_affinity sf.Red = sf.Blue
  ∧ NoDup [sf.Red; sf.Blue; sf.Green; sf.Yellow]
  ∧ m_colorAffinity
      (World_checkAffinityChange (with_lastAffinityChange 26000000 (mid_tick 0)))
    = sf.Blue.
Proof.
  assert (0 ≤ 7) as Hr by lia.
  assert (sf.Red ∈ [sf.Red; sf.Blue; sf.Green; sf.Yellow]) as Hc
    by (rewrite !elem_of_cons; tauto).
  split; [exact Hr|]. split; [exact Hc|].
  destruct (@ball_colours binary32.t _ textures 7 sf.Red Hr Hc)
    as (_ & Hrect & _ & _ & _ & _ & Hcycle & Hchange).
  split; [reflexivity|]. split; [exact Hrect|]. split; [reflexivity|].
  split; [exact Hcycle|].
  exact (proj1 (Hchange (with_lastAffinityChange 26000000 (mid_tick 0)) eq_refl)).
Defined.

(** ** From [init] to the end of the game *)

(** X21. [init] always succeeds on a new world and leaves it in order:
    the music is started, the player is the first entity, with the life
    points of the difficulty, and it is followed by the boxes of the left,
    bottom and right walls, 34 blocking boxes of 64 by 64 at the positions
    of [buildWalls]; there is no row of boxes at the top. The game is
    running, with no event, score or combo. *)
Theorem init_builds_the_field `{Scalar T} `{Platform} `{Environment T} `{Assets}
    (difficulty : Difficulty) (lastid rand_calls : nat) :
  ∃ w player boxes,
    World_init (new_World (T := T) difficulty lastid rand_calls) = Ok w
    ∧ settled w = true
    ∧ m_player w = Some player
    ∧ m_entities w = player :: boxes.*1
    ∧ boxes.*2 = wall_positions
    ∧ Forall (λ b, box_at (heap w) b.1 b.2) boxes
    ∧ name_of (heap w) player = Some "Player"
    ∧ lifepoints_of (heap w) player
      = Some (to_int (LIFE_POINTS (constants_of (T := T) difficulty)))
    ∧ m_eventQueue w = [] ∧ m_isRunning w = true
    ∧ m_score w = 0 ∧ m_combo w = 0
    ∧ constants w = constants_of difficulty
    ∧ audio w = [play firstMusic].
Proof. apply World_init_settled. Qed.

(** X22. In an arithmetic where every division has a result, as that of
    [float], [World::update] runs to its end from any world in order,
    whatever the keys and the time step, and leaves the world in order:
    every registered entity is allocated with its components under their
    own names, projectiles, balls and the player have a life and a sprite,
    every animation has frames and a speed, the player has a movement and
    a hitbox, and every queued event can be handled. *)
Theorem update_keeps_the_world_in_order `{Scalar T} `{Platform} `{Environment T} `{Assets}
    (input : Input) (dt : sf.Time) (g : Game T) :
  (∀ x : T, sdivisor x = true) → settled (world g) = true →
  ∃ g', World_update input dt g = Ok g' ∧ settled (world g') = true.
Proof. apply World_update_settled. Qed.

Lemma update_keeps_the_world_in_order_witness :
  (∀ x : binary32.t, sdivisor x = true) ∧ settled (world a_game) = true
  ∧ ∃ g', @World_update binary32.t _ x86_64 calm textures all_keys frame a_game = Ok g'
          ∧ settled (world g') = true.
Proof.
  assert (∀ x : binary32.t, sdivisor x = true) as Hdiv by (intros x; reflexivity).
  assert (settled (world a_game) = true) as Hs by (vm_compute; reflexivity).
  split; [exact Hdiv|]. split; [exact Hs|].
  exact (@update_keeps_the_world_in_order binary32.t _ x86_64 calm textures all_keys frame
           a_game Hdiv Hs).
Defined.

(** X23. In an arithmetic where every division has a result, the loop
    of the game never faults: for every difficulty and every sequence of
    keyboard states and time steps, the world is initialised, every frame
    is updated and rendered until the sequence or the game ends, and the
    world is left in order. One image is shown for each frame played. *)
Theorem game_loop_never_faults `{Scalar T} `{Platform} `{Environment T} `{Assets}
    (difficulty : Difficulty) (lastid rand_calls : nat)
    (frames : list (Input * sf.Time)) :
  (∀ x : T, sdivisor x = true) →
  ∃ g0 g shown,
    new_Game difficulty lastid rand_calls = Ok g0
    ∧ run frames g0 [] = Ok (g, shown)
    ∧ settled (world g) = true
    ∧ (length shown ≤ length frames)%nat
    ∧ (m_isRunning (world g) = true → length shown = length frames).
Proof.
  intros Hdiv.
  destruct (new_Game_settled difficulty lastid rand_calls) as (g0 & Hnew & Hs0).
  destruct (run_settled frames g0 [] Hdiv Hs0) as (g & shown & Hrun & Hs & Hle & Hall).
  exists g0, g, shown. split; [exact Hnew|]. split; [exact Hrun|]. split; [exact Hs|].
  split; [exact Hle|exact Hall].
Qed.

Lemma game_loop_never_faults_witness :
  (∀ x : binary32.t, sdivisor x = true)
  ∧ ∃ g0 g shown,
      @new_Game binary32.t _ textures HARD 0 0 = Ok g0
      ∧ @run binary32.t _ x86_64 calm textures two_frames g0 []
        = Ok (g, shown)
      ∧ settled (world g) = true
      ∧ (length shown ≤ length two_frames)%nat
      ∧ (m_isRunning (world g) = true → length shown = length two_frames).
Proof.
  assert (∀ x : binary32.t, sdivisor x = true) as Hdiv by (intros x; reflexivity).
  split; [exact Hdiv|].
  exact (@game_loop_never_faults binary32.t _ x86_64 calm textures HARD 0 0 two_frames
           Hdiv).
Defined.

(** ** The keyboard and the timers *)

(** X24. The part of [World::update] that reads the keyboard, in a world
    in order. The velocity of the player is what the keys say and nothing
    of the tick before: to the left with Q, also when D is held, to the
    right with D alone, null otherwise. A projectile is shot exactly when
    the space bar is held and more than the shooting interval has passed
    since the last shot, a ball is created exactly when more than the
    interval of the balls has passed since the last one; each resets its
    timer and adds one entity. *)
Theorem keyboard_and_timers `{Scalar T} `{Platform} `{Environment T} `{Assets}
    (input : Input) (g : Game T) (player : EntityPtr) :
  settled (world g) = true → m_player (world g) = Some player →
  let k := constants (world g) in
  let shoot :=
    key_Space input
    && (sf.milliseconds (to_int (SHOOT_INTERVAL k)) <? m_lastSakuraShoot g) in
  let spawn := sf.milliseconds (to_int (BALLS_INTERVAL k)) <? m_lastBallSpawn g in
  ∃ g',
    World_input input g = Ok g' ∧ settled (world g') = true
    ∧ component_of (heap (world g')) player "Movement"
      = Some (MovementComponent
                (sf.mkVector2
                   (if key_Q input then sneg (PLAYER_SPEED k)
                    else if key_D input then PLAYER_SPEED k else sofZ 0)
                   (sofZ 0)))
    ∧ m_lastSakuraShoot g' = (if shoot then sf.Time_Zero else m_lastSakuraShoot g)
    ∧ m_lastBallSpawn g' = (if spawn then sf.Time_Zero else m_lastBallSpawn g)
    ∧ m_lastMusic g' = m_lastMusic g
    ∧ length (m_entities (world g'))
      = (length (m_entities (world g))
         + (if shoot then 1 else 0) + (if spawn then 1 else 0))%nat.
Proof. apply World_input_spec. Qed.

Lemma keyboard_and_timers_witness :
  settled (world a_game) = true ∧ m_player (world a_game) = Some player
  ∧ let k := constants (world a_game) in
    let shoot :=
      key_Space all_keys
      && (sf.milliseconds (to_int (SHOOT_INTERVAL k)) <? m_lastSakuraShoot a_game) in
    let spawn := sf.milliseconds (to_int (BALLS_INTERVAL k)) <? m_lastBallSpawn a_game in
    ∃ g',
      @World_input binary32.t _ calm textures all_keys a_game = Ok g'
      ∧ settled (world g') = true
      ∧ component_of (heap (world g')) player "Movement"
        = Some (MovementComponent
                  (sf.mkVector2
                     (if key_Q all_keys then sneg (PLAYER_SPEED k)
                      else if key_D all_keys then PLAYER_SPEED k else sofZ 0)
                     (sofZ 0)))
      ∧ m_lastSakuraShoot g' = (if shoot then sf.Time_Zero else m_lastSakuraShoot a_game)
      ∧ m_lastBallSpawn g' = (if spawn then sf.Time_Zero else m_lastBallSpawn a_game)
      ∧ m_lastMusic g' = m_lastMusic a_game
      ∧ length (m_entities (world g'))
        = (length (m_entities (world a_game))
           + (if shoot then 1 else 0) + (if spawn then 1 else 0))%nat.
Proof.
  assert (settled (world a_game) = true) as Hs by (vm_compute; reflexivity).
  assert (m_player (world a_game) = Some player) as Hp by reflexivity.
  split; [exact Hs|]. split; [exact Hp|].
  exact (@keyboard_and_timers binary32.t _ x86_64 calm textures all_keys a_game player
           Hs Hp).
Defined.

(** ** The destructor *)

(** X25. What [cleanEntities] erases is never deleted. After the sweep
    of a world in order, the destructor runs to its end and frees every
    entity that was kept, but an entity that was marked for deletion, and
    each of its components, is still allocated when the destructor
    returns. *)
Theorem swept_entities_stay_allocated `{Scalar T} `{Platform} `{Environment T} `{Assets}
    (w : World T) (e : EntityPtr) :
  world_ok w = true → NoDup (m_entities w) →
  e ∈ m_entities w → marked (heap w) e = true →
  ∃ w' σ',
    cleanEntities w = Ok w' ∧ World_destructor w' = Ok σ'
    ∧ is_Some (entity_mem σ' !! e)
    ∧ (∀ a, a ∈ components_of (heap w) e → is_Some (component_mem σ' !! a))
    ∧ (∀ e', e' ∈ m_entities w → marked (heap w) e' = false → entity_mem σ' !! e' = None).
Proof.
  intros Hok Hnd Hin Hm.
  destruct (cleanEntities_spec w Hok) as (w' & Hrun & Hh & He & Hsub & Hgone).
  destruct (cleanEntities_ok w Hok) as (w'' & Hrun' & Hok').
  rewrite Hrun in Hrun'. injection Hrun' as <-.
  destruct (World_destructor_spec w' Hok') as (σ' & Hd & Hents & Hcomps).
  { rewrite He. by apply list.NoDup_filter. }
  exists w', σ'. split; [done|]. split; [done|].
  apply world_ok_spec in Hok as (Hall & _).
  pose proof (proj1 (list.Forall_forall _ _) Hall e Hin) as (ent & Hent & Hslots & _)%entity_ok_inv.
  split; [|split].
  - rewrite Hents, He, bool_decide_eq_false_2, Hh; [by exists ent|].
    rewrite list_elem_of_filter. intros [Hno _]. congruence.
  - intros a Ha. rewrite Hcomps, bool_decide_eq_false_2, Hh by (by apply (Hgone e)).
    unfold components_of in Ha. rewrite Hent in Ha.
    apply list_elem_of_fmap in Ha as ([name a'] & -> & Hna%elem_of_map_to_list).
    destruct (Hslots _ _ Hna) as (c & Hc & _). by exists c.
  - intros e' Hin' Hm'. rewrite Hents, He, bool_decide_eq_true_2; [done|].
    by apply list_elem_of_filter.
Qed.

Lemma swept_entities_stay_allocated_witness :
  world_ok before_the_sweep = true ∧ NoDup (m_entities before_the_sweep)
  ∧ ball ∈ m_entities before_the_sweep ∧ marked (heap before_the_sweep) ball = true
  ∧ ∃ w' σ',
      cleanEntities before_the_sweep = Ok w'
      ∧ @World_destructor binary32.t w' = Ok σ'
      ∧ is_Some (entity_mem σ' !! ball)
      ∧ (∀ a, a ∈ components_of (heap before_the_sweep) ball →
              is_Some (component_mem σ' !! a))
      ∧ (∀ e', e' ∈ m_entities before_the_sweep →
               marked (heap before_the_sweep) e' = false → entity_mem σ' !! e' = None).
Proof.
  assert (world_ok before_the_sweep = true) as Hok by (vm_compute; reflexivity).
  assert (NoDup (m_entities before_the_sweep)) as Hnd by (by apply (bool_decide_unpack _)).
  assert (ball ∈ m_entities before_the_sweep) as Hin by (by apply (bool_decide_unpack _)).
  assert (marked (heap before_the_sweep) ball = true) as Hm by reflexivity.
  repeat (split; [assumption|]).
  exact (@swept_entities_stay_allocated binary32.t _ x86_64 calm textures before_the_sweep
           ball Hok Hnd Hin Hm).
Defined.

(** ** The rendering *)

(** X26. In a world in order [render] runs to its end, and among what
    it draws there is exactly one heart for each life point of the player,
    from left to right, 40 apart, and none when the player has no life
    point left or less. *)
Theorem one_heart_for_each_life_point `{Scalar T} `{Platform} `{Environment T} `{Assets}
    (w : World T) (player : EntityPtr) (lp : Z) :
  settled w = true → m_player w = Some player →
  lifepoints_of (heap w) player = Some lp →
  ∃ drawn, World_render w = Ok drawn
           ∧ filter (λ d, is_heart d = true) drawn = heart <$> seqZ 0 lp.
Proof. apply World_render_spec. Qed.

Lemma one_heart_for_each_life_point_witness :
  settled in_flight = true ∧ m_player in_flight = Some player
  ∧ lifepoints_of (heap in_flight) player = Some 5
  ∧ ∃ drawn, @World_render binary32.t _ textures in_flight = Ok drawn
             ∧ filter (λ d, is_heart d = true) drawn = heart <$> seqZ 0 5.
Proof.
  assert (settled in_flight = true) as Hs by (vm_compute; reflexivity).
  assert (m_player in_flight = Some player) as Hp by reflexivity.
  assert (lifepoints_of (heap in_flight) player = Some 5) as Hlp by reflexivity.
  repeat (split; [assumption|]).
  exact (@one_heart_for_each_life_point binary32.t _ x86_64 calm textures in_flight player 5
           Hs Hp Hlp).
Defined.

(** ** The time step *)

(** X27. In exact arithmetic the time step of a tick is the smaller of the
    elapsed time and half a second: after a frame longer than half a
    second [update] does what it does after a frame of half a second. *)
Theorem long_frames_count_as_half_a_second `{Platform} `{Environment Qc} `{Assets}
    (input : Input) (dt : sf.Time) (g : Game Qc) :
  clamp_dt (T := Qc) dt = Z.min dt 500000
  ∧ World_update input dt g = World_update input (Z.min dt 500000) g.
Proof.
  split; [apply exact_clamp_dt|]. unfold World_update.
  rewrite !exact_clamp_dt. by rewrite <- Z.min_assoc, Z.min_id.
Qed.

(** ** The events *)

(** X28. In a world in order the events of the tick are all handled and
    the queue is left empty. One entity named as an explosion, at an
    address that was free, is added at the end of the list for each event
    of a shot ball, in the order of the queue, and nothing else is added;
    what was allocated is unchanged. *)
Theorem one_explosion_for_each_shot_ball `{Scalar T} `{Platform} `{Environment T}
    (w : World T) :
  world_ok w = true →
  ∃ w' explosions,
    World_handleEvents w = Ok w'
    ∧ m_eventQueue w' = []
    ∧ m_entities w' = m_entities w ++ explosions
    ∧ length explosions
      = length (filter (λ event, is_ColoredBallShot event = true) (m_eventQueue w))
    ∧ Forall (λ e, entity_mem (heap w) !! e = None
                   ∧ name_of (heap w') e = Some "Explosion") explosions
    ∧ lifts eq (heap w) (heap w').
Proof.
  intros Hok.
  destruct (World_handleEvents_loop_explosions (S (length (m_eventQueue w))) w)
    as (w' & new & Hrun & _ & Hq & Hk & He & Hl & Hn); [lia|done|].
  by exists w', new.
Qed.

Lemma one_explosion_for_each_shot_ball_witness :
  world_ok (mid_tick 3) = true
  ∧ ∃ w' explosions,
      @World_handleEvents binary32.t _ calm (mid_tick 3) = Ok w'
      ∧ m_eventQueue w' = []
      ∧ m_entities w' = m_entities (mid_tick 3) ++ explosions
      ∧ length explosions = 1%nat
      ∧ Forall (λ e, entity_mem (heap (mid_tick 3)) !! e = None
                     ∧ name_of (heap w') e = Some "Explosion") explosions
      ∧ lifts eq (heap (mid_tick 3)) (heap w').
Proof.
  assert (world_ok (mid_tick 3) = true) as Hok by (vm_compute; reflexivity).
  split; [exact Hok|].
  exact (@one_explosion_for_each_shot_ball binary32.t _ x86_64 calm (mid_tick 3) Hok).
Defined.

(** X29. [createExplosion] always succeeds. It takes 3000 values of
    [std::rand] and adds one entity named as an explosion at the end of
    the list, at a free address, leaving what was there unchanged. Its
    emitter has the colour and the centre given, 1000 particles that live
    between 1 second and 2.999 seconds, and 1000 points that all start at
    the centre in the colour. A world in order stays in order. *)
Theorem createExplosion_spawn `{Scalar T} `{Platform} `{Environment T}
    (color : sf.Color) (center : sf.Vector2 T) (w : World T) :
  ∃ w' e particles vertices,
    createExplosion color center w = Ok w'
    ∧ entity_mem (heap w) !! e = None
    ∧ m_entities w' = m_entities w ++ [e]
    ∧ lifts eq (heap w) (heap w')
    ∧ name_of (heap w') e = Some "Explosion"
    ∧ component_of (heap w') e "Particle"
      = Some (ParticleComponent color center particles vertices sf.Time_Zero)
    ∧ length particles = 1000%nat ∧ length vertices = 1000%nat
    ∧ Forall (λ p, 1000000 ≤ p_lifetime p ≤ 2999000) particles
    ∧ Forall (λ v, sf.position v = center ∧ sf.color v = color) vertices
    ∧ component_of (heap w') e "DeletionMarker" = Some (DeletionMarkerComponent false)
    ∧ rand_calls w' = (rand_calls w + 3000)%nat
    ∧ (settled w = true → settled w' = true).
Proof.
  destruct (createExplosion_spawned color center w) as (e & d & p & Hf & Hrun).
  pose proof Hf as (He & Hn & _).
  exists (spawned (with_rand_calls (rand_calls w + 3 * pool_size) w) e "Explosion"
            [ (d, DeletionMarkerComponent false);
              (p, explosion_particles color center (rand_calls w)) ]), e,
         (new_Particles pool_size (rand_calls w)),
         (init_vertices color center (length (new_Particles pool_size (rand_calls w)))
            (replicate pool_size new_Vertex)).
  split; [done|]. split; [done|]. split; [done|].
  split; [by apply (spawned_kept (with_rand_calls (rand_calls w + 3 * pool_size) w))|].
  split; [unfold name_of; by rewrite spawned_entity|].
  split; [apply (spawned_component _ _ _ _ _ p); [done|done|rewrite !elem_of_cons; tauto]|].
  split; [apply length_new_Particles|].
  split; [unfold init_vertices; by rewrite length_imap, length_replicate|].
  split; [apply new_Particles_lifetime|].
  split; [apply init_vertices_all; by rewrite length_replicate, length_new_Particles|].
  split; [apply (spawned_component _ _ _ _ _ d); [done|done|rewrite !elem_of_cons; tauto]|].
  split; [done|]. intros Hs.
  destruct (createExplosion_settled color center w Hs) as (w' & Hrun' & Hs').
  rewrite Hrun in Hrun'. injection Hrun' as <-. exact Hs'.
Qed.

(** * The guards of the systems *)

(** ** C7 *)

(** C7, as stated, fails: the collision-effects system checks nothing
    before it dereferences. A projectile recorded against an entity named
    as a ball that has no life component dereferences a null pointer. The
    particle system checks for the emitter, not for the deletion marker it
    sets when the emitter expires. *)
Lemma collision_effects_unguarded :
  hasComponent ball_without_life ball "Life" = Ok false
  ∧ getComponent ball_without_life ball LifeCap "Life" = Ok None
  ∧ CollisionEffectsSystem_update [(sakura, ball)] ball_without_life []
    = Fault NullDereference
  ∧ hasComponent spark_without_marker 0%nat "DeletionMarker" = Ok false
  ∧ ParticleWatcherSystem_update (H0 := x86_64) frame [0%nat] spark_without_marker
    = Fault NullDereference.
Proof. repeat split; vm_compute; reflexivity. Qed.

(** C7, amended. The collision-effects system makes no existence check:
    it never dereferences a null lookup provided every entity of the
    collision record is as the factories build it, with a life and a
    sprite under their names when it is named as a projectile, a ball or
    the player. The seven other systems check for the components they
    select the entities by. On entities that each carry a deletion marker
    and hold every component under the name of its class, the life,
    position-sync, particle, physics and the two render systems run to
    their end (the physics system divides by the elapsed time, which must
    be a divisor), and the animation system never dereferences a null
    lookup: it runs to its end when every animation has frames and a
    speed, and stops on the missing frame or on the quotient by the null
    speed otherwise. *)
Theorem collision_effects_rely_on_tags `{Scalar T} `{Platform} (elapsed : sf.Time)
    (m_collisions : CollisionRecord) (entities : list EntityPtr) (σ : Store T)
    (q : list (Event T)) (drawn : list (Draw T)) :
  (Forall (λ collision, tagged_ok σ (collision.1) = true
                        ∧ tagged_ok σ (collision.2) = true) m_collisions →
   is_Ok (CollisionEffectsSystem_update m_collisions σ q))
  ∧ (Forall (λ e, entity_ok σ e = true) entities →
     is_Ok (LifeSystem_update entities σ q)
     ∧ is_Ok (SynchronizeSystem_update entities σ)
     ∧ is_Ok (ParticleWatcherSystem_update elapsed entities σ)
     ∧ (sdivisor (sf.asSeconds (T := T) elapsed) = true →
        is_Ok (PhysicSystem_update elapsed entities σ))
     ∧ is_Ok (ParticleRenderSystem_update entities σ drawn)
     ∧ is_Ok (SpriteRenderSystem_update entities σ drawn)
     ∧ null_safe (AnimationSystem_update elapsed entities σ)
     ∧ (Forall (λ e, film_ready σ e = true) entities →
        is_Ok (AnimationSystem_update elapsed entities σ))).
Proof.
  split.
  - intros Hall.
    destruct (CollisionEffectsSystem_update_safe m_collisions σ q Hall)
      as (σ' & added & Hrun & _).
    by exists (σ', q ++ added).
  - intros Hall. split; [|split; [|split; [|split]]].
    + destruct (LifeSystem_update_spec entities σ q Hall) as (σ' & Hrun & _).
      by eexists.
    + destruct (SynchronizeSystem_update_spec entities σ Hall) as (σ' & Hrun & _).
      by eexists.
    + destruct (ParticleWatcherSystem_update_spec elapsed entities σ Hall)
        as (σ' & Hrun & _).
      by eexists.
    + intros Hdt.
      destruct (PhysicSystem_update_spec elapsed entities σ Hdt Hall)
        as (σ' & added & Hrun & _).
      by eexists.
    + destruct (render_systems_run entities σ drawn Hall) as [Hparticles Hsprites].
      split; [done|]. split; [done|].
      split; [by apply AnimationSystem_update_guarded|].
      by apply AnimationSystem_update_runs.
Qed.

(** The projectile and the ball of [sakura_and_ball], recorded in both
    orders, and the physics, animation and render systems on the two of
    them. *)
Lemma collision_effects_rely_on_tags_witness :
  Forall (λ collision, tagged_ok sakura_and_ball (collision.1) = true
                       ∧ tagged_ok sakura_and_ball (collision.2) = true)
         [(sakura, ball); (ball, sakura)]
  ∧ Forall (λ e, entity_ok sakura_and_ball e = true) [sakura; ball]
  ∧ sdivisor (sf.asSeconds (T := binary32.t) frame) = true
  ∧ is_Ok (CollisionEffectsSystem_update [(sakura, ball); (ball, sakura)]
             sakura_and_ball [])
  ∧ is_Ok (PhysicSystem_update frame [sakura; ball] sakura_and_ball)
  ∧ is_Ok (SpriteRenderSystem_update [sakura; ball] sakura_and_ball [])
  ∧ null_safe (AnimationSystem_update frame [sakura; ball] sakura_and_ball).
Proof.
  assert (Forall (λ collision, tagged_ok sakura_and_ball (collision.1) = true
                               ∧ tagged_ok sakura_and_ball (collision.2) = true)
                 [(sakura, ball); (ball, sakura)]) as Hall
    by (repeat constructor).
  assert (Forall (λ e, entity_ok sakura_and_ball e = true) [sakura; ball]) as Hok
    by (repeat constructor).
  assert (sdivisor (sf.asSeconds (T := binary32.t) frame) = true) as Hdt by reflexivity.
  repeat (split; [assumption|]).
  destruct (collision_effects_rely_on_tags (H0 := x86_64) frame
              [(sakura, ball); (ball, sakura)] [sakura; ball] sakura_and_ball [] [])
    as [Heffects Hguarded].
  split; [exact (Heffects Hall)|].
  destruct (Hguarded Hok) as (_ & _ & _ & Hphysics & _ & Hsprites & Hanimation & _).
  split; [exact (Hphysics Hdt)|]. split; [exact Hsprites|exact Hanimation].
Defined.
